(* ===== verification/_CoqProject ===== *)
-Q . S2P
Prelude.v
Float.v
Web.v
Json.v
Text.v
External.v
Models.v
Sql.v
OrderBook.v
OrderBookFacts.v
Events.v
Matching.v
MatchingFacts.v
MatchingLoops.v
MatchingSpec.v
MatchingProps.v
MatchingTheorems.v
OrderBookTheorems.v
Snapshot.v
SnapshotTheorems.v
Recovery.v
RecoveryTheorems.v
Postgres.v
PostgresTheorems.v
Admin.v
AdminTheorems.v
Hub.v
HubTheorems.v
Engine.v
EngineFacts.v
EngineTheorems.v
Api.v
ApiTheorems.v
Validation.v
ValidationTheorems.v
RateLimiter.v
RateLimiterTheorems.v
Routes.v
EventSourcing.v
BatchProcessor.v
RetryQueue.v
EventStore.v
EventStoreTheorems.v
Redis.v
RedisFacts.v
Cache.v
CacheTheorems.v
PubSub.v
PubSubTheorems.v
CacheMetrics.v
Logging.v
Profiling.v
Prometheus.v
