(* ===== verification/Prelude.v ===== *)
(** * Verification of a trading engine

    The program is a Go service for limit and market orders on one instrument.
    Requests come in over HTTP (src/api), pass validation (src/validation) and a
    rate limiter (src/ratelimit) and reach the matching engine (src/engine), a
    single worker goroutine that takes commands from a buffered channel,
    matches them against an in-memory order book and answers each caller on a
    channel of its own.  Around it, an event bus and a batch processor
    distribute what happened, a WebSocket hub streams it to clients
    (src/websocket), a PostgreSQL store and an event store with a retry queue
    record it (src/persistence), a snapshot manager saves the book and a
    recovery manager rebuilds it from the stored orders (src/engine), and an
    event-sourcing package rebuilds orders from their events
    (src/eventsourcing).  Order books and trades are cached in Redis and
    invalidated by publish/subscribe (src/cache); logs, metrics and query
    statistics describe what the service does (src/logging, src/metrics,
    src/profiling).

    ** Files and the code they model

    - [Prelude]: tactics, 64-bit wrap-around, sums of rationals, generic lemmas
      on lists.
    - [External]: the third-party packages the core imports
      (shopspring/decimal, google/uuid, google/btree) as classes of operations
      with their documented laws, and concrete instances of them.
    - [Float]: float64 as rationals rounded to 53 bits, with the laws of
      rounding; [Web]: what the handlers use of strconv, hex, net/http, and a
      Redis client as a class with laws; [Json]: encoding/json, with the round
      trip of a document; [Text]: UTF-8, strings, fmt, and the tables of package
      unicode as a class; [Sql]: Go errors, column types of PostgreSQL and gzip
      as classes with laws.
    - [Models]: src/models/order.go.
    - [OrderBook], [OrderBookFacts], [OrderBookTheorems]: src/engine/orderbook.go.
      Orders and levels live in a shared [Store] and are named by references,
      as the code's pointers; each method is a function of store and book.
    - [Events]: src/engine/events.go.
    - [Matching], [MatchingFacts], [MatchingLoops], [MatchingSpec],
      [MatchingProps], [MatchingTheorems]: the matching half of
      src/engine/matching_engine.go ([matchOrder] and what it calls).
    - [Snapshot], [SnapshotTheorems]: src/engine/snapshot_manager.go: capture,
      the stored document and row, reading back, comparison with the live book,
      the life of the periodic loop.
    - [Recovery], [RecoveryTheorems]: src/engine/recovery_manager.go; the rows
      the queries answer are arguments.
    - [Postgres], [PostgresTheorems]: src/persistence/postgres.go: two tables, a
      counter of driver calls and the waits; each call may fail, a commit may
      fail before or after the server executed it.
    - [Admin], [AdminTheorems]: src/api/snapshot_handler.go and
      src/api/recovery_handler.go over the two managers.
    - [Hub], [HubTheorems]: src/websocket: the hub, its timer, the pumps of every
      client and the producers; [hub_step] is one atomic action of any of them,
      labelled with what it sends.
    - [Engine], [EngineFacts], [EngineTheorems]: the other half of the engine:
      commands, [SubmitOrder] and [CancelOrder], the worker, [Start] and [Stop].
      [world] is the engine with the worker, the context and the callers; [step]
      is one atomic action of any goroutine.
    - [Api], [ApiTheorems]: src/api/handlers.go and src/api/router.go.
    - [Validation], [ValidationTheorems]: src/validation.
    - [RateLimiter], [RateLimiterTheorems]: src/ratelimit; [Routes]: the routes
      of src/api/router.go and the way of a request through the middlewares.
    - [EventSourcing]: src/eventsourcing; the [Store] interface is a class, the
      PostgreSQL store an instance whose laws are proved from the database's.
    - [BatchProcessor]: src/engine/batch_processor.go.
    - [RetryQueue]: the recording calls of
      src/persistence/order_event_store.go and src/persistence/retry_queue.go;
      the database they talk to is a parameter.
    - [EventStore], [EventStoreTheorems]: the tables and stored functions of
      src/db/order_events_schema.sql and the queries of
      src/persistence/order_event_store.go; [db_of] is this database, behind a
      connection that may lose a call or its answer, as the parameter of
      [RetryQueue].
    - [Redis], [RedisFacts]: src/cache/redis.go over a server given by a class:
      [redis_run] is the documented effect of a command, which the server has or
      reports an error.
    - [Cache], [CacheTheorems]: src/cache/orderbook_cache.go and
      src/cache/trades_cache.go; [PubSub], [PubSubTheorems]: src/cache/pubsub.go,
      with [ps_step] one atomic action of the manager or a listener;
      [CacheMetrics]: src/cache/metrics.go, a call as a sequence of atomic
      [tick]s.
    - [Logging]: src/logging/logger.go; [Profiling]:
      src/profiling/db_profiler.go; [Prometheus]: src/metrics/prometheus.go and
      the gauges of the engine.

    ** What the theorems show

    - Matching (C1 to C6).  [matchOrder] refines [sweep], the specification that
      walks the price-time queue of the other side and trades at the resting
      prices; it keeps the book well-formed and uncrossed, conserves quantity,
      leaves no acceptable order untouched, respects price and time and gives
      the right final status.  Every loop ends within [enough_fuel], one more
      than the number of resting orders; [ghost_order_hangs_market_loop] is the
      state in which the code's loop would not end, which the invariant excludes.
    - The book (C7, C8).  Insertion, cancellation and removal act on the
      flattened queue [prio] as list operations.  Further theorems: adding and
      cancelling is a round trip, and the aggregate views are sums, counts,
      prefixes and extremes of that queue.
    - The engine (C9 to C11).  In every reachable interleaving the book is
      sound and the responses are sent in the order of acceptance, one each; a
      drain answers everything.
    - The store and recovery (C12 to C14).  A trade and its orders are persisted
      together or not at all under any failure of a call; recovery rebuilds
      exactly the stored open orders in price-time order, and its validation
      decides what it should up to the hundredth level.  Further theorems:
      persisting again changes nothing, the last update of an order in a batch
      is stored, the attempts and waits of the retry loop, a dry run leaves the
      live book alone.
    - The hub (C15 to C17).  No interleaving panics, and the invariant that shows
      it; a broadcast reaches every subscriber once; deltas are batched exactly
      once.  Each client receives what its buffer took, in order.
    - Snapshots (C18, C19).  Validation against the live book is exact, and an
      uncompressed snapshot makes the round trip through the database.
    - The API (C20 to C23).  The submission handler as a refinement to the
      engine's steps, what validation accepts, idempotent replay and the
      pagination of trades; what the administration handlers answer.
    - The rate limiter and the router (C24 to C26).  The bucket invariant, a bound
      on what a client gets through that accounts for float64 rounding, and what
      happens to every request.
    - The event store (C27 to C31).  The types of its tables under any failures,
      the snapshot table as the fold of the log, the composition with the retry queue, the history, and that the
      replay functions always fail ([replay_agrees_with_snapshot] is what their
      loop would compute).  [late_creation_forgets] is what a retried
      creation does to a snapshot.
    - The caches (C32 to C35).  Appended trades are the newest ones without a
      gap, a cached book is read back until it expires, an invalidation reaches
      every subscriber and deletes the keys, the metrics count every call in any
      interleaving.  Further theorems: the compact form, averages, invalidation
      of the trades of one symbol, the end of a stopped manager, the health check.
    - Logging, metrics, statistics (C36).  At most nine errors of a key in any
      minute; the suppressed counts, the gauges against the book, the statistics
      of queries and their order.
    - Queues, batches, events (C37 to C39).  Conservation and draining of the
      retry queue in every interleaving, resuming a replay from a past version;
      exactly-once delivery of batches, snapshots of aggregates.
    - Validation (C40).  A source gets a bounded number of suspicious inputs
      through; the validators accept exactly what they describe.

    Each theorem with hypotheses is applied to a concrete input by a lemma
    named after it with the suffix [_witness].

    ** Modelling decisions

    - Decimals are compared by value: [dval] is the number a decimal stands for.
    - uint64 counters wrap around; Go's [int] values that cannot overflow in the
      program's runs are unbounded integers; lengths are natural numbers.
    - Loops that are not structurally recursive take fuel; [None] is the
      exhausted fuel, and for handlers a panic.  Totality is proved.  The parsers
      of [Json] and [Text] take the length of their input, of which every call
      consumes a byte.
    - A method that holds a mutex for its whole body is one atomic step; where
      the code releases it, the steps are split.
    - The readings of the clock and the drawn identifiers are streams of the
      environment; the answers of databases, Redis and JSON are parameters.
    - Effects on the outside (handler calls, listener goroutines, gauges,
      responses, frames, log lines of the guards) are recorded in the state.

    ** Not modelled

    The log lines of the components, which have no effect on their state; the
    output formats of logrus and the exposition of Prometheus; the files
    src/profiling/profiler.go writes with runtime/pprof and the statistics views
    of PostgreSQL that two functions of the query profiler print; the
    redirects of gorilla/mux and the start of the process.  The projections of
    src/eventsourcing/schema.sql are not used by the program.  Docker files,
    scripts and load tests are not code of this language. *)

From stdpp Require Export base gmap strings list list_numbers fin_maps sorting pretty.
From Stdlib Require Export QArith Qabs Qminmax Lqa.
From Stdlib Require Import Lia.

#[global] Set Default Goal Selector "!".
#[global] Open Scope nat_scope.

(** ** Tactics of the development *)

(** Split every [let '(x, y) := e in ...] and [match e with ... end] of the
    goal on its scrutinee, keeping the equation. *)
Ltac split_match :=
  match goal with
  | |- context [ match ?x with _ => _ end ] =>
      lazymatch x with
      | context [ match _ with _ => _ end ] => fail
      | _ => destruct x eqn:?
      end
  end.

(** The same on a hypothesis. *)
Ltac split_match_in H :=
  match type of H with
  | context [ match ?x with _ => _ end ] =>
      lazymatch x with
      | context [ match _ with _ => _ end ] => fail
      | _ => destruct x eqn:?
      end
  end.

(** Reflected boolean tests: case analysis on the decision the code makes. *)
Ltac case_reflect H :=
  let E := fresh "E" in
  destruct H as [E|E].

Create HintDb book.

(** ** Machine integers *)

(** [int64] wraps around. *)
Definition wrap64 (z : Z) : Z := ((z + 2 ^ 63) mod 2 ^ 64 - 2 ^ 63)%Z.

Lemma wrap64_id z : (- 2 ^ 63 <= z < 2 ^ 63)%Z -> wrap64 z = z.
Proof. intros Hz. unfold wrap64. rewrite Z.mod_small by lia. lia. Qed.

(** Adding step by step or at once. *)
Lemma wrap64_add a b : wrap64 (wrap64 a + b) = wrap64 (a + b).
Proof.
  unfold wrap64. replace ((a + 2 ^ 63) mod 2 ^ 64 - 2 ^ 63 + b + 2 ^ 63)%Z with ((a + 2 ^ 63) mod 2 ^ 64 + b)%Z by lia.
  rewrite Z.add_mod_idemp_l by lia. do 2 f_equal. lia.
Qed.

(** ** Sums of rationals *)

Definition Qsum (l : list Q) : Q := foldr Qplus 0%Q l.

Section qsum.
Local Open Scope Q_scope.

Lemma Qsum_app (l k : list Q) : Qsum (l ++ k) == Qsum l + Qsum k.
Proof.
  induction l as [|x l IH]; cbn [app Qsum foldr]; [unfold Qsum; cbn; lra|].
  fold (Qsum (l ++ k)) (Qsum l). lra.
Qed.

Lemma Qsum_snoc (l : list Q) (x : Q) : Qsum (l ++ [x]) == Qsum l + x.
Proof. rewrite Qsum_app. unfold Qsum at 2. cbn. lra. Qed.

Lemma Qsum_nonneg (l : list Q) : Forall (fun x => 0 <= x) l -> 0 <= Qsum l.
Proof.
  induction 1 as [|x l Hx _ IH]; [unfold Qsum; cbn; lra|].
  change (0 <= x + Qsum l). lra.
Qed.

#[global] Instance Qsum_Permutation : Proper ((≡ₚ) ==> Qeq) Qsum.
Proof.
  induction 1 as [|x l k _ IH|x y l|l k m _ IH1 _ IH2]; cbn.
  - reflexivity.
  - fold (Qsum l) (Qsum k). rewrite IH. reflexivity.
  - fold (Qsum l). lra.
  - etransitivity; eassumption.
Qed.

Lemma Qsum_ext {A} (f g : A -> Q) (l : list A) :
  (forall x, x ∈ l -> f x == g x) -> Qsum (f <$> l) == Qsum (g <$> l).
Proof.
  induction l as [|x l IH]; intros Hfg; [reflexivity|].
  change (f x + Qsum (f <$> l) == g x + Qsum (g <$> l)).
  rewrite (Hfg x) by set_solver. rewrite IH; [reflexivity|set_solver].
Qed.
End qsum.

(** ** Lists *)

Section lists.
Context {A B : Type}.
Implicit Types (l k : list A).

(** [filter] commutes with concatenating the images of a list. *)
Lemma filter_bind (P : B -> Prop) `{!forall x, Decision (P x)} (f : A -> list B) l :
  filter P (l ≫= f) = l ≫= (fun x => filter P (f x)).
Proof.
  induction l as [|x l IH]; [done|]. cbn. rewrite filter_app. by rewrite IH.
Qed.

Lemma bind_ext_in (f g : A -> list B) l :
  (forall x, x ∈ l -> f x = g x) -> l ≫= f = l ≫= g.
Proof.
  induction l as [|x l IH]; intros Hfg; [done|]. cbn.
  rewrite (Hfg x) by set_solver. rewrite IH; [done|set_solver].
Qed.

(** Dropping the members with an empty image changes nothing. *)
Lemma bind_filter_nonempty (f : A -> list B) (P : A -> Prop) `{!forall x, Decision (P x)} l :
  (forall x, x ∈ l -> ~ P x -> f x = []) -> filter P l ≫= f = l ≫= f.
Proof.
  induction l as [|x l IH]; intros Hf; [done|].
  rewrite filter_cons. case_decide as HP; cbn.
  - rewrite IH; [done|set_solver].
  - rewrite (Hf x) by set_solver. rewrite IH; [done|set_solver].
Qed.

Lemma filter_all (P : A -> Prop) `{!forall x, Decision (P x)} l :
  (forall x, x ∈ l -> P x) -> filter P l = l.
Proof.
  induction l as [|x l IH]; intros HP; [done|].
  rewrite filter_cons_True by set_solver. rewrite IH; [done|set_solver].
Qed.

Lemma filter_ext_in (P R : A -> Prop) `{!forall x, Decision (P x), !forall x, Decision (R x)} l :
  (forall x, x ∈ l -> (P x <-> R x)) -> filter P l = filter R l.
Proof.
  induction l as [|x l IH]; intros HPR; [done|].
  rewrite !filter_cons. specialize (IH ltac:(set_solver)).
  pose proof (HPR x ltac:(set_solver)). repeat case_decide; try tauto. by rewrite IH.
Qed.

(** Taking one member out of a sum. *)
Lemma Qsum_filter_ne `{!EqDecision A} (f : A -> Q) l x :
  NoDup l -> x ∈ l -> (Qsum (f <$> l) == f x + Qsum (f <$> filter (fun y => y <> x) l))%Q.
Proof.
  induction l as [|y l IH]; [set_solver|]. rewrite NoDup_cons. intros [Hy Hl] Hx.
  change (Qsum (f <$> y :: l)) with (f y + Qsum (f <$> l))%Q.
  destruct (decide (y = x)) as [->|Hne].
  - rewrite filter_cons_False by naive_solver. rewrite filter_all; [reflexivity|set_solver].
  - rewrite filter_cons_True by done.
    change (Qsum (f <$> y :: ?l')) with (f y + Qsum (f <$> l'))%Q.
    rewrite IH by set_solver. lra.
Qed.

Lemma StronglySorted_filter (R : relation A) (P : A -> Prop) `{!forall x, Decision (P x)} l :
  StronglySorted R l -> StronglySorted R (filter P l).
Proof.
  induction 1 as [|x l Hl IH Hx]; [constructor|].
  rewrite filter_cons. case_decide; [|done].
  constructor; [done|]. rewrite Forall_forall in Hx |- *.
  intros y [_ Hy]%list_elem_of_filter. by apply Hx.
Qed.

Lemma StronglySorted_mono (R R' : relation A) l :
  (forall x y, R x y -> R' x y) -> StronglySorted R l -> StronglySorted R' l.
Proof.
  intros HR. induction 1 as [|x l _ IH Hx]; constructor; [done|].
  eapply Forall_impl; [done|]. apply HR.
Qed.

Lemma StronglySorted_reverse (R : relation A) l :
  StronglySorted R l -> StronglySorted (flip R) (reverse l).
Proof.
  induction 1 as [|x l Hl IH Hx]; [constructor|].
  rewrite reverse_cons. apply StronglySorted_app_2; [|done|].
  - intros a b Ha Hb. apply list_elem_of_singleton in Hb as ->.
    rewrite elem_of_reverse in Ha. rewrite Forall_forall in Hx. by apply Hx.
  - repeat constructor.
Qed.

Lemma filter_reverse (P : A -> Prop) `{!forall x, Decision (P x)} l :
  filter P (reverse l) = reverse (filter P l).
Proof.
  induction l as [|x l IH]; [done|].
  rewrite reverse_cons, filter_app, IH, filter_cons.
  destruct (decide (P x)); rewrite filter_cons; case_decide; try done.
  - by rewrite reverse_cons.
  - by rewrite app_nil_r.
Qed.

(** A projection without repetitions tells the members of a list apart. *)
Lemma NoDup_fmap_inj_in (f : A -> B) l x y :
  NoDup (f <$> l) -> x ∈ l -> y ∈ l -> f x = f y -> x = y.
Proof.
  induction l as [|z l IH]; [set_solver|]. rewrite fmap_cons, NoDup_cons.
  intros [Hz Hl] [->|Hx]%elem_of_cons [->|Hy]%elem_of_cons Hf; try done.
  - destruct Hz. rewrite Hf. by apply list_elem_of_fmap_2.
  - destruct Hz. rewrite <- Hf. by apply list_elem_of_fmap_2.
  - by apply IH.
Qed.
End lists.

(** When the concatenation of the images has no repetitions, each member of
    the concatenation comes from one place. *)
Lemma NoDup_bind_owner {A B C} (g : A -> list B) (f : B -> C) (l : list A) x y a b :
  NoDup (f <$> (l ≫= g)) -> x ∈ l -> y ∈ l -> a ∈ g x -> b ∈ g y -> f a = f b -> x = y.
Proof.
  induction l as [|z l IH]; [set_solver|]. cbn. rewrite fmap_app, NoDup_app.
  intros (_ & Hdisj & Hl) [->|Hx]%elem_of_cons [->|Hy]%elem_of_cons Ha Hb Hf; try done.
  - destruct (Hdisj (f a)); [by apply list_elem_of_fmap_2|].
    rewrite Hf. apply list_elem_of_fmap_2. apply list_elem_of_bind. eauto.
  - destruct (Hdisj (f b)); [by apply list_elem_of_fmap_2|].
    rewrite <- Hf. apply list_elem_of_fmap_2. apply list_elem_of_bind. eauto.
  - by apply IH.
Qed.

Lemma NoDup_filter_fmap {A B} (f : A -> B) (P : A -> Prop) `{!forall x, Decision (P x)} (l : list A) :
  NoDup (f <$> l) -> NoDup (f <$> filter P l).
Proof.
  induction l as [|x l IH]; [done|]. rewrite fmap_cons, NoDup_cons. intros [Hx Hl].
  rewrite filter_cons. case_decide; [|by apply IH].
  rewrite fmap_cons. apply NoDup_cons. split; [|by apply IH].
  rewrite list_elem_of_fmap in *. intros (y & Hxy & [_ Hy]%list_elem_of_filter). eauto.
Qed.
