(* ===== verification/Float.v ===== *)
(** * float64 arithmetic

    A finite float64 is modelled by its value, a rational; an operation is the
    exact operation followed by [fround], rounding to 53 significant bits,
    ties to even.  The exponent is not bounded: overflow, gradual underflow,
    infinities and NaN are left out, so a result about this model holds as
    long as the values of a computation stay between 2^-1022 and 2^1023 in
    size or are zero.  Rounding is monotone, exact on the integers up to 2^53
    and has relative error at most 2^-53. *)

From Stdlib Require Import Qpower Qround.
From S2P Require Import Prelude.

Local Open Scope Q_scope.

(** ** Powers of two *)

Definition pow2 (k : Z) : Q := (2 # 1) ^ k.

Lemma pow2_pos k : 0 < pow2 k.
Proof. apply Qpower_0_lt. reflexivity. Qed.

Lemma pow2_add j k : pow2 (j + k) == pow2 j * pow2 k.
Proof. apply Qpower_plus. discriminate. Qed.

Lemma pow2_le j k : (j <= k)%Z -> pow2 j <= pow2 k.
Proof. intros. apply Qpower_le_compat_l; [done|discriminate]. Qed.

Lemma pow2_Z k : (0 <= k)%Z -> pow2 k == inject_Z (2 ^ k).
Proof. intros. symmetry. by apply Zpower_Qpower. Qed.

Lemma pow2_inv k : pow2 k * pow2 (- k) == 1.
Proof. rewrite <- pow2_add, Z.add_opp_diag_r. reflexivity. Qed.

(** ** Rounding to an integer, ties to even *)

Definition rne (y : Q) : Z :=
  let f := Qfloor y in
  match Qcompare (y - inject_Z f) (1 # 2) with
  | Lt => f
  | Gt => (f + 1)%Z
  | Eq => if Z.even f then f else (f + 1)%Z
  end.

Lemma rne_floor y : (Qfloor y <= rne y <= Qfloor y + 1)%Z.
Proof. unfold rne. destruct (Qcompare _ _); [destruct (Z.even _)|..]; lia. Qed.

Lemma rne_mono x y : x <= y -> (rne x <= rne y)%Z.
Proof.
  intros Hxy. pose proof (Qfloor_resp_le _ _ Hxy) as Hf.
  pose proof (rne_floor x). pose proof (rne_floor y).
  destruct (decide (Qfloor x = Qfloor y)) as [He|Hne]; [|lia].
  unfold rne. rewrite He.
  destruct (Qcompare (x - _) _) eqn:Hx, (Qcompare (y - _) _) eqn:Hy; try (destruct (Z.even _)); try lia; exfalso;
    rewrite <- ?Qeq_alt, <- ?Qlt_alt, <- ?Qgt_alt in *; lra.
Qed.

Lemma rne_error y : Qabs.Qabs (inject_Z (rne y) - y) <= 1 # 2.
Proof.
  pose proof (Qfloor_le y) as Hl. pose proof (Qlt_floor y) as Hu. rewrite inject_Z_plus in Hu.
  apply Qabs_Qle_condition. unfold rne.
  destruct (Qcompare (y - _) _) eqn:Hy; [destruct (Z.even _)|..]; rewrite ?inject_Z_plus;
    rewrite <- ?Qeq_alt, <- ?Qlt_alt, <- ?Qgt_alt in Hy; change (inject_Z 1) with 1 in *; lra.
Qed.

Lemma rne_Z z : rne (inject_Z z) = z.
Proof.
  unfold rne. rewrite Qfloor_Z. assert (Qcompare (inject_Z z - inject_Z z) (1 # 2) = Lt) as ->; [|done].
  rewrite <- Qlt_alt. lra.
Qed.

Lemma rne_eq_Z y z : y == inject_Z z -> rne y = z.
Proof.
  intros Hy. pose proof (rne_mono y (inject_Z z)) as H1. pose proof (rne_mono (inject_Z z) y) as H2.
  rewrite !rne_Z in *. apply Z.le_antisymm; [apply H1|apply H2]; lra.
Qed.

(** ** The exponent *)

Definition ilog2 (x : Q) : Z :=
  let l := (Z.log2 (Qnum x) - Z.log2 (Zpos (Qden x)))%Z in
  if Qle_bool (pow2 l) x then l else (l - 1)%Z.

Lemma Qmake_mult x : x * inject_Z (Zpos (Qden x)) == inject_Z (Qnum x).
Proof. destruct x as [n d]. unfold Qeq. cbn. lia. Qed.

Lemma ilog2_spec x : 0 < x -> pow2 (ilog2 x) <= x /\ x < pow2 (ilog2 x + 1).
Proof.
  intros Hx. assert (0 < Qnum x)%Z as Hn by (destruct x; unfold Qlt in Hx; cbn in *; lia).
  set (a := Z.log2 (Qnum x)). set (b := Z.log2 (Zpos (Qden x))).
  destruct (Z.log2_spec _ Hn) as [Ha1 Ha2]. destruct (Z.log2_spec (Zpos (Qden x)) ltac:(lia)) as [Hb1 Hb2].
  pose proof (Z.log2_nonneg (Qnum x)) as Ha. pose proof (Z.log2_nonneg (Zpos (Qden x))) as Hb.
  fold a in Ha1, Ha2, Ha. fold b in Hb1, Hb2, Hb.
  rewrite Zle_Qle, <- pow2_Z in Ha1 by lia. rewrite Zle_Qle, <- pow2_Z in Hb1 by lia.
  rewrite Zlt_Qlt, <- pow2_Z in Ha2 by lia. rewrite Zlt_Qlt, <- pow2_Z in Hb2 by lia.
  pose proof (Qmake_mult x) as Hm. set (d := inject_Z (Zpos (Qden x))) in *. set (n := inject_Z (Qnum x)) in *.
  assert (x < pow2 (a - b + 1)) as Hup.
  { assert (pow2 (Z.succ a) == pow2 (a - b + 1) * pow2 b) as He by (rewrite <- pow2_add; f_equiv; lia).
    pose proof (pow2_pos b). pose proof (pow2_pos (a - b + 1)). nra. }
  assert (pow2 (a - b - 1) < x) as Hlo.
  { assert (pow2 a == pow2 (a - b - 1) * pow2 (Z.succ b)) as He by (rewrite <- pow2_add; f_equiv; lia).
    pose proof (pow2_pos (Z.succ b)). pose proof (pow2_pos (a - b - 1)). nra. }
  unfold ilog2. fold a b. destruct (Qle_bool (pow2 (a - b)) x) eqn:Hle.
  - apply Qle_bool_iff in Hle. done.
  - assert (x < pow2 (a - b)) as Hlt.
    { apply Qnot_le_lt. intros Hc%Qle_bool_iff. congruence. }
    replace (a - b - 1 + 1)%Z with (a - b)%Z by lia. split; [lra|done].
Qed.

Lemma ilog2_mono x y : 0 < x -> x <= y -> (ilog2 x <= ilog2 y)%Z.
Proof.
  intros Hx Hxy. destruct (ilog2_spec x Hx) as [Hx1 _]. destruct (ilog2_spec y) as [_ Hy2]; [lra|].
  apply Z.lt_succ_r, Z.nle_gt. intros Hle.
  assert (pow2 (ilog2 y + 1) <= pow2 (ilog2 x)) by (apply pow2_le; lia). lra.
Qed.

(** ** Rounding to 53 bits *)

Definition fround_pos (x : Q) : Q :=
  let k := (52 - ilog2 x)%Z in inject_Z (rne (x * pow2 k)) * pow2 (- k).

Definition fround (x : Q) : Q :=
  match Qcompare x 0 with
  | Eq => 0
  | Gt => Qred (fround_pos x)
  | Lt => Qred (- fround_pos (- x))
  end.

(** What the scaled value satisfies. *)
Lemma scaled_bounds x : 0 < x ->
  pow2 52 <= x * pow2 (52 - ilog2 x) /\ x * pow2 (52 - ilog2 x) <= pow2 53.
Proof.
  intros Hx. destruct (ilog2_spec x Hx) as [Hlo Hup]. pose proof (pow2_pos (52 - ilog2 x)).
  assert (pow2 52 == pow2 (ilog2 x) * pow2 (52 - ilog2 x)) as H52 by (rewrite <- pow2_add; f_equiv; lia).
  assert (pow2 53 == pow2 (ilog2 x + 1) * pow2 (52 - ilog2 x)) as H53 by (rewrite <- pow2_add; f_equiv; lia).
  rewrite H52, H53. split; apply Qmult_le_compat_r; lra.
Qed.

Lemma rne_bounds x : 0 < x -> (2 ^ 52 <= rne (x * pow2 (52 - ilog2 x)) <= 2 ^ 53)%Z.
Proof.
  intros Hx. destruct (scaled_bounds x Hx) as [Hlo Hup]. rewrite (pow2_Z 52) in Hlo by lia. rewrite (pow2_Z 53) in Hup by lia.
  apply rne_mono in Hlo, Hup. rewrite rne_Z in Hlo, Hup. done.
Qed.

Lemma fround_pos_binade x : 0 < x -> pow2 (ilog2 x) <= fround_pos x /\ fround_pos x <= pow2 (ilog2 x + 1).
Proof.
  intros Hx. destruct (rne_bounds x Hx) as [Hlo Hup]. unfold fround_pos. cbn zeta.
  set (k := (52 - ilog2 x)%Z) in *. pose proof (pow2_pos (- k)).
  rewrite Zle_Qle, <- pow2_Z in Hlo by lia. rewrite Zle_Qle, <- pow2_Z in Hup by lia.
  assert (pow2 (ilog2 x) == pow2 52 * pow2 (- k)) as -> by (rewrite <- pow2_add; f_equiv; lia).
  assert (pow2 (ilog2 x + 1) == pow2 53 * pow2 (- k)) as -> by (rewrite <- pow2_add; f_equiv; lia).
  split; apply Qmult_le_compat_r; lra.
Qed.

Lemma fround_pos_pos x : 0 < x -> 0 < fround_pos x.
Proof. intros Hx. pose proof (fround_pos_binade x Hx). pose proof (pow2_pos (ilog2 x)). lra. Qed.

Lemma fround_pos_mono x y : 0 < x -> x <= y -> fround_pos x <= fround_pos y.
Proof.
  intros Hx Hxy. pose proof (ilog2_mono x y Hx Hxy) as Hl.
  destruct (decide (ilog2 x = ilog2 y)) as [He|Hne].
  - unfold fround_pos. rewrite <- He. cbn zeta. pose proof (pow2_pos (52 - ilog2 x)).
    apply Qmult_le_compat_r; [|apply Qlt_le_weak, pow2_pos]. rewrite <- Zle_Qle. apply rne_mono.
    apply Qmult_le_compat_r; lra.
  - destruct (fround_pos_binade x Hx) as [_ H1]. destruct (fround_pos_binade y) as [H2 _]; [lra|].
    assert (pow2 (ilog2 x + 1) <= pow2 (ilog2 y)) by (apply pow2_le; lia). lra.
Qed.

(** [2^-53]. *)
Definition ulp : Q := pow2 (- 53).

Lemma fround_pos_error x : 0 < x -> Qabs.Qabs (fround_pos x - x) <= x * ulp.
Proof.
  intros Hx. destruct (ilog2_spec x Hx) as [Hlo _]. unfold fround_pos. cbn zeta.
  set (k := (52 - ilog2 x)%Z). pose proof (rne_error (x * pow2 k)) as He.
  pose proof (pow2_pos (- k)) as Hk. pose proof (pow2_inv k) as Hinv.
  assert (inject_Z (rne (x * pow2 k)) * pow2 (- k) - x ==
    (inject_Z (rne (x * pow2 k)) - x * pow2 k) * pow2 (- k)) as ->.
  { transitivity (inject_Z (rne (x * pow2 k)) * pow2 (- k) - x * (pow2 k * pow2 (- k))); [rewrite Hinv|]; ring. }
  rewrite Qabs_Qmult, (Qabs_pos (pow2 (- k))) by lra.
  assert ((1 # 2) * pow2 (- k) == pow2 (ilog2 x) * ulp) as Hh.
  { change (1 # 2) with (pow2 (-1)). unfold ulp. rewrite <- !pow2_add. f_equiv. lia. }
  eapply Qle_trans; [apply Qmult_le_compat_r; [exact He|lra]|]. rewrite Hh.
  apply Qmult_le_compat_r; [done|]. apply Qlt_le_weak, pow2_pos.
Qed.

(** ** The laws of rounding *)

Lemma fround_cases x :
  (0 < x /\ fround x == fround_pos x) \/ (x == 0 /\ fround x == 0) \/ (x < 0 /\ fround x == - fround_pos (- x)).
Proof.
  unfold fround. destruct (Qcompare x 0) eqn:Hc.
  - apply Qeq_alt in Hc. right; left. split; [done|reflexivity].
  - apply Qlt_alt in Hc. right; right. split; [done|]. apply Qred_correct.
  - apply Qgt_alt in Hc. left. split; [done|]. apply Qred_correct.
Qed.

Lemma fround_mono x y : x <= y -> fround x <= fround y.
Proof.
  intros Hxy. destruct (fround_cases x) as [[Hx ->]|[[Hx ->]|[Hx ->]]], (fround_cases y) as [[Hy ->]|[[Hy ->]|[Hy ->]]];
    try (exfalso; lra); try lra.
  - by apply fround_pos_mono.
  - pose proof (fround_pos_pos y Hy). lra.
  - pose proof (fround_pos_pos (- x)). pose proof (fround_pos_pos y Hy). lra.
  - pose proof (fround_pos_pos (- x)). lra.
  - pose proof (fround_pos_mono (- y) (- x)). lra.
Qed.

#[global] Instance fround_proper : Proper (Qeq ==> Qeq) fround.
Proof. intros x y Hxy. apply Qle_antisym; apply fround_mono; lra. Qed.

Lemma fround_0 : fround 0 == 0.
Proof. reflexivity. Qed.

Lemma fround_nonneg x : 0 <= x -> 0 <= fround x.
Proof. intros Hx. rewrite <- fround_0. by apply fround_mono. Qed.

Lemma fround_error x : Qabs.Qabs (fround x - x) <= Qabs.Qabs x * ulp.
Proof.
  destruct (fround_cases x) as [[Hx ->]|[[Hx ->]|[Hx ->]]].
  - rewrite (Qabs_pos x) by lra. by apply fround_pos_error.
  - rewrite Hx. discriminate.
  - assert (- fround_pos (- x) - x == - (fround_pos (- x) - - x)) as -> by ring.
    rewrite Qabs_opp, (Qabs_neg x) by lra. apply fround_pos_error. lra.
Qed.

Lemma fround_upper x : 0 <= x -> fround x <= x * (1 + ulp).
Proof.
  intros Hx. pose proof (fround_error x) as He. rewrite (Qabs_pos x) in He by done.
  apply Qabs_Qle_condition in He as [_ He]. lra.
Qed.

Lemma fround_pos_int n : (0 < n <= 2 ^ 53)%Z -> fround_pos (inject_Z n) == inject_Z n.
Proof.
  intros Hn. assert (0 < inject_Z n) as Hx by (change 0 with (inject_Z 0); rewrite <- Zlt_Qlt; lia).
  destruct (ilog2_spec _ Hx) as [Hlo Hup]. set (l := ilog2 (inject_Z n)) in *.
  assert (0 <= l <= 53)%Z as Hl.
  { split.
    - apply Z.lt_succ_r. apply Z.nle_gt. intros Hle. assert (pow2 (l + 1) <= pow2 0) by (apply pow2_le; lia).
      change (pow2 0) with 1 in *. assert (1 <= inject_Z n) by (change 1 with (inject_Z 1); rewrite <- Zle_Qle; lia). lra.
    - apply Qpower_le_compat_l_inv with (q := 2 # 1); [|reflexivity]. change (pow2 l <= pow2 53).
      rewrite (pow2_Z 53) by lia. assert (inject_Z n <= inject_Z (2 ^ 53)) by (rewrite <- Zle_Qle; lia). lra. }
  unfold fround_pos. fold l. cbn zeta. pose proof (pow2_inv (52 - l)) as Hinv.
  destruct (decide (l = 53%Z)) as [He|Hne].
  - assert (n = 2 ^ 53)%Z as ->.
    { rewrite He, pow2_Z, <- Zle_Qle in Hlo by lia. lia. }
    rewrite He. reflexivity.
  - rewrite (rne_eq_Z _ (n * 2 ^ (52 - l))).
    + rewrite inject_Z_mult, <- pow2_Z, <- Qmult_assoc, Hinv by lia. ring.
    + rewrite inject_Z_mult, <- pow2_Z by lia. reflexivity.
Qed.

Lemma fround_int n : (Z.abs n <= 2 ^ 53)%Z -> fround (inject_Z n) == inject_Z n.
Proof.
  intros Hn. destruct (fround_cases (inject_Z n)) as [[Hx ->]|[[Hx ->]|[Hx ->]]].
  - change 0 with (inject_Z 0) in Hx. rewrite <- Zlt_Qlt in Hx. apply fround_pos_int. lia.
  - by rewrite Hx.
  - change 0 with (inject_Z 0) in Hx. rewrite <- Zlt_Qlt in Hx.
    rewrite <- inject_Z_opp, fround_pos_int by lia. rewrite inject_Z_opp. ring.
Qed.

(** ** The operations *)

Definition float64 : Type := Q.
Definition f_of_int (n : Z) : float64 := fround (inject_Z n).
Definition f_add (a b : float64) : float64 := fround (a + b).
Definition f_sub (a b : float64) : float64 := fround (a - b).
Definition f_mul (a b : float64) : float64 := fround (a * b).
Definition f_div (a b : float64) : float64 := fround (a / b).
Definition f_lt (a b : float64) : bool := negb (Qle_bool b a).
Definition f_le (a b : float64) : bool := Qle_bool a b.

(** [int(x)] and [time.Duration(x)]: towards zero. *)
Definition f_trunc (a : float64) : Z := if Qle_bool 0 a then Qfloor a else (- Qfloor (- a))%Z.

Lemma f_le_spec a b : reflect (a <= b) (f_le a b).
Proof. apply iff_reflect. symmetry. apply Qle_bool_iff. Qed.
Lemma f_lt_spec a b : reflect (a < b) (f_lt a b).
Proof.
  unfold f_lt. change (Qle_bool b a) with (f_le b a). destruct (f_le_spec b a); constructor; lra.
Qed.

(** [time.Duration.Seconds()]: whole seconds plus the fraction. *)
Definition duration_Seconds (d : Z) : float64 :=
  f_add (f_of_int (Z.quot d (10 ^ 9))) (f_div (f_of_int (Z.rem d (10 ^ 9))) (f_of_int (10 ^ 9))).

(** An integer survives the conversions to float64 and back. *)
Lemma trunc_count q n : (Z.abs n <= 2 ^ 53)%Z -> q == inject_Z n -> f_trunc (fround q) = n.
Proof.
  intros Hn Hq. assert (fround q == inject_Z n) as Hf.
  { pose proof (fround_int n Hn). pose proof (fround_mono q (inject_Z n) ltac:(lra)).
    pose proof (fround_mono (inject_Z n) q ltac:(lra)). lra. }
  unfold f_trunc. destruct (Qle_bool 0 (fround q)).
  - rewrite Hf. apply Qround.Qfloor_Z.
  - rewrite Hf, <- inject_Z_opp, Qround.Qfloor_Z. lia.
Qed.
