(* ===== verification/Web.v ===== *)
(** * What the request handlers use of Go's standard library and of Redis

    [strconv.Atoi] and [strconv.ParseInt(s, 10, 64)], [hex.EncodeToString],
    [url.Values.Get] and [http.Header.Get], [http.Error], and a Redis client as
    a parameter with the documented behaviour of GET and SET as its laws. *)

From Stdlib Require Import Ascii.
From S2P Require Import Prelude.

(** ** strconv *)

Definition digit_value (c : Ascii.ascii) : option Z :=
  let n := Z.of_nat (Ascii.nat_of_ascii c) in
  if ((48 <=? n) && (n <=? 57))%Z then Some (n - 48)%Z else None.

Fixpoint digits_value (acc : Z) (s : string) : option Z :=
  match s with
  | EmptyString => Some acc
  | String c s' => v ← digit_value c; digits_value (10 * acc + v) s'
  end.

Definition unsigned_value (s : string) : option Z :=
  match s with EmptyString => None | _ => digits_value 0 s end.

(** An optional sign, then digits; an error when the value is not an [int64]. *)
Definition Atoi (s : string) : option Z :=
  v ← match s with
      | String "+"%char s' => unsigned_value s'
      | String "-"%char s' => Z.opp <$> unsigned_value s'
      | _ => unsigned_value s
      end;
  if ((- 2 ^ 63 <=? v) && (v <? 2 ^ 63))%Z then Some v else None.

Lemma Atoi_range s v : Atoi s = Some v -> (- 2 ^ 63 <= v < 2 ^ 63)%Z.
Proof.
  unfold Atoi. intros Hs. apply bind_Some in Hs as (v' & _ & Hv).
  destruct ((- 2 ^ 63 <=? v') && (v' <? 2 ^ 63))%Z eqn:Hr; simplify_eq. lia.
Qed.

(** ** encoding/hex *)

Definition hex_digit (n : nat) : Ascii.ascii :=
  Ascii.ascii_of_nat (if bool_decide (n < 10) then 48 + n else 87 + n).

Fixpoint hex_EncodeToString (s : string) : string :=
  match s with
  | EmptyString => EmptyString
  | String c s' =>
      let n := Ascii.nat_of_ascii c in
      String (hex_digit (n / 16)) (String (hex_digit (n mod 16)) (hex_EncodeToString s'))
  end.

Lemma hex_digit_inj m n : m < 16 -> n < 16 -> hex_digit m = hex_digit n -> m = n.
Proof.
  intros Hm Hn Heq. apply (f_equal Ascii.nat_of_ascii) in Heq. unfold hex_digit in Heq.
  repeat case_bool_decide; rewrite !Ascii.nat_ascii_embedding in Heq by lia; lia.
Qed.

#[global] Instance hex_inj : Inj (=) (=) hex_EncodeToString.
Proof.
  intros s. induction s as [|c s IH]; intros [|c' s']; cbn; intros Heq; simplify_eq; [done|].
  assert (Ascii.nat_of_ascii c < 256 /\ Ascii.nat_of_ascii c' < 256) as [Hc Hc']
    by (split; apply Ascii.nat_ascii_bounded).
  assert (Ascii.nat_of_ascii c / 16 = Ascii.nat_of_ascii c' / 16) as Hd
    by (apply hex_digit_inj; [apply Nat.Div0.div_lt_upper_bound; lia..|done]).
  assert (Ascii.nat_of_ascii c mod 16 = Ascii.nat_of_ascii c' mod 16) as Hr
    by (apply hex_digit_inj; [apply Nat.mod_upper_bound; lia..|done]).
  assert (Ascii.nat_of_ascii c = Ascii.nat_of_ascii c') as Hn.
  { rewrite (Nat.div_mod_eq (Ascii.nat_of_ascii c) 16), (Nat.div_mod_eq (Ascii.nat_of_ascii c') 16). lia. }
  f_equal; [|by apply IH].
  rewrite <- (Ascii.ascii_nat_embedding c), <- (Ascii.ascii_nat_embedding c'). by rewrite Hn.
Qed.

(** ** net/http

    The parts of a request the handlers read.  Header names stand for their
    canonical form; a missing header, query value or route variable reads as
    the empty string. *)

Record Request := mkRequest {
  reqMethod : string;
  reqHeader : gmap string string;
  reqQuery : gmap string string;
  reqVars : gmap string string;
  reqBody : string;
  reqCorrelation : option string;   (** the value under [contextKey("correlation_id")] *)
  reqPath : string;
  reqRemoteAddr : string;
}.

Definition header_Get (req : Request) (name : string) : string := default "" (reqHeader req !! name).
Definition query_Get (req : Request) (name : string) : string := default "" (reqQuery req !! name).
Definition mux_Var (req : Request) (name : string) : string := default "" (reqVars req !! name).

Definition with_correlation (req : Request) (id : string) : Request :=
  mkRequest (reqMethod req) (reqHeader req) (reqQuery req) (reqVars req) (reqBody req) (Some id)
    (reqPath req) (reqRemoteAddr req).

Record Response {B : Type} := mkResponse {
  respStatus : Z;
  respHeader : gmap string string;
  respBody : B;
}.
Arguments Response : clear implicits.
Arguments mkResponse {B}.

Definition StatusOK : Z := 200.
Definition StatusAccepted : Z := 202.
Definition StatusBadRequest : Z := 400.
Definition StatusNotFound : Z := 404.
Definition StatusMethodNotAllowed : Z := 405.
Definition StatusTooManyRequests : Z := 429.
Definition StatusInternalServerError : Z := 500.
Definition StatusServiceUnavailable : Z := 503.

Definition json_header : gmap string string := {[ "Content-Type" := "application/json" ]}.
Definition http_error_header : gmap string string :=
  {[ "Content-Type" := "text/plain; charset=utf-8"; "X-Content-Type-Options" := "nosniff" ]}.

(** ** github.com/redis/go-redis *)

Inductive RedisReply :=
  | RedisNil                  (** [redis.Nil]: no such key *)
  | RedisErr (err : string)
  | RedisValue (v : string).

Class RedisPkg := {
  redis : Type;
  redis_Get : redis -> string -> RedisReply;
  redis_Set : redis -> string -> string -> option string * redis;
}.

(** A SET that is acknowledged is what GET returns while the key lives, and
    leaves the other keys alone. *)
Class RedisSpec `{RedisPkg} : Prop := {
  redis_Get_Set r k v r' : redis_Set r k v = (None, r') -> redis_Get r' k = RedisValue v;
  redis_Get_Set_ne r k k' v r' : redis_Set r k v = (None, r') -> k' <> k -> redis_Get r' k' = redis_Get r k';
}.

Module ConcreteRedis.
#[export] Instance map_redis : RedisPkg := {|
  redis := gmap string string;
  redis_Get r k := match r !! k with Some v => RedisValue v | None => RedisNil end;
  redis_Set r k v := (None, <[k := v]> r);
|}.

#[export] Instance map_redis_spec : RedisSpec.
Proof.
  split; cbn; intros; simplify_eq.
  - by rewrite lookup_insert_eq.
  - by rewrite lookup_insert_ne.
Qed.
End ConcreteRedis.
