(* ===== verification/Json.v ===== *)
(** * encoding/json

    What the program uses of Go's [encoding/json]: the text of a document and
    the tree [json.Unmarshal] builds for an [interface{}] target.  A number
    keeps its literal, as the decoder reads it before converting it to a
    float64; an object is the sequence of its members, read through
    [json_get], which returns the last of the members with a key as filling a
    Go map does.

    [json_Marshal] writes the compact form, [json_Unmarshal] reads any valid
    text, and reading back a written document gives the document
    ([json_Unmarshal_Marshal]). *)

From Stdlib Require Import Ascii.
From S2P Require Import Prelude.
From S2P Require Import Web.

Local Open Scope string_scope.

Inductive json :=
  | JNull
  | JBool (b : bool)
  | JNum (literal : string)
  | JStr (s : string)
  | JArr (l : list json)
  | JObj (m : list (string * json)).

(** ** Characters *)

Definition chr (n : nat) : ascii := ascii_of_nat n.
Definition cquote : ascii := chr 34.
Definition cbackslash : ascii := chr 92.
Definition str1 (c : ascii) : string := String c "".

Definition is_digit (c : ascii) : bool := bool_decide (is_Some (digit_value c)).
Definition is_space (c : ascii) : bool :=
  let n := nat_of_ascii c in
  bool_decide (n = 32) || bool_decide (n = 9) || bool_decide (n = 10) || bool_decide (n = 13).

Fixpoint skip_space (s : string) : string :=
  match s with
  | String c s' => if is_space c then skip_space s' else s
  | "" => ""
  end.

(** ** Writing *)

Definition lower_hex (n : nat) : ascii := hex_digit n.

(** The characters the encoder does not write as themselves: the quote, the
    backslash, the control characters and, for HTML, [<], [>] and [&]. *)
Definition escape (c : ascii) : string :=
  let n := nat_of_ascii c in
  if bool_decide (n = 34) then String cbackslash (str1 cquote)
  else if bool_decide (n = 92) then String cbackslash (str1 cbackslash)
  else if bool_decide (n = 10) then String cbackslash "n"
  else if bool_decide (n = 13) then String cbackslash "r"
  else if bool_decide (n = 9) then String cbackslash "t"
  else if bool_decide (n < 32) || bool_decide (n = 60) || bool_decide (n = 62) || bool_decide (n = 38) then
    String cbackslash (String "u" (String "0" (String "0"
      (String (lower_hex (n / 16)) (str1 (lower_hex (n mod 16)))))))
  else str1 c.

Fixpoint escape_string (s : string) : string :=
  match s with
  | "" => ""
  | String c s' => escape c ++ escape_string s'
  end.

Definition quoted (s : string) : string := String cquote (escape_string s ++ str1 cquote).

Fixpoint json_Marshal (j : json) : string :=
  match j with
  | JNull => "null"
  | JBool b => if b then "true" else "false"
  | JNum lit => lit
  | JStr s => quoted s
  | JArr [] => "[]"
  | JArr (x :: l) =>
      "[" ++ json_Marshal x
          ++ (fix go l := match l with [] => "]" | y :: l' => "," ++ json_Marshal y ++ go l' end) l
  | JObj [] => "{}"
  | JObj ((k, x) :: m) =>
      "{" ++ quoted k ++ ":" ++ json_Marshal x
          ++ (fix go m := match m with
                          | [] => "}"
                          | (k', y) :: m' => "," ++ quoted k' ++ ":" ++ json_Marshal y ++ go m'
                          end) m
  end.

(** [strconv.Itoa]. *)
Fixpoint print_digits (fuel : nat) (n : nat) (acc : string) : string :=
  let acc' := String (chr (48 + n mod 10)) acc in
  match fuel with
  | 0 => acc'
  | S fuel' => if bool_decide (n / 10 = 0) then acc' else print_digits fuel' (n / 10) acc'
  end.
Definition Itoa_nat (n : nat) : string := print_digits n n "".
Definition Itoa (z : Z) : string :=
  if (z <? 0)%Z then String "-" (Itoa_nat (Z.to_nat (- z))) else Itoa_nat (Z.to_nat z).

(** ** Reading strings *)

Definition hex_value (c : ascii) : option nat :=
  let n := nat_of_ascii c in
  if bool_decide (48 <= n <= 57) then Some (n - 48)
  else if bool_decide (97 <= n <= 102) then Some (n - 87)
  else if bool_decide (65 <= n <= 70) then Some (n - 55)
  else None.

Definition hex4 (a b c d : ascii) : option nat :=
  a ← hex_value a; b ← hex_value b; c ← hex_value c; d ← hex_value d;
  Some (4096 * a + 256 * b + 16 * c + d).

(** The UTF-8 encoding of a code point. *)
Definition utf8 (n : nat) : string :=
  if bool_decide (n < 128) then str1 (chr n)
  else if bool_decide (n < 2048) then String (chr (192 + n / 64)) (str1 (chr (128 + n mod 64)))
  else if bool_decide (n < 65536) then
    String (chr (224 + n / 4096)) (String (chr (128 + n / 64 mod 64)) (str1 (chr (128 + n mod 64))))
  else
    String (chr (240 + n / 262144)) (String (chr (128 + n / 4096 mod 64))
      (String (chr (128 + n / 64 mod 64)) (str1 (chr (128 + n mod 64))))).

Definition is_high (n : nat) : bool := bool_decide (55296 <= n < 56320).
Definition is_low (n : nat) : bool := bool_decide (56320 <= n < 57344).

(** A one-character escape. *)
Definition unescape (c : ascii) : option ascii :=
  let n := nat_of_ascii c in
  if bool_decide (n = 34) || bool_decide (n = 92) || bool_decide (n = 47) then Some c
  else if bool_decide (n = 98) then Some (chr 8)
  else if bool_decide (n = 102) then Some (chr 12)
  else if bool_decide (n = 110) then Some (chr 10)
  else if bool_decide (n = 114) then Some (chr 13)
  else if bool_decide (n = 116) then Some (chr 9)
  else None.

(** The characters of a string literal after its opening quote, and what
    follows the closing one.  A surrogate that has no partner becomes U+FFFD. *)
Fixpoint parse_string (s : string) : option (string * string) :=
  match s with
  | "" => None
  | String c s1 =>
      let n := nat_of_ascii c in
      if bool_decide (n = 34) then Some ("", s1)
      else if bool_decide (n < 32) then None
      else if bool_decide (n = 92) then
        match s1 with
        | "" => None
        | String e s2 =>
            if bool_decide (nat_of_ascii e = 117) then
              match s2 with
              | String a (String b (String c' (String d s3))) =>
                  u ← hex4 a b c' d;
                  if is_high u then
                    match s3 with
                    | String bs (String u' (String a2 (String b2 (String c2 (String d2 s4))))) =>
                        match (if bool_decide (nat_of_ascii bs = 92) && bool_decide (nat_of_ascii u' = 117)
                               then hex4 a2 b2 c2 d2 else None) with
                        | Some v =>
                            if is_low v then
                              '(r, rest) ← parse_string s4;
                              Some (utf8 (65536 + (u - 55296) * 1024 + (v - 56320)) ++ r, rest)
                            else '(r, rest) ← parse_string s3; Some (utf8 65533 ++ r, rest)
                        | None => '(r, rest) ← parse_string s3; Some (utf8 65533 ++ r, rest)
                        end
                    | _ => '(r, rest) ← parse_string s3; Some (utf8 65533 ++ r, rest)
                    end
                  else
                    '(r, rest) ← parse_string s3;
                    Some (utf8 (if is_low u then 65533 else u) ++ r, rest)
              | _ => None
              end
            else
              x ← unescape e; '(r, rest) ← parse_string s2; Some (String x r, rest)
        end
      else '(r, rest) ← parse_string s1; Some (String c r, rest)
  end.

(** ** Reading numbers *)

Fixpoint take_digits (s : string) : string * string :=
  match s with
  | String c s' => if is_digit c then let '(d, r) := take_digits s' in (String c d, r) else ("", s)
  | "" => ("", "")
  end.

Definition scan_int (s : string) : option (string * string) :=
  match s with
  | String c s' =>
      if bool_decide (nat_of_ascii c = 48) then Some (str1 c, s')
      else if is_digit c then Some (take_digits s) else None
  | "" => None
  end.

Definition scan_frac (s : string) : option (string * string) :=
  match s with
  | String c s' =>
      if bool_decide (nat_of_ascii c = 46) then
        match take_digits s' with
        | ("", _) => None
        | (d, r) => Some (String c d, r)
        end
      else Some ("", s)
  | "" => Some ("", "")
  end.

Definition scan_exp (s : string) : option (string * string) :=
  match s with
  | String c s' =>
      if bool_decide (nat_of_ascii c = 101) || bool_decide (nat_of_ascii c = 69) then
        let '(sg, s2) :=
          match s' with
          | String g s2 =>
              if bool_decide (nat_of_ascii g = 43) || bool_decide (nat_of_ascii g = 45)
              then (str1 g, s2) else ("", s')
          | "" => ("", "")
          end in
        match take_digits s2 with
        | ("", _) => None
        | (d, r) => Some (String c (sg ++ d), r)
        end
      else Some ("", s)
  | "" => Some ("", "")
  end.

(** A number literal and what follows it. *)
Definition scan_number (s : string) : option (string * string) :=
  let '(sg, s1) := match s with
                   | String c s' => if bool_decide (nat_of_ascii c = 45) then (str1 c, s') else ("", s)
                   | "" => ("", "")
                   end in
  '(ip, s2) ← scan_int s1; '(fp, s3) ← scan_frac s2; '(ep, s4) ← scan_exp s3;
  Some (sg ++ ip ++ fp ++ ep, s4).

(** The number a literal stands for. *)
Definition number_value (lit : string) : option Q :=
  let '(neg, s1) := match lit with
                    | String c s' => if bool_decide (nat_of_ascii c = 45) then (true, s') else (false, lit)
                    | "" => (false, "")
                    end in
  let '(ip, s2) := take_digits s1 in
  let '(fp, s3) := match s2 with
                   | String c s' => if bool_decide (nat_of_ascii c = 46) then take_digits s' else ("", s2)
                   | "" => ("", "")
                   end in
  m ← digits_value 0 (ip ++ fp);
  e ← match s3 with
      | "" => Some 0%Z
      | String _ s' => Atoi s'
      end;
  let v := (inject_Z m * (10 # 1) ^ (e - Z.of_nat (String.length fp)))%Q in
  Some (if neg then Qopp v else v).

(** ** Reading values *)

Fixpoint strip (p s : string) : option string :=
  match p, s with
  | "", _ => Some s
  | String c p', String c' s' => if bool_decide (c = c') then strip p' s' else None
  | _, "" => None
  end.

Definition keyword (p : string) (j : json) (s : string) : option (json * string) :=
  r ← strip p s; Some (j, r).

(** Each call consumes a character, so the length of the text is enough fuel. *)
Fixpoint parse_value (fuel : nat) (s : string) : option (json * string) :=
  match fuel with
  | 0 => None
  | S fuel' =>
      match skip_space s with
      | "" => None
      | String c s1 =>
          let n := nat_of_ascii c in
          if bool_decide (n = 34) then '(x, r) ← parse_string s1; Some (JStr x, r)
          else if bool_decide (n = 91) then
            match skip_space s1 with
            | String c2 s2 =>
                if bool_decide (nat_of_ascii c2 = 93) then Some (JArr [], s2)
                else '(l, r) ← parse_elements fuel' s1; Some (JArr l, r)
            | "" => None
            end
          else if bool_decide (n = 123) then
            match skip_space s1 with
            | String c2 s2 =>
                if bool_decide (nat_of_ascii c2 = 125) then Some (JObj [], s2)
                else '(m, r) ← parse_members fuel' s1; Some (JObj m, r)
            | "" => None
            end
          else if bool_decide (n = 110) then keyword "null" JNull (String c s1)
          else if bool_decide (n = 116) then keyword "true" (JBool true) (String c s1)
          else if bool_decide (n = 102) then keyword "false" (JBool false) (String c s1)
          else '(lit, r) ← scan_number (String c s1); Some (JNum lit, r)
      end
  end
with parse_elements (fuel : nat) (s : string) : option (list json * string) :=
  match fuel with
  | 0 => None
  | S fuel' =>
      '(x, r) ← parse_value fuel' s;
      match skip_space r with
      | String c r1 =>
          if bool_decide (nat_of_ascii c = 44) then '(l, r2) ← parse_elements fuel' r1; Some (x :: l, r2)
          else if bool_decide (nat_of_ascii c = 93) then Some ([x], r1)
          else None
      | "" => None
      end
  end
with parse_members (fuel : nat) (s : string) : option (list (string * json) * string) :=
  match fuel with
  | 0 => None
  | S fuel' =>
      match skip_space s with
      | String q s1 =>
          if bool_decide (nat_of_ascii q = 34) then
            '(k, r) ← parse_string s1;
            match skip_space r with
            | String c r1 =>
                if bool_decide (nat_of_ascii c = 58) then
                  '(x, r2) ← parse_value fuel' r1;
                  match skip_space r2 with
                  | String c2 r3 =>
                      if bool_decide (nat_of_ascii c2 = 44)
                      then '(m, r4) ← parse_members fuel' r3; Some ((k, x) :: m, r4)
                      else if bool_decide (nat_of_ascii c2 = 125) then Some ([(k, x)], r3)
                      else None
                  | "" => None
                  end
                else None
            | "" => None
            end
          else None
      | "" => None
      end
  end.

Definition json_Unmarshal (s : string) : option json :=
  '(j, r) ← parse_value (2 * String.length s + 1) s;
  if bool_decide (skip_space r = "") then Some j else None.

(** Reading a member of an object decoded into a map: the last one wins, and
    a value that is not an object has no members. *)
Definition json_get (j : json) (key : string) : option json :=
  match j with
  | JObj m => snd <$> last (filter (fun kv => kv.1 = key) m)
  | _ => None
  end.

(** ** Induction on documents *)

Section json_ind.
Context (P : json -> Prop).
Context (Hnull : P JNull) (Hbool : forall b, P (JBool b)) (Hnum : forall l, P (JNum l))
        (Hstr : forall s, P (JStr s)) (Harr : forall l, Forall P l -> P (JArr l))
        (Hobj : forall m, Forall (fun kv => P kv.2) m -> P (JObj m)).

Fixpoint json_nested_ind (j : json) : P j :=
  match j with
  | JNull => Hnull
  | JBool b => Hbool b
  | JNum l => Hnum l
  | JStr s => Hstr s
  | JArr l => Harr l ((fix go l := match l return Forall P l with
                                   | [] => Forall_nil_2 _
                                   | x :: l' => Forall_cons_2 _ _ _ (json_nested_ind x) (go l')
                                   end) l)
  | JObj m => Hobj m ((fix go m := match m return Forall (fun kv => P kv.2) m with
                                   | [] => Forall_nil_2 _
                                   | kv :: m' => Forall_cons_2 _ _ _ (json_nested_ind kv.2) (go m')
                                   end) m)
  end.
End json_ind.

(** ** Reading back what was written *)

Lemma str_app_assoc (a b c : string) : (a ++ b) ++ c = a ++ (b ++ c).
Proof. induction a as [|x a IH]; [done|by exact (f_equal (String x) IH)]. Qed.

Lemma str_app_nil (a : string) : a ++ "" = a.
Proof. induction a as [|x a IH]; [done|by exact (f_equal (String x) IH)]. Qed.

Lemma str_length_app (a b : string) : String.length (a ++ b) = String.length a + String.length b.
Proof. induction a as [|x a IH]; [done|by exact (f_equal S IH)]. Qed.

Create Rewrite HintDb strings.
#[export] Hint Rewrite str_app_assoc str_app_nil str_length_app : strings.

Lemma parse_escape c t :
  parse_string (escape c ++ t) = ('(r, rest) ← parse_string t; Some (String c r, rest)).
Proof. destruct c as [[] [] [] [] [] [] [] []]; reflexivity. Qed.

Lemma parse_quoted s rest : parse_string (escape_string s ++ String cquote rest) = Some (s, rest).
Proof.
  induction s as [|c s IH]; cbn [escape_string]; [reflexivity|].
  by rewrite str_app_assoc, parse_escape, IH.
Qed.

Lemma quoted_app s rest : quoted s ++ rest = String cquote (escape_string s ++ String cquote rest).
Proof. unfold quoted. change (String cquote ((escape_string s ++ str1 cquote) ++ rest) = String cquote (escape_string s ++ String cquote rest)). by rewrite str_app_assoc. Qed.

(** A value ends at the end of the text or before a separator. *)
Definition ends (rest : string) : bool :=
  match rest with
  | "" => true
  | String c _ => let n := nat_of_ascii c in bool_decide (n = 44) || bool_decide (n = 93) || bool_decide (n = 125)
  end.

(** A number literal ends before a text that does not go on with one. *)
Definition no_number (rest : string) : Prop :=
  rest = "" \/ exists c r, rest = String c r /\ is_digit c = false /\
    nat_of_ascii c <> 46 /\ nat_of_ascii c <> 101 /\ nat_of_ascii c <> 69.

Lemma ends_plain rest : ends rest = true -> no_number rest.
Proof.
  destruct rest as [|c r]; intros H; [by left|right]. exists c, r. split; [done|]. cbn in H.
  unfold is_digit, digit_value. rewrite !orb_true_iff, !bool_decide_eq_true in H.
  destruct H as [[-> | ->]| ->]; split_and!; try done; by apply bool_decide_eq_false_2; intros [].
Qed.

Lemma str_cons_app c (a b : string) : String c a ++ b = String c (a ++ b).
Proof. done. Qed.

Lemma str_nil_app (b : string) : "" ++ b = b.
Proof. done. Qed.

Lemma str_length_cons c a : String.length (String c a) = S (String.length a).
Proof. done. Qed.
#[export] Hint Rewrite str_cons_app str_nil_app str_length_cons : strings.

(** Scanning goes the same way when a separator follows, and what is left
    gets the separator behind it. *)
Lemma take_digits_app s d r rest : no_number rest ->
  take_digits s = (d, r) -> take_digits (s ++ rest) = (d, r ++ rest).
Proof.
  intros Hrest. revert d r. induction s as [|c s IH]; cbn [take_digits]; intros d r Hs; simplify_eq.
  - rewrite str_nil_app. destruct Hrest as [->|(c & r & -> & Hc & _)]; [done|].
    cbn. by rewrite Hc.
  - rewrite str_cons_app. cbn. destruct (is_digit c); [|by simplify_eq].
    destruct (take_digits s) as [d' r']. rewrite (IH _ _ eq_refl). by simplify_eq.
Qed.

Lemma scan_int_app s d r rest : no_number rest ->
  scan_int s = Some (d, r) -> scan_int (s ++ rest) = Some (d, r ++ rest).
Proof.
  intros Hrest. destruct s as [|c s]; [done|]. rewrite str_cons_app. unfold scan_int.
  case_bool_decide; [intros; by simplify_eq|]. destruct (is_digit c); [|done]. intros Hs. simplify_eq.
  f_equal. rewrite <- str_cons_app. by apply take_digits_app.
Qed.

Lemma scan_frac_app s d r rest : no_number rest ->
  scan_frac s = Some (d, r) -> scan_frac (s ++ rest) = Some (d, r ++ rest).
Proof.
  intros Hrest. destruct s as [|c s]; [intros Hs; unfold scan_frac in Hs; simplify_eq; rewrite str_nil_app|].
  - destruct Hrest as [->|(c & r & -> & _ & Hc & _)]; [done|].
    unfold scan_frac. by rewrite bool_decide_eq_false_2.
  - rewrite str_cons_app. unfold scan_frac. case_bool_decide; [|intros; by simplify_eq].
    destruct (take_digits s) as [d' r'] eqn:Hd. rewrite (take_digits_app _ _ _ _ Hrest Hd).
    destruct d'; intros; by simplify_eq.
Qed.

Lemma scan_exp_app s d r rest : no_number rest ->
  scan_exp s = Some (d, r) -> scan_exp (s ++ rest) = Some (d, r ++ rest).
Proof.
  intros Hrest. destruct s as [|c s]; [intros Hs; unfold scan_exp in Hs; simplify_eq; rewrite str_nil_app|].
  - destruct Hrest as [->|(c & r & -> & _ & _ & Hc & Hc')]; [done|].
    unfold scan_exp. by rewrite !bool_decide_eq_false_2.
  - rewrite str_cons_app. unfold scan_exp. destruct (_ || _); [|intros; by simplify_eq].
    destruct s as [|g s]; [done|]. rewrite str_cons_app.
    destruct (bool_decide (nat_of_ascii g = 43) || _).
    + destruct (take_digits s) as [d' r'] eqn:Hd. rewrite (take_digits_app _ _ _ _ Hrest Hd).
      destruct d'; intros; by simplify_eq.
    + destruct (take_digits (String g s)) as [d' r'] eqn:Hd.
      pose proof (take_digits_app _ _ _ _ Hrest Hd) as Hd'. rewrite str_cons_app in Hd'. rewrite Hd'.
      destruct d'; intros; by simplify_eq.
Qed.

Lemma scan_number_app s d r rest : no_number rest ->
  scan_number s = Some (d, r) -> scan_number (s ++ rest) = Some (d, r ++ rest).
Proof.
  intros Hrest. destruct s as [|c s]; [done|]. rewrite str_cons_app. unfold scan_number.
  change (String c (s ++ rest)) with (String c s ++ rest).
  destruct (bool_decide (nat_of_ascii c = 45)); intros Hs;
    apply bind_Some in Hs as ([ip s2] & Hi & Hs); apply bind_Some in Hs as ([fp s3] & Hf & Hs);
    apply bind_Some in Hs as ([ep s4] & He & Hs); simplify_eq;
    rewrite (scan_int_app _ _ _ _ Hrest Hi); cbn;
    rewrite (scan_frac_app _ _ _ _ Hrest Hf); cbn;
    by rewrite (scan_exp_app _ _ _ _ Hrest He).
Qed.

(** The literals of the grammar. *)
Definition number_ok (lit : string) : bool := bool_decide (scan_number lit = Some (lit, "")).

Fixpoint numbers_ok (j : json) : bool :=
  match j with
  | JNum lit => number_ok lit
  | JArr l => forallb numbers_ok l
  | JObj m => forallb (fun kv => numbers_ok kv.2) m
  | _ => true
  end.

(** How a written value begins. *)
Definition value_head (c : ascii) : Prop :=
  is_space c = false /\ nat_of_ascii c <> 93 /\ nat_of_ascii c <> 125.

Lemma number_head lit : number_ok lit = true ->
  exists c t, lit = String c t /\ value_head c /\ nat_of_ascii c <> 34 /\ nat_of_ascii c <> 91 /\
    nat_of_ascii c <> 123 /\ nat_of_ascii c <> 110 /\ nat_of_ascii c <> 116 /\ nat_of_ascii c <> 102.
Proof.
  unfold number_ok. rewrite bool_decide_eq_true. destruct lit as [|c t]; [done|]. intros Hs. exists c, t. split; [done|].
  assert (nat_of_ascii c = 45 \/ (48 <= nat_of_ascii c <= 57)) as Hc.
  { unfold scan_number in Hs. case_bool_decide; [by left|right].
    apply bind_Some in Hs as ([ip s2] & Hi & _). unfold scan_int in Hi. case_bool_decide; [lia|].
    destruct (is_digit c) eqn:Hd; [|done]. unfold is_digit in Hd. apply bool_decide_eq_true in Hd as [v Hv].
    unfold digit_value in Hv. destruct ((48 <=? Z.of_nat (nat_of_ascii c)) && (Z.of_nat (nat_of_ascii c) <=? 57))%Z eqn:Hr; [lia|done]. }
  unfold value_head, is_space. rewrite !orb_false_iff, !bool_decide_eq_false. lia.
Qed.

Lemma Marshal_head j : numbers_ok j = true -> exists c t, json_Marshal j = String c t /\ value_head c.
Proof.
  destruct j as [|[]|lit|s|[|x l]|[|[k x] m]]; cbn [numbers_ok]; intros Hok.
  4: { destruct (number_head lit Hok) as (c & t & -> & Hc & _). by exists c, t. }
  all: eexists _, _; split; [reflexivity|]; by repeat split; vm_compute.
Qed.

Lemma skip_head c t : value_head c -> skip_space (String c t) = String c t.
Proof. intros (Hc & _). cbn. by rewrite Hc. Qed.

Lemma Marshal_pos j : numbers_ok j = true -> 0 < String.length (json_Marshal j).
Proof. intros Hok. destruct (Marshal_head j Hok) as (c & t & -> & _). cbn. lia. Qed.

Definition parses (j : json) : Prop :=
  numbers_ok j = true -> forall fuel rest, ends rest = true ->
  2 * String.length (json_Marshal j) <= fuel ->
  parse_value fuel (json_Marshal j ++ rest) = Some (j, rest).

(** The tail of a written array, of a written object. *)
Fixpoint elements_text (l : list json) : string :=
  match l with [] => "]" | y :: l' => "," ++ json_Marshal y ++ elements_text l' end.
Fixpoint members_text (m : list (string * json)) : string :=
  match m with
  | [] => "}"
  | (k, y) :: m' => "," ++ quoted k ++ ":" ++ json_Marshal y ++ members_text m'
  end.

Lemma Marshal_arr x l : json_Marshal (JArr (x :: l)) = "[" ++ json_Marshal x ++ elements_text l.
Proof. done. Qed.
Lemma Marshal_obj k x m :
  json_Marshal (JObj ((k, x) :: m)) = "{" ++ quoted k ++ ":" ++ json_Marshal x ++ members_text m.
Proof. done. Qed.

Lemma elements_ends l rest : ends (elements_text l ++ rest) = true.
Proof. by destruct l. Qed.
Lemma members_ends m rest : ends (members_text m ++ rest) = true.
Proof. by destruct m as [|[k x] m]. Qed.

Lemma parse_elements_text x l fuel rest :
  Forall parses (x :: l) -> forallb numbers_ok (x :: l) = true -> ends rest = true ->
  2 * String.length (json_Marshal x ++ elements_text l) <= fuel ->
  parse_elements fuel ((json_Marshal x ++ elements_text l) ++ rest) = Some (x :: l, rest).
Proof.
  revert x fuel. induction l as [|y l IH]; intros x fuel [Hx Hl]%Forall_cons Hok Hrest Hf;
    cbn [forallb] in Hok; apply andb_true_iff in Hok as [Hxok Hlok];
    pose proof (Marshal_pos x Hxok); cbn [elements_text] in *; autorewrite with strings in *;
    (destruct fuel as [|fuel]; [lia|]); cbn [parse_elements].
  - rewrite Hx by (done || lia). reflexivity.
  - rewrite Hx by (done || lia). cbn [mbind option_bind].
    change (skip_space (String "," ?t)) with (String "," t). cbn [nat_of_ascii].
    change (bool_decide (nat_of_ascii "," = 44)) with true. cbn iota.
    specialize (IH y fuel Hl Hlok Hrest). autorewrite with strings in IH. rewrite IH by lia. done.
Qed.

Lemma parse_members_text k x m fuel rest :
  Forall (fun kv => parses kv.2) ((k, x) :: m) -> forallb (fun kv => numbers_ok kv.2) ((k, x) :: m) = true ->
  ends rest = true ->
  2 * String.length (quoted k ++ ":" ++ json_Marshal x ++ members_text m) <= fuel ->
  parse_members fuel (quoted k ++ ":" ++ json_Marshal x ++ members_text m ++ rest) = Some ((k, x) :: m, rest).
Proof.
  revert k x fuel. induction m as [|[k' y] m IH]; intros k x fuel [Hx Hl]%Forall_cons Hok Hrest Hf;
    cbn [forallb snd] in Hok; apply andb_true_iff in Hok as [Hxok Hlok]; cbn [snd] in Hx;
    pose proof (Marshal_pos x Hxok); cbn [members_text] in *; autorewrite with strings in *;
    (destruct fuel as [|fuel]; [lia|]); cbn [parse_members]; rewrite quoted_app;
    change (skip_space (String cquote ?t)) with (String cquote t);
    change (bool_decide (nat_of_ascii cquote = 34)) with true; cbn iota;
    rewrite parse_quoted; cbn [mbind option_bind];
    change (skip_space (String ":" ?t)) with (String ":" t);
    change (bool_decide (nat_of_ascii ":" = 58)) with true; cbn iota;
    (rewrite Hx; [|done|done|lia]).
  - reflexivity.
  - cbn [mbind option_bind]. change (skip_space (String "," ?t)) with (String "," t).
    change (bool_decide (nat_of_ascii "," = 44)) with true. cbn iota.
    specialize (IH k' y fuel Hl Hlok Hrest). autorewrite with strings in *. rewrite IH by lia. done.
Qed.

Lemma parses_all j : parses j.
Proof.
  induction j as [|b|lit|s|l IH|m IH] using json_nested_ind; unfold parses; intros Hok fuel rest Hrest Hf;
    (destruct fuel as [|fuel]; [pose proof (Marshal_pos _ Hok); lia|]).
  - reflexivity.
  - by destruct b.
  - cbn [json_Marshal numbers_ok] in *. destruct (number_head lit Hok) as (c & t & -> & Hc & Hne).
    unfold number_ok in Hok. apply bool_decide_eq_true in Hok.
    pose proof (scan_number_app _ _ _ _ (ends_plain _ Hrest) Hok) as Hs. rewrite str_cons_app in *. cbn [parse_value].
    rewrite (skip_head c _ Hc). destruct Hne as (? & ? & ? & ? & ? & ?). rewrite !bool_decide_eq_false_2 by done.
    rewrite Hs. by rewrite str_nil_app.
  - cbn [json_Marshal parse_value]. rewrite quoted_app.
    change (skip_space (String cquote ?t)) with (String cquote t).
    change (bool_decide (nat_of_ascii cquote = 34)) with true. cbn iota. by rewrite parse_quoted.
  - destruct l as [|x l]; [reflexivity|]. rewrite Marshal_arr in *. autorewrite with strings in *.
    cbn [numbers_ok] in Hok. pose proof (parse_elements_text x l fuel rest IH Hok Hrest) as He.
    cbn [forallb] in Hok. apply andb_true_iff in Hok as [Hx _].
    destruct (Marshal_head x Hx) as (c & t & Hc & Hh). autorewrite with strings in *. rewrite Hc in *. autorewrite with strings in *.
    cbn [parse_value]. change (skip_space (String "[" ?t)) with (String "[" t). cbn iota zeta.
    change (bool_decide (nat_of_ascii "[" = 34)) with false. change (bool_decide (nat_of_ascii "[" = 91)) with true.
    cbn iota. rewrite (skip_head c _ Hh). rewrite bool_decide_eq_false_2 by apply Hh.
    rewrite He by lia. done.
  - destruct m as [|[k x] m]; [reflexivity|]. rewrite Marshal_obj in *.
    pose proof (parse_members_text k x m fuel rest IH Hok Hrest) as He.
    autorewrite with strings in *. rewrite quoted_app in *.
    cbn [parse_value]. change (skip_space (String "{" ?t)) with (String "{" t).
    cbn iota zeta. change (bool_decide (nat_of_ascii "{" = 34)) with false.
    change (bool_decide (nat_of_ascii "{" = 91)) with false. change (bool_decide (nat_of_ascii "{" = 123)) with true.
    cbn iota. change (skip_space (String cquote ?t)) with (String cquote t).
    change (bool_decide (nat_of_ascii cquote = 125)) with false. cbn iota. autorewrite with strings in He. rewrite He by lia. done.
Qed.

(** Reading a written document gives it back. *)
Lemma json_Unmarshal_Marshal j : numbers_ok j = true -> json_Unmarshal (json_Marshal j) = Some j.
Proof.
  intros Hok. unfold json_Unmarshal.
  pose proof (parses_all j Hok (2 * String.length (json_Marshal j) + 1) "" eq_refl) as Hp.
  rewrite str_app_nil in Hp. rewrite Hp by lia. done.
Qed.

(** ** Integers as number literals *)

Lemma digit_value_chr n : n < 10 -> digit_value (chr (48 + n)) = Some (Z.of_nat n).
Proof. intros. do 10 (destruct n as [|n]; [reflexivity|]). lia. Qed.

Lemma is_digit_chr n : n < 10 -> is_digit (chr (48 + n)) = true.
Proof. intros. unfold is_digit. rewrite digit_value_chr by done. by apply bool_decide_eq_true_2. Qed.

Fixpoint all_digits (s : string) : bool :=
  match s with "" => true | String c s' => is_digit c && all_digits s' end.

Lemma print_digits_spec fuel n acc : n < 10 ^ S fuel ->
  exists ds, print_digits fuel n acc = ds ++ acc /\ ds <> "" /\ all_digits ds = true /\
    (forall a t, digits_value a (ds ++ t) = digits_value (a * 10 ^ Z.of_nat (String.length ds) + Z.of_nat n) t) /\
    (0 < n -> forall c r, ds = String c r -> nat_of_ascii c <> 48).
Proof.
  revert n acc. induction fuel as [|fuel IH]; intros n acc Hn; cbn [print_digits];
    pose proof (Nat.mod_upper_bound n 10 ltac:(lia)) as Hm; pose proof (Nat.div_mod_eq n 10) as Hd.
  1: assert (n / 10 = 0) as H0 by (apply Nat.div_small; cbn in Hn; lia).
  2: destruct (bool_decide_reflect (n / 10 = 0)) as [H0|H0].
  1,2: exists (str1 (chr (48 + n mod 10))); split_and!; [done|done|unfold str1; cbn [all_digits]; by rewrite is_digit_chr| |].
  1,3: intros a t; unfold str1; autorewrite with strings; cbn [digits_value String.length];
    rewrite digit_value_chr by done; cbn [mbind option_bind Z.of_nat]; f_equal; lia.
  1,2: intros Hpos c r Hcr; assert (c = chr (48 + n mod 10)) as -> by (unfold str1 in Hcr; congruence);
    unfold chr; rewrite nat_ascii_embedding by lia; lia.
  destruct (IH (n / 10) (String (chr (48 + n mod 10)) acc)) as (ds & -> & Hne & Had & Hv & Hz).
  { apply Nat.Div0.div_lt_upper_bound. rewrite Nat.pow_succ_r' in Hn. lia. }
  exists (ds ++ str1 (chr (48 + n mod 10))). split_and!.
  - unfold str1. by autorewrite with strings.
  - by destruct ds.
  - clear -Had Hm. induction ds as [|c ds IH]; [unfold str1; change (is_digit (chr (48 + n mod 10)) && true = true); by rewrite is_digit_chr|].
    cbn in Had. apply andb_true_iff in Had as [Hc Had]. rewrite str_cons_app. cbn. rewrite Hc. by apply IH.
  - intros a t. unfold str1. autorewrite with strings. rewrite Hv. cbn [digits_value].
    rewrite digit_value_chr by done. cbn [mbind option_bind]. f_equal.
    cbn [String.length]. rewrite Nat.add_1_r, Nat2Z.inj_succ, Z.pow_succ_r by lia. lia.
  - intros _ c r Hc. destruct ds as [|c' ds]; [done|]. rewrite str_cons_app in Hc. simplify_eq.
    eapply Hz; [lia|done].
Qed.

Lemma Itoa_nat_spec n : exists ds, Itoa_nat n = ds /\ ds <> "" /\ all_digits ds = true /\
  digits_value 0 ds = Some (Z.of_nat n) /\
  (forall c r, ds = String c r -> nat_of_ascii c = 48 -> r = "").
Proof.
  destruct n as [|n]; [exists "0"; split_and!; try done; intros; by simplify_eq|].
  unfold Itoa_nat. destruct (print_digits_spec (S n) (S n) "") as (ds & -> & Hne & Had & Hv & Hz).
  { apply Nat.lt_le_trans with (10 ^ S n); [apply Nat.pow_gt_lin_r; lia|apply Nat.pow_le_mono_r; lia]. }
  rewrite str_app_nil. exists ds. split_and!; try done.
  - specialize (Hv 0%Z ""). rewrite str_app_nil in Hv. by rewrite Hv.
  - intros c r -> Hc. by destruct (Hz ltac:(lia) c r).
Qed.

Lemma take_digits_all ds : all_digits ds = true -> take_digits ds = (ds, "").
Proof.
  induction ds as [|c ds IH]; [done|]. cbn. intros [-> Hd]%andb_true_iff. by rewrite IH.
Qed.

Lemma scan_int_all ds :
  ds <> "" -> all_digits ds = true -> (forall c r, ds = String c r -> nat_of_ascii c = 48 -> r = "") ->
  scan_int ds = Some (ds, "").
Proof.
  intros Hne Had Hz. destruct ds as [|c r]; [done|]. unfold scan_int. case_bool_decide as Hc.
  - by rewrite (Hz c r eq_refl Hc).
  - pose proof (take_digits_all _ Had) as ->. cbn in Had. by apply andb_true_iff in Had as [-> _].
Qed.

Lemma digit_not_minus c : is_digit c = true -> nat_of_ascii c <> 45.
Proof.
  unfold is_digit, digit_value. intros [v Hv]%bool_decide_eq_true Hc. rewrite Hc in Hv. done.
Qed.

(** The literal of an integer is in the grammar and stands for it. *)
Lemma Itoa_number z : number_ok (Itoa z) = true /\
  exists q, number_value (Itoa z) = Some q /\ (q == inject_Z z)%Q.
Proof.
  assert (forall n, number_ok (Itoa_nat n) = true /\ number_ok (String "-" (Itoa_nat n)) = true /\
    number_value (Itoa_nat n) = Some (inject_Z (Z.of_nat n) * 1)%Q /\
    number_value (String "-" (Itoa_nat n)) = Some (- (inject_Z (Z.of_nat n) * 1))%Q) as Hnat.
  { intros n. destruct (Itoa_nat_spec n) as (ds & -> & Hne & Had & Hv & Hz).
    pose proof (scan_int_all ds Hne Had Hz) as Hsi. pose proof (take_digits_all ds Had) as Htd.
    destruct ds as [|c r]; [done|]. pose proof Had as [Hc _]%andb_true_iff. apply digit_not_minus in Hc.
    unfold number_ok, number_value, scan_number. rewrite !bool_decide_eq_true.
    rewrite (bool_decide_eq_false_2 _ Hc), bool_decide_eq_true_2 by done.
    rewrite Hsi, Htd. cbn [mbind option_bind scan_frac scan_exp]. rewrite !str_app_nil, Hv. done. }
  unfold Itoa. destruct (Z.ltb_spec z 0) as [Hz|Hz]; split; try apply Hnat; eexists; split; try apply Hnat;
    rewrite Z2Nat.id by lia; rewrite ?inject_Z_opp; ring.
Qed.

(** [Atoi] reads back what [Itoa] writes. *)
Lemma Atoi_Itoa z : (- 2 ^ 63 <= z < 2 ^ 63)%Z -> Atoi (Itoa z) = Some z.
Proof.
  intros Hz. unfold Itoa.
  assert (forall n, exists c r, Itoa_nat n = String c r /\ is_digit c = true /\
    unsigned_value (String c r) = Some (Z.of_nat n)) as Hn.
  { intros n. destruct (Itoa_nat_spec n) as (ds & -> & Hne & Had & Hv & _). destruct ds as [|c r]; [done|].
    exists c, r. split; [done|]. split; [|done]. cbn in Had. by apply andb_true_iff in Had as []. }
  assert ((- 2 ^ 63 <=? z)%Z && (z <? 2 ^ 63)%Z = true) as Hr by lia.
  destruct (Z.ltb_spec z 0) as [Hneg|Hpos].
  - destruct (Hn (Z.to_nat (- z))) as (c & r & -> & _ & Hu). unfold Atoi. rewrite Hu. cbn [fmap option_fmap option_map mbind option_bind].
    replace (- Z.of_nat (Z.to_nat (- z)))%Z with z by lia. by rewrite Hr.
  - destruct (Hn (Z.to_nat z)) as (c & r & -> & Hc & Hu). unfold Atoi.
    assert (forall A (x y w : A), match c with "+"%char => x | "-"%char => y | _ => w end = w) as Hm.
    { intros A x y w. destruct c as [[] [] [] [] [] [] [] []]; done. }
    assert (match c with "+"%char => unsigned_value r | "-"%char => Z.opp <$> unsigned_value r | _ => unsigned_value (String c r) end
            = Some (Z.of_nat (Z.to_nat z))) as -> by (by rewrite Hm).
    cbn [mbind option_bind]. rewrite Z2Nat.id by lia. by rewrite Hr.
Qed.
