(* ===== verification/Text.v ===== *)
(** * Text: UTF-8, package strings and package fmt

    What the validators use of Go's standard library on strings, which are
    sequences of bytes: decoding them into runes as [range] does, with U+FFFD
    for every byte that is not part of a valid encoding; [utf8.ValidString];
    [strings.Contains], [Count], [ReplaceAll], [Join], [Map], [ToUpper],
    [ToLower] and [TrimSpace]; the verb [%.<n>f].

    The tables of package unicode (letters, digits, case) are a parameter with
    their values on ASCII as its laws; control characters and white space are
    written out. *)

From Stdlib Require Import Ascii String.
From S2P Require Import Prelude.
From S2P Require Import Float.
From S2P Require Import Web.
From S2P Require Import Json.

Local Open Scope string_scope.

Definition code (c : ascii) : Z := Z.of_nat (nat_of_ascii c).
Definition byte (n : Z) : ascii := ascii_of_nat (Z.to_nat n).

Definition between (lo n hi : Z) : bool := ((lo <=? n) && (n <=? hi))%Z.

(** ** UTF-8 *)

Definition rune : Type := Z.
Definition RuneError : rune := 65533%Z.

Definition continuation (c : ascii) : bool := between 128 (code c) 191.

(** The second byte a leading byte allows. *)
Definition second_ok (b0 b1 : Z) : bool :=
  if (b0 =? 224)%Z then between 160 b1 191
  else if (b0 =? 237)%Z then between 128 b1 159
  else if (b0 =? 240)%Z then between 144 b1 191
  else if (b0 =? 244)%Z then between 128 b1 143
  else between 128 b1 191.

(** The rune at the head of the bytes and how many of them encode it; [None] for
    its encoding where it has none, which is then one byte. *)
Definition decode_head (c : ascii) (s : string) : option (rune * nat) :=
  let b0 := code c in
  if (b0 <? 128)%Z then Some (b0, 1)
  else if between 194 b0 223 then
    match s with
    | String c1 _ =>
        if continuation c1 then Some ((b0 - 192) * 64 + (code c1 - 128), 2%nat)%Z else None
    | _ => None
    end
  else if between 224 b0 239 then
    match s with
    | String c1 (String c2 _) =>
        if second_ok b0 (code c1) && continuation c2
        then Some ((b0 - 224) * 4096 + (code c1 - 128) * 64 + (code c2 - 128), 3%nat)%Z else None
    | _ => None
    end
  else if between 240 b0 244 then
    match s with
    | String c1 (String c2 (String c3 _)) =>
        if second_ok b0 (code c1) && continuation c2 && continuation c3
        then Some ((b0 - 240) * 262144 + (code c1 - 128) * 4096 + (code c2 - 128) * 64 + (code c3 - 128), 4%nat)%Z else None
    | _ => None
    end
  else None.

Fixpoint split_at (n : nat) (s : string) : string * string :=
  match n, s with
  | S n', String c s' => let '(a, b) := split_at n' s' in (String c a, b)
  | _, _ => ("", s)
  end.

(** One step of [range]: the rune, whether its encoding is valid, its bytes. *)
Record piece := mkPiece { pcRune : rune; pcValid : bool; pcBytes : string }.

(** A step consumes a byte at least. *)
Fixpoint pieces_fuel (fuel : nat) (s : string) : list piece :=
  match fuel, s with
  | S fuel', String c s' =>
      match decode_head c s' with
      | Some (r, n) =>
          let '(bs, rest) := split_at n s in mkPiece r true bs :: pieces_fuel fuel' rest
      | None => mkPiece RuneError false (str1 c) :: pieces_fuel fuel' s'
      end
  | _, _ => []
  end.
Definition pieces (s : string) : list piece := pieces_fuel (String.length s) s.

(** [for _, r := range s]. *)
Definition runes (s : string) : list rune := pcRune <$> pieces s.

Definition ValidString (s : string) : bool := forallb pcValid (pieces s).

(** [utf8.EncodeRune] of the runes decoding gives. *)
Definition encode (r : rune) : string := utf8 (Z.to_nat r).
Definition of_runes (l : list rune) : string := String.concat "" (encode <$> l).

(** ** unicode *)

Class UnicodePkg := {
  unicode_ToUpper : rune -> rune;
  unicode_ToLower : rune -> rune;
  unicode_IsLetter : rune -> bool;
  unicode_IsDigit : rune -> bool;
}.

Definition ascii_upper (r : rune) : rune := if between 97 r 122 then (r - 32)%Z else r.
Definition ascii_lower (r : rune) : rune := if between 65 r 90 then (r + 32)%Z else r.
Definition ascii_letter (r : rune) : bool := between 65 r 90 || between 97 r 122.
Definition ascii_digit (r : rune) : bool := between 48 r 57.

(** The values on ASCII. *)
Class UnicodeSpec `{UnicodePkg} : Prop := {
  ToUpper_ascii r : (0 <= r < 128)%Z -> unicode_ToUpper r = ascii_upper r;
  ToLower_ascii r : (0 <= r < 128)%Z -> unicode_ToLower r = ascii_lower r;
  IsLetter_ascii r : (0 <= r < 128)%Z -> unicode_IsLetter r = ascii_letter r;
  IsDigit_ascii r : (0 <= r < 128)%Z -> unicode_IsDigit r = ascii_digit r;
}.

Definition unicode_IsControl (r : rune) : bool := between 0 r 31 || between 127 r 159.

Definition unicode_IsSpace (r : rune) : bool :=
  between 9 r 13 || existsb (Z.eqb r) [32; 133; 160; 5760; 8232; 8233; 8239; 8287; 12288]%Z || between 8192 r 8202.

(** ** strings *)

Fixpoint Contains (s p : string) : bool :=
  String.prefix p s || match s with String _ s' => Contains s' p | "" => false end.

(** Occurrences of a one-byte string. *)
Fixpoint Count1 (s : string) (c : ascii) : nat :=
  match s with
  | String d s' => (if bool_decide (c = d) then 1 else 0) + Count1 s' c
  | "" => 0
  end.

(** Replacing every occurrence of a one-byte string. *)
Fixpoint ReplaceAll1 (s : string) (c : ascii) (new : string) : string :=
  match s with
  | String d s' => if bool_decide (c = d) then new ++ ReplaceAll1 s' c new else String d (ReplaceAll1 s' c new)
  | "" => ""
  end.

Definition Join (l : list string) (sep : string) : string := String.concat sep l.

(** [strings.Map]: a negative result drops the rune. *)
Definition strings_Map (f : rune -> rune) (s : string) : string :=
  of_runes (filter (fun r => 0 <= r)%Z (f <$> runes s)).

Definition is_ascii (s : string) : bool := forallb (fun c => code c <? 128)%Z (list_ascii_of_string s).
Definition map_bytes (f : Z -> Z) (s : string) : string :=
  string_of_list_ascii ((fun c => byte (f (code c))) <$> list_ascii_of_string s).

Definition ToUpper `{UnicodePkg} (s : string) : string :=
  if is_ascii s then map_bytes ascii_upper s else strings_Map unicode_ToUpper s.
Definition ToLower `{UnicodePkg} (s : string) : string :=
  if is_ascii s then map_bytes ascii_lower s else strings_Map unicode_ToLower s.

Fixpoint drop_space (l : list piece) : list piece :=
  match l with
  | p :: l' => if unicode_IsSpace (pcRune p) then drop_space l' else l
  | [] => []
  end.
Definition strings_TrimSpace (s : string) : string :=
  String.concat "" (pcBytes <$> reverse (drop_space (reverse (drop_space (pieces s))))).

Definition prefix_bytes (n : nat) (s : string) : string := (split_at n s).1.

(** ** fmt *)

(** The last [n] decimal digits of [z]. *)
Fixpoint last_digits (n : nat) (z : Z) (acc : string) : string :=
  match n with
  | 0 => acc
  | S n' => last_digits n' (z / 10) (String (chr (48 + Z.to_nat (z mod 10))) acc)
  end.

(** The verb [%.<n>f] for a finite float64, [0 < n]. *)
Definition fmt_f (n : nat) (x : float64) : string :=
  let z := rne (Qabs.Qabs x * inject_Z (10 ^ Z.of_nat n))%Q in
  (if Qle_bool 0 x then "" else "-") ++ Itoa (z / 10 ^ Z.of_nat n) ++ "." ++ last_digits n z "".

(** [%v] of a slice of errors. *)
Definition fmt_errors (l : list string) : string := "[" ++ Join l " " ++ "]".

(** ** Decoding into a struct

    [encoding/json] matches the names of members without regard to case, in the
    sense of its [foldName]; an invalid byte of a string becomes U+FFFD. *)

Definition fold_rune (r : rune) : rune :=
  if between 97 r 122 then (r - 32)%Z else if (r =? 383)%Z then 83%Z else if (r =? 8490)%Z then 75%Z else r.
Definition same_name (key name : string) : bool := bool_decide (fold_rune <$> runes key = fold_rune <$> runes name).
Definition decode_text (s : string) : string := of_runes (runes s).

(** ** time.Duration.String *)

Fixpoint all_zeros (s : string) : bool :=
  match s with String c s' => (code c =? 48)%Z && all_zeros s' | "" => true end.
Fixpoint trim_zeros (s : string) : string :=
  match s with
  | String c s' => if all_zeros s then "" else String c (trim_zeros s')
  | "" => ""
  end.

(** [u / 10^prec] without trailing zeros. *)
Definition fmt_frac (u : Z) (prec : nat) : string :=
  match trim_zeros (last_digits prec u "") with "" => "" | d => "." ++ d end.

Definition duration_String (d : Z) : string :=
  let u := Z.abs d in
  (if (d <? 0)%Z then "-" else "") ++
  (if (u =? 0)%Z then "0s"
   else if (u <? 10 ^ 3)%Z then Itoa u ++ "ns"
   else if (u <? 10 ^ 6)%Z then Itoa (u / 10 ^ 3) ++ fmt_frac u 3 ++ utf8 181 ++ "s"
   else if (u <? 10 ^ 9)%Z then Itoa (u / 10 ^ 6) ++ fmt_frac u 6 ++ "ms"
   else
     let s := (u / 10 ^ 9)%Z in
     let m := (s / 60)%Z in
     let h := (m / 60)%Z in
     (if (0 <? h)%Z then Itoa h ++ "h" else "") ++
     (if (0 <? m)%Z then Itoa (m mod 60) ++ "m" else "") ++
     Itoa (s mod 60) ++ fmt_frac u 9 ++ "s").

Example durations :
  duration_String <$> [0; 15; 1500; 2000000; 1500000000; 3723000000001]%Z =
  ["0s"; "15ns"; "1.5" ++ utf8 181 ++ "s"; "2ms"; "1.5s"; "1h2m3.000000001s"].
Proof. vm_compute. reflexivity. Qed.

(** ** ASCII text *)

Lemma code_bounds c : (0 <= code c < 256)%Z.
Proof. unfold code. pose proof (nat_ascii_bounded c). lia. Qed.

Lemma byte_code c : byte (code c) = c.
Proof. unfold byte, code. rewrite Nat2Z.id. apply ascii_nat_embedding. Qed.

Lemma code_byte n : (0 <= n < 256)%Z -> code (byte n) = n.
Proof. intros Hn. unfold byte, code. rewrite nat_ascii_embedding by lia. lia. Qed.

Lemma pieces_fuel_ascii n s :
  is_ascii s = true -> String.length s <= n ->
  pieces_fuel n s = (fun c => mkPiece (code c) true (str1 c)) <$> list_ascii_of_string s.
Proof.
  revert s. induction n as [|n IH]; intros [|c s] Ha Hn; cbn in Hn; try done; [lia|].
  unfold is_ascii in Ha. cbn [list_ascii_of_string forallb] in Ha. apply andb_prop in Ha as [Hc Hs].
  cbn [pieces_fuel list_ascii_of_string]. unfold decode_head. rewrite Hc. cbn [split_at].
  rewrite fmap_cons. by rewrite IH by (try done; lia).
Qed.

Lemma pieces_ascii s :
  is_ascii s = true -> pieces s = (fun c => mkPiece (code c) true (str1 c)) <$> list_ascii_of_string s.
Proof. intros Hs. by apply pieces_fuel_ascii. Qed.

Lemma runes_ascii s : is_ascii s = true -> runes s = code <$> list_ascii_of_string s.
Proof. intros Hs. unfold runes. rewrite pieces_ascii by done. by rewrite <- list_fmap_compose. Qed.

Lemma ValidString_ascii s : is_ascii s = true -> ValidString s = true.
Proof.
  intros Hs. unfold ValidString. rewrite pieces_ascii by done. induction (list_ascii_of_string s); [done|by cbn].
Qed.

(** ASCII text is decoded to itself. *)
Lemma encode_code c : (code c < 128)%Z -> encode (code c) = str1 c.
Proof.
  intros Hc. unfold encode, utf8, code in *. rewrite Nat2Z.id. rewrite bool_decide_eq_true_2 by lia.
  unfold chr. by rewrite ascii_nat_embedding.
Qed.

Lemma decode_text_ascii s : is_ascii s = true -> decode_text s = s.
Proof.
  intros Hs. unfold decode_text. rewrite runes_ascii by done. unfold of_runes, is_ascii in *.
  induction s as [|c s IH]; [done|]. cbn [list_ascii_of_string forallb] in *. apply andb_prop in Hs as [Hc Hs].
  rewrite !fmap_cons, encode_code by lia. specialize (IH Hs).
  destruct (list_ascii_of_string s) as [|d l] eqn:Hd.
  - cbn in IH. rewrite <- IH. done.
  - rewrite !fmap_cons in *. change (String.concat "" (?a :: ?b :: ?r)) with (a ++ "" ++ String.concat "" (b :: r)).
    by rewrite IH.
Qed.
