(* ===== verification/External.v ===== *)
(** * The packages the program imports and does not contain

    [shopspring/decimal], [google/uuid] and [google/btree] are third-party
    code: the model takes their operations as parameters (the operational
    classes [DecimalPkg], [UuidPkg], [BTreePkg]) and what the program relies on
    as the laws of [DecimalSpec], [UuidSpec] and [BTreeSpec].  [EnvPkg] is the
    environment: the readings of the clock and the identifiers [uuid.New]
    draws, as arbitrary streams.  The section at the end instantiates all of
    them with concrete functions, so that every theorem can be evaluated. *)

From Stdlib Require Import Ascii.
From S2P Require Import Prelude.
From S2P Require Import Float.

(** ** github.com/shopspring/decimal *)

Class DecimalPkg := {
  decimal : Type;
  decimal_Zero : decimal;
  decimal_NewFromInt : Z -> decimal;
  decimal_NewFromFloat : Z -> Z -> decimal;   (** of the literal [c / 10^n] *)
  decimal_NewFromString : string -> option decimal;
  decimal_String : decimal -> string;
  decimal_Add : decimal -> decimal -> decimal;
  decimal_Sub : decimal -> decimal -> decimal;
  decimal_Mul : decimal -> decimal -> decimal;
  decimal_Div : decimal -> decimal -> decimal;
  decimal_Abs : decimal -> decimal;
  decimal_Min : decimal -> decimal -> decimal;
  decimal_Equal : decimal -> decimal -> bool;
  decimal_LessThan : decimal -> decimal -> bool;
  decimal_LessThanOrEqual : decimal -> decimal -> bool;
  decimal_GreaterThan : decimal -> decimal -> bool;
  decimal_GreaterThanOrEqual : decimal -> decimal -> bool;
  decimal_IsZero : decimal -> bool;
  decimal_IsNegative : decimal -> bool;
}.

(** Digits, signs and points. *)
Fixpoint plain_text (s : string) : bool :=
  match s with
  | EmptyString => true
  | String c s' =>
      let n := nat_of_ascii c in
      (bool_decide (48 <= n <= 57) || bool_decide (n = 45) || bool_decide (n = 46)) && plain_text s'
  end.

(** The documented meaning: a [Decimal] is an arbitrary-precision number,
    addition, subtraction and multiplication are exact, a quotient has at least
    16 digits after the point, [String] prints a number that [NewFromString]
    reads back, and the comparisons compare the numbers ([1.0] and [1.00] are
    [Equal]).  A float64 becomes the
    shortest decimal that reads back as it, so a literal of at most 15 digits
    becomes itself. *)
Class DecimalSpec `{DecimalPkg} := {
  dval : decimal -> Q;
  dval_Zero : (dval decimal_Zero == 0)%Q;
  dval_NewFromInt z : (dval (decimal_NewFromInt z) == inject_Z z)%Q;
  dval_NewFromFloat c n : (0 <= n <= 22)%Z -> (Z.abs c < 10 ^ 15)%Z ->
    (dval (decimal_NewFromFloat c n) == inject_Z c / inject_Z (10 ^ n))%Q;
  dval_Add a b : (dval (decimal_Add a b) == dval a + dval b)%Q;
  dval_Sub a b : (dval (decimal_Sub a b) == dval a - dval b)%Q;
  dval_Mul a b : (dval (decimal_Mul a b) == dval a * dval b)%Q;
  dval_Div a b : ~ (dval b == 0)%Q ->
    (Qabs.Qabs (dval (decimal_Div a b) - dval a / dval b) <= 1 # 10 ^ 16)%Q;
  String_plain a : plain_text (decimal_String a) = true;
  NewFromString_String a :
    exists a', decimal_NewFromString (decimal_String a) = Some a' /\ (dval a' == dval a)%Q;
  dval_Abs a : (dval (decimal_Abs a) == Qabs.Qabs (dval a))%Q;
  dval_Min a b : (dval (decimal_Min a b) == Qminmax.Qmin (dval a) (dval b))%Q;
  Equal_spec a b : reflect (dval a == dval b)%Q (decimal_Equal a b);
  LessThan_spec a b : reflect (dval a < dval b)%Q (decimal_LessThan a b);
  LessThanOrEqual_spec a b : reflect (dval a <= dval b)%Q (decimal_LessThanOrEqual a b);
  GreaterThan_spec a b : reflect (dval b < dval a)%Q (decimal_GreaterThan a b);
  GreaterThanOrEqual_spec a b : reflect (dval b <= dval a)%Q (decimal_GreaterThanOrEqual a b);
  IsZero_spec a : reflect (dval a == 0)%Q (decimal_IsZero a);
  IsNegative_spec a : reflect (dval a < 0)%Q (decimal_IsNegative a);
}.

(** The float64 nearest to a decimal. *)
Class DecimalFloat `{DecimalPkg} := {
  decimal_InexactFloat64 : decimal -> Q;
}.

#[global] Instance decimal_inhabited `{DecimalPkg} : Inhabited decimal := populate decimal_Zero.

(** ** github.com/google/uuid *)

Class UuidPkg := {
  uuid : Type;
  uuid_EqDecision :: EqDecision uuid;
  uuid_Nil : uuid;
  uuid_String : uuid -> string;
  uuid_Parse : string -> option uuid;
}.

(** [String] prints the canonical form, and [Parse] reads it back. *)
Class UuidSpec `{UuidPkg} := {
  uuid_Parse_String u : uuid_Parse (uuid_String u) = Some u;
}.

#[global] Instance uuid_String_inj `{UuidSpec} : Inj (=) (=) uuid_String.
Proof.
  intros u v Huv. apply (f_equal uuid_Parse) in Huv.
  rewrite !uuid_Parse_String in Huv. by simplify_eq.
Qed.

#[global] Instance uuid_inhabited `{UuidPkg} : Inhabited uuid := populate uuid_Nil.

(** ** The environment: successive results of [time.Now] and [uuid.New] *)

Class EnvPkg `{UuidPkg} := {
  time_Now : nat -> Z;
  uuid_New : nat -> uuid;
}.

(** ** github.com/google/btree

    The items are compared with their [Less] method, so every operation takes
    it as an argument.  [btree_Ascend] is the sequence of items [Ascend] visits;
    [Descend] visits them in the opposite order. *)

Class BTreePkg := {
  btree : Type -> Type;
  btree_New {I} : nat -> btree I;
  btree_Get {I} : (I -> I -> bool) -> btree I -> I -> option I;
  btree_ReplaceOrInsert {I} : (I -> I -> bool) -> btree I -> I -> btree I;
  btree_Delete {I} : (I -> I -> bool) -> btree I -> I -> btree I;
  btree_Min {I} : btree I -> option I;
  btree_Max {I} : btree I -> option I;
  btree_Len {I} : btree I -> nat;
  btree_Ascend {I} : btree I -> list I;
  btree_Descend {I} : btree I -> list I;
}.

Section btree_spec.
Context {I : Type} (less : I -> I -> bool).

(** "If !a.Less(b) && !b.Less(a), we treat this to mean a == b." *)
Definition same_item (a b : I) : Prop := less a b = false /\ less b a = false.

#[global] Instance same_item_dec a b : Decision (same_item a b).
Proof. unfold same_item. apply _. Defined.

Definition item_lt (a b : I) : Prop := less a b = true.

(** "Less must provide a strict weak ordering." *)
Record strict_weak : Prop := {
  sw_irrefl a : less a a = false;
  sw_trans a b c : less a b = true -> less b c = true -> less a c = true;
  sw_incomp a b c : same_item a b -> same_item b c -> same_item a c;
}.

(** The ordered sequence after [ReplaceOrInsert]. *)
Fixpoint item_insert (x : I) (l : list I) : list I :=
  match l with
  | [] => [x]
  | y :: l' =>
      if less x y then x :: l
      else if less y x then y :: item_insert x l'
      else x :: l'
  end.
End btree_spec.

Class BTreeSpec `{BTreePkg} := {
  btree_Ascend_New {I} n : btree_Ascend (btree_New (I := I) n) = [];
  btree_Get_spec {I} (less : I -> I -> bool) t k :
    strict_weak less -> StronglySorted (item_lt less) (btree_Ascend t) ->
    btree_Get less t k = snd <$> list_find (same_item less k) (btree_Ascend t);
  btree_Ascend_ReplaceOrInsert {I} (less : I -> I -> bool) t x :
    strict_weak less -> StronglySorted (item_lt less) (btree_Ascend t) ->
    btree_Ascend (btree_ReplaceOrInsert less t x) = item_insert less x (btree_Ascend t);
  btree_Ascend_Delete {I} (less : I -> I -> bool) t k :
    strict_weak less -> StronglySorted (item_lt less) (btree_Ascend t) ->
    btree_Ascend (btree_Delete less t k) = filter (fun y => ~ same_item less k y) (btree_Ascend t);
  btree_Min_spec {I} (t : btree I) : btree_Min t = head (btree_Ascend t);
  btree_Max_spec {I} (t : btree I) : btree_Max t = last (btree_Ascend t);
  btree_Len_spec {I} (t : btree I) : btree_Len t = length (btree_Ascend t);
  btree_Descend_spec {I} (t : btree I) : btree_Descend t = reverse (btree_Ascend t);
}.

(** ** Decimal arithmetic as a setoid

    Decimals are compared by value: [deq] is the equality the program sees. *)

Definition deq `{DecimalSpec} : relation decimal := fun a b => (dval a == dval b)%Q.

Declare Scope decimal_scope.
Delimit Scope decimal_scope with dec.
Infix "≐" := deq (at level 70, no associativity) : decimal_scope.
#[global] Open Scope decimal_scope.

Section decimal_facts.
Context `{DecimalSpec}.
Local Open Scope Q_scope.

#[global] Instance deq_equiv : Equivalence deq.
Proof.
  split; unfold deq; repeat intro; [reflexivity|by symmetry|by etransitivity].
Qed.

#[global] Instance dval_proper : Proper (deq ==> Qeq) dval.
Proof. by intros a b Hab. Qed.

#[global] Instance Add_proper : Proper (deq ==> deq ==> deq) decimal_Add.
Proof. intros a b Hab c d Hcd. unfold deq in *. rewrite !dval_Add. by rewrite Hab, Hcd. Qed.

#[global] Instance Sub_proper : Proper (deq ==> deq ==> deq) decimal_Sub.
Proof. intros a b Hab c d Hcd. unfold deq in *. rewrite !dval_Sub. by rewrite Hab, Hcd. Qed.

#[global] Instance LessThan_proper : Proper (deq ==> deq ==> eq) decimal_LessThan.
Proof.
  intros a b Hab c d Hcd. unfold deq in *.
  destruct (LessThan_spec a c), (LessThan_spec b d); try done; exfalso; lra.
Qed.

Lemma dval_Min_l a b : dval a <= dval b -> dval (decimal_Min a b) == dval a.
Proof. intros. rewrite dval_Min. by apply Qminmax.Q.min_l. Qed.

Lemma dval_Min_r a b : dval b <= dval a -> dval (decimal_Min a b) == dval b.
Proof. intros. rewrite dval_Min. by apply Qminmax.Q.min_r. Qed.
End decimal_facts.

Create Rewrite HintDb dval.
#[export] Hint Rewrite @dval_Zero @dval_NewFromInt @dval_Add @dval_Sub @dval_Mul
  using typeclasses eauto : dval.

(** Push [dval] through the exact operations and decide the linear goal. *)
Ltac dlra := autorewrite with dval in *; lra.

(** Case analysis on a decimal comparison of the goal or the hypotheses. *)
Ltac case_decimal :=
  match goal with
  | |- context [decimal_Equal ?a ?b] => case_reflect (Equal_spec a b)
  | |- context [decimal_LessThan ?a ?b] => case_reflect (LessThan_spec a b)
  | |- context [decimal_LessThanOrEqual ?a ?b] => case_reflect (LessThanOrEqual_spec a b)
  | |- context [decimal_GreaterThan ?a ?b] => case_reflect (GreaterThan_spec a b)
  | |- context [decimal_GreaterThanOrEqual ?a ?b] => case_reflect (GreaterThanOrEqual_spec a b)
  | |- context [decimal_IsZero ?a] => case_reflect (IsZero_spec a)
  | |- context [decimal_IsNegative ?a] => case_reflect (IsNegative_spec a)
  end.

Ltac case_decimal_in H :=
  match type of H with
  | context [decimal_Equal ?a ?b] => case_reflect (Equal_spec a b)
  | context [decimal_LessThan ?a ?b] => case_reflect (LessThan_spec a b)
  | context [decimal_LessThanOrEqual ?a ?b] => case_reflect (LessThanOrEqual_spec a b)
  | context [decimal_GreaterThan ?a ?b] => case_reflect (GreaterThan_spec a b)
  | context [decimal_GreaterThanOrEqual ?a ?b] => case_reflect (GreaterThanOrEqual_spec a b)
  | context [decimal_IsZero ?a] => case_reflect (IsZero_spec a)
  | context [decimal_IsNegative ?a] => case_reflect (IsNegative_spec a)
  end.

(** ** Ordered sequences of items *)

Section item_facts.
Context {I : Type} (less : I -> I -> bool) (Hsw : strict_weak less).

Lemma item_insert_elem_of x y l :
  y ∈ item_insert less x l -> y = x \/ y ∈ l.
Proof.
  induction l as [|z l IH]; cbn; [set_solver|].
  destruct (less x z), (less z x); set_solver.
Qed.

Lemma sw_not_same_trans x y z : less x y = false -> same_item less x y -> less y z = true -> less x z = true.
Proof.
  intros _ Hxy Hyz. destruct (less x z) eqn:Hxz; [done|exfalso].
  destruct (less z x) eqn:Hzx.
  - pose proof (sw_trans _ Hsw _ _ _ Hyz Hzx). destruct Hxy; congruence.
  - assert (same_item less y z) as [? _]; [|congruence].
    apply (sw_incomp _ Hsw _ x); [by destruct Hxy|done].
Qed.

Lemma item_insert_sorted x l :
  StronglySorted (item_lt less) l -> StronglySorted (item_lt less) (item_insert less x l).
Proof.
  induction 1 as [|y l Hl IH Hy]; cbn; [repeat constructor|].
  rewrite Forall_forall in Hy. destruct (less x y) eqn:Hxy.
  - constructor; [by constructor; [|rewrite Forall_forall]|].
    rewrite Forall_forall. intros z [->|Hz]%elem_of_cons; [done|].
    by eapply sw_trans; [..|apply Hy].
  - destruct (less y x) eqn:Hyx; constructor; try done; rewrite Forall_forall; intros z Hz.
    + destruct (item_insert_elem_of _ _ _ Hz) as [->|?]; [done|by apply Hy].
    + apply (sw_not_same_trans x y z); [done|split; done|by apply Hy].
Qed.

(** Inserting an item no member is the same as keeps all the members. *)
Lemma item_insert_split x l :
  StronglySorted (item_lt less) l -> (forall y, y ∈ l -> ~ same_item less x y) ->
  exists l1 l2, l = l1 ++ l2 /\ item_insert less x l = l1 ++ x :: l2 /\
    (forall y, y ∈ l1 -> less y x = true) /\ (forall y, y ∈ l2 -> less x y = true).
Proof.
  induction 1 as [|y l Hl IH Hy]; cbn; intros Hne; [by exists [], []; set_solver|].
  rewrite Forall_forall in Hy. destruct (less x y) eqn:Hxy.
  - exists [], (y :: l). repeat split; [set_solver|].
    intros z [->|Hz]%elem_of_cons; [done|]. eapply sw_trans; [done..|by apply Hy].
  - destruct (less y x) eqn:Hyx.
    + destruct IH as (l1 & l2 & -> & -> & H1 & H2); [set_solver|].
      exists (y :: l1), l2. repeat split; set_solver.
    + destruct (Hne y); [set_solver|done].
Qed.

Lemma sorted_same_unique x y l :
  StronglySorted (item_lt less) l -> x ∈ l -> y ∈ l -> same_item less x y -> x = y.
Proof.
  induction 1 as [|z l Hl IH Hz]; [set_solver|]. rewrite Forall_forall in Hz.
  unfold item_lt in Hz.
  intros [->|Hx]%elem_of_cons [->|Hy]%elem_of_cons [Hxy Hyx]; try done.
  - rewrite Hz in Hxy; [done|done].
  - rewrite Hz in Hyx; [done|done].
  - by apply IH.
Qed.
End item_facts.

(** ** Concrete instances

    Rationals for decimals (not reduced, so that equality of values is coarser
    than equality of representations), strings for identifiers, sorted lists
    for the trees and the identity streams for the environment. *)

Module Concrete.
Definition Qltb (a b : Q) : bool := negb (Qle_bool b a).

(** A fraction as text, and back: the digits of numerator and denominator in
    base two, lowest first, which keeps the functions small. *)
Fixpoint pos_text (p : positive) (rest : string) : string :=
  match p with
  | xI p' => String "1" (pos_text p' rest)
  | xO p' => String "0" (pos_text p' rest)
  | xH => String "." rest
  end.

Fixpoint pos_read (s : string) : option (positive * string) :=
  match s with
  | String "1" s' => '(p, r) ← pos_read s'; Some (xI p, r)
  | String "0" s' => '(p, r) ← pos_read s'; Some (xO p, r)
  | String "." s' => Some (xH, s')
  | _ => None
  end.

Lemma pos_read_text p rest : pos_read (pos_text p rest) = Some (p, rest).
Proof. induction p as [p IH|p IH|]; cbn; rewrite ?IH; done. Qed.

Definition Q_String (a : Q) : string :=
  match Qnum a with
  | Z0 => "0"
  | Zpos p => String "1" (pos_text p (pos_text (Qden a) ""))
  | Zneg p => String "-" (pos_text p (pos_text (Qden a) ""))
  end.

Definition Q_of_string (s : string) : option Q :=
  match s with
  | String c r =>
      match pos_read r with
      | Some (n, r2) =>
          '(d, _) ← pos_read r2;
          Some (Qmake (match c with "-"%char => Zneg n | _ => Zpos n end) d)
      | None => match c with "0"%char => Some 0%Q | _ => None end
      end
  | EmptyString => None
  end.

Lemma Q_of_String a : exists a', Q_of_string (Q_String a) = Some a' /\ (a' == a)%Q.
Proof.
  destruct a as [[|n|n] d]; cbn -[pos_read]; rewrite ?pos_read_text; cbn -[pos_read];
    rewrite ?pos_read_text; eexists; (split; [reflexivity|]); reflexivity.
Qed.

Lemma pos_text_plain p rest : plain_text (pos_text p rest) = plain_text rest.
Proof. induction p as [p IH|p IH|]; cbn; rewrite ?IH; done. Qed.

Lemma Q_String_plain a : plain_text (Q_String a) = true.
Proof. destruct a as [[|n|n] d]; unfold Q_String; cbn [Qnum Qden]; [done|..]; cbn -[pos_text]; by rewrite !pos_text_plain. Qed.

#[export] Instance q_decimal : DecimalPkg := {|
  decimal := Q;
  decimal_Zero := 0%Q;
  decimal_NewFromInt := inject_Z;
  decimal_NewFromFloat c n := (inject_Z c / inject_Z (10 ^ n))%Q;
  decimal_NewFromString := Q_of_string;
  decimal_String := Q_String;
  decimal_Add a b := Qred (Qplus a b);
  decimal_Sub a b := Qred (Qminus a b);
  decimal_Mul a b := Qred (Qmult a b);
  decimal_Div a b := Qred (Qdiv a b);
  decimal_Abs := Qabs.Qabs;
  decimal_Min := Qminmax.Qmin;
  decimal_Equal := Qeq_bool;
  decimal_LessThan := Qltb;
  decimal_LessThanOrEqual := Qle_bool;
  decimal_GreaterThan a b := Qltb b a;
  decimal_GreaterThanOrEqual a b := Qle_bool b a;
  decimal_IsZero a := Qeq_bool a 0;
  decimal_IsNegative a := Qltb a 0;
|}.

Lemma Qeqb_reflect a b : reflect (a == b)%Q (Qeq_bool a b).
Proof. apply iff_reflect. symmetry. apply Qeq_bool_iff. Qed.
Lemma Qleb_reflect a b : reflect (a <= b)%Q (Qle_bool a b).
Proof. apply iff_reflect. symmetry. apply Qle_bool_iff. Qed.
Lemma Qltb_reflect a b : reflect (a < b)%Q (Qltb a b).
Proof. unfold Qltb. destruct (Qleb_reflect b a); constructor; lra. Qed.

Lemma Q_div_close a b : (Qabs.Qabs (Qred (a / b) - a / b) <= 1 # 10 ^ 16)%Q.
Proof.
  assert (Qred (a / b) - a / b == 0)%Q as Hz by (rewrite Qred_correct; ring).
  rewrite Hz. discriminate.
Qed.

#[export] Instance q_decimal_spec : DecimalSpec.
Proof.
  refine {| dval := fun x : @decimal q_decimal => (x : Q) |}; cbn; intros;
    first [ apply Qeqb_reflect | apply Qleb_reflect | apply Qltb_reflect
          | apply Qred_correct | apply Q_of_String | apply Q_String_plain | apply Q_div_close | reflexivity ].
Defined.

#[export] Instance q_float : DecimalFloat := {| decimal_InexactFloat64 := fround |}.

#[export] Instance string_uuid : UuidPkg := {|
  uuid := string;
  uuid_Nil := "";
  uuid_String u := u;
  uuid_Parse s := Some s;
|}.

#[export] Instance string_uuid_spec : UuidSpec.
Proof. by split. Qed.

#[export] Instance counter_env : EnvPkg := {|
  time_Now n := Z.of_nat n;
  uuid_New n := String.append "trade-" (pretty.pretty n);
|}.

#[export] Instance list_btree : BTreePkg := {|
  btree I := list I;
  btree_New _ _ := [];
  btree_Get _ less t k := snd <$> list_find (same_item less k) t;
  btree_ReplaceOrInsert _ less t x := item_insert less x t;
  btree_Delete _ less t k := filter (fun y => ~ same_item less k y) t;
  btree_Min _ t := head t;
  btree_Max _ t := last t;
  btree_Len _ t := length t;
  btree_Ascend _ t := t;
  btree_Descend _ t := reverse t;
|}.

#[export] Instance list_btree_spec : BTreeSpec.
Proof. by split. Qed.
End Concrete.
