(* ===== verification/Models.v ===== *)
(** * Orders (src/models/order.go)

    The order record and its methods.  A method that assigns through the
    receiver is a function from the old order to the new one; the reading of
    [time.Now] it makes is an argument. *)

From S2P Require Import Prelude.
From S2P Require Import External.

Section models.
Context `{DecimalPkg, UuidPkg}.

(** Go's defined string types, with their constants. *)
Definition OrderSideBuy : string := "buy".
Definition OrderSideSell : string := "sell".

Definition OrderTypeLimit : string := "limit".
Definition OrderTypeMarket : string := "market".

Definition OrderStatusOpen : string := "open".
Definition OrderStatusPartiallyFilled : string := "partially_filled".
Definition OrderStatusFilled : string := "filled".
Definition OrderStatusCancelled : string := "cancelled".
Definition OrderStatusRejected : string := "rejected".

Record Order := mkOrder {
  oID : uuid;
  oClientID : string;
  oInstrument : string;
  oSide : string;
  oType : string;
  oPrice : decimal;
  oQuantity : decimal;
  oFilledQuantity : decimal;
  oStatus : string;
  oCreatedAt : Z;
  oUpdatedAt : Z;
}.

#[global] Instance order_inhabited : Inhabited Order :=
  populate (mkOrder uuid_Nil "" "" "" "" decimal_Zero decimal_Zero decimal_Zero "" 0 0).

(** Assignments to one field. *)
Definition set_oFilledQuantity (o : Order) (q : decimal) : Order :=
  mkOrder (oID o) (oClientID o) (oInstrument o) (oSide o) (oType o) (oPrice o)
    (oQuantity o) q (oStatus o) (oCreatedAt o) (oUpdatedAt o).
Definition set_oStatus (o : Order) (st : string) : Order :=
  mkOrder (oID o) (oClientID o) (oInstrument o) (oSide o) (oType o) (oPrice o)
    (oQuantity o) (oFilledQuantity o) st (oCreatedAt o) (oUpdatedAt o).
Definition set_oUpdatedAt (o : Order) (t : Z) : Order :=
  mkOrder (oID o) (oClientID o) (oInstrument o) (oSide o) (oType o) (oPrice o)
    (oQuantity o) (oFilledQuantity o) (oStatus o) (oCreatedAt o) t.

Definition NewOrder (id : uuid) (now : Z) (clientID instrument side orderType : string)
    (price quantity : decimal) : Order := {|
  oID := id;
  oClientID := clientID;
  oInstrument := instrument;
  oSide := side;
  oType := orderType;
  oPrice := price;
  oQuantity := quantity;
  oFilledQuantity := decimal_Zero;
  oStatus := OrderStatusOpen;
  oCreatedAt := now;
  oUpdatedAt := now;
|}.

Definition IsValid (o : Order) : bool :=
  if bool_decide (oClientID o = "") || bool_decide (oInstrument o = "") then false
  else if bool_decide (oSide o <> OrderSideBuy) && bool_decide (oSide o <> OrderSideSell) then false
  else if bool_decide (oType o <> OrderTypeLimit) && bool_decide (oType o <> OrderTypeMarket) then false
  else if decimal_LessThanOrEqual (oQuantity o) decimal_Zero then false
  else if bool_decide (oType o = OrderTypeLimit) && decimal_LessThanOrEqual (oPrice o) decimal_Zero then false
  else if decimal_GreaterThan (oFilledQuantity o) (oQuantity o) then false
  else true.

Definition RemainingQuantity (o : Order) : decimal :=
  decimal_Sub (oQuantity o) (oFilledQuantity o).

Definition IsFilled (o : Order) : bool :=
  decimal_Equal (oFilledQuantity o) (oQuantity o).

Definition IsPartiallyFilled (o : Order) : bool :=
  decimal_GreaterThan (oFilledQuantity o) decimal_Zero
  && decimal_LessThan (oFilledQuantity o) (oQuantity o).

Definition CanBeFilled (o : Order) : bool :=
  bool_decide (oStatus o = OrderStatusOpen) || bool_decide (oStatus o = OrderStatusPartiallyFilled).

(** The status an order takes from its filled quantity, shared by
    [Order.Fill] and [OrderBook.UpdateOrder]. *)
Definition refresh_status (o : Order) : Order :=
  if IsFilled o then set_oStatus o OrderStatusFilled
  else if IsPartiallyFilled o then set_oStatus o OrderStatusPartiallyFilled
  else o.

Definition Fill (now : Z) (quantity : decimal) (o : Order) : Order :=
  refresh_status
    (set_oUpdatedAt (set_oFilledQuantity o (decimal_Add (oFilledQuantity o) quantity)) now).

Definition Cancel (now : Z) (o : Order) : Order :=
  set_oUpdatedAt (set_oStatus o OrderStatusCancelled) now.

Definition Reject (now : Z) (o : Order) : Order :=
  set_oUpdatedAt (set_oStatus o OrderStatusRejected) now.
End models.

#[global] Instance: Params (@RemainingQuantity) 2 := {}.

(** ** Facts *)

(** Two orders that differ at most in how much is filled, in the status and
    in the time of the last update: what matching may change. *)
Record same_terms `{DecimalPkg, UuidPkg} (o o' : Order) : Prop := {
  st_ID : oID o' = oID o;
  st_ClientID : oClientID o' = oClientID o;
  st_Instrument : oInstrument o' = oInstrument o;
  st_Side : oSide o' = oSide o;
  st_Type : oType o' = oType o;
  st_Price : oPrice o' = oPrice o;
  st_Quantity : oQuantity o' = oQuantity o;
  st_CreatedAt : oCreatedAt o' = oCreatedAt o;
}.

#[global] Instance same_terms_preorder `{DecimalPkg, UuidPkg} : PreOrder same_terms.
Proof.
  split; [by constructor|]. intros o1 o2 o3 [] []; constructor; congruence.
Qed.

(** An order the matching loops may consume: something is left to fill. *)
Definition fillable `{DecimalSpec, UuidPkg} (o : Order) : Prop :=
  (0 <= dval (oFilledQuantity o) /\ dval (oFilledQuantity o) < dval (oQuantity o))%Q.

(** The value of the remaining quantity. *)
Definition rem_val `{DecimalSpec, UuidPkg} (o : Order) : Q :=
  (dval (oQuantity o) - dval (oFilledQuantity o))%Q.

Section facts.
Context `{DecimalSpec, UuidPkg}.
Local Open Scope Q_scope.

Lemma dval_Remaining o : dval (RemainingQuantity o) == rem_val o.
Proof. unfold RemainingQuantity, rem_val. by rewrite dval_Sub. Qed.

Lemma refresh_status_terms o : same_terms o (refresh_status o).
Proof. unfold refresh_status. repeat case_match; by constructor. Qed.

Lemma refresh_status_filled o : oFilledQuantity (refresh_status o) = oFilledQuantity o.
Proof. unfold refresh_status. by repeat case_match. Qed.

Lemma Fill_terms now q o : same_terms o (Fill now q o).
Proof.
  unfold Fill. etransitivity; [|apply refresh_status_terms]. by constructor.
Qed.

Lemma Fill_filled now q o : oFilledQuantity (Fill now q o) = decimal_Add (oFilledQuantity o) q.
Proof. unfold Fill. by rewrite refresh_status_filled. Qed.

Lemma Fill_rem_val now q o : rem_val (Fill now q o) == rem_val o - dval q.
Proof.
  unfold rem_val. rewrite (st_Quantity _ _ (Fill_terms now q o)), Fill_filled. dlra.
Qed.

Lemma IsFilled_spec o : reflect (rem_val o == 0) (IsFilled o).
Proof.
  unfold IsFilled, rem_val.
  destruct (Equal_spec (oFilledQuantity o) (oQuantity o)); constructor; lra.
Qed.

Lemma refresh_status_live o :
  0 < dval (oFilledQuantity o) -> dval (oFilledQuantity o) < dval (oQuantity o) ->
  oStatus (refresh_status o) = OrderStatusPartiallyFilled.
Proof.
  intros Hpos Hlt. unfold refresh_status, IsFilled, IsPartiallyFilled.
  case_decimal; [lra|]. case_decimal; [|dlra]. case_decimal; [done|dlra].
Qed.

(** The orders [IsValid] lets through. *)
Record valid_order o : Prop := {
  vo_client : oClientID o <> "";
  vo_instrument : oInstrument o <> "";
  vo_side : oSide o = OrderSideBuy \/ oSide o = OrderSideSell;
  vo_type : oType o = OrderTypeLimit \/ oType o = OrderTypeMarket;
  vo_quantity : 0 < dval (oQuantity o);
  vo_price : oType o = OrderTypeLimit -> 0 < dval (oPrice o);
  vo_filled : dval (oFilledQuantity o) <= dval (oQuantity o);
}.

Lemma IsValid_spec o : reflect (valid_order o) (IsValid o).
Proof.
  unfold IsValid. pose proof dval_Zero as Hz.
  destruct (bool_decide_reflect (oClientID o = "")) as [|Hc]; [constructor; by intros []|].
  destruct (bool_decide_reflect (oInstrument o = "")) as [|Hi]; [constructor; by intros []|]. cbn [orb].
  destruct (bool_decide (oSide o <> OrderSideBuy) && bool_decide (oSide o <> OrderSideSell)) eqn:Hs.
  { apply andb_true_iff in Hs as [Hs1%bool_decide_eq_true Hs2%bool_decide_eq_true].
    constructor. intros []. naive_solver. }
  destruct (bool_decide (oType o <> OrderTypeLimit) && bool_decide (oType o <> OrderTypeMarket)) eqn:Ht.
  { apply andb_true_iff in Ht as [Ht1%bool_decide_eq_true Ht2%bool_decide_eq_true].
    constructor. intros []. naive_solver. }
  destruct (LessThanOrEqual_spec (oQuantity o) decimal_Zero) as [Hq|Hq]; [constructor; intros []; lra|].
  destruct (bool_decide_reflect (oType o = OrderTypeLimit)) as [Hl|Hl]; cbn [andb].
  1: destruct (LessThanOrEqual_spec (oPrice o) decimal_Zero) as [Hp|Hp];
    [constructor; intros []; specialize (vo_price0 Hl); lra|].
  all: destruct (GreaterThan_spec (oFilledQuantity o) (oQuantity o)) as [Hf|Hf];
    [constructor; intros []; lra|].
  all: constructor; apply andb_false_iff in Hs; apply andb_false_iff in Ht;
    rewrite !bool_decide_eq_false in Hs, Ht; split; try done; try lra; try (intros; lra).
  all: destruct (decide (oSide o = OrderSideBuy)), (decide (oSide o = OrderSideSell));
    destruct (decide (oType o = OrderTypeLimit)), (decide (oType o = OrderTypeMarket)); tauto.
Qed.

Lemma IsFilled_set_status o st : IsFilled (set_oStatus o st) = IsFilled o.
Proof. done. Qed.

(** Refreshing the status twice, or assigning the filled quantity an order
    already has, changes nothing. *)
Lemma refresh_status_idem o : refresh_status (refresh_status o) = refresh_status o.
Proof.
  unfold refresh_status at 2 3. destruct (IsFilled o) eqn:Hf; [|destruct (IsPartiallyFilled o) eqn:Hp].
  - unfold refresh_status. by rewrite IsFilled_set_status, Hf.
  - unfold refresh_status. rewrite IsFilled_set_status, Hf.
    change (IsPartiallyFilled (set_oStatus o ?st)) with (IsPartiallyFilled o). by rewrite Hp.
  - unfold refresh_status. by rewrite Hf, Hp.
Qed.

Lemma set_filled_id o : set_oFilledQuantity o (oFilledQuantity o) = o.
Proof. by destruct o. Qed.

Lemma Fill_refreshed now q o :
  refresh_status (set_oFilledQuantity (Fill now q o) (oFilledQuantity (Fill now q o))) = Fill now q o.
Proof. rewrite set_filled_id. unfold Fill. apply refresh_status_idem. Qed.

Lemma rem_val_pos o : 0 < rem_val o <-> dval (oFilledQuantity o) < dval (oQuantity o).
Proof. unfold rem_val. lra. Qed.

(** The loop guard [RemainingQuantity().GreaterThan(decimal.Zero)]. *)
Lemma remaining_pos_spec o :
  reflect (0 < rem_val o) (decimal_GreaterThan (RemainingQuantity o) decimal_Zero).
Proof.
  destruct (GreaterThan_spec (RemainingQuantity o) decimal_Zero) as [Hlt|Hge]; constructor;
    rewrite dval_Remaining, dval_Zero in *; done.
Qed.
End facts.

#[export] Hint Resolve Fill_terms refresh_status_terms : book.
