(* ===== verification/Sql.v ===== *)
(** * database/sql and PostgreSQL as the program uses them

    Errors as the values Go code passes around, [errors.Is], [fmt.Errorf] with
    a wrapped cause, and the server: what its column types make of the text the
    program sends is a parameter ([PgPkg]) with the documented behaviour as its
    laws ([PgSpec]).  [GzipPkg] is compress/gzip, of which the program needs
    only that its output is a gzip stream. *)

From Stdlib Require Import Ascii.
From S2P Require Import Prelude.
From S2P Require Import Json.
From S2P Require Import Text.
From S2P Require Import External.

(** ** Errors *)

Inductive error :=
  | ErrText (msg : string)              (** [errors.New], or [fmt.Errorf] without a cause *)
  | ErrNoRows                           (** [sql.ErrNoRows] *)
  | ErrPq (code msg : string)           (** [*pq.Error] *)
  | ErrContext (msg : string)           (** [ctx.Err()] *)
  | ErrDeadlock
  | ErrSerializationFailure
  | ErrConnectionFailure
  | ErrWrap (prefix : string) (cause : error).   (** [fmt.Errorf("prefix: %w", cause)] *)

#[global] Instance error_eq_dec : EqDecision error.
Proof. solve_decision. Defined.

Fixpoint err_Error (e : error) : string :=
  match e with
  | ErrText msg => msg
  | ErrNoRows => "sql: no rows in result set"
  | ErrPq _ msg => "pq: " +:+ msg
  | ErrContext msg => msg
  | ErrDeadlock => "deadlock detected"
  | ErrSerializationFailure => "serialization failure"
  | ErrConnectionFailure => "connection failure"
  | ErrWrap p e' => p +:+ ": " +:+ err_Error e'
  end.

(** [errors.Is]: the error itself or one it wraps. *)
Fixpoint errors_Is (e target : error) : bool :=
  bool_decide (e = target) ||
  match e with
  | ErrWrap _ e' => errors_Is e' target
  | _ => false
  end.

(** A result with Go's [(value, error)] convention. *)
Definition result (A : Type) : Type := error + A.

(** The element of a row set: [rows.Scan] fails on a value the target cannot
    hold, such as NULL for a string. *)
Definition scan_null : error := ErrText "converting NULL to string is unsupported".

(** ** Column types *)

Class PgPkg `{DecimalPkg} := {
  numeric_in : string -> option decimal;   (** into NUMERIC(20, 8); [None] is an error *)
  numeric_out : decimal -> string;         (** the text the driver returns *)
  jsonb_in : string -> option string;      (** into JSONB, as the text it gives back *)
}.

(** Two documents that JSONB does not tell apart: it keeps the last of the
    members with the same key, in an order of its own, and normalises numbers. *)
Inductive json_equiv : json -> json -> Prop :=
  | je_refl j : json_equiv j j
  | je_num l l' q q' : number_value l = Some q -> number_value l' = Some q' -> (q == q')%Q ->
      json_equiv (JNum l) (JNum l')
  | je_arr l l' : Forall2 json_equiv l l' -> json_equiv (JArr l) (JArr l')
  | je_obj m m' :
      (forall k, option_Forall2 json_equiv (json_get (JObj m) k) (json_get (JObj m') k)) ->
      json_equiv (JObj m) (JObj m').

(** JSONB rejects the character U+0000. *)
Fixpoint nul_free_text (s : string) : bool :=
  match s with
  | EmptyString => true
  | String c s' => negb (bool_decide (nat_of_ascii c = 0)) && nul_free_text s'
  end.
Fixpoint nul_free (j : json) : bool :=
  match j with
  | JStr s => nul_free_text s
  | JArr l => forallb nul_free l
  | JObj m => forallb (fun kv => nul_free_text kv.1 && nul_free kv.2) m
  | _ => true
  end.

(** What NUMERIC(20, 8) holds exactly: at most eight digits after the point
    and twelve before it. *)
Definition numeric_fits (q : Q) : Prop :=
  exists z, (q == inject_Z z / inject_Z (10 ^ 8))%Q /\ (Z.abs z < 10 ^ 20)%Z.

Class PgSpec `{DecimalSpec, !PgPkg} := {
  numeric_in_String d : numeric_fits (dval d) ->
    exists d', numeric_in (decimal_String d) = Some d' /\ (dval d' == dval d)%Q;
  NewFromString_numeric_out d :
    exists d', decimal_NewFromString (numeric_out d) = Some d' /\ (dval d' == dval d)%Q;
  jsonb_in_valid t j : json_Unmarshal t = Some j -> nul_free j = true ->
    exists t' j', jsonb_in t = Some t' /\ json_Unmarshal t' = Some j' /\ json_equiv j j';
  jsonb_in_invalid t : json_Unmarshal t = None -> jsonb_in t = None;
}.

(** VARCHAR(n): the length in characters. *)
Definition varchar_ok (n : nat) (s : string) : bool := bool_decide (length (runes s) <= n).

(** ** compress/gzip *)

Class GzipPkg := {
  gzip_Write : string -> option string;   (** the bytes after [Close]; [None] is an error of [Write] *)
}.

(** RFC 1952: a member starts with the bytes 31 and 139. *)
Class GzipSpec `{GzipPkg} := {
  gzip_magic s z : gzip_Write s = Some z -> exists r, z = String (chr 31) (String (chr 139) r);
}.

(** ** Facts *)

Lemma json_equiv_get j j' k : json_equiv j j' -> option_Forall2 json_equiv (json_get j k) (json_get j' k).
Proof.
  destruct 1 as [j|l l'|l l'|m m' Hm]; [|constructor..|apply Hm].
  destruct (json_get j k); constructor. apply je_refl.
Qed.

Lemma json_equiv_get_some j j' k x : json_equiv j j' -> json_get j k = Some x ->
  exists y, json_get j' k = Some y /\ json_equiv x y.
Proof.
  intros Hj Hx. pose proof (json_equiv_get _ _ k Hj) as Hk. rewrite Hx in Hk.
  inversion Hk; subst. eauto.
Qed.

(** What the reader of a document can observe of an equivalent one. *)
Lemma json_equiv_str s j : json_equiv (JStr s) j -> j = JStr s.
Proof. by inversion 1. Qed.

Lemma json_equiv_arr l j : json_equiv (JArr l) j -> exists l', j = JArr l' /\ Forall2 json_equiv l l'.
Proof.
  inversion 1; subst; eexists; split; try done. apply Forall2_same_length_lookup. split; [done|].
  intros i x y Hx Hy. simplify_eq. constructor.
Qed.

Lemma json_equiv_obj m j : json_equiv (JObj m) j -> exists m', j = JObj m'.
Proof. inversion 1; eauto. Qed.

Lemma json_equiv_num l q j : json_equiv (JNum l) j -> number_value l = Some q ->
  exists l' q', j = JNum l' /\ number_value l' = Some q' /\ (q' == q)%Q.
Proof.
  inversion 1; subst; intros Hq; [by exists l, q|]. simplify_eq. eexists _, _. split_and!; [done..|].
  by symmetry.
Qed.

(** A gzip stream is not a JSON text. *)
Lemma gzip_not_json `{GzipSpec} s z : gzip_Write s = Some z -> json_Unmarshal z = None.
Proof. intros [r ->]%gzip_magic. reflexivity. Qed.

Lemma plain_nul_free s : plain_text s = true -> nul_free_text s = true.
Proof.
  induction s as [|c s IH]; cbn; [done|]. intros [Hc Hs]%andb_true_iff. rewrite IH by done.
  destruct (bool_decide_reflect (nat_of_ascii c = 0)) as [Hz|]; [|done]. by rewrite Hz in Hc.
Qed.

(** ** Concrete instances *)

Module ConcretePg.
Import Concrete.

(** Rounding to eight digits, and the range check. *)
Definition numeric_of (q : Q) : option Q :=
  let z := Float.rne (q * inject_Z (10 ^ 8))%Q in
  if (Z.abs z <? 10 ^ 20)%Z then Some (Qred (inject_Z z / inject_Z (10 ^ 8))%Q) else None.

#[export] Instance q_pg : PgPkg := {|
  numeric_in s := q ← Q_of_string s; numeric_of q;
  numeric_out := Q_String;
  jsonb_in t := match json_Unmarshal t with Some _ => Some t | None => None end;
|}.

Lemma numeric_of_fits (q q' : Q) : numeric_fits q -> (q' == q)%Q ->
  exists d, numeric_of q' = Some d /\ (d == q)%Q.
Proof.
  intros (z & Hq & Hz) Hq'. unfold numeric_of.
  assert (Float.rne (q' * inject_Z (10 ^ 8)) = z) as ->.
  { apply Float.rne_eq_Z. rewrite Hq', Hq. field. discriminate. }
  destruct (Z.ltb_spec (Z.abs z) (10 ^ 20)); [|lia]. eexists. split; [done|].
  by rewrite Qred_correct, Hq.
Qed.

#[export] Instance q_pg_spec : PgSpec.
Proof.
  split.
  - intros d Hd. cbn. destruct (Q_of_String d) as (q & -> & Hq). cbn. by apply numeric_of_fits.
  - intros d. apply Q_of_String.
  - intros t j Hj _. exists t, j. cbn -[json_Unmarshal]. rewrite Hj. split_and!; [done..|]. constructor.
  - intros t Ht. cbn -[json_Unmarshal]. by rewrite Ht.
Qed.

(** A stream of the right length is all that is needed: a header and, for
    every eight bytes, one. *)
Fixpoint squeeze (s : string) : string :=
  match s with
  | String a (String _ (String _ (String _ (String _ (String _ (String _ (String _ s'))))))) => String a (squeeze s')
  | _ => s
  end.
#[export] Instance q_gzip : GzipPkg := {|
  gzip_Write s := Some (String (chr 31) (String (chr 139) (squeeze s)));
|}.

#[export] Instance q_gzip_spec : GzipSpec.
Proof. split. intros s z Hz. cbn in Hz. simplify_eq. eauto. Qed.
End ConcretePg.
