(* ===== verification/OrderBook.v ===== *)
(** * The order book (src/engine/orderbook.go)

    Orders and price levels live in a shared store and are named by
    references, as the pointers of the code are: the matching loops, the
    location map and the callers of the book all hold the same [*Order].  A
    method is a function of the store and the book that returns the new ones.
    Every method holds [ob.mu] for its whole body, so each is one atomic step.

    A level's queue is a [container/list]: [PushBack] appends a fresh element,
    [Remove] drops the element if the list holds it, [Next] is the successor
    in the list as it is now. *)

From S2P Require Import Prelude.
From S2P Require Import External.
From S2P Require Import Models.

Section orderbook.
Context `{DecimalPkg, UuidPkg, BTreePkg}.

(** ** The store *)

Definition oref : Type := nat.
Definition lref : Type := nat.

Record Element := mkElement { elem_id : nat; elem_Value : oref }.

#[global] Instance element_eq_dec : EqDecision Element.
Proof. solve_decision. Defined.

Record PriceLevel := mkPriceLevel {
  plPrice : decimal;
  plOrders : list Element;
  plVolume : decimal;
}.

#[global] Instance pricelevel_inhabited : Inhabited PriceLevel :=
  populate (mkPriceLevel decimal_Zero [] decimal_Zero).

Record Store := mkStore {
  orders : gmap nat Order;
  levels : gmap nat PriceLevel;
  next : nat;
  clock : nat;
  uuids : nat;
}.

Definition emptyStore : Store := mkStore ∅ ∅ 0 0 0.

Definition get_order (s : Store) (r : oref) : Order := orders s !!! r.
Definition get_level (s : Store) (r : lref) : PriceLevel := levels s !!! r.

Definition set_order (s : Store) (r : oref) (o : Order) : Store :=
  mkStore (<[r := o]> (orders s)) (levels s) (next s) (clock s) (uuids s).
Definition set_level (s : Store) (r : lref) (pl : PriceLevel) : Store :=
  mkStore (orders s) (<[r := pl]> (levels s)) (next s) (clock s) (uuids s).

(** [&models.Order{...}] and the other allocations draw a fresh reference. *)
Definition alloc (s : Store) : nat * Store :=
  (next s, mkStore (orders s) (levels s) (S (next s)) (clock s) (uuids s)).
Definition alloc_order (s : Store) (o : Order) : oref * Store :=
  let '(r, s1) := alloc s in (r, set_order s1 r o).

(** One reading of [time.Now], one draw of [uuid.New]. *)
Definition read_clock `{!EnvPkg} (s : Store) : Z * Store :=
  (time_Now (clock s), mkStore (orders s) (levels s) (next s) (S (clock s)) (uuids s)).
Definition draw_uuid `{!EnvPkg} (s : Store) : uuid * Store :=
  (uuid_New (uuids s), mkStore (orders s) (levels s) (next s) (clock s) (S (uuids s))).

(** ** Price levels *)

Definition NewPriceLevel (price : decimal) (s : Store) : lref * Store :=
  let '(r, s1) := alloc s in
  (r, set_level s1 r (mkPriceLevel price [] decimal_Zero)).

(** [list.PushBack] on the level's queue. *)
Definition PushBack (s : Store) (pl : lref) (order : oref) : Element * Store :=
  let '(i, s1) := alloc s in
  let e := mkElement i order in
  let l := get_level s1 pl in
  (e, set_level s1 pl (mkPriceLevel (plPrice l) (plOrders l ++ [e]) (plVolume l))).

(** [list.Remove]: a no-op when the list does not hold the element. *)
Definition list_Remove (s : Store) (pl : lref) (e : Element) : Store :=
  let l := get_level s pl in
  set_level s pl (mkPriceLevel (plPrice l)
    (filter (fun e' => elem_id e' <> elem_id e) (plOrders l)) (plVolume l)).

(** [element.Next()]. *)
Fixpoint list_Next (l : list Element) (e : Element) : option Element :=
  match l with
  | [] => None
  | e' :: l' => if bool_decide (elem_id e' = elem_id e) then head l' else list_Next l' e
  end.

Definition set_plVolume (s : Store) (pl : lref) (v : decimal) : Store :=
  let l := get_level s pl in
  set_level s pl (mkPriceLevel (plPrice l) (plOrders l) v).

Definition PriceLevel_AddOrder (s : Store) (pl : lref) (order : oref) : Element * Store :=
  let '(element, s1) := PushBack s pl order in
  let v := decimal_Add (plVolume (get_level s1 pl)) (RemainingQuantity (get_order s1 order)) in
  (element, set_plVolume s1 pl v).

Definition PriceLevel_RemoveOrder (s : Store) (pl : lref) (element : option Element) : Store :=
  match element with
  | None => s
  | Some e =>
      let order := get_order s (elem_Value e) in
      let s1 := set_plVolume s pl (decimal_Sub (plVolume (get_level s pl)) (RemainingQuantity order)) in
      list_Remove s1 pl e
  end.

(** The loop that adds up the remaining quantities of a queue. *)
Definition sum_remaining (s : Store) (v : decimal) (l : list Element) : decimal :=
  foldl (fun v e => decimal_Add v (RemainingQuantity (get_order s (elem_Value e)))) v l.

Definition UpdateVolume (s : Store) (pl : lref) : Store :=
  set_plVolume s pl (sum_remaining s decimal_Zero (plOrders (get_level s pl))).

Definition IsEmpty (s : Store) (pl : lref) : bool :=
  bool_decide (length (plOrders (get_level s pl)) = 0).

(** ** One side of the book

    The tree holds [*PriceLevel] items ordered by [Price]; the field is
    assigned once, at construction, so the item carries it with the
    reference. *)

Record LevelPtr := mkLevelPtr { lpPrice : decimal; lpRef : lref }.

Definition Less (pl other : LevelPtr) : bool := decimal_LessThan (lpPrice pl) (lpPrice other).

Definition OrderBookSide : Type := btree LevelPtr.

Definition NewOrderBookSide : OrderBookSide := btree_New 32.

(** [&PriceLevel{Price: price}]: a key to search the tree with. *)
Definition searchLevel (price : decimal) : LevelPtr := mkLevelPtr price 0.

Definition GetOrCreatePriceLevel (s : Store) (obs : OrderBookSide) (price : decimal)
    : lref * Store * OrderBookSide :=
  match btree_Get Less obs (searchLevel price) with
  | Some item => (lpRef item, s, obs)
  | None =>
      let '(newLevel, s1) := NewPriceLevel price s in
      (newLevel, s1, btree_ReplaceOrInsert Less obs (mkLevelPtr price newLevel))
  end.

Definition GetPriceLevel (obs : OrderBookSide) (price : decimal) : option lref :=
  lpRef <$> btree_Get Less obs (searchLevel price).

Definition RemovePriceLevel (obs : OrderBookSide) (price : decimal) : OrderBookSide :=
  btree_Delete Less obs (searchLevel price).

Definition GetBestPrice (obs : OrderBookSide) (isBid : bool) : option LevelPtr :=
  if isBid then btree_Max obs else btree_Min obs.

(** [btree.ItemIterator]: the callback updates the captured variables and
    says whether to go on. *)
Fixpoint iterate {St} (iterator : LevelPtr -> St -> St * bool) (items : list LevelPtr) (st : St) : St :=
  match items with
  | [] => st
  | item :: items' =>
      let '(st', continue) := iterator item st in
      if continue then iterate iterator items' st' else st'
  end.

Definition Ascend {St} (obs : OrderBookSide) (iterator : LevelPtr -> St -> St * bool) : St -> St :=
  iterate iterator (btree_Ascend obs).
Definition Descend {St} (obs : OrderBookSide) (iterator : LevelPtr -> St -> St * bool) : St -> St :=
  iterate iterator (btree_Descend obs).

Definition side_Len (obs : OrderBookSide) : nat := btree_Len obs.

(** ** The book *)

Record OrderLocation := mkOrderLocation { locPriceLevel : lref; locElement : Element }.

Record OrderBook := mkOrderBook {
  obInstrument : string;
  Bids : OrderBookSide;
  Asks : OrderBookSide;
  obOrders : gmap string OrderLocation;
}.

Definition NewOrderBook (instrument : string) : OrderBook :=
  mkOrderBook instrument NewOrderBookSide NewOrderBookSide ∅.

(** The side variable of the methods: [ob.Bids] or [ob.Asks]. *)
Definition get_side (ob : OrderBook) (isBid : bool) : OrderBookSide :=
  if isBid then Bids ob else Asks ob.
Definition set_side (ob : OrderBook) (isBid : bool) (obs : OrderBookSide) : OrderBook :=
  if isBid then mkOrderBook (obInstrument ob) obs (Asks ob) (obOrders ob)
  else mkOrderBook (obInstrument ob) (Bids ob) obs (obOrders ob).
Definition set_obOrders (ob : OrderBook) (m : gmap string OrderLocation) : OrderBook :=
  mkOrderBook (obInstrument ob) (Bids ob) (Asks ob) m.

Definition is_buy (o : Order) : bool := bool_decide (oSide o = OrderSideBuy).

Definition AddOrder (s : Store) (ob : OrderBook) (order : oref) : Store * OrderBook :=
  let o := get_order s order in
  let isBid := is_buy o in
  let '(priceLevel, s1, side') := GetOrCreatePriceLevel s (get_side ob isBid) (oPrice o) in
  let ob1 := set_side ob isBid side' in
  let '(element, s2) := PriceLevel_AddOrder s1 priceLevel order in
  (s2, set_obOrders ob1 (<[uuid_String (oID o) := mkOrderLocation priceLevel element]> (obOrders ob1))).

Definition AddLimitOrder (s : Store) (ob : OrderBook) (order : oref)
    : option oref * Store * OrderBook :=
  let o := get_order s order in
  if bool_decide (oType o <> OrderTypeLimit) then (None, s, ob)
  else
    let isBid := is_buy o in
    let '(priceLevel, s1, side') := GetOrCreatePriceLevel s (get_side ob isBid) (oPrice o) in
    let ob1 := set_side ob isBid side' in
    let '(element, s2) := PriceLevel_AddOrder s1 priceLevel order in
    let ob2 := set_obOrders ob1
      (<[uuid_String (oID o) := mkOrderLocation priceLevel element]> (obOrders ob1)) in
    let s3 := if bool_decide (oStatus (get_order s2 order) = "")
              then set_order s2 order (set_oStatus (get_order s2 order) OrderStatusOpen)
              else s2 in
    (Some order, s3, ob2).

(** The removal [RemoveOrder] and [CancelOrder] write out alike: take the
    element off its level, drop the level if that empties it, forget the key. *)
Definition remove_at (s : Store) (ob : OrderBook) (key : string) (location : OrderLocation)
    : oref * Store * OrderBook :=
  let order := elem_Value (locElement location) in
  let s1 := PriceLevel_RemoveOrder s (locPriceLevel location) (Some (locElement location)) in
  let ob1 :=
    if IsEmpty s1 (locPriceLevel location) then
      let isBid := is_buy (get_order s1 order) in
      set_side ob isBid
        (RemovePriceLevel (get_side ob isBid) (plPrice (get_level s1 (locPriceLevel location))))
    else ob in
  (order, s1, set_obOrders ob1 (delete key (obOrders ob1))).

Definition RemoveOrder (s : Store) (ob : OrderBook) (orderID : string)
    : option oref * Store * OrderBook :=
  match obOrders ob !! orderID with
  | None => (None, s, ob)
  | Some location =>
      let '(order, s1, ob1) := remove_at s ob orderID location in (Some order, s1, ob1)
  end.

Definition CancelOrder (s : Store) (ob : OrderBook) (orderID : uuid)
    : option oref * Store * OrderBook :=
  match obOrders ob !! uuid_String orderID with
  | None => (None, s, ob)
  | Some location =>
      let '(order, s1, ob1) := remove_at s ob (uuid_String orderID) location in
      (Some order, set_order s1 order (set_oStatus (get_order s1 order) OrderStatusCancelled), ob1)
  end.

Definition GetOrder (ob : OrderBook) (orderID : string) : option oref :=
  (fun location => elem_Value (locElement location)) <$> obOrders ob !! orderID.

Definition UpdateOrder (s : Store) (ob : OrderBook) (orderID : string) (newFilledQty : decimal) : Store :=
  match obOrders ob !! orderID with
  | None => s
  | Some location =>
      let order := elem_Value (locElement location) in
      let s1 := set_order s order
                  (refresh_status (set_oFilledQuantity (get_order s order) newFilledQty)) in
      UpdateVolume s1 (locPriceLevel location)
  end.

Definition GetBestBid (ob : OrderBook) : option LevelPtr := GetBestPrice (Bids ob) true.
Definition GetBestAsk (ob : OrderBook) : option LevelPtr := GetBestPrice (Asks ob) false.

Definition GetBestBidPrice (s : Store) (ob : OrderBook) : option decimal :=
  match GetBestBid ob with
  | None => None
  | Some bestBid => Some (plPrice (get_level s (lpRef bestBid)))
  end.
Definition GetBestAskPrice (s : Store) (ob : OrderBook) : option decimal :=
  match GetBestAsk ob with
  | None => None
  | Some bestAsk => Some (plPrice (get_level s (lpRef bestAsk)))
  end.

Definition PeekBest (ob : OrderBook) : option LevelPtr * option LevelPtr :=
  (GetBestPrice (Bids ob) true, GetBestPrice (Asks ob) false).

Definition PopBestLevel (s : Store) (ob : OrderBook) (isBid : bool) : option lref * OrderBook :=
  match GetBestPrice (get_side ob isBid) isBid with
  | None => (None, ob)
  | Some bestLevel =>
      let pl := get_level s (lpRef bestLevel) in
      let m := foldl (fun m e => delete (uuid_String (oID (get_order s (elem_Value e)))) m)
                 (obOrders ob) (plOrders pl) in
      let ob1 := set_obOrders ob m in
      (Some (lpRef bestLevel),
       set_side ob1 isBid (RemovePriceLevel (get_side ob1 isBid) (plPrice pl)))
  end.

Definition GetSpread (s : Store) (ob : OrderBook) : decimal :=
  match GetBestPrice (Bids ob) true, GetBestPrice (Asks ob) false with
  | Some bestBid, Some bestAsk =>
      decimal_Sub (plPrice (get_level s (lpRef bestAsk))) (plPrice (get_level s (lpRef bestBid)))
  | _, _ => decimal_Zero
  end.

Definition GetDepth (s : Store) (ob : OrderBook) : decimal * decimal :=
  let add item v := (decimal_Add v (plVolume (get_level s (lpRef item))), true) in
  (Ascend (Bids ob) add decimal_Zero, Ascend (Asks ob) add decimal_Zero).

(** [make([]T, 0, n)] panics when [n] is negative or the backing array would
    exceed the address space (2^48 bytes of pointers). *)
Definition make_cap_ok (n : Z) : bool := (0 <=? n)%Z && (n * 8 <=? 2 ^ 48)%Z.

Definition GetTopLevels (ob : OrderBook) (n : Z) : option (list lref * list lref) :=
  if make_cap_ok n then
    let collect item (st : list lref * Z) :=
      let '(acc, count) := st in
      if (n <=? count)%Z then (st, false) else ((acc ++ [lpRef item], (count + 1)%Z), true) in
    let bids := (Descend (Bids ob) collect ([], 0%Z)).1 in
    let asks := (Ascend (Asks ob) collect ([], 0%Z)).1 in
    Some (bids, asks)
  else None.

Definition Clear (ob : OrderBook) : OrderBook :=
  mkOrderBook (obInstrument ob) NewOrderBookSide NewOrderBookSide ∅.

Definition Size (ob : OrderBook) : nat := size (obOrders ob).

Definition GetBidDepth (s : Store) (ob : OrderBook) : nat :=
  Descend (Bids ob) (fun i count => (count + length (plOrders (get_level s (lpRef i))), true)) 0.
Definition GetAskDepth (s : Store) (ob : OrderBook) : nat :=
  Ascend (Asks ob) (fun i count => (count + length (plOrders (get_level s (lpRef i))), true)) 0.
End orderbook.
