(* ===== verification/OrderBookFacts.v ===== *)
(** * The order book keeps its invariant

    [book_wf] is the well-formedness of a book in a store: the levels of each
    side are ordered by price and never empty, a level's volume is the sum of
    what its orders have left, every order rests on its own side at its own
    price, identifiers are not repeated, and the location map lists exactly
    the elements of the queues.  Each operation preserves it, and acts on the
    flattened price-time queue [prio] as a list operation. *)

From S2P Require Import Prelude.
From S2P Require Import External.
From S2P Require Import Models.
From S2P Require Import OrderBook.

Section defs.
Context `{DecimalSpec, UuidPkg, BTreePkg}.

(** The levels of a side, best price first, and its orders in the order the
    matching loops reach them: price, then time. *)
Definition best_levels (ob : OrderBook) (b : bool) : list LevelPtr :=
  if b then reverse (btree_Ascend (Bids ob)) else btree_Ascend (Asks ob).
Definition elems_of (s : Store) (lp : LevelPtr) : list Element :=
  plOrders (get_level s (lpRef lp)).
Definition prio (s : Store) (ob : OrderBook) (b : bool) : list Element :=
  best_levels ob b ≫= elems_of s.

Definition order_of (s : Store) (e : Element) : Order := get_order s (elem_Value e).
Definition ekey (s : Store) (e : Element) : string := uuid_String (oID (order_of s e)).
Definition erem (s : Store) (e : Element) : Q := rem_val (order_of s e).

Definition all_levels (ob : OrderBook) : list LevelPtr :=
  best_levels ob true ++ best_levels ob false.
Definition all_elems (s : Store) (ob : OrderBook) : list Element :=
  prio s ob true ++ prio s ob false.

Record level_ok (s : Store) (b : bool) (lp : LevelPtr) : Prop := {
  lw_price : plPrice (get_level s (lpRef lp)) = lpPrice lp;
  lw_volume : (dval (plVolume (get_level s (lpRef lp))) == Qsum (erem s <$> elems_of s lp))%Q;
  lw_side e : e ∈ elems_of s lp -> is_buy (order_of s e) = b;
  lw_oprice e : e ∈ elems_of s lp -> oPrice (order_of s e) ≐ lpPrice lp;
}.

Record level_wf (s : Store) (b : bool) (lp : LevelPtr) : Prop := {
  lw_ok :> level_ok s b lp;
  lw_nonempty : elems_of s lp <> [];
}.

(** Between creating a level and queueing the first order on it the level is
    empty: [book_core] is what holds even there. *)
Record book_core (s : Store) (ob : OrderBook) : Prop := {
  bw_sorted b : StronglySorted (item_lt Less) (btree_Ascend (get_side ob b));
  bw_refs : NoDup (lpRef <$> all_levels ob);
  bw_level_ok b lp : lp ∈ best_levels ob b -> level_ok s b lp;
  bw_keys : NoDup (ekey s <$> all_elems s ob);
  bw_ids : NoDup (elem_id <$> all_elems s ob);
  bw_map k loc : obOrders ob !! k = Some loc <->
    exists lp, lp ∈ all_levels ob /\ lpRef lp = locPriceLevel loc /\
      locElement loc ∈ elems_of s lp /\ ekey s (locElement loc) = k;
  bw_fresh_level lp : lp ∈ all_levels ob -> lpRef lp < next s;
  bw_fresh_elem e : e ∈ all_elems s ob -> elem_id e < next s /\ elem_Value e < next s;
}.

Record book_wf (s : Store) (ob : OrderBook) : Prop := {
  bw_core :> book_core s ob;
  bw_nonempty b lp : lp ∈ best_levels ob b -> elems_of s lp <> [];
}.
End defs.

(** ** The order on levels *)

Section facts.
Context `{DecimalSpec, UuidSpec, BTreeSpec}.
Implicit Types (s : Store) (ob : OrderBook) (lp : LevelPtr) (e : Element) (b : bool).

Lemma Less_strict_weak : strict_weak Less.
Proof.
  unfold Less. split; cbn.
  - intros a. case_decimal; [lra|done].
  - intros a b c. repeat case_decimal; try done. lra.
  - intros a b c. unfold same_item. repeat case_decimal; try done; intros [] []; try done; lra.
Qed.

Lemma same_item_price lp lp' : same_item Less lp lp' <-> lpPrice lp ≐ lpPrice lp'.
Proof.
  unfold same_item, Less, deq. repeat case_decimal; split; try done; try lra; intros []; done.
Qed.

(** ** Levels and queues *)

Lemma best_levels_side ob b :
  best_levels ob b =
    if b then reverse (btree_Ascend (get_side ob b)) else btree_Ascend (get_side ob b).
Proof. by destruct b. Qed.

Lemma elem_of_best_levels ob b lp : lp ∈ best_levels ob b <-> lp ∈ btree_Ascend (get_side ob b).
Proof. destruct b; cbn; [by rewrite elem_of_reverse|done]. Qed.

Lemma elem_of_all_levels ob lp : lp ∈ all_levels ob <-> exists b, lp ∈ best_levels ob b.
Proof.
  unfold all_levels. rewrite elem_of_app. split; [intros []; eauto|].
  intros [[] ?]; eauto.
Qed.

Lemma elem_of_prio s ob b e : e ∈ prio s ob b <-> exists lp, lp ∈ best_levels ob b /\ e ∈ elems_of s lp.
Proof. unfold prio. rewrite list_elem_of_bind. naive_solver. Qed.

Lemma elem_of_all_elems s ob e : e ∈ all_elems s ob <-> exists b, e ∈ prio s ob b.
Proof.
  unfold all_elems. rewrite elem_of_app. split; [intros []; eauto|].
  intros [[] ?]; eauto.
Qed.

Lemma all_elems_bind s ob : all_elems s ob = all_levels ob ≫= elems_of s.
Proof. unfold all_elems, all_levels, prio. by rewrite bind_app. Qed.

Lemma all_elems_level s ob lp e : lp ∈ all_levels ob -> e ∈ elems_of s lp -> e ∈ all_elems s ob.
Proof. intros. rewrite all_elems_bind, list_elem_of_bind. eauto. Qed.

Lemma bw_level s ob b lp : book_wf s ob -> lp ∈ best_levels ob b -> level_wf s b lp.
Proof. intros Hwf Hlp. split; [by apply (bw_level_ok _ _ Hwf)|by eapply bw_nonempty]. Qed.

Lemma bw_level_all s ob lp : book_wf s ob -> lp ∈ all_levels ob -> exists b, lp ∈ best_levels ob b /\ level_wf s b lp.
Proof. intros Hwf [b Hlp]%elem_of_all_levels. exists b. split; [done|by eapply bw_level]. Qed.

(** References tell levels apart, identifiers tell elements apart. *)
Lemma bw_level_unique s ob lp lp' :
  book_wf s ob -> lp ∈ all_levels ob -> lp' ∈ all_levels ob -> lpRef lp = lpRef lp' -> lp = lp'.
Proof. intros Hwf. apply NoDup_fmap_inj_in, (bw_refs _ _ Hwf). Qed.

Lemma bw_elem_unique s ob e e' :
  book_wf s ob -> e ∈ all_elems s ob -> e' ∈ all_elems s ob -> elem_id e = elem_id e' -> e = e'.
Proof. intros Hwf. apply NoDup_fmap_inj_in, (bw_ids _ _ Hwf). Qed.

Lemma bw_key_unique s ob e e' :
  book_wf s ob -> e ∈ all_elems s ob -> e' ∈ all_elems s ob -> ekey s e = ekey s e' -> e = e'.
Proof. intros Hwf. apply NoDup_fmap_inj_in, (bw_keys _ _ Hwf). Qed.

Lemma bw_elem_owner s ob lp lp' e e' :
  book_wf s ob -> lp ∈ all_levels ob -> lp' ∈ all_levels ob ->
  e ∈ elems_of s lp -> e' ∈ elems_of s lp' -> elem_id e = elem_id e' -> lp = lp'.
Proof.
  intros Hwf. apply NoDup_bind_owner. rewrite <- all_elems_bind. apply (bw_ids _ _ Hwf).
Qed.

Lemma bw_side_unique s ob b b' lp :
  book_wf s ob -> lp ∈ best_levels ob b -> lp ∈ best_levels ob b' -> b = b'.
Proof.
  intros Hwf Hb Hb'. pose proof (bw_level _ _ _ _ Hwf Hb) as Hw1.
  pose proof (bw_level _ _ _ _ Hwf Hb') as Hw2.
  destruct (elems_of s lp) as [|e l] eqn:He; [by destruct (lw_nonempty _ _ _ Hw1)|].
  rewrite <- (lw_side _ _ _ Hw1 e) by (rewrite He; set_solver).
  by rewrite <- (lw_side _ _ _ Hw2 e) by (rewrite He; set_solver).
Qed.

(** An order of the queue is found under its key. *)
Lemma bw_map_elem s ob e :
  book_wf s ob -> e ∈ all_elems s ob ->
  exists lp, lp ∈ all_levels ob /\ e ∈ elems_of s lp /\
    obOrders ob !! ekey s e = Some (mkOrderLocation (lpRef lp) e).
Proof.
  intros Hwf. rewrite all_elems_bind, list_elem_of_bind. intros (lp & He & Hlp).
  exists lp. repeat split; [done..|]. apply (bw_map _ _ Hwf). eauto.
Qed.

Lemma book_wf_new s instrument : book_wf s (NewOrderBook instrument).
Proof.
  assert (forall b, btree_Ascend (get_side (NewOrderBook instrument) b) = []) as He
    by (intros []; apply btree_Ascend_New).
  assert (forall b, best_levels (NewOrderBook instrument) b = []) as Hb.
  { intros b. rewrite best_levels_side, He. by destruct b. }
  assert (all_levels (NewOrderBook instrument) = []) as Hl by (unfold all_levels; by rewrite !Hb).
  split; [split|intros b lp; rewrite Hb; set_solver].
  - intros b. rewrite He. constructor.
  - rewrite Hl. constructor.
  - intros b lp. rewrite Hb. set_solver.
  - rewrite all_elems_bind, Hl. constructor.
  - rewrite all_elems_bind, Hl. constructor.
  - intros k loc. rewrite Hl. cbn. split; [done|set_solver].
  - rewrite Hl. set_solver.
  - rewrite all_elems_bind, Hl. cbn. set_solver.
Qed.

(** ** Store updates *)

Lemma get_order_set s r o r' :
  get_order (set_order s r o) r' = if decide (r = r') then o else get_order s r'.
Proof.
  unfold get_order. cbn. case_decide as Hr; [subst; apply lookup_total_insert_eq|].
  by apply lookup_total_insert_ne.
Qed.

Lemma get_level_set s r pl r' :
  get_level (set_level s r pl) r' = if decide (r = r') then pl else get_level s r'.
Proof.
  unfold get_level. cbn. case_decide as Hr; [subst; apply lookup_total_insert_eq|].
  by apply lookup_total_insert_ne.
Qed.

Lemma get_order_set_plVolume s pl v r : get_order (set_plVolume s pl v) r = get_order s r.
Proof. done. Qed.

Lemma get_level_set_plVolume s pl v r :
  plPrice (get_level (set_plVolume s pl v) r) = plPrice (get_level s r) /\
  plOrders (get_level (set_plVolume s pl v) r) = plOrders (get_level s r).
Proof.
  unfold set_plVolume. rewrite get_level_set. case_decide as Hr; [by subst|done].
Qed.

Lemma dval_sum_remaining s v l :
  (dval (sum_remaining s v l) == dval v + Qsum (erem s <$> l))%Q.
Proof.
  revert v. induction l as [|e l IH]; intros v; cbn [sum_remaining foldl].
  - unfold Qsum. cbn. lra.
  - unfold sum_remaining in IH. rewrite IH. rewrite dval_Add, dval_Remaining.
    change (erem s <$> e :: l) with (erem s e :: (erem s <$> l)).
    change (Qsum (erem s e :: (erem s <$> l))) with (erem s e + Qsum (erem s <$> l))%Q.
    unfold erem, order_of. lra.
Qed.

(** ** Changing orders in place

    A change of the store that keeps the queues, keeps every resting order's
    identifier, side and price, and leaves every volume right, keeps the
    invariant. *)

Record same_place (o o' : Order) : Prop := {
  sp_ID : oID o' = oID o;
  sp_side : oSide o' = oSide o;
  sp_price : oPrice o' = oPrice o;
}.

Lemma same_terms_place o o' : same_terms o o' -> same_place o o'.
Proof. intros []; by constructor. Qed.

#[global] Instance same_place_refl : Reflexive same_place.
Proof. by constructor. Qed.

Record level_kept s s' lp : Prop := {
  lk_price : plPrice (get_level s' (lpRef lp)) = plPrice (get_level s (lpRef lp));
  lk_orders : elems_of s' lp = elems_of s lp;
  lk_volume : (dval (plVolume (get_level s' (lpRef lp))) == Qsum (erem s' <$> elems_of s lp))%Q;
}.

Lemma prio_ext s s' ob b :
  (forall lp, lp ∈ all_levels ob -> elems_of s' lp = elems_of s lp) -> prio s' ob b = prio s ob b.
Proof.
  intros Hl. apply bind_ext_in. intros lp Hlp. apply Hl, elem_of_all_levels. eauto.
Qed.

Lemma ekey_place s s' e : same_place (order_of s e) (order_of s' e) -> ekey s' e = ekey s e.
Proof. intros []. unfold ekey. congruence. Qed.

Lemma book_wf_ext s s' ob :
  book_wf s ob -> next s <= next s' ->
  (forall lp, lp ∈ all_levels ob -> level_kept s s' lp) ->
  (forall e, e ∈ all_elems s ob -> same_place (order_of s e) (order_of s' e)) ->
  book_wf s' ob.
Proof.
  intros Hwf Hnext Hlevels Helems.
  assert (forall lp, lp ∈ all_levels ob -> elems_of s' lp = elems_of s lp) as Hq
    by (intros lp Hlp; apply lk_orders; auto).
  assert (all_elems s' ob = all_elems s ob) as Hall
    by (unfold all_elems; by rewrite !(prio_ext s s')).
  assert (forall e, e ∈ all_elems s ob -> ekey s' e = ekey s e) as Hkey
    by (intros; apply ekey_place; auto).
  split; [split; try apply (bw_core _ _ Hwf)|].
  - intros b lp Hlp. pose proof (bw_level _ _ _ _ Hwf Hlp) as [[Hp Hv Hs Hop] _].
    assert (lp ∈ all_levels ob) as Hlp' by (apply elem_of_all_levels; eauto).
    destruct (Hlevels _ Hlp') as [Hkp Hko Hkv].
    assert (forall e, e ∈ elems_of s' lp -> same_place (order_of s e) (order_of s' e)) as Hpl.
    { intros e He. rewrite Hko in He. eauto using all_elems_level. }
    split; rewrite ?Hko; try congruence; try done; rewrite Hko in Hpl; intros e He.
    + unfold is_buy. rewrite (sp_side _ _ (Hpl e He)). by apply Hs.
    + rewrite (sp_price _ _ (Hpl e He)). by apply Hop.
  - rewrite Hall. erewrite list_fmap_ext; [apply (bw_keys _ _ Hwf)|].
    intros i e He%list_elem_of_lookup_2. by apply Hkey.
  - rewrite Hall. apply (bw_ids _ _ Hwf).
  - intros k loc. rewrite (bw_map _ _ Hwf). split; intros (lp & Hlp & Href & He & Hk); exists lp.
    + rewrite Hq by done. rewrite Hkey by eauto using all_elems_level. done.
    + rewrite Hq in He by done. rewrite Hkey in Hk by eauto using all_elems_level. done.
  - intros lp Hlp. pose proof (bw_fresh_level _ _ Hwf _ Hlp). lia.
  - rewrite Hall. intros e He. pose proof (bw_fresh_elem _ _ Hwf _ He). lia.
  - intros b lp Hlp. rewrite Hq by (apply elem_of_all_levels; eauto). by apply (bw_nonempty _ _ Hwf b).
Qed.

(** A store that agrees on the book's levels and orders. *)
Lemma book_wf_frame s s' ob :
  book_wf s ob -> next s <= next s' ->
  (forall lp, lp ∈ all_levels ob -> get_level s' (lpRef lp) = get_level s (lpRef lp)) ->
  (forall e, e ∈ all_elems s ob ->
     same_place (order_of s e) (order_of s' e) /\ (erem s' e == erem s e)%Q) ->
  book_wf s' ob.
Proof.
  intros Hwf Hnext Hlev Hel. apply (book_wf_ext s); [done|done| |naive_solver].
  intros lp Hlp. split; [by rewrite Hlev|unfold elems_of; by rewrite Hlev|].
  destruct (bw_level_all _ _ _ Hwf Hlp) as (b & _ & Hlw).
  rewrite Hlev by done. rewrite (lw_volume _ _ _ Hlw).
  apply Qsum_ext. intros e He. symmetry. apply Hel. eauto using all_elems_level.
Qed.

(** An order that does not rest in the book may be assigned freely. *)
Lemma book_wf_set_other s ob r o :
  book_wf s ob -> r ∉ elem_Value <$> all_elems s ob -> book_wf (set_order s r o) ob.
Proof.
  intros Hwf Hr. apply (book_wf_frame s); [done|done|done|].
  intros e He. unfold erem, order_of. rewrite get_order_set. case_decide as Heq; [|done].
  destruct Hr. rewrite Heq. by apply list_elem_of_fmap_2.
Qed.

Lemma bw_level_cases s ob lp lp' :
  book_wf s ob -> lp ∈ all_levels ob -> lp' ∈ all_levels ob ->
  lp = lp' \/ (lp <> lp' /\ lpRef lp' <> lpRef lp).
Proof.
  intros Hwf Hlp Hlp'. destruct (decide (lpRef lp' = lpRef lp)) as [Heq|Hne].
  - left. symmetry. by eapply bw_level_unique.
  - right. split; [congruence|done].
Qed.

(** Two elements of a well-formed book never share their order. *)
Lemma bw_value_unique s ob e e' :
  book_wf s ob -> e ∈ all_elems s ob -> e' ∈ all_elems s ob -> elem_Value e = elem_Value e' -> e = e'.
Proof.
  intros Hwf He He' Hv. apply (bw_key_unique s ob); [done..|].
  unfold ekey, order_of. by rewrite Hv.
Qed.

Lemma bw_loc s ob k loc :
  book_wf s ob -> obOrders ob !! k = Some loc ->
  exists lp, lp ∈ all_levels ob /\ lpRef lp = locPriceLevel loc /\
    locElement loc ∈ elems_of s lp /\ ekey s (locElement loc) = k /\
    locElement loc ∈ all_elems s ob.
Proof.
  intros Hwf (lp & Hlp & Href & He & Hk)%(bw_map _ _ Hwf).
  exists lp. repeat split; try done. eauto using all_elems_level.
Qed.

(** ** [UpdateOrder]

    The quantities of the order at [k] may have been changed before the call
    (the matching loop fills the order first): the recomputed volume accounts
    for it. *)

Lemma UpdateOrder_wf s s1 ob k loc q :
  book_wf s ob -> obOrders ob !! k = Some loc -> next s <= next s1 ->
  (forall lp, lp ∈ all_levels ob -> get_level s1 (lpRef lp) = get_level s (lpRef lp)) ->
  (forall e, e ∈ all_elems s ob -> same_place (order_of s e) (order_of s1 e)) ->
  (forall e, e ∈ all_elems s ob -> e <> locElement loc -> (erem s1 e == erem s e)%Q) ->
  book_wf (UpdateOrder s1 ob k q) ob.
Proof.
  intros Hwf Hloc Hnext Hlev Hplace Hrem.
  destruct (bw_loc _ _ _ _ Hwf Hloc) as (lp0 & Hlp0 & Href & He0 & Hk & Hin).
  unfold UpdateOrder. rewrite Hloc. set (o' := refresh_status _).
  set (s2 := set_order s1 _ o').
  assert (same_place (order_of s1 (locElement loc)) o') as Ho'.
  { apply same_terms_place. unfold o'. etransitivity; [|apply refresh_status_terms]. done. }
  assert (forall lp, lp ∈ all_levels ob -> elems_of s2 lp = elems_of s lp) as Hel
    by (intros; unfold elems_of; change (get_level s2) with (get_level s1); by rewrite Hlev).
  apply (book_wf_ext s); [done|done| |].
  - intros lp Hlp. unfold UpdateVolume, set_plVolume.
    destruct (bw_level_cases _ _ lp lp0 Hwf) as [->|[Hne Hne']]; [done..| |].
    + split; unfold elems_of; rewrite get_level_set, decide_True by done; cbn;
        change (get_level s2) with (get_level s1); rewrite <- Href, Hlev by done; [done..|].
      rewrite dval_sum_remaining, dval_Zero. setoid_rewrite Qplus_0_l. reflexivity.
    + rewrite Href in Hne'. split; unfold elems_of; rewrite get_level_set, decide_False by done;
        change (get_level s2) with (get_level s1); rewrite Hlev by done; [done..|].
      destruct (bw_level_all _ _ _ Hwf Hlp) as (b & _ & Hlw). rewrite (lw_volume _ _ _ Hlw).
      apply Qsum_ext. intros e He.
      assert (e ∈ all_elems s ob) as Heall by eauto using all_elems_level.
      assert (e <> locElement loc) as Hee.
      { intros ->. destruct Hne. by eapply bw_elem_owner. }
      transitivity (erem s1 e); [symmetry; by apply Hrem|]. change (erem s1 e == erem s2 e)%Q.
      unfold erem, order_of, s2. rewrite get_order_set, decide_False; [done|].
      intros Hv. destruct Hee. symmetry. by eapply bw_value_unique.
  - intros e He. change (order_of _ e) with (order_of s2 e) at 2.
    unfold order_of, s2. rewrite get_order_set. case_decide as Hv; [|by apply Hplace].
    assert (e = locElement loc) as -> by (symmetry; by eapply bw_value_unique).
    destruct (Hplace _ Hin), Ho'. constructor; unfold order_of in *; congruence.
Qed.

(** [UpdateOrder] keeps the queues. *)
Lemma UpdateOrder_elems s ob k q lp : elems_of (UpdateOrder s ob k q) lp = elems_of s lp.
Proof.
  unfold UpdateOrder. case_match; [|done]. unfold UpdateVolume, elems_of.
  set (s1 := set_order _ _ _). change (get_level s) with (get_level s1).
  apply get_level_set_plVolume.
Qed.

Lemma UpdateOrder_next s ob k q : next (UpdateOrder s ob k q) = next s.
Proof. unfold UpdateOrder. by case_match. Qed.

Lemma UpdateOrder_prio s ob k q b : prio (UpdateOrder s ob k q) ob b = prio s ob b.
Proof. apply prio_ext. intros. apply UpdateOrder_elems. Qed.

(** ** Removal *)

Lemma best_levels_set_side_eq ob b t :
  best_levels (set_side ob b t) b = if b then reverse (btree_Ascend t) else btree_Ascend t.
Proof. by destruct b. Qed.

Lemma best_levels_set_side_ne ob b b' t :
  b <> b' -> best_levels (set_side ob b t) b' = best_levels ob b'.
Proof. by destruct b, b'. Qed.

Lemma get_side_set_side ob b b' t :
  get_side (set_side ob b t) b' = if decide (b = b') then t else get_side ob b'.
Proof. by destruct b, b'. Qed.

Lemma obOrders_set_side ob b t : obOrders (set_side ob b t) = obOrders ob.
Proof. by destruct b. Qed.

Lemma NoDup_elems s ob lp : book_wf s ob -> lp ∈ all_levels ob -> NoDup (elems_of s lp).
Proof.
  intros Hwf Hlp. pose proof (bw_ids _ _ Hwf) as Hnd. rewrite all_elems_bind in Hnd.
  apply NoDup_fmap_1 in Hnd. apply list_elem_of_split in Hlp as (l1 & l2 & Heq).
  rewrite Heq, bind_app in Hnd. apply NoDup_app in Hnd as (_ & _ & Hnd).
  cbn in Hnd. by apply NoDup_app in Hnd as (? & _).
Qed.

Section remove.
Context (s : Store) (ob : OrderBook) (lp0 : LevelPtr) (e0 : Element).
Hypothesis Hwf : book_wf s ob.
Hypothesis Hlp0 : lp0 ∈ all_levels ob.
Hypothesis He0 : e0 ∈ elems_of s lp0.
Let s1 := PriceLevel_RemoveOrder s (lpRef lp0) (Some e0).

Lemma remove_get_level lp :
  lp ∈ all_levels ob ->
  get_level s1 (lpRef lp) =
    if decide (lpRef lp0 = lpRef lp) then
      mkPriceLevel (plPrice (get_level s (lpRef lp))) (filter (fun e => e <> e0) (elems_of s lp))
        (decimal_Sub (plVolume (get_level s (lpRef lp))) (RemainingQuantity (order_of s e0)))
    else get_level s (lpRef lp).
Proof.
  intros Hlp. unfold s1, PriceLevel_RemoveOrder, list_Remove, set_plVolume.
  rewrite !get_level_set, (decide_True (P := lpRef lp0 = lpRef lp0)) by done.
  case_decide as Hr; [|done]. cbn. unfold elems_of. rewrite Hr. f_equal.
  apply filter_ext_in. intros e He.
  assert (e ∈ all_elems s ob) as Heall by eauto using all_elems_level.
  assert (e0 ∈ all_elems s ob) as He0all by eauto using all_elems_level.
  split; [congruence|]. intros Hne Hid. destruct Hne. by apply (bw_elem_unique s ob).
Qed.

Lemma remove_elems lp :
  lp ∈ all_levels ob -> elems_of s1 lp = filter (fun e => e <> e0) (elems_of s lp).
Proof.
  intros Hlp. unfold elems_of at 1. rewrite remove_get_level by done.
  case_decide as Hr; [done|]. symmetry. apply filter_all. intros e He ->.
  destruct Hr. f_equal. by eapply bw_elem_owner.
Qed.

Lemma remove_order_of e : order_of s1 e = order_of s e.
Proof. done. Qed.

Lemma remove_lp0 : exists b, lp0 ∈ best_levels ob b /\ is_buy (order_of s e0) = b.
Proof.
  destruct (bw_level_all _ _ _ Hwf Hlp0) as (b & Hb & Hlw).
  exists b. split; [done|]. by apply (lw_side _ _ _ Hlw).
Qed.

(** The book [remove_at] builds keeps exactly the levels with orders left. *)
Let ob1 :=
  if IsEmpty s1 (lpRef lp0) then
    set_side ob (is_buy (order_of s e0))
      (RemovePriceLevel (get_side ob (is_buy (order_of s e0))) (plPrice (get_level s1 (lpRef lp0))))
  else ob.

Lemma remove_nonempty_other lp :
  lp ∈ all_levels ob -> lp <> lp0 -> elems_of s1 lp <> [].
Proof.
  intros Hlp Hne. unfold elems_of. rewrite remove_get_level by done.
  rewrite decide_False by (intros ?; destruct Hne; symmetry; by eapply bw_level_unique).
  destruct (bw_level_all _ _ _ Hwf Hlp) as (b & _ & Hlw). apply Hlw.
Qed.

Lemma remove_sorted b : StronglySorted (item_lt Less) (btree_Ascend (get_side ob1 b)).
Proof.
  pose proof (bw_sorted _ _ Hwf) as Hs. unfold ob1. case_match; [|done].
  rewrite get_side_set_side. case_decide; [|done]. unfold RemovePriceLevel.
  rewrite btree_Ascend_Delete by eauto using Less_strict_weak.
  by apply StronglySorted_filter.
Qed.

Lemma remove_ascend b :
  btree_Ascend (get_side ob1 b) =
    filter (fun lp => elems_of s1 lp <> []) (btree_Ascend (get_side ob b)).
Proof.
  destruct remove_lp0 as (b0 & Hb0 & Hbuy).
  assert (forall lp, lp ∈ btree_Ascend (get_side ob b) -> lp ∈ all_levels ob) as Hall.
  { intros lp Hlp. apply elem_of_all_levels. exists b. by apply elem_of_best_levels. }
  pose proof (remove_elems lp0 Hlp0) as Hel0.
  unfold ob1, IsEmpty. change (plOrders (get_level s1 (lpRef lp0))) with (elems_of s1 lp0).
  case_bool_decide as Hlen.
  - apply nil_length_inv in Hlen. rewrite Hbuy, get_side_set_side. case_decide as Hbb.
    + subst b. unfold RemovePriceLevel.
      rewrite btree_Ascend_Delete by eauto using Less_strict_weak, bw_sorted, bw_core.
      apply filter_ext_in. intros lp Hlp. rewrite same_item_price. cbn.
      rewrite remove_get_level, decide_True by done. cbn.
      rewrite (lw_price _ _ _ (bw_level _ _ _ _ Hwf Hb0)). split.
      * intros Hp. apply remove_nonempty_other; [by apply Hall|]. intros ->. by apply Hp.
      * intros Hne Hp. destruct Hne.
        assert (lp = lp0) as ->; [|done]. symmetry.
        apply (sorted_same_unique Less Less_strict_weak lp0 lp _ (bw_sorted _ _ Hwf b0)); [|done|].
        -- by apply elem_of_best_levels.
        -- by apply same_item_price.
    + symmetry. apply filter_all. intros lp Hlp. apply remove_nonempty_other; [by apply Hall|].
      intros ->. destruct Hbb. eapply bw_side_unique; [done|done|by apply elem_of_best_levels].
  - symmetry. apply filter_all. intros lp Hlp Hnil. destruct Hlen.
    destruct (bw_level_cases _ _ lp lp0 Hwf) as [->|[Hne _]]; [by auto|done|by rewrite Hnil|].
    by destruct (remove_nonempty_other lp); auto.
Qed.

Lemma remove_best b :
  best_levels ob1 b = filter (fun lp => elems_of s1 lp <> []) (best_levels ob b).
Proof.
  rewrite !best_levels_side. rewrite !remove_ascend. destruct b; [|done].
  by rewrite filter_reverse.
Qed.

Lemma remove_prio b : prio s1 ob1 b = filter (fun e => e <> e0) (prio s ob b).
Proof.
  unfold prio. rewrite remove_best, filter_bind.
  rewrite bind_filter_nonempty.
  - apply bind_ext_in. intros lp Hlp. apply remove_elems, elem_of_all_levels. eauto.
  - intros lp _ Hn. by apply dec_stable.
Qed.

Lemma remove_all_elems : all_elems s1 ob1 = filter (fun e => e <> e0) (all_elems s ob).
Proof. unfold all_elems. by rewrite !remove_prio, filter_app. Qed.

Lemma remove_all_levels : all_levels ob1 = filter (fun lp => elems_of s1 lp <> []) (all_levels ob).
Proof. unfold all_levels. by rewrite !remove_best, filter_app. Qed.

Lemma remove_level_wf b lp : lp ∈ best_levels ob1 b -> level_wf s1 b lp.
Proof.
  rewrite remove_best, list_elem_of_filter. intros [Hne Hlp].
  assert (lp ∈ all_levels ob) as Hall by (apply elem_of_all_levels; eauto).
  pose proof (bw_level _ _ _ _ Hwf Hlp) as [[Hp Hv Hs Ho] _].
  pose proof (remove_get_level lp Hall) as Hgl. pose proof (remove_elems lp Hall) as Hel.
  split; [|done]. split.
  - rewrite Hgl. by case_decide.
  - rewrite Hel, Hgl. change (erem s1) with (erem s). case_decide as Hr; cbn [plVolume].
    + assert (lp0 = lp) as <- by (by eapply bw_level_unique).
      rewrite dval_Sub, dval_Remaining, Hv.
      rewrite (Qsum_filter_ne (erem s) _ e0) by eauto using NoDup_elems.
      change (rem_val (order_of s e0)) with (erem s e0). lra.
    + rewrite Hv. rewrite filter_all; [done|]. intros e He ->. destruct Hr. f_equal.
      by eapply bw_elem_owner.
  - intros e. rewrite Hel, list_elem_of_filter. intros [_ He]. by apply Hs.
  - intros e. rewrite Hel, list_elem_of_filter. intros [_ He]. by apply Ho.
Qed.

Lemma remove_map k loc :
  delete (ekey s e0) (obOrders ob) !! k = Some loc <->
  exists lp, lp ∈ all_levels ob1 /\ lpRef lp = locPriceLevel loc /\
    locElement loc ∈ elems_of s1 lp /\ ekey s1 (locElement loc) = k.
Proof.
  rewrite lookup_delete_Some, (bw_map _ _ Hwf).
  assert (e0 ∈ all_elems s ob) as He0all by eauto using all_elems_level. split.
  - intros (Hk & lp & Hlp & Href & He & Hkey). exists lp.
    assert (locElement loc ∈ elems_of s1 lp) as Hin.
    { rewrite remove_elems, list_elem_of_filter by done. split; [|done]. congruence. }
    split; [|done]. rewrite remove_all_levels, list_elem_of_filter. split; [|done].
    intros Hnil. rewrite Hnil in Hin. set_solver.
  - intros (lp & Hlp & Href & He & Hkey).
    rewrite remove_all_levels, list_elem_of_filter in Hlp. destruct Hlp as [_ Hlp].
    rewrite remove_elems, list_elem_of_filter in He by done. destruct He as [Hne He].
    change (ekey s1 (locElement loc)) with (ekey s (locElement loc)) in Hkey.
    split; [|by exists lp]. intros Heq. destruct Hne.
    apply (bw_key_unique s ob); eauto using all_elems_level. congruence.
Qed.

Lemma remove_wf : book_wf s1 (set_obOrders ob1 (delete (ekey s e0) (obOrders ob1))).
Proof.
  assert (obOrders ob1 = obOrders ob) as Hm
    by (unfold ob1; case_match; [apply obOrders_set_side|done]).
  rewrite Hm. split; [split|].
  - apply remove_sorted.
  - change (NoDup (lpRef <$> all_levels ob1)). rewrite remove_all_levels.
    apply NoDup_filter_fmap, (bw_refs _ _ Hwf).
  - intros b lp Hlp. by apply remove_level_wf.
  - change (NoDup (ekey s <$> all_elems s1 ob1)). rewrite remove_all_elems.
    apply NoDup_filter_fmap, (bw_keys _ _ Hwf).
  - change (NoDup (elem_id <$> all_elems s1 ob1)). rewrite remove_all_elems.
    apply NoDup_filter_fmap, (bw_ids _ _ Hwf).
  - apply remove_map.
  - change (forall lp, lp ∈ all_levels ob1 -> lpRef lp < next s). intros lp.
    rewrite remove_all_levels, list_elem_of_filter. intros [_ Hlp]. by apply (bw_fresh_level _ _ Hwf).
  - change (forall e, e ∈ all_elems s1 ob1 -> elem_id e < next s /\ elem_Value e < next s).
    intros e. rewrite remove_all_elems, list_elem_of_filter. intros [_ He].
    by apply (bw_fresh_elem _ _ Hwf).
  - intros b lp Hlp. by apply (remove_level_wf b lp).
Qed.
End remove.

(** What taking the element [e] out of a book does. *)
Record removed s ob e s' ob' : Prop := {
  rm_wf : book_wf s' ob';
  rm_prio b : prio s' ob' b = filter (fun e' => e' <> e) (prio s ob b);
  rm_levels b : best_levels ob' b = filter (fun lp => elems_of s' lp <> []) (best_levels ob b);
  rm_elems lp : lp ∈ all_levels ob -> elems_of s' lp = filter (fun e' => e' <> e) (elems_of s lp);
  rm_map : obOrders ob' = delete (ekey s e) (obOrders ob);
  rm_instrument : obInstrument ob' = obInstrument ob;
  rm_orders : orders s' = orders s;
  rm_next : next s' = next s;
  rm_clock : clock s' = clock s;
  rm_uuids : uuids s' = uuids s;
}.

Lemma remove_at_spec s ob k loc :
  book_wf s ob -> obOrders ob !! k = Some loc ->
  exists s1 ob1, remove_at s ob k loc = (elem_Value (locElement loc), s1, ob1) /\
    removed s ob (locElement loc) s1 ob1.
Proof.
  intros Hwf Hloc. destruct (bw_loc _ _ _ _ Hwf Hloc) as (lp0 & Hlp0 & Href & He0 & <- & _).
  unfold remove_at. rewrite <- Href. eexists _, _. split; [reflexivity|].
  change (get_order _ (elem_Value (locElement loc))) with (order_of s (locElement loc)).
  split; try done.
  - by apply (remove_wf s ob lp0).
  - intros b. by apply (remove_prio s ob lp0).
  - intros b. by apply (remove_best s ob lp0).
  - intros lp Hlp. by apply (remove_elems s ob lp0).
  - cbn. case_match; [by rewrite obOrders_set_side|done].
  - cbn. case_match; [|done]. by destruct (is_buy _).
Qed.

(** ** Price priority *)

(** [p] is strictly better than [q] for a resting order of side [b]. *)
Definition better b (p q : decimal) : Prop :=
  if b then (dval q < dval p)%Q else (dval p < dval q)%Q.

Lemma best_levels_sorted s ob b :
  book_core s ob -> StronglySorted (fun lp lp' => better b (lpPrice lp) (lpPrice lp')) (best_levels ob b).
Proof.
  intros Hc. pose proof (bw_sorted _ _ Hc b) as Hs. rewrite best_levels_side.
  assert (forall lp lp', item_lt Less lp lp' -> (dval (lpPrice lp) < dval (lpPrice lp'))%Q) as Hlt.
  { intros lp lp'. unfold item_lt, Less. by case_decimal. }
  destruct b; cbn.
  - apply StronglySorted_reverse in Hs. eapply StronglySorted_mono; [|done].
    intros lp lp'. unfold flip. apply Hlt.
  - eapply StronglySorted_mono; [|done]. apply Hlt.
Qed.

(** ** Insertion *)

Lemma set_side_get_side ob b : set_side ob b (get_side ob b) = ob.
Proof. by destruct ob, b. Qed.

(** What [GetOrCreatePriceLevel] leaves behind: the level [lp0] for price [p],
    at its place among the levels, and everything else as it was. *)
Record level_ready s ob b (p : decimal) s1 ob1 lp0 (m1 m2 : list LevelPtr) : Prop := {
  lr_core : book_core s1 ob1;
  lr_price : lpPrice lp0 ≐ p;
  lr_best : best_levels ob1 b = m1 ++ lp0 :: m2;
  lr_prio b' : prio s1 ob1 b' = prio s ob b';
  lr_nonempty b' lp : lp ∈ best_levels ob1 b' -> lpRef lp <> lpRef lp0 -> elems_of s1 lp <> [];
  lr_map : obOrders ob1 = obOrders ob;
  lr_instrument : obInstrument ob1 = obInstrument ob;
  lr_orders : orders s1 = orders s;
  lr_next : next s <= next s1;
  lr_clock : clock s1 = clock s;
  lr_uuids : uuids s1 = uuids s;
}.

Section create.
Context (s : Store) (ob : OrderBook) (b : bool) (p : decimal).
Hypothesis Hwf : book_wf s ob.
Hypothesis Hnew : forall lp, lp ∈ btree_Ascend (get_side ob b) -> ~ same_item Less (searchLevel p) lp.
Let lp0 := mkLevelPtr p (next s).
Let s1 := (NewPriceLevel p s).2.
Let ob1 := set_side ob b (btree_ReplaceOrInsert Less (get_side ob b) lp0).

Lemma create_get_level lp : lp ∈ all_levels ob -> get_level s1 (lpRef lp) = get_level s (lpRef lp).
Proof.
  intros Hlp. pose proof (bw_fresh_level _ _ Hwf _ Hlp). unfold s1, NewPriceLevel. cbn [alloc snd].
  rewrite get_level_set, decide_False by (cbn; lia). done.
Qed.

Lemma create_level : get_level s1 (lpRef lp0) = mkPriceLevel p [] decimal_Zero.
Proof. unfold s1, NewPriceLevel. cbn [alloc snd]. by rewrite get_level_set, decide_True. Qed.

Lemma create_ascend :
  btree_Ascend (get_side ob1 b) = item_insert Less lp0 (btree_Ascend (get_side ob b)).
Proof.
  unfold ob1. rewrite get_side_set_side, decide_True by done.
  apply btree_Ascend_ReplaceOrInsert; [apply Less_strict_weak|apply (bw_sorted _ _ Hwf)].
Qed.

Lemma create_best : exists m1 m2,
  best_levels ob b = m1 ++ m2 /\ best_levels ob1 b = m1 ++ lp0 :: m2.
Proof.
  rewrite !best_levels_side, create_ascend.
  destruct (item_insert_split Less Less_strict_weak lp0 _ (bw_sorted _ _ Hwf b))
    as (l1 & l2 & -> & -> & _); [done|].
  destruct b; [|by exists l1, l2]. exists (reverse l2), (reverse l1).
  by rewrite !reverse_app, reverse_cons, <- app_assoc.
Qed.

Lemma create_all_levels : all_levels ob1 ≡ₚ lp0 :: all_levels ob.
Proof.
  destruct create_best as (m1 & m2 & Hb & Hb1). unfold all_levels, ob1 in *.
  destruct b; [rewrite (best_levels_set_side_ne ob true false) by done
              |rewrite (best_levels_set_side_ne ob false true) by done];
    rewrite Hb, Hb1; solve_Permutation.
Qed.

Lemma create_elems lp : lp ∈ all_levels ob -> elems_of s1 lp = elems_of s lp.
Proof. intros Hlp. unfold elems_of. by rewrite create_get_level. Qed.

Lemma create_elems_new : elems_of s1 lp0 = [].
Proof. unfold elems_of. by rewrite create_level. Qed.

Lemma create_prio b' : prio s1 ob1 b' = prio s ob b'.
Proof.
  unfold prio. destruct (decide (b = b')) as [<-|Hne].
  - destruct create_best as (m1 & m2 & Hb & ->). rewrite Hb, !bind_app, bind_cons, create_elems_new.
    assert (forall lp, lp ∈ m1 ++ m2 -> lp ∈ all_levels ob) as Hin.
    { intros lp Hlp. rewrite <- Hb in Hlp. apply elem_of_all_levels. eauto. }
    f_equal; apply bind_ext_in; intros lp Hlp; apply create_elems, Hin; set_solver.
  - unfold ob1. rewrite best_levels_set_side_ne by done. apply bind_ext_in. intros lp Hlp.
    apply create_elems, elem_of_all_levels. eauto.
Qed.

Lemma create_levels b' lp : lp ∈ best_levels ob1 b' -> (lp = lp0 /\ b' = b) \/ lp ∈ best_levels ob b'.
Proof.
  destruct (decide (b = b')) as [<-|Hne].
  - destruct create_best as (m1 & m2 & -> & ->). set_solver.
  - unfold ob1. rewrite best_levels_set_side_ne by done. by right.
Qed.

Lemma create_core : book_core s1 ob1.
Proof.
  assert (all_elems s1 ob1 = all_elems s ob) as Hall by (unfold all_elems; by rewrite !create_prio).
  assert (next s1 = S (next s)) as Hn1 by done.
  assert (forall lp, lp ∈ all_levels ob1 <-> lp = lp0 \/ lp ∈ all_levels ob) as Hin.
  { intros lp. rewrite create_all_levels. apply elem_of_cons. }
  split.
  - intros b'. unfold ob1. rewrite get_side_set_side. case_decide; [|apply (bw_sorted _ _ Hwf)].
    rewrite btree_Ascend_ReplaceOrInsert by eauto using Less_strict_weak, bw_sorted, bw_core.
    apply item_insert_sorted; [apply Less_strict_weak|apply (bw_sorted _ _ Hwf)].
  - rewrite create_all_levels. cbn. apply NoDup_cons. split; [|apply (bw_refs _ _ Hwf)].
    intros (lp & Hr & Hlp)%list_elem_of_fmap. pose proof (bw_fresh_level _ _ Hwf _ Hlp). lia.
  - intros b' lp [[-> ->]|Hlp]%create_levels.
    + split; rewrite ?create_elems_new; [by rewrite create_level| |set_solver..].
      rewrite create_level. cbn. rewrite dval_Zero. reflexivity.
    + assert (lp ∈ all_levels ob) as Hlp' by (apply elem_of_all_levels; eauto).
      destruct (bw_level_ok _ _ Hwf _ _ Hlp) as [Hp Hv Hs Ho].
      split; rewrite ?create_elems, ?create_get_level by done; done.
  - rewrite Hall. apply (bw_keys _ _ Hwf).
  - rewrite Hall. apply (bw_ids _ _ Hwf).
  - intros k loc. unfold ob1. rewrite obOrders_set_side, (bw_map _ _ Hwf). fold ob1.
    split; intros (lp & Hlp & Hr & He & Hk).
    + exists lp. rewrite Hin, create_elems by done. eauto.
    + apply Hin in Hlp as [->|Hlp].
      * rewrite create_elems_new in He. set_solver.
      * rewrite create_elems in He by done. eauto.
  - intros lp [->|Hlp]%Hin; [cbn; lia|]. pose proof (bw_fresh_level _ _ Hwf _ Hlp). lia.
  - rewrite Hall. intros e He. pose proof (bw_fresh_elem _ _ Hwf _ He). lia.
Qed.
End create.

Lemma GetOrCreate_spec s ob b p :
  book_wf s ob ->
  exists lp0 s1 t m1 m2,
    GetOrCreatePriceLevel s (get_side ob b) p = (lpRef lp0, s1, t) /\
    level_ready s ob b p s1 (set_side ob b t) lp0 m1 m2.
Proof.
  intros Hwf. unfold GetOrCreatePriceLevel.
  rewrite btree_Get_spec by eauto using Less_strict_weak, bw_sorted, bw_core.
  destruct (list_find _ _) as [[i lp]|] eqn:Hfind; cbn.
  - apply list_find_Some in Hfind as (Hlp%list_elem_of_lookup_2 & Hsame & _).
    apply same_item_price in Hsame. apply elem_of_best_levels in Hlp.
    destruct (list_elem_of_split _ _ Hlp) as (m1 & m2 & Hm).
    exists lp, s, (get_side ob b), m1, m2. split; [done|]. rewrite set_side_get_side.
    split; try done; [apply Hwf|intros ? ? ? _; by eapply bw_nonempty].
  - apply list_find_None in Hfind. rewrite Forall_forall in Hfind.
    destruct (create_best s ob b p Hwf Hfind) as (m1 & m2 & _ & Hm).
    eexists (mkLevelPtr p (next s)), _, _, m1, m2. split; [reflexivity|].
    split; try done.
    + by apply create_core.
    + intros b'. by apply create_prio.
    + intros b' lp Hlp Hne. destruct (create_levels s ob b p Hwf Hfind _ _ Hlp) as [[-> _]|Hlp']; [done|].
      rewrite (create_elems s ob p); [by eapply bw_nonempty|done|].
      apply elem_of_all_levels. eauto.
    + by rewrite obOrders_set_side.
    + by destruct b.
    + cbn. lia.
Qed.

Section append.
Context (s : Store) (ob : OrderBook) (b : bool) (r : oref) (lp0 : LevelPtr) (m1 m2 : list LevelPtr).
Hypothesis Hcore : book_core s ob.
Hypothesis Hbest : best_levels ob b = m1 ++ lp0 :: m2.
Hypothesis Hnonempty : forall b' lp, lp ∈ best_levels ob b' -> lpRef lp <> lpRef lp0 -> elems_of s lp <> [].
Hypothesis Hside : is_buy (get_order s r) = b.
Hypothesis Hprice : oPrice (get_order s r) ≐ lpPrice lp0.
Hypothesis Hr : r < next s.
Hypothesis Hkey : obOrders ob !! uuid_String (oID (get_order s r)) = None.
Let e0 := mkElement (next s) r.
Let s2 := (PriceLevel_AddOrder s (lpRef lp0) r).2.
Let ob2 := set_obOrders ob (<[ekey s e0 := mkOrderLocation (lpRef lp0) e0]> (obOrders ob)).

Lemma append_lp0 : lp0 ∈ best_levels ob b.
Proof. rewrite Hbest. set_solver. Qed.

Lemma append_lp0_all : lp0 ∈ all_levels ob.
Proof. apply elem_of_all_levels. eauto using append_lp0. Qed.

Lemma append_get_level lr :
  get_level s2 lr =
    if decide (lpRef lp0 = lr) then
      mkPriceLevel (plPrice (get_level s lr)) (plOrders (get_level s lr) ++ [e0])
        (decimal_Add (plVolume (get_level s lr)) (RemainingQuantity (get_order s r)))
    else get_level s lr.
Proof.
  unfold s2, PriceLevel_AddOrder, PushBack, set_plVolume. cbn [alloc snd].
  rewrite !get_level_set, !(decide_True (P := lpRef lp0 = lpRef lp0)) by done.
  case_decide as Hlr; [by subst|done].
Qed.

Lemma append_elems lp :
  elems_of s2 lp = elems_of s lp ++ (if decide (lpRef lp0 = lpRef lp) then [e0] else []).
Proof.
  unfold elems_of. rewrite append_get_level. case_decide; [done|by rewrite app_nil_r].
Qed.

Lemma append_elems_ne lp b' : lp ∈ best_levels ob b' -> lp <> lp0 -> elems_of s2 lp = elems_of s lp.
Proof.
  intros Hlp Hne. rewrite append_elems, decide_False; [by rewrite app_nil_r|].
  intros Heq. destruct Hne. symmetry.
  apply (NoDup_fmap_inj_in lpRef (all_levels ob)); [apply (bw_refs _ _ Hcore)|apply append_lp0_all| |done].
  apply elem_of_all_levels. eauto.
Qed.

Lemma append_NoDup : NoDup (best_levels ob true ++ best_levels ob false).
Proof. eapply NoDup_fmap_1, (bw_refs _ _ Hcore). Qed.

Lemma append_prio : prio s2 ob2 b = (m1 ≫= elems_of s) ++ elems_of s lp0 ++ e0 :: (m2 ≫= elems_of s).
Proof.
  assert (NoDup (best_levels ob b)) as Hnd.
  { pose proof append_NoDup as (? & _ & ?)%NoDup_app. by destruct b. }
  rewrite Hbest in Hnd. apply NoDup_app in Hnd as (_ & Hd1 & [Hd2 _]%NoDup_cons).
  unfold prio. change (best_levels ob2 b) with (best_levels ob b).
  rewrite Hbest, bind_app, bind_cons, (append_elems lp0), decide_True, <- app_assoc by done.
  f_equal; [|f_equal; cbn; f_equal]; apply bind_ext_in; intros lp Hlp; apply (append_elems_ne _ b);
    rewrite ?Hbest; try set_solver.
Qed.

Lemma append_prio_other b' : b <> b' -> prio s2 ob2 b' = prio s ob b'.
Proof.
  intros Hne. apply bind_ext_in. intros lp Hlp.
  change (best_levels ob2 b') with (best_levels ob b') in Hlp.
  apply (append_elems_ne _ b'); [done|]. intros ->. pose proof append_lp0 as Hlp0.
  pose proof append_NoDup as (_ & Hd & _)%NoDup_app.
  destruct b, b'; try done; [by destruct (Hd lp0 Hlp0)|by destruct (Hd lp0 Hlp)].
Qed.

Lemma append_prio_old : prio s ob b = ((m1 ≫= elems_of s) ++ elems_of s lp0) ++ (m2 ≫= elems_of s).
Proof. unfold prio. by rewrite Hbest, bind_app, bind_cons, <- app_assoc. Qed.

Lemma append_all_elems : all_elems s2 ob2 ≡ₚ e0 :: all_elems s ob.
Proof.
  unfold all_elems. pose proof append_prio as Hp. pose proof append_prio_old as Ho.
  pose proof (append_prio_other true) as Hnt. pose proof (append_prio_other false) as Hnf.
  destruct b; rewrite Hp, Ho, ?Hnt, ?Hnf by done; solve_Permutation.
Qed.

Lemma append_level_wf b' lp : lp ∈ best_levels ob b' -> level_wf s2 b' lp.
Proof.
  intros Hlp. pose proof (bw_level_ok _ _ Hcore _ _ Hlp) as [Hp Hv Hs Ho].
  assert (lp ∈ all_levels ob) as Hlp' by (apply elem_of_all_levels; eauto).
  destruct (decide (lpRef lp0 = lpRef lp)) as [Heq|Hne].
  - assert (lp0 = lp) as <-.
    { by apply (NoDup_fmap_inj_in lpRef (all_levels ob));
        [apply (bw_refs _ _ Hcore)|apply append_lp0_all|..]. }
    assert (b' = b) as ->.
    { pose proof append_lp0 as Hlp0. pose proof append_NoDup as (_ & Hd & _)%NoDup_app.
      destruct b, b'; try done; [by destruct (Hd lp0 Hlp0)|by destruct (Hd lp0 Hlp)]. }
    pose proof (append_elems lp0) as Hel. rewrite decide_True in Hel by done.
    split; [split|]; rewrite ?Hel, ?append_get_level, ?decide_True by done; cbn [plPrice plVolume].
    + done.
    + rewrite dval_Add, dval_Remaining, Hv, fmap_app. cbn [fmap list_fmap].
      rewrite Qsum_snoc. reflexivity.
    + intros e [He|He]%elem_of_app; [by apply Hs|]. by apply list_elem_of_singleton in He as ->.
    + intros e [He|He]%elem_of_app; [by apply Ho|]. by apply list_elem_of_singleton in He as ->.
    + intros Hnil. by apply app_eq_nil in Hnil as [_ ?].
  - pose proof (append_elems lp) as Hel. rewrite decide_False, app_nil_r in Hel by done.
    split; [split|]; rewrite ?Hel, ?append_get_level, ?decide_False by done; try done.
    by apply (Hnonempty b').
Qed.

Lemma append_e0_fresh : e0 ∉ all_elems s ob.
Proof. intros He. pose proof (bw_fresh_elem _ _ Hcore _ He). cbn in *. lia. Qed.

Lemma append_key_fresh e : e ∈ all_elems s ob -> ekey s e <> ekey s e0.
Proof.
  rewrite all_elems_bind, list_elem_of_bind. intros (lp & He & Hlp) Hk.
  assert (obOrders ob !! ekey s e = Some (mkOrderLocation (lpRef lp) e)) as Hm.
  { apply (bw_map _ _ Hcore). eauto. }
  change (ekey s e0) with (uuid_String (oID (get_order s r))) in Hk. rewrite Hk in Hm. congruence.
Qed.

Lemma append_map k loc :
  obOrders ob2 !! k = Some loc <->
  exists lp, lp ∈ all_levels ob2 /\ lpRef lp = locPriceLevel loc /\
    locElement loc ∈ elems_of s2 lp /\ ekey s2 (locElement loc) = k.
Proof.
  change (all_levels ob2) with (all_levels ob). change (ekey s2) with (ekey s).
  unfold ob2. cbn [obOrders set_obOrders]. rewrite lookup_insert_Some, (bw_map _ _ Hcore). split.
  - intros [[<- <-]|(Hk & lp & Hlp & Href & He & Hkk)].
    + exists lp0. rewrite append_elems, decide_True by done. cbn [locPriceLevel locElement].
      split; [apply append_lp0_all|]. set_solver.
    + exists lp. rewrite append_elems. set_solver.
  - intros (lp & Hlp & Href & He & Hk). rewrite append_elems in He.
    apply elem_of_app in He as [He|He].
    + right. split; [|by exists lp]. subst k. intros Heq.
      destruct (append_key_fresh (locElement loc)); [by eapply all_elems_level|done].
    + case_decide as Heq; [|set_solver]. apply list_elem_of_singleton in He. left.
      destruct loc as [pl el]. cbn in *. split; congruence.
Qed.

Lemma append_wf : book_wf s2 ob2.
Proof.
  split; [split|].
  - apply (bw_sorted _ _ Hcore).
  - apply (bw_refs _ _ Hcore).
  - intros b' lp Hlp. by apply append_level_wf.
  - change (ekey s2) with (ekey s). rewrite append_all_elems. cbn [fmap list_fmap].
    apply NoDup_cons. split; [|apply (bw_keys _ _ Hcore)].
    intros (e & Hk & He)%list_elem_of_fmap. by destruct (append_key_fresh e).
  - rewrite append_all_elems. cbn [fmap list_fmap].
    apply NoDup_cons. split; [|apply (bw_ids _ _ Hcore)].
    intros (e & Hk & He)%list_elem_of_fmap. pose proof (bw_fresh_elem _ _ Hcore _ He). cbn in *. lia.
  - apply append_map.
  - intros lp Hlp. pose proof (bw_fresh_level _ _ Hcore lp Hlp). change (next s2) with (S (next s)). lia.
  - change (next s2) with (S (next s)). intros e. rewrite append_all_elems.
    intros [->|He]%elem_of_cons; [cbn; lia|]. pose proof (bw_fresh_elem _ _ Hcore _ He). lia.
  - intros b' lp Hlp. by apply (append_level_wf b' lp).
Qed.

Lemma append_before e : e ∈ (m1 ≫= elems_of s) ++ elems_of s lp0 ->
  ~ better b (oPrice (get_order s r)) (oPrice (order_of s e)).
Proof.
  pose proof (best_levels_sorted _ _ b Hcore) as Hs. rewrite Hbest in Hs.
  intros [(lp & He & Hlp)%list_elem_of_bind|He]%elem_of_app.
  - assert (better b (lpPrice lp) (lpPrice lp0)) as Hb.
    { apply StronglySorted_app in Hs as (Hs & _ & _). apply Hs; [done|set_solver]. }
    assert (lp ∈ best_levels ob b) as Hlp' by (rewrite Hbest; set_solver).
    pose proof (lw_oprice _ _ _ (bw_level_ok _ _ Hcore _ _ Hlp') e He) as Hpe.
    unfold deq in *. unfold better in *. destruct b; lra.
  - pose proof (lw_oprice _ _ _ (bw_level_ok _ _ Hcore _ _ append_lp0) e He) as Hpe.
    unfold deq in *. unfold better in *. destruct b; lra.
Qed.

Lemma append_after e : e ∈ m2 ≫= elems_of s ->
  better b (oPrice (get_order s r)) (oPrice (order_of s e)).
Proof.
  pose proof (best_levels_sorted _ _ b Hcore) as Hs. rewrite Hbest in Hs.
  intros (lp & He & Hlp)%list_elem_of_bind.
  apply StronglySorted_app in Hs as (_ & _ & Hs). apply StronglySorted_inv in Hs as [_ Hs].
  rewrite Forall_forall in Hs. specialize (Hs lp Hlp). cbn in Hs.
  assert (lp ∈ best_levels ob b) as Hlp' by (rewrite Hbest; set_solver).
  pose proof (lw_oprice _ _ _ (bw_level_ok _ _ Hcore _ _ Hlp') e He) as Hpe.
  unfold deq in *. unfold better in *. destruct b; lra.
Qed.
End append.

(** What queueing the order [r] on side [b] does: the new element stands after
    the orders of a better or equal price and before those of a worse one. *)
Record added s ob b (r : oref) s' ob' (l1 l2 : list Element) e : Prop := {
  ad_wf : book_wf s' ob';
  ad_value : elem_Value e = r;
  ad_old : prio s ob b = l1 ++ l2;
  ad_prio : prio s' ob' b = l1 ++ e :: l2;
  ad_other b' : b <> b' -> prio s' ob' b' = prio s ob b';
  ad_before e' : e' ∈ l1 -> ~ better b (oPrice (get_order s r)) (oPrice (order_of s e'));
  ad_after e' : e' ∈ l2 -> better b (oPrice (get_order s r)) (oPrice (order_of s e'));
  ad_map : exists lref, obOrders ob' =
    <[uuid_String (oID (get_order s r)) := mkOrderLocation lref e]> (obOrders ob);
  ad_instrument : obInstrument ob' = obInstrument ob;
  ad_orders : orders s' = orders s;
  ad_next : next s <= next s';
  ad_clock : clock s' = clock s;
  ad_uuids : uuids s' = uuids s;
}.

Lemma AddOrder_spec s ob r :
  book_wf s ob -> r < next s -> obOrders ob !! uuid_String (oID (get_order s r)) = None ->
  exists s' ob' l1 l2 e,
    AddOrder s ob r = (s', ob') /\ added s ob (is_buy (get_order s r)) r s' ob' l1 l2 e.
Proof.
  intros Hwf Hr Hkey. unfold AddOrder.
  destruct (GetOrCreate_spec s ob (is_buy (get_order s r)) (oPrice (get_order s r)) Hwf)
    as (lp0 & s1 & t & m1 & m2 & -> & Hlr).
  set (b := is_buy (get_order s r)) in *. set (ob1 := set_side ob b t) in *.
  assert (forall r', get_order s1 r' = get_order s r') as Hget
    by (intros; unfold get_order; by rewrite (lr_orders _ _ _ _ _ _ _ _ _ Hlr)).
  assert (forall e, order_of s1 e = order_of s e) as Hof by (intros; apply Hget).
  destruct Hlr as [Hc Hpr Hbest Hprio Hne Hmap Hinst Hord Hnext Hclk Huu].
  destruct (PriceLevel_AddOrder s1 (lpRef lp0) r) as [e s2] eqn:Hadd.
  assert (s2 = (PriceLevel_AddOrder s1 (lpRef lp0) r).2) as Hs2 by (by rewrite Hadd).
  assert (e = mkElement (next s1) r) as -> by (by unfold PriceLevel_AddOrder, PushBack in Hadd; simplify_eq/=).
  assert (r < next s1) as Hr1 by lia.
  assert (obOrders ob1 !! uuid_String (oID (get_order s1 r)) = None) as Hkey1
    by (by rewrite Hmap, Hget).
  assert (oPrice (get_order s1 r) ≐ lpPrice lp0) as Hpr1 by (by rewrite Hget).
  assert (is_buy (get_order s1 r) = b) as Hb1 by (by rewrite Hget).
  eexists s2, _, ((m1 ≫= elems_of s1) ++ elems_of s1 lp0), (m2 ≫= elems_of s1), (mkElement (next s1) r).
  split; [reflexivity|]. subst s2. rewrite <- (Hget r). split.
  - by eapply append_wf.
  - done.
  - rewrite <- Hprio. by apply append_prio_old.
  - rewrite <- app_assoc. by eapply append_prio.
  - intros b' Hne'. rewrite <- Hprio. by eapply append_prio_other.
  - intros e' He'. rewrite <- (Hof e'), <- (Hget r). by eapply (append_before s1 ob1 b r lp0 m1 m2).
  - intros e' He'. rewrite <- (Hof e'), <- (Hget r). by eapply (append_after s1 ob1 b r lp0 m1 m2).
  - eexists. cbn. by rewrite Hmap, Hget.
  - apply Hinst.
  - by rewrite <- Hord.
  - cbn. lia.
  - by rewrite <- Hclk.
  - by rewrite <- Huu.
Qed.
End facts.
