(* ===== verification/Events.v ===== *)
(** * The event bus (src/engine/events.go)

    Listeners are functions supplied by the rest of the program; the bus holds
    them by name.  [Publish] starts one goroutine per listener and returns
    without waiting: its result is the list of calls it starts. *)

From S2P Require Import Prelude.
From S2P Require Import External.

Section events.
Context `{DecimalPkg, UuidPkg}.

Definition EventTypeNewTrade : string := "NewTrade".
Definition EventTypeOrderPlaced : string := "OrderPlaced".
Definition EventTypeOrderFilled : string := "OrderFilled".
Definition EventTypeOrderCancelled : string := "OrderCancelled".
Definition EventTypeOrderbookChange : string := "OrderbookChange".

Record NewTradeEvent := mkNewTradeEvent {
  nteTradeID : uuid;
  nteInstrument : string;
  nteBuyOrderID : uuid;
  nteSellOrderID : uuid;
  ntePrice : decimal;
  nteQuantity : decimal;
  nteTimestamp : Z;
}.

Record OrderEvent := mkOrderEvent {
  oeOrderID : uuid;
  oeClientID : string;
  oeInstrument : string;
  oeSide : string;
  oeType : string;
  oeStatus : string;
  oePrice : decimal;
  oeQuantity : decimal;
  oeFilledQuantity : decimal;
  oeRemainingQuantity : decimal;
  oeTimestamp : Z;
}.

Record OrderbookChangeEvent := mkOrderbookChangeEvent {
  oceInstrument : string;
  oceSide : string;
  oceAction : string;
  ocePrice : decimal;
  oceNewSize : decimal;
  oceOldSize : decimal;
  oceTimestamp : Z;
}.

(** The dynamic types the [Data] field takes. *)
Inductive EventData :=
  | DataNewTrade (d : NewTradeEvent)
  | DataOrder (d : OrderEvent)
  | DataOrderbookChange (d : OrderbookChangeEvent).

Record Event := mkEvent {
  evType : string;
  evTimestamp : Z;
  evData : EventData;
}.

Definition EventListener : Type := nat.

Record EventBus := mkEventBus { listeners : gmap string (list EventListener) }.

Definition NewEventBus : EventBus := mkEventBus ∅.

(** A missing key reads as the nil slice. *)
Definition listeners_of (eb : EventBus) (eventType : string) : list EventListener :=
  default [] (listeners eb !! eventType).

Definition Subscribe (eb : EventBus) (eventType : string) (listener : EventListener) : EventBus :=
  mkEventBus (<[eventType := listeners_of eb eventType ++ [listener]]> (listeners eb)).

Definition Publish (eb : EventBus) (event : Event) : list (EventListener * Event) :=
  (fun listener => (listener, event)) <$> listeners_of eb (evType event).

Definition Unsubscribe (eb : EventBus) (eventType : string) : EventBus :=
  mkEventBus (delete eventType (listeners eb)).

Definition GetListenerCount (eb : EventBus) (eventType : string) : nat :=
  length (listeners_of eb eventType).
End events.

Section facts.
Context `{DecimalPkg, UuidPkg}.

Lemma listeners_of_Subscribe (eb : EventBus) (t t' : string) (l : EventListener) :
  listeners_of (Subscribe eb t l) t' = listeners_of eb t' ++ (if decide (t = t') then [l] else []).
Proof.
  unfold listeners_of at 1, Subscribe. cbn. rewrite lookup_insert.
  case_decide; subst; cbn; [done|]. by rewrite app_nil_r.
Qed.

Lemma listeners_of_Unsubscribe (eb : EventBus) (t t' : string) :
  listeners_of (Unsubscribe eb t) t' = if decide (t = t') then [] else listeners_of eb t'.
Proof.
  unfold listeners_of, Unsubscribe. cbn. rewrite lookup_delete. by case_decide.
Qed.
End facts.
