(* ===== verification/Matching.v ===== *)
(** * Matching (src/engine/matching_engine.go)

    The engine's state, the trades it makes and the matching loops, statement
    by statement.  What the engine does to the outside (handler calls, event
    listeners it starts, gauges it sets, responses it sends) is appended to
    [output].  Log lines have no effect on the state and are left out.

    The loops are not structurally recursive: each takes fuel, one unit per
    iteration, and returns [None] when it runs out. *)

From S2P Require Import Prelude.
From S2P Require Import External.
From S2P Require Import Models.
From S2P Require Import OrderBook.
From S2P Require Import Events.

Section matching.
Context `{DecimalPkg, UuidPkg, !EnvPkg, BTreePkg}.

(** ** Data *)

Record Trade := mkTrade {
  TradeID : uuid;
  BuyOrderID : uuid;
  SellOrderID : uuid;
  tInstrument : string;
  tPrice : decimal;
  tQuantity : decimal;
  tTimestamp : Z;
  IsBuyerPartialFill : bool;
  IsSellerPartialFill : bool;
  BuyerFilledQty : decimal;
  SellerFilledQty : decimal;
  BuyerRemainingQty : decimal;
  SellerRemainingQty : decimal;
}.

(** The debug fields start at their zero values. *)
Definition NewTrade (s : Store) (buyOrderID sellOrderID : uuid) (instrument : string)
    (price quantity : decimal) : Trade * Store :=
  let '(id, s1) := draw_uuid s in
  let '(now, s2) := read_clock s1 in
  (mkTrade id buyOrderID sellOrderID instrument price quantity now
     false false decimal_Zero decimal_Zero decimal_Zero decimal_Zero, s2).

Record TradeDebugInfo := mkTradeDebugInfo {
  tdiTradeID : uuid;
  tdiExecutionTime : Z;
  tdiExecutionPrice : decimal;
  tdiExecutionQuantity : decimal;
  tdiBuyOrderID : uuid;
  tdiBuyerSide : string;
  tdiBuyerLimitPrice : decimal;
  tdiBuyerTotalQty : decimal;
  tdiBuyerFilledBefore : decimal;
  tdiBuyerFilledAfter : decimal;
  tdiBuyerRemainingQty : decimal;
  tdiBuyerStatusBefore : string;
  tdiBuyerStatusAfter : string;
  tdiIsBuyerPartialFill : bool;
  tdiSellOrderID : uuid;
  tdiSellerSide : string;
  tdiSellerLimitPrice : decimal;
  tdiSellerTotalQty : decimal;
  tdiSellerFilledBefore : decimal;
  tdiSellerFilledAfter : decimal;
  tdiSellerRemainingQty : decimal;
  tdiSellerStatusBefore : string;
  tdiSellerStatusAfter : string;
  tdiIsSellerPartialFill : bool;
  tdiMatchLevel : nat;
  tdiFIFOPosition : nat;
}.

(** The errors the engine builds with [fmt.Errorf]. *)
Inductive EngineError :=
  | ErrOrderNotFound (id : uuid)
  | ErrUnknownCommand (type : string)
  | ErrNotRunning
  | ErrAlreadyRunning
  | ErrChannelFull.

Record CommandResponse := mkCommandResponse {
  crTrades : list Trade;
  crError : option EngineError;
  crOrder : option oref;
}.

(** [Response] is the name of the caller's channel, [None] for nil. *)
Record OrderCommand := mkOrderCommand {
  cmdType : string;
  cmdOrder : oref;
  cmdOrderID : uuid;
  cmdResponse : option nat;
}.

Inductive Effect :=
  | CallTradeHandler (t : Trade)
  | CallWsTrade (t : Trade)
  | CallWsOrderbook (instrument side : string) (price size : decimal)
  | CallWsOrderUpdate (order : oref)
  | StartListener (listener : EventListener) (event : Event)
  | GaugeDepth (instrument side : string) (depth : nat)
  | GaugeBestPrices (instrument : string) (bid ask : option decimal)
  | SendResponse (chan : nat) (response : CommandResponse).

Definition is_response (fx : Effect) : bool :=
  match fx with SendResponse _ _ => true | _ => false end.

(** The handlers are functions of the rest of the program; the state records
    which of them are set. *)
Record MatchingEngine := mkMatchingEngine {
  heap : Store;
  orderBook : OrderBook;
  commandChan : list OrderCommand;
  stopChanClosed : bool;
  isRunning : bool;
  tradeHandler : bool;
  eventBus : EventBus;
  debugMode : bool;
  tradeDebugInfo : list TradeDebugInfo;
  commandsProcessed : Z;
  channelBlocks : Z;
  wsTradeHandler : bool;
  wsOrderbookHandler : bool;
  wsOrderUpdateHandler : bool;
  output : list Effect;
}.

Definition set_heap (me : MatchingEngine) (v : Store) : MatchingEngine :=
  mkMatchingEngine v (orderBook me) (commandChan me) (stopChanClosed me) (isRunning me)
    (tradeHandler me) (eventBus me) (debugMode me) (tradeDebugInfo me) (commandsProcessed me)
    (channelBlocks me) (wsTradeHandler me) (wsOrderbookHandler me) (wsOrderUpdateHandler me)
    (output me).
Definition set_orderBook (me : MatchingEngine) (v : OrderBook) : MatchingEngine :=
  mkMatchingEngine (heap me) v (commandChan me) (stopChanClosed me) (isRunning me) (tradeHandler
    me) (eventBus me) (debugMode me) (tradeDebugInfo me) (commandsProcessed me) (channelBlocks
    me) (wsTradeHandler me) (wsOrderbookHandler me) (wsOrderUpdateHandler me) (output me).
Definition set_commandChan (me : MatchingEngine) (v : list OrderCommand) : MatchingEngine :=
  mkMatchingEngine (heap me) (orderBook me) v (stopChanClosed me) (isRunning me) (tradeHandler
    me) (eventBus me) (debugMode me) (tradeDebugInfo me) (commandsProcessed me) (channelBlocks
    me) (wsTradeHandler me) (wsOrderbookHandler me) (wsOrderUpdateHandler me) (output me).
Definition set_stopChanClosed (me : MatchingEngine) (v : bool) : MatchingEngine :=
  mkMatchingEngine (heap me) (orderBook me) (commandChan me) v (isRunning me) (tradeHandler me)
    (eventBus me) (debugMode me) (tradeDebugInfo me) (commandsProcessed me) (channelBlocks me)
    (wsTradeHandler me) (wsOrderbookHandler me) (wsOrderUpdateHandler me) (output me).
Definition set_isRunning (me : MatchingEngine) (v : bool) : MatchingEngine :=
  mkMatchingEngine (heap me) (orderBook me) (commandChan me) (stopChanClosed me) v (tradeHandler
    me) (eventBus me) (debugMode me) (tradeDebugInfo me) (commandsProcessed me) (channelBlocks
    me) (wsTradeHandler me) (wsOrderbookHandler me) (wsOrderUpdateHandler me) (output me).
Definition set_tradeHandler (me : MatchingEngine) (v : bool) : MatchingEngine :=
  mkMatchingEngine (heap me) (orderBook me) (commandChan me) (stopChanClosed me) (isRunning me)
    v (eventBus me) (debugMode me) (tradeDebugInfo me) (commandsProcessed me) (channelBlocks me)
    (wsTradeHandler me) (wsOrderbookHandler me) (wsOrderUpdateHandler me) (output me).
Definition set_eventBus (me : MatchingEngine) (v : EventBus) : MatchingEngine :=
  mkMatchingEngine (heap me) (orderBook me) (commandChan me) (stopChanClosed me) (isRunning me)
    (tradeHandler me) v (debugMode me) (tradeDebugInfo me) (commandsProcessed me) (channelBlocks
    me) (wsTradeHandler me) (wsOrderbookHandler me) (wsOrderUpdateHandler me) (output me).
Definition set_debugMode (me : MatchingEngine) (v : bool) : MatchingEngine :=
  mkMatchingEngine (heap me) (orderBook me) (commandChan me) (stopChanClosed me) (isRunning me)
    (tradeHandler me) (eventBus me) v (tradeDebugInfo me) (commandsProcessed me) (channelBlocks
    me) (wsTradeHandler me) (wsOrderbookHandler me) (wsOrderUpdateHandler me) (output me).
Definition set_tradeDebugInfo (me : MatchingEngine) (v : list TradeDebugInfo) : MatchingEngine :=
  mkMatchingEngine (heap me) (orderBook me) (commandChan me) (stopChanClosed me) (isRunning me)
    (tradeHandler me) (eventBus me) (debugMode me) v (commandsProcessed me) (channelBlocks me)
    (wsTradeHandler me) (wsOrderbookHandler me) (wsOrderUpdateHandler me) (output me).
Definition set_commandsProcessed (me : MatchingEngine) (v : Z) : MatchingEngine :=
  mkMatchingEngine (heap me) (orderBook me) (commandChan me) (stopChanClosed me) (isRunning me)
    (tradeHandler me) (eventBus me) (debugMode me) (tradeDebugInfo me) v (channelBlocks me)
    (wsTradeHandler me) (wsOrderbookHandler me) (wsOrderUpdateHandler me) (output me).
Definition set_channelBlocks (me : MatchingEngine) (v : Z) : MatchingEngine :=
  mkMatchingEngine (heap me) (orderBook me) (commandChan me) (stopChanClosed me) (isRunning me)
    (tradeHandler me) (eventBus me) (debugMode me) (tradeDebugInfo me) (commandsProcessed me) v
    (wsTradeHandler me) (wsOrderbookHandler me) (wsOrderUpdateHandler me) (output me).
Definition set_wsTradeHandler (me : MatchingEngine) (v : bool) : MatchingEngine :=
  mkMatchingEngine (heap me) (orderBook me) (commandChan me) (stopChanClosed me) (isRunning me)
    (tradeHandler me) (eventBus me) (debugMode me) (tradeDebugInfo me) (commandsProcessed me)
    (channelBlocks me) v (wsOrderbookHandler me) (wsOrderUpdateHandler me) (output me).
Definition set_wsOrderbookHandler (me : MatchingEngine) (v : bool) : MatchingEngine :=
  mkMatchingEngine (heap me) (orderBook me) (commandChan me) (stopChanClosed me) (isRunning me)
    (tradeHandler me) (eventBus me) (debugMode me) (tradeDebugInfo me) (commandsProcessed me)
    (channelBlocks me) (wsTradeHandler me) v (wsOrderUpdateHandler me) (output me).
Definition set_wsOrderUpdateHandler (me : MatchingEngine) (v : bool) : MatchingEngine :=
  mkMatchingEngine (heap me) (orderBook me) (commandChan me) (stopChanClosed me) (isRunning me)
    (tradeHandler me) (eventBus me) (debugMode me) (tradeDebugInfo me) (commandsProcessed me)
    (channelBlocks me) (wsTradeHandler me) (wsOrderbookHandler me) v (output me).
Definition set_output (me : MatchingEngine) (v : list Effect) : MatchingEngine :=
  mkMatchingEngine (heap me) (orderBook me) (commandChan me) (stopChanClosed me) (isRunning me)
    (tradeHandler me) (eventBus me) (debugMode me) (tradeDebugInfo me) (commandsProcessed me)
    (channelBlocks me) (wsTradeHandler me) (wsOrderbookHandler me) (wsOrderUpdateHandler me) v.

(** The engine is created in a program whose heap is [s]. *)
Definition NewMatchingEngine (s : Store) (instrument : string) : MatchingEngine :=
  mkMatchingEngine s (NewOrderBook instrument) [] false false false NewEventBus false [] 0 0
    false false false [].

(** Append to the output. *)
Definition emit (me : MatchingEngine) (fx : list Effect) : MatchingEngine :=
  set_output me (output me ++ fx).

(** Run a book operation on the engine's heap and book. *)
Definition set_book (me : MatchingEngine) (s : Store) (ob : OrderBook) : MatchingEngine :=
  set_orderBook (set_heap me s) ob.

Definition now (me : MatchingEngine) : Z * MatchingEngine :=
  let '(t, s) := read_clock (heap me) in (t, set_heap me s).

Definition order_at (me : MatchingEngine) (r : oref) : Order := get_order (heap me) r.

Definition assign_order (me : MatchingEngine) (r : oref) (o : Order) : MatchingEngine :=
  set_heap me (set_order (heap me) r o).

(** [order.Fill(quantity)]. *)
Definition fill_order (me : MatchingEngine) (r : oref) (quantity : decimal) : MatchingEngine :=
  let '(t, me1) := now me in assign_order me1 r (Fill t quantity (order_at me1 r)).

(** ** Notifications *)

Definition publish (me : MatchingEngine) (event : Event) : MatchingEngine :=
  emit me ((fun c => StartListener c.1 c.2) <$> Publish (eventBus me) event).

Definition publishOrderbookChange (me : MatchingEngine) (side action : string)
    (price newSize oldSize : decimal) : MatchingEngine :=
  let '(t1, me1) := now me in
  let '(t2, me2) := now me1 in
  publish me2 (mkEvent EventTypeOrderbookChange t1
    (DataOrderbookChange (mkOrderbookChangeEvent (obInstrument (orderBook me)) side action
       price newSize oldSize t2))).

Definition updateOrderbookMetrics (me : MatchingEngine) (instrument : string) : MatchingEngine :=
  let bidDepth := GetBidDepth (heap me) (orderBook me) in
  let askDepth := GetAskDepth (heap me) (orderBook me) in
  let bestBid := GetBestBidPrice (heap me) (orderBook me) in
  let bestAsk := GetBestAskPrice (heap me) (orderBook me) in
  emit me [GaugeDepth instrument "buy" bidDepth; GaugeDepth instrument "sell" askDepth;
           GaugeBestPrices instrument bestBid bestAsk].

(** The [side] string of an event: "buy" unless the order sells. *)
Definition event_side (o : Order) : string :=
  if bool_decide (oSide o = OrderSideSell) then "sell" else "buy".

(** ** One resting order *)

(** The trade's debug fields, read after both orders were filled. *)
Definition complete_trade (t : Trade) (buy sell : Order) : Trade :=
  mkTrade (TradeID t) (BuyOrderID t) (SellOrderID t) (tInstrument t) (tPrice t) (tQuantity t)
    (tTimestamp t)
    (bool_decide (oStatus buy = OrderStatusPartiallyFilled))
    (bool_decide (oStatus sell = OrderStatusPartiallyFilled))
    (oFilledQuantity buy) (oFilledQuantity sell) (RemainingQuantity buy) (RemainingQuantity sell).

Definition debug_info (t : Trade) (tradePrice matchQty : decimal)
    (buyBefore sellBefore buy sell : Order) (matchLevel orderIndex : nat) : TradeDebugInfo :=
  mkTradeDebugInfo (TradeID t) (tTimestamp t) tradePrice matchQty
    (oID buy) (oSide buy) (oPrice buy) (oQuantity buy)
    (oFilledQuantity buyBefore) (oFilledQuantity buy) (RemainingQuantity buy)
    (oStatus buyBefore) (oStatus buy) (IsBuyerPartialFill t)
    (oID sell) (oSide sell) (oPrice sell) (oQuantity sell)
    (oFilledQuantity sellBefore) (oFilledQuantity sell) (RemainingQuantity sell)
    (oStatus sellBefore) (oStatus sell) (IsSellerPartialFill t)
    matchLevel orderIndex.

(** The fill: the trade is created, both orders are filled, the trade gets its
    debug fields and is recorded in debug mode. *)
Definition execute_fill (me : MatchingEngine) (aggressorOrder restingOrder : oref)
    (matchLevel orderIndex : nat) : Trade * MatchingEngine :=
  let aggr := order_at me aggressorOrder in
  let rest := order_at me restingOrder in
  let '(buyOrder, sellOrder) :=
    if is_buy aggr then (aggressorOrder, restingOrder) else (restingOrder, aggressorOrder) in
  let buyBefore := order_at me buyOrder in
  let sellBefore := order_at me sellOrder in
  let matchQty := decimal_Min (RemainingQuantity aggr) (RemainingQuantity rest) in
  let tradePrice := oPrice rest in
  let '(trade0, s1) :=
    if is_buy aggr
    then NewTrade (heap me) (oID aggr) (oID rest) (oInstrument aggr) tradePrice matchQty
    else NewTrade (heap me) (oID rest) (oID aggr) (oInstrument aggr) tradePrice matchQty in
  let me1 := set_heap me s1 in
  let me2 := fill_order me1 aggressorOrder matchQty in
  let me3 := fill_order me2 restingOrder matchQty in
  let trade := complete_trade trade0 (order_at me3 buyOrder) (order_at me3 sellOrder) in
  let me4 :=
    if debugMode me3 then
      set_tradeDebugInfo me3 (tradeDebugInfo me3 ++
        [debug_info trade tradePrice matchQty buyBefore sellBefore
           (order_at me3 buyOrder) (order_at me3 sellOrder) matchLevel orderIndex])
    else me3 in
  (trade, me4).

(** The book after the fill: the level's volume is recomputed and a filled
    order leaves the book. *)
Definition settle_resting (me : MatchingEngine) (restingOrder : oref) : MatchingEngine :=
  let rest := order_at me restingOrder in
  let key := uuid_String (oID rest) in
  let me1 := set_heap me (UpdateOrder (heap me) (orderBook me) key (oFilledQuantity rest)) in
  if IsFilled (order_at me1 restingOrder) then
    let '(removedOrder, s2, ob2) :=
      RemoveOrder (heap me1) (orderBook me1) (uuid_String (oID (order_at me1 restingOrder))) in
    let me2 := set_book me1 s2 ob2 in
    match removedOrder with
    | None => me2
    | Some r =>
        let me3 := updateOrderbookMetrics me2 (oInstrument (order_at me2 r)) in
        let removed := order_at me3 r in
        publishOrderbookChange me3 (event_side removed) "remove" (oPrice removed)
          decimal_Zero (RemainingQuantity removed)
    end
  else me1.

(** ** One price level *)

Fixpoint level_loop (fuel : nat) (me : MatchingEngine) (aggressorOrder : oref) (priceLevel : lref)
    (element : option Element) (orderIndex : nat) (trades : list Trade)
    : option (list Trade * MatchingEngine) :=
  match element with
  | None => Some (trades, me)
  | Some e =>
      if decimal_GreaterThan (RemainingQuantity (order_at me aggressorOrder)) decimal_Zero then
        match fuel with
        | 0 => None
        | S fuel' =>
            let nextElement := list_Next (plOrders (get_level (heap me) priceLevel)) e in
            let restingOrder := elem_Value e in
            let '(trade, me1) := execute_fill me aggressorOrder restingOrder 1 (S orderIndex) in
            let me2 := settle_resting me1 restingOrder in
            level_loop fuel' me2 aggressorOrder priceLevel nextElement (S orderIndex) (trades ++ [trade])
        end
      else Some (trades, me)
  end.

Definition matchAgainstPriceLevel (fuel : nat) (me : MatchingEngine) (aggressorOrder : oref)
    (priceLevel : lref) : option (list Trade * MatchingEngine) :=
  level_loop fuel me aggressorOrder priceLevel
    (head (plOrders (get_level (heap me) priceLevel))) 0 [].

(** ** Market and limit orders *)

Definition best_opposing (me : MatchingEngine) (order : oref) : option LevelPtr :=
  if is_buy (order_at me order) then GetBestAsk (orderBook me) else GetBestBid (orderBook me).

Fixpoint matchMarketOrder (fuel : nat) (me : MatchingEngine) (order : oref) (trades : list Trade)
    : option (list Trade * MatchingEngine) :=
  if decimal_GreaterThan (RemainingQuantity (order_at me order)) decimal_Zero then
    match best_opposing me order with
    | None =>
        let o := order_at me order in
        let st := if decimal_GreaterThan (oFilledQuantity o) decimal_Zero
                  then OrderStatusPartiallyFilled else OrderStatusRejected in
        Some (trades, assign_order me order (set_oStatus o st))
    | Some bestLevel =>
        match fuel with
        | 0 => None
        | S fuel' =>
            '(tradesAtLevel, me1) ← matchAgainstPriceLevel fuel' me order (lpRef bestLevel);
            if IsFilled (order_at me1 order) then Some (trades ++ tradesAtLevel, me1)
            else matchMarketOrder fuel' me1 order (trades ++ tradesAtLevel)
        end
    end
  else Some (trades, me).

Definition canMatch (me : MatchingEngine) (order : oref) (bestLevel : LevelPtr) : bool :=
  let o := order_at me order in
  let price := plPrice (get_level (heap me) (lpRef bestLevel)) in
  if is_buy o then decimal_GreaterThanOrEqual (oPrice o) price
  else decimal_LessThanOrEqual (oPrice o) price.

Fixpoint matchLimitOrder (fuel : nat) (me : MatchingEngine) (order : oref) (trades : list Trade)
    : option (list Trade * MatchingEngine) :=
  if decimal_GreaterThan (RemainingQuantity (order_at me order)) decimal_Zero then
    match best_opposing me order with
    | None => Some (trades, me)
    | Some bestLevel =>
        if canMatch me order bestLevel then
          match fuel with
          | 0 => None
          | S fuel' =>
              '(tradesAtLevel, me1) ← matchAgainstPriceLevel fuel' me order (lpRef bestLevel);
              if IsFilled (order_at me1 order) then Some (trades ++ tradesAtLevel, me1)
              else matchLimitOrder fuel' me1 order (trades ++ tradesAtLevel)
          end
        else Some (trades, me)
    end
  else Some (trades, me).

(** ** A new order *)

(** A limit order with something left rests in the book. *)
Definition rest_order (me : MatchingEngine) (newOrder : oref) : MatchingEngine :=
  let o := order_at me newOrder in
  if bool_decide (oType o = OrderTypeLimit) && CanBeFilled o && negb (IsFilled o) then
    let '(s1, ob1) := AddOrder (heap me) (orderBook me) newOrder in
    let me1 := set_book me s1 ob1 in
    let me2 := updateOrderbookMetrics me1 (oInstrument (order_at me1 newOrder)) in
    let side := event_side (order_at me2 newOrder) in
    let o2 := order_at me2 newOrder in
    let me3 := publishOrderbookChange me2 side "add" (oPrice o2) (RemainingQuantity o2) decimal_Zero in
    if wsOrderbookHandler me3 then
      let o3 := order_at me3 newOrder in
      emit me3 [CallWsOrderbook (oInstrument o3) side (oPrice o3) (RemainingQuantity o3)]
    else me3
  else me.

Definition publish_trade (me : MatchingEngine) (trade : Trade) : MatchingEngine :=
  let '(t, me1) := now me in
  publish me1 (mkEvent EventTypeNewTrade t
    (DataNewTrade (mkNewTradeEvent (TradeID trade) (tInstrument trade) (BuyOrderID trade)
       (SellOrderID trade) (tPrice trade) (tQuantity trade) (tTimestamp trade)))).

Definition notify_trades (me : MatchingEngine) (newOrder : oref) (trades : list Trade) : MatchingEngine :=
  let me1 := if tradeHandler me then emit me (CallTradeHandler <$> trades) else me in
  let me2 := foldl publish_trade me1 trades in
  let me3 := if wsTradeHandler me then emit me2 (CallWsTrade <$> trades) else me2 in
  if wsOrderUpdateHandler me then emit me3 [CallWsOrderUpdate newOrder] else me3.

Definition matchOrder (fuel : nat) (me : MatchingEngine) (newOrder : oref)
    : option (list Trade * MatchingEngine) :=
  let o := order_at me newOrder in
  if negb (IsValid o) then
    Some ([], assign_order me newOrder (set_oStatus o OrderStatusRejected))
  else
    '(trades, me1) ←
      (if bool_decide (oType o = OrderTypeMarket)
       then matchMarketOrder fuel me newOrder []
       else matchLimitOrder fuel me newOrder []);
    let me2 := rest_order me1 newOrder in
    Some (trades, notify_trades me2 newOrder trades).
End matching.
