(* ===== verification/MatchingFacts.v ===== *)
(** * One fill at a time

    What one iteration of the innermost matching loop does to the heap and the
    book, as the relation [fill_step]; the loops are sequences of such steps. *)

From S2P Require Import Prelude.
From S2P Require Import External.
From S2P Require Import Models.
From S2P Require Import OrderBook.
From S2P Require Import OrderBookFacts.
From S2P Require Import Events.
From S2P Require Import Matching.

Section facts.
Context `{DecimalSpec, UuidSpec, !EnvPkg, BTreeSpec}.
Implicit Types (me : MatchingEngine) (s : Store) (ob : OrderBook) (e : Element) (b : bool) (a r : oref).
Local Open Scope Q_scope.

(** ** What matching leaves alone *)

Record same_config me me' : Prop := {
  sc_commandChan : commandChan me' = commandChan me;
  sc_stopChan : stopChanClosed me' = stopChanClosed me;
  sc_isRunning : isRunning me' = isRunning me;
  sc_tradeHandler : tradeHandler me' = tradeHandler me;
  sc_eventBus : eventBus me' = eventBus me;
  sc_debugMode : debugMode me' = debugMode me;
  sc_processed : commandsProcessed me' = commandsProcessed me;
  sc_blocks : channelBlocks me' = channelBlocks me;
  sc_wsTrade : wsTradeHandler me' = wsTradeHandler me;
  sc_wsOrderbook : wsOrderbookHandler me' = wsOrderbookHandler me;
  sc_wsOrderUpdate : wsOrderUpdateHandler me' = wsOrderUpdateHandler me;
  sc_output : exists fx, output me' = output me ++ fx /\ Forall (fun x => is_response x = false) fx;
}.

#[global] Instance same_config_preorder : PreOrder same_config.
Proof.
  split.
  - intros me. constructor; try done. exists []. by rewrite app_nil_r.
  - intros me1 me2 me3 [] []. constructor; try congruence.
    destruct sc_output0 as (fx & Hfx & Hno), sc_output1 as (fx' & Hfx' & Hno').
    exists (fx ++ fx'). by rewrite Hfx', Hfx, app_assoc, Forall_app.
Qed.

(** Notifications touch the clock and the output only. *)
Record same_data s s' : Prop := {
  sd_orders : orders s' = orders s;
  sd_levels : levels s' = levels s;
  sd_next : next s' = next s;
}.

#[global] Instance same_data_preorder : PreOrder same_data.
Proof. split; [done|]. intros s1 s2 s3 [] []. constructor; congruence. Qed.

Record notified me me' : Prop := {
  nt_config : same_config me me';
  nt_data : same_data (heap me) (heap me');
  nt_book : orderBook me' = orderBook me;
}.

#[global] Instance notified_preorder : PreOrder notified.
Proof.
  split; [by constructor|]. intros me1 me2 me3 [] []. constructor; [by etransitivity..|congruence].
Qed.

Lemma emit_notified me fx :
  Forall (fun x => is_response x = false) fx -> notified me (emit me fx).
Proof. intros Hfx. constructor; [constructor; try done; by exists fx|done|done]. Qed.

Lemma no_response_fmap {A} (f : A -> Effect) (l : list A) :
  (forall x, is_response (f x) = false) -> Forall (fun x => is_response x = false) (f <$> l).
Proof. intros Hf. apply Forall_fmap, Forall_true. intros x. apply Hf. Qed.

Lemma now_notified me : notified me (now me).2.
Proof. constructor; [constructor; try done; exists []; by rewrite app_nil_r|done|done]. Qed.

Lemma publish_notified me ev : notified me (publish me ev).
Proof. by apply emit_notified, no_response_fmap. Qed.

Lemma publishOrderbookChange_notified me side action p n o :
  notified me (publishOrderbookChange me side action p n o).
Proof.
  unfold publishOrderbookChange.
  pose proof (now_notified me) as Hn1. destruct (now me) as [t1 me1]. cbn in Hn1.
  pose proof (now_notified me1) as Hn2. destruct (now me1) as [t2 me2]. cbn in Hn2.
  etransitivity; [done|]. etransitivity; [done|]. apply publish_notified.
Qed.

Lemma updateOrderbookMetrics_notified me i : notified me (updateOrderbookMetrics me i).
Proof. apply emit_notified. by repeat constructor. Qed.

Lemma publish_trade_notified me t : notified me (publish_trade me t).
Proof.
  unfold publish_trade. pose proof (now_notified me) as Hn. destruct (now me) as [t1 me1].
  etransitivity; [done|]. apply publish_notified.
Qed.

Lemma foldl_publish_notified me ts : notified me (foldl publish_trade me ts).
Proof.
  revert me. induction ts as [|t ts IH]; intros me; cbn; [done|].
  etransitivity; [apply publish_trade_notified|apply IH].
Qed.

Lemma notify_trades_notified me r ts : notified me (notify_trades me r ts).
Proof.
  unfold notify_trades. set (me1 := if tradeHandler me then _ else _).
  assert (notified me me1) as Hn1 by (unfold me1; case_match; [by apply emit_notified, no_response_fmap|done]).
  pose proof (foldl_publish_notified me1 ts) as Hn2.
  etransitivity; [done|]. etransitivity; [done|].
  set (me3 := if wsTradeHandler me then _ else _).
  transitivity me3; [unfold me3; case_match; [by apply emit_notified, no_response_fmap|done]|].
  case_match; [apply emit_notified; by repeat constructor|done].
Qed.

(** A book is as well-formed in a store with the same data. *)
Lemma same_data_get s s' : same_data s s' ->
  (forall r, get_order s' r = get_order s r) /\ (forall r, get_level s' r = get_level s r).
Proof. intros [Ho Hl _]. unfold get_order, get_level. by rewrite Ho, Hl. Qed.

Lemma same_data_prio s s' ob b : same_data s s' -> prio s' ob b = prio s ob b.
Proof.
  intros [_ Hl]%same_data_get. apply prio_ext. intros. unfold elems_of. by rewrite Hl.
Qed.

Lemma same_data_wf s s' ob : same_data s s' -> book_wf s ob -> book_wf s' ob.
Proof.
  intros Hd Hwf. destruct (same_data_get _ _ Hd) as [Ho Hl].
  apply (book_wf_frame s); [done|by rewrite (sd_next _ _ Hd)|done|].
  intros e He. unfold erem, order_of. by rewrite Ho.
Qed.

(** ** The fill *)

Record trade_of (t : Trade) (a o : Order) : Prop := {
  to_price : tPrice t = oPrice o;
  to_quantity : tQuantity t = decimal_Min (RemainingQuantity a) (RemainingQuantity o);
  to_instrument : tInstrument t = oInstrument a;
  to_buy : BuyOrderID t = if is_buy a then oID a else oID o;
  to_sell : SellOrderID t = if is_buy a then oID o else oID a;
}.

Record executed me a r t me' : Prop := {
  ex_trade : trade_of t (order_at me a) (order_at me r);
  ex_aggr : exists now, order_at me' a = Fill now (tQuantity t) (order_at me a);
  ex_rest : exists now, order_at me' r = Fill now (tQuantity t) (order_at me r);
  ex_other r' : r' <> a -> r' <> r -> order_at me' r' = order_at me r';
  ex_levels : levels (heap me') = levels (heap me);
  ex_next : next (heap me') = next (heap me);
  ex_book : orderBook me' = orderBook me;
  ex_config : same_config me me';
}.

Lemma order_at_assign me r o r' :
  order_at (assign_order me r o) r' = if decide (r = r') then o else order_at me r'.
Proof. apply get_order_set. Qed.

Lemma order_at_fill me a q r :
  order_at (fill_order me a q) r =
    if decide (a = r) then Fill (time_Now (clock (heap me))) q (order_at me a) else order_at me r.
Proof. unfold fill_order, order_at. cbn. by rewrite get_order_set. Qed.

Lemma executed_fills me s1 a r t :
  a <> r -> same_data (heap me) s1 -> trade_of t (order_at me a) (order_at me r) ->
  executed me a r t (fill_order (fill_order (set_heap me s1) a (tQuantity t)) r (tQuantity t)).
Proof.
  intros Har Hd Ht.
  assert (forall r', order_at (set_heap me s1) r' = order_at me r') as Hs1
    by (intros; apply (same_data_get _ _ Hd)).
  split; try done.
  - eexists. rewrite !order_at_fill, decide_False, decide_True by congruence. by rewrite Hs1.
  - eexists. rewrite !order_at_fill, decide_True, decide_False by congruence. by rewrite Hs1.
  - intros r' Ha Hr. by rewrite !order_at_fill, !decide_False, Hs1 by congruence.
  - apply (sd_levels _ _ Hd).
  - apply (sd_next _ _ Hd).
  - constructor; try done. exists []. by rewrite app_nil_r.
Qed.

Lemma executed_debug me a r t me' (c : bool) d :
  executed me a r t me' -> executed me a r t (if c then set_tradeDebugInfo me' d else me').
Proof.
  destruct c; [|done]. intros []. split; try done.
  etransitivity; [done|]. constructor; try done. exists []. by rewrite app_nil_r.
Qed.

Lemma execute_fill_spec me a r ml i :
  a <> r -> exists t me', execute_fill me a r ml i = (t, me') /\ executed me a r t me'.
Proof.
  intros Har. unfold execute_fill. destruct (is_buy (order_at me a)) eqn:Hb.
  all: cbn [NewTrade draw_uuid read_clock].
  all: eexists _, _; split; [reflexivity|]; apply executed_debug.
  all: refine (executed_fills me _ a r (complete_trade _ _ _) Har _ _); [done|].
  all: constructor; cbn; by rewrite ?Hb.
Qed.

(** ** One iteration *)

Record fill_step me a e t me' : Prop := {
  fs_trade : trade_of t (order_at me a) (order_of (heap me) e);
  fs_aggr : exists now, order_at me' a = Fill now (tQuantity t) (order_at me a);
  fs_rest : exists now, order_of (heap me') e = Fill now (tQuantity t) (order_of (heap me) e);
  fs_other r : r <> a -> r <> elem_Value e -> order_at me' r = order_at me r;
  fs_wf : book_wf (heap me') (orderBook me');
  fs_prio b : prio (heap me') (orderBook me') b =
    if IsFilled (order_of (heap me') e) then filter (fun e' => e' <> e) (prio (heap me) (orderBook me) b)
    else prio (heap me) (orderBook me) b;
  fs_elems lp : lp ∈ all_levels (orderBook me) -> elems_of (heap me') lp =
    if IsFilled (order_of (heap me') e) then filter (fun e' => e' <> e) (elems_of (heap me) lp)
    else elems_of (heap me) lp;
  fs_levels b : best_levels (orderBook me') b =
    if IsFilled (order_of (heap me') e)
    then filter (fun lp => elems_of (heap me') lp <> []) (best_levels (orderBook me) b)
    else best_levels (orderBook me) b;
  fs_map : obOrders (orderBook me') =
    if IsFilled (order_of (heap me') e) then delete (ekey (heap me) e) (obOrders (orderBook me))
    else obOrders (orderBook me);
  fs_instrument : obInstrument (orderBook me') = obInstrument (orderBook me);
  fs_next : next (heap me') = next (heap me);
  fs_config : same_config me me';
}.

Section step.
Context (me : MatchingEngine) (a : oref) (e : Element) (t : Trade) (me1 : MatchingEngine).
Let s := heap me.
Let ob := orderBook me.
Hypothesis Hwf : book_wf s ob.
Hypothesis He : e ∈ all_elems s ob.
Hypothesis Ha : a ∉ elem_Value <$> all_elems s ob.
Hypothesis Hex : executed me a (elem_Value e) t me1.

Lemma step_place r : same_place (order_at me r) (order_at me1 r).
Proof.
  apply same_terms_place. destruct (decide (r = a)) as [->|Hra].
  - destruct (ex_aggr _ _ _ _ _ Hex) as [t1 ->]. apply Fill_terms.
  - destruct (decide (r = elem_Value e)) as [->|Hre].
    + destruct (ex_rest _ _ _ _ _ Hex) as [t1 ->]. apply Fill_terms.
    + by rewrite (ex_other _ _ _ _ _ Hex).
Qed.

Lemma step_key : uuid_String (oID (order_at me1 (elem_Value e))) = ekey s e.
Proof. unfold ekey. by rewrite (sp_ID _ _ (step_place (elem_Value e))). Qed.

Let upd := UpdateOrder (heap me1) ob (ekey s e) (oFilledQuantity (order_at me1 (elem_Value e))).

Lemma step_update_wf : book_wf upd ob.
Proof.
  destruct (bw_map_elem _ _ _ Hwf He) as (lp & Hlp & Hel & Hloc).
  apply (UpdateOrder_wf s (heap me1) ob _ _ _ Hwf Hloc).
  - by rewrite (ex_next _ _ _ _ _ Hex).
  - intros lp' _. unfold get_level. by rewrite (ex_levels _ _ _ _ _ Hex).
  - intros e' _. apply step_place.
  - intros e' He' Hne. unfold erem, order_of. cbn in Hne.
    assert (order_at me1 (elem_Value e') = order_at me (elem_Value e')) as Heq.
    { apply (ex_other _ _ _ _ _ Hex).
      - intros Heq. destruct Ha. rewrite <- Heq. by apply list_elem_of_fmap_2.
      - intros Heq. destruct Hne. by eapply bw_value_unique. }
    unfold order_at in Heq. by rewrite Heq.
Qed.

(** The fill already refreshed the status: [UpdateOrder] changes no order. *)
Lemma step_update_orders r : get_order upd r = order_at me1 r.
Proof.
  destruct (bw_map_elem _ _ _ Hwf He) as (lp & Hlp & Hel & Hloc).
  unfold upd, UpdateOrder. rewrite Hloc. cbn.
  change (get_order (UpdateVolume ?s' ?l) r) with (get_order s' r). rewrite get_order_set.
  case_decide as Hr; [|done]. subst r. change (get_order (heap me1)) with (order_at me1).
  destruct (ex_rest _ _ _ _ _ Hex) as [t1 ->]. apply Fill_refreshed.
Qed.

Lemma step_update_elems lp : elems_of upd lp = elems_of s lp.
Proof.
  unfold upd. rewrite UpdateOrder_elems. unfold elems_of, get_level.
  by rewrite (ex_levels _ _ _ _ _ Hex).
Qed.

Lemma step_kept : IsFilled (order_at me1 (elem_Value e)) = false ->
  fill_step me a e t (set_heap me1 upd).
Proof.
  intros Hf.
  assert (forall r, order_at (set_heap me1 upd) r = order_at me1 r) as Hord by apply step_update_orders.
  assert (order_of (heap (set_heap me1 upd)) e = order_at me1 (elem_Value e)) as Hoe by apply Hord.
  assert (orderBook (set_heap me1 upd) = ob) as Hob by apply (ex_book _ _ _ _ _ Hex).
  destruct Hex. split; rewrite ?Hoe, ?Hord, ?Hf, ?Hob; try done.
  - intros r. by rewrite Hord; apply ex_other0.
  - apply step_update_wf.
  - intros b. apply prio_ext. intros lp _. apply step_update_elems.
  - intros lp _. apply step_update_elems.
  - cbn [heap set_heap]. unfold upd. by rewrite UpdateOrder_next.
  - etransitivity; [done|]. constructor; try done. exists []. by rewrite app_nil_r.
Qed.

Lemma step_removed s2 ob2 me' : IsFilled (order_at me1 (elem_Value e)) = true ->
  removed upd ob e s2 ob2 -> notified (set_book me1 s2 ob2) me' -> fill_step me a e t me'.
Proof.
  intros Hf Hrm Hn. pose proof (nt_data _ _ Hn) as Hd. change (heap (set_book me1 s2 ob2)) with s2 in Hd.
  pose proof (nt_book _ _ Hn) as Hob. change (orderBook (set_book me1 s2 ob2)) with ob2 in Hob.
  destruct (same_data_get _ _ Hd) as [Hgo Hgl].
  assert (forall r, order_at me' r = order_at me1 r) as Hord.
  { intros r. rewrite <- step_update_orders. unfold order_at. rewrite Hgo. unfold get_order.
    by rewrite (rm_orders _ _ _ _ _ Hrm). }
  assert (order_of (heap me') e = order_at me1 (elem_Value e)) as Hoe by apply Hord.
  assert (forall lp, elems_of (heap me') lp = elems_of s2 lp) as Hel
    by (intros; unfold elems_of; by rewrite Hgl).
  destruct Hex. split; rewrite ?Hoe, ?Hord, ?Hf, ?Hob; try done.
  - intros r. by rewrite Hord; apply ex_other0.
  - eapply same_data_wf; [done|]. apply (rm_wf _ _ _ _ _ Hrm).
  - intros b. rewrite (same_data_prio s2) by done. rewrite (rm_prio _ _ _ _ _ Hrm). f_equal.
    apply prio_ext. intros lp _. apply step_update_elems.
  - intros lp Hlp. rewrite Hel, (rm_elems _ _ _ _ _ Hrm) by done. by rewrite step_update_elems.
  - intros b. rewrite (rm_levels _ _ _ _ _ Hrm). apply filter_ext_in. intros lp _. by rewrite Hel.
  - rewrite (rm_map _ _ _ _ _ Hrm). f_equal. unfold ekey, order_of. rewrite step_update_orders.
    apply step_key.
  - apply (rm_instrument _ _ _ _ _ Hrm).
  - rewrite (sd_next _ _ Hd), (rm_next _ _ _ _ _ Hrm). unfold upd. by rewrite UpdateOrder_next.
  - etransitivity; [done|]. etransitivity; [|apply (nt_config _ _ Hn)].
    constructor; try done. exists []. by rewrite app_nil_r.
Qed.

Lemma settle_step : fill_step me a e t (settle_resting me1 (elem_Value e)).
Proof.
  unfold settle_resting. rewrite step_key, (ex_book _ _ _ _ _ Hex).
  change (UpdateOrder _ _ _ _) with upd.
  assert (order_at (set_heap me1 upd) (elem_Value e) = order_at me1 (elem_Value e)) as Hoe
    by apply step_update_orders.
  rewrite Hoe. destruct (IsFilled _) eqn:Hf; [|by apply step_kept].
  rewrite step_key. unfold RemoveOrder. cbn [heap orderBook set_heap].
  rewrite (ex_book _ _ _ _ _ Hex).
  destruct (bw_map_elem _ _ _ Hwf He) as (lp & Hlp & Hel & Hloc). change (orderBook me) with ob.
  rewrite Hloc. destruct (remove_at_spec _ _ _ _ step_update_wf Hloc) as (s2 & ob2 & -> & Hrm).
  cbn [locElement] in *. eapply step_removed; [done|done|].
  etransitivity; [apply updateOrderbookMetrics_notified|]. apply publishOrderbookChange_notified.
Qed.
End step.

(** One iteration of the level loop is a fill step. *)
Lemma iteration_step me a e ml i :
  book_wf (heap me) (orderBook me) -> e ∈ all_elems (heap me) (orderBook me) ->
  a ∉ elem_Value <$> all_elems (heap me) (orderBook me) ->
  exists t me', (let '(t, me1) := execute_fill me a (elem_Value e) ml i in
                 (t, settle_resting me1 (elem_Value e))) = (t, me') /\ fill_step me a e t me'.
Proof.
  intros Hwf He Ha.
  assert (a <> elem_Value e) as Hne by (intros ->; by destruct Ha; apply list_elem_of_fmap_2).
  destruct (execute_fill_spec me a (elem_Value e) ml i Hne) as (t & me1 & -> & Hex).
  exists t, (settle_resting me1 (elem_Value e)). split; [done|]. by apply settle_step.
Qed.
End facts.
