(* ===== verification/MatchingLoops.v ===== *)
(** * The matching loops are sequences of fills

    [fills a b ok] relates the engine before and after a run of fill steps by
    which the order [a] consumes the head of the queue of side [b], as long as
    [a] has something left and the head's price is acceptable.  The level,
    market and limit loops return, with enough fuel, after such a run, and
    stop only where no further step is possible. *)

From S2P Require Import Prelude.
From S2P Require Import External.
From S2P Require Import Models.
From S2P Require Import OrderBook.
From S2P Require Import OrderBookFacts.
From S2P Require Import Events.
From S2P Require Import Matching.
From S2P Require Import MatchingFacts.

Section defs.
Context `{DecimalSpec, UuidSpec, !EnvPkg, BTreeSpec}.
Local Open Scope Q_scope.

(** Every resting order has something left and may be filled. *)
Definition live (o : Order) : Prop := fillable o /\ CanBeFilled o = true.

Definition book_live (s : Store) (ob : OrderBook) : Prop :=
  forall e, e ∈ all_elems s ob -> live (order_of s e).

(** The engine may match the order [a]: it is allocated and does not rest in
    the book, nor does its identifier. *)
Record ready (me : MatchingEngine) (a : oref) : Prop := {
  rd_wf : book_wf (heap me) (orderBook me);
  rd_live : book_live (heap me) (orderBook me);
  rd_new : a ∉ elem_Value <$> all_elems (heap me) (orderBook me);
  rd_next : (a < next (heap me))%nat;
  rd_key : obOrders (orderBook me) !! uuid_String (oID (order_at me a)) = None;
  rd_filled : 0 <= dval (oFilledQuantity (order_at me a)) <= dval (oQuantity (order_at me a));
}.

Definition queue (me : MatchingEngine) (b : bool) : list Element := prio (heap me) (orderBook me) b.

Inductive fills (a : oref) (b : bool) (ok : decimal -> Prop)
    : MatchingEngine -> list Trade -> MatchingEngine -> Prop :=
  | fills_nil me : fills a b ok me [] me
  | fills_cons me e l t me1 ts me2 :
      queue me b = e :: l ->
      0 < rem_val (order_at me a) ->
      ok (oPrice (order_of (heap me) e)) ->
      fill_step me a e t me1 ->
      fills a b ok me1 ts me2 ->
      fills a b ok me (t :: ts) me2.

(** No further step: [a] is filled, the queue is empty or its head is too
    expensive. *)
Definition stopped (a : oref) (b : bool) (ok : decimal -> Prop) (me : MatchingEngine) : Prop :=
  rem_val (order_at me a) == 0 \/ queue me b = [] \/
  exists e l, queue me b = e :: l /\ ~ ok (oPrice (order_of (heap me) e)).
End defs.

Section facts.
Context `{DecimalSpec, UuidSpec, !EnvPkg, BTreeSpec}.
Implicit Types (me : MatchingEngine) (e : Element) (b : bool) (a r : oref) (ok : decimal -> Prop).
Local Open Scope Q_scope.

Lemma queue_all me b e : e ∈ queue me b -> e ∈ all_elems (heap me) (orderBook me).
Proof. intros He. apply elem_of_all_elems. eauto. Qed.

Lemma queue_NoDup me b : book_wf (heap me) (orderBook me) -> NoDup (queue me b).
Proof.
  intros Hwf. pose proof (NoDup_fmap_1 _ _ (bw_ids _ _ Hwf)) as (Ht & _ & Hf)%NoDup_app.
  by destruct b.
Qed.

(** ** What a step does to the quantities *)

Section step.
Context (me : MatchingEngine) (a : oref) (e : Element) (t : Trade) (me' : MatchingEngine).
Hypothesis Hrd : ready me a.
Hypothesis He : e ∈ all_elems (heap me) (orderBook me).
Hypothesis Hpos : 0 < rem_val (order_at me a).
Hypothesis Hfs : fill_step me a e t me'.

Lemma step_qty : dval (tQuantity t) == Qmin (rem_val (order_at me a)) (erem (heap me) e).
Proof.
  rewrite (to_quantity _ _ _ (fs_trade _ _ _ _ _ Hfs)), dval_Min, !dval_Remaining. reflexivity.
Qed.

Lemma step_erem_pos : 0 < erem (heap me) e.
Proof. destruct (rd_live _ _ Hrd e He) as [[_ Hlt] _]. by apply rem_val_pos. Qed.

Lemma step_qty_bounds : 0 < dval (tQuantity t) /\ dval (tQuantity t) <= rem_val (order_at me a) /\
  dval (tQuantity t) <= erem (heap me) e.
Proof.
  pose proof step_erem_pos. rewrite step_qty.
  destruct (Q.min_spec (rem_val (order_at me a)) (erem (heap me) e)) as [[? Hm]|[? Hm]];
    rewrite Hm; lra.
Qed.

Lemma step_aggr_terms : same_terms (order_at me a) (order_at me' a).
Proof. destruct (fs_aggr _ _ _ _ _ Hfs) as [now ->]. apply Fill_terms. Qed.

Lemma step_aggr_filled :
  dval (oFilledQuantity (order_at me' a)) == dval (oFilledQuantity (order_at me a)) + dval (tQuantity t).
Proof. destruct (fs_aggr _ _ _ _ _ Hfs) as [now ->]. rewrite Fill_filled. dlra. Qed.

Lemma step_aggr_rem : rem_val (order_at me' a) == rem_val (order_at me a) - dval (tQuantity t).
Proof. destruct (fs_aggr _ _ _ _ _ Hfs) as [now ->]. apply Fill_rem_val. Qed.

Lemma step_rest_rem : erem (heap me') e == erem (heap me) e - dval (tQuantity t).
Proof. unfold erem. destruct (fs_rest _ _ _ _ _ Hfs) as [now ->]. apply Fill_rem_val. Qed.

Lemma step_rest_terms : same_terms (order_of (heap me) e) (order_of (heap me') e).
Proof. destruct (fs_rest _ _ _ _ _ Hfs) as [now ->]. apply Fill_terms. Qed.

(** A resting order that is not exhausted stays live. *)
Lemma step_rest_live : IsFilled (order_of (heap me') e) = false -> live (order_of (heap me') e).
Proof.
  intros Hf. destruct (rd_live _ _ Hrd e He) as [[H0f Hlt] _].
  pose proof step_qty_bounds as (Hq & _ & Hqe). pose proof step_rest_rem as Hrem.
  destruct (IsFilled_spec (order_of (heap me') e)) as [|Hne]; [done|].
  unfold erem in *. destruct (fs_rest _ _ _ _ _ Hfs) as [now Heq]. rewrite Heq in *.
  pose proof (Fill_filled now (tQuantity t) (order_of (heap me) e)) as Hfq.
  assert (dval (oFilledQuantity (Fill now (tQuantity t) (order_of (heap me) e))) ==
          dval (oFilledQuantity (order_of (heap me) e)) + dval (tQuantity t)) as Hfv by (rewrite Hfq; dlra).
  assert (0 < rem_val (Fill now (tQuantity t) (order_of (heap me) e))) as Hpos' by lra.
  apply rem_val_pos in Hpos'. split; [split; [lra|done]|].
  unfold CanBeFilled. unfold Fill. rewrite refresh_status_live; [done|..].
  - unfold Fill in Hfv. rewrite refresh_status_filled in Hfv. lra.
  - unfold Fill in Hpos'. rewrite refresh_status_filled in Hpos'.
    by rewrite (st_Quantity _ _ (refresh_status_terms _)) in Hpos'.
Qed.

Lemma step_elems e' : e' ∈ all_elems (heap me') (orderBook me') ->
  e' ∈ all_elems (heap me) (orderBook me) /\ (IsFilled (order_of (heap me') e) = true -> e' <> e).
Proof.
  rewrite !elem_of_all_elems. intros [b He']. rewrite (fs_prio _ _ _ _ _ Hfs) in He'.
  case_match; [apply list_elem_of_filter in He' as [Hne He']; eauto|]. split; [eauto|done].
Qed.

Lemma step_other e' : e' ∈ all_elems (heap me) (orderBook me) -> e' <> e ->
  order_of (heap me') e' = order_of (heap me) e'.
Proof.
  intros He' Hne. apply (fs_other _ _ _ _ _ Hfs).
  - intros Hv. apply (rd_new _ _ Hrd). rewrite <- Hv. by apply list_elem_of_fmap_2.
  - intros Hv. destruct Hne. eapply bw_value_unique; [apply (rd_wf _ _ Hrd)|done..].
Qed.

Lemma step_ready : ready me' a.
Proof.
  pose proof step_qty_bounds as (Hq & Hqa & _). pose proof step_aggr_rem as Hrem.
  pose proof step_aggr_filled as Hfil. pose proof step_aggr_terms as Hterms.
  split.
  - apply (fs_wf _ _ _ _ _ Hfs).
  - intros e' [He' Hne]%step_elems. destruct (decide (e' = e)) as [->|Hee].
    + apply step_rest_live. by destruct (IsFilled _); [destruct Hne|].
    + rewrite step_other by done. by apply (rd_live _ _ Hrd).
  - intros (e' & Hv & [He' _]%step_elems)%list_elem_of_fmap.
    apply (rd_new _ _ Hrd). rewrite Hv. by apply list_elem_of_fmap_2.
  - rewrite (fs_next _ _ _ _ _ Hfs). apply (rd_next _ _ Hrd).
  - rewrite (st_ID _ _ Hterms), (fs_map _ _ _ _ _ Hfs). pose proof (rd_key _ _ Hrd) as Hk.
    case_match; [|done]. apply lookup_delete_None. by right.
  - destruct (rd_filled _ _ Hrd). rewrite (st_Quantity _ _ Hterms). unfold rem_val in *. lra.
Qed.

(** The queue after the step: the head leaves it exactly when it is exhausted,
    and otherwise [a] is. *)
Lemma step_queue b l : queue me b = e :: l ->
  (erem (heap me) e <= rem_val (order_at me a) /\ queue me' b = l /\
     IsFilled (order_of (heap me') e) = true) \/
  (rem_val (order_at me a) < erem (heap me) e /\ queue me' b = e :: l /\ rem_val (order_at me' a) == 0 /\
     IsFilled (order_of (heap me') e) = false).
Proof.
  intros Hq. pose proof step_qty as Hm. pose proof step_rest_rem as Hr. pose proof step_aggr_rem as Ha.
  pose proof (fs_prio _ _ _ _ _ Hfs b) as Hp. fold (queue me b) (queue me' b) in Hp.
  pose proof (queue_NoDup _ b (rd_wf _ _ Hrd)) as Hnd. rewrite Hq in Hnd, Hp.
  apply NoDup_cons in Hnd as [Hni _]. unfold erem in *.
  destruct (IsFilled_spec (order_of (heap me') e)) as [Hz|Hnz];
    destruct (Q.min_spec (rem_val (order_at me a)) (rem_val (order_of (heap me) e)))
      as [[Hlt Hmin]|[Hge Hmin]]; rewrite Hmin in Hm.
  - lra.
  - left. split; [done|]. split; [|done]. rewrite Hp, filter_cons_False by tauto.
    apply filter_all. intros e' He' ->. done.
  - right. split_and!; try done; lra.
  - lra.
Qed.
End step.

(** ** Runs *)

Lemma fills_app a b ok me1 ts1 me2 ts2 me3 :
  fills a b ok me1 ts1 me2 -> fills a b ok me2 ts2 me3 -> fills a b ok me1 (ts1 ++ ts2) me3.
Proof. induction 1; cbn; [done|]. intros. econstructor; eauto. Qed.

Lemma queue_cons_in me b e l : queue me b = e :: l -> e ∈ all_elems (heap me) (orderBook me).
Proof. intros Hq. apply (queue_all _ b). rewrite Hq. set_solver. Qed.

Lemma fills_ready a b ok me ts me' : fills a b ok me ts me' -> ready me a -> ready me' a.
Proof.
  induction 1 as [|me e l t me1 ts me2 Hq Hpos Hok Hfs _ IH]; [done|]. intros Hrd.
  apply IH. eapply step_ready; eauto using queue_cons_in.
Qed.

Lemma ready_rem me a : ready me a -> 0 <= rem_val (order_at me a).
Proof. intros Hrd. destruct (rd_filled _ _ Hrd). unfold rem_val. lra. Qed.

Lemma fills_done a b ok me ts me' :
  fills a b ok me ts me' -> rem_val (order_at me a) == 0 -> ts = [] /\ me' = me.
Proof. intros [|? ? ? ? ? ? ? _ Hpos] Hz; [done|]. lra. Qed.

(** As long as [a] is not filled, each trade takes one order off the queue. *)
Lemma fills_consumed a b ok me ts me' :
  fills a b ok me ts me' -> ready me a -> 0 < rem_val (order_at me' a) ->
  exists es, queue me b = es ++ queue me' b /\ length es = length ts.
Proof.
  induction 1 as [|me e l t me1 ts me2 Hq Hpos Hok Hfs Hrun IH]; intros Hrd Hrem; [by exists []|].
  assert (ready me1 a) as Hrd1 by (eapply step_ready; eauto using queue_cons_in).
  destruct (step_queue me a e t me1 Hrd Hfs b l Hq)
    as [(_ & Hq1 & _)|(_ & _ & Hz & _)].
  - destruct IH as (es & Hes & Hlen); [done..|]. exists (e :: es). rewrite Hq, <- Hq1, Hes. cbn. by rewrite Hlen.
  - destruct (fills_done _ _ _ _ _ _ Hrun Hz) as [_ ->]. lra.
Qed.

(** ** The level loop *)

Lemma level_loop_stop fuel me a pl el i ts :
  rem_val (order_at me a) == 0 -> level_loop fuel me a pl el i ts = Some (ts, me).
Proof.
  intros Hz. destruct el as [e|]; [|by destruct fuel].
  assert (decimal_GreaterThan (RemainingQuantity (order_at me a)) decimal_Zero = false) as Hg.
  { destruct (remaining_pos_spec (order_at me a)); [lra|done]. }
  destruct fuel; cbn [level_loop]; by rewrite Hg.
Qed.

Lemma queue_best me b lp m :
  best_levels (orderBook me) b = lp :: m ->
  queue me b = elems_of (heap me) lp ++ (m ≫= elems_of (heap me)).
Proof. intros Hb. unfold queue, prio. by rewrite Hb, bind_cons. Qed.

Lemma level_loop_fills a b ok lp l : forall fuel me i trades,
  ready me a -> elems_of (heap me) lp = l ->
  (l <> [] -> exists m, best_levels (orderBook me) b = lp :: m) ->
  (forall e, e ∈ l -> ok (oPrice (order_of (heap me) e))) ->
  (length l <= fuel)%nat ->
  exists ts me', level_loop fuel me a (lpRef lp) (head l) i trades = Some (trades ++ ts, me') /\
    fills a b ok me ts me' /\
    (rem_val (order_at me' a) == 0 \/ elems_of (heap me') lp = []) /\
    (l <> [] -> 0 < rem_val (order_at me a) -> ts <> []).
Proof.
  induction l as [|e l IH]; intros fuel me i trades Hrd Hel Hbest Hok Hfuel.
  - exists [], me. rewrite app_nil_r. cbn. split; [by destruct fuel|].
    split; [constructor|]. split; [by right|done].
  - destruct (Qlt_le_dec 0 (rem_val (order_at me a))) as [Hpos|Hle].
    2: { assert (rem_val (order_at me a) == 0) as Hz by (pose proof (ready_rem _ _ Hrd); lra).
         exists [], me. rewrite app_nil_r, level_loop_stop by done.
         split; [done|]. split; [constructor|]. split; [by left|]. intros _ ?. lra. }
    destruct fuel as [|fuel]; [cbn in Hfuel; lia|].
    destruct Hbest as [m Hm]; [done|].
    pose proof (queue_best me b lp m Hm) as Hq. rewrite Hel in Hq. cbn [app] in Hq.
    assert (e ∈ all_elems (heap me) (orderBook me)) as Hin by eauto using queue_cons_in.
    assert (lp ∈ all_levels (orderBook me)) as Hlp
      by (apply elem_of_all_levels; exists b; rewrite Hm; set_solver).
    cbn [level_loop head].
    assert (decimal_GreaterThan (RemainingQuantity (order_at me a)) decimal_Zero = true) as ->
      by (destruct (remaining_pos_spec (order_at me a)); [done|lra]).
    assert (list_Next (plOrders (get_level (heap me) (lpRef lp))) e = head l) as ->.
    { unfold elems_of in Hel. rewrite Hel. cbn. by rewrite bool_decide_eq_true_2. }
    destruct (iteration_step me a e 1 (S i) (rd_wf _ _ Hrd) Hin (rd_new _ _ Hrd)) as (t & me1 & Hit & Hfs).
    destruct (execute_fill me a (elem_Value e) 1 (S i)) as [t' mex]. simplify_eq.
    assert (ready (settle_resting mex (elem_Value e)) a) as Hrd1 by (eapply step_ready; eauto).
    set (me1 := settle_resting mex (elem_Value e)) in *.
    assert (forall ts me', fills a b ok me1 ts me' -> fills a b ok me (t :: ts) me') as Hcons.
    { intros ts me' Hf. econstructor; eauto. apply Hok. set_solver. }
    destruct (step_queue me a e t me1 Hrd Hfs b _ Hq)
      as [(_ & Hq1 & Hfil)|(_ & _ & Hz & _)].
    + pose proof (fs_elems _ _ _ _ _ Hfs lp Hlp) as Hel1. rewrite Hfil, Hel in Hel1.
      assert (NoDup (e :: l)) as [Hni _]%NoDup_cons.
      { rewrite <- Hel. apply (NoDup_elems _ (orderBook me)); [apply (rd_wf _ _ Hrd)|done]. }
      rewrite filter_cons_False, filter_all in Hel1; [|by intros ? ? ->|tauto].
      destruct (IH fuel me1 (S i) (trades ++ [t])) as (ts & me' & -> & Hf & Hstop & _).
      * done.
      * done.
      * intros Hne. rewrite (fs_levels _ _ _ _ _ Hfs b), Hfil, Hm.
        rewrite filter_cons_True by (by rewrite Hel1). eauto.
      * intros e' He'. rewrite (step_other me a e t me1 Hrd); [apply Hok; set_solver|done..| |].
        -- apply (all_elems_level _ _ lp); [done|]. rewrite Hel. set_solver.
        -- by intros ->.
      * cbn in Hfuel. lia.
      * exists (t :: ts), me'. rewrite <- app_assoc. split; [done|]. eauto.
    + rewrite level_loop_stop by done. exists [t], me1. split; [done|].
      split; [apply Hcons; constructor|]. eauto.
Qed.

(** ** The market and limit loops *)

(** The prices the order [o] accepts: any for a market order, its own limit or
    better otherwise. *)
Definition limit_ok (o : Order) (p : decimal) : Prop :=
  if is_buy o then dval p <= dval (oPrice o) else dval (oPrice o) <= dval p.

Lemma best_levels_head ob b : head (best_levels ob b) = GetBestPrice (get_side ob b) b.
Proof.
  rewrite best_levels_side. unfold GetBestPrice. destruct b.
  - by rewrite btree_Max_spec, head_reverse.
  - by rewrite btree_Min_spec.
Qed.

Lemma best_opposing_spec me a b :
  is_buy (order_at me a) = negb b -> best_opposing me a = head (best_levels (orderBook me) b).
Proof.
  intros Hb. unfold best_opposing. rewrite Hb, best_levels_head. by destruct b.
Qed.

(** One round of an outer loop: match against the whole best level. *)
Lemma round_fills a b ok fuel me lp m :
  ready me a -> best_levels (orderBook me) b = lp :: m ->
  (forall p, p ≐ lpPrice lp -> ok p) -> 0 < rem_val (order_at me a) ->
  (length (queue me b) <= fuel)%nat ->
  exists ts me', matchAgainstPriceLevel fuel me a (lpRef lp) = Some (ts, me') /\
    fills a b ok me ts me' /\
    (rem_val (order_at me' a) == 0 \/ (length (queue me' b) < length (queue me b))%nat).
Proof.
  intros Hrd Hm Hok Hpos Hfuel.
  assert (level_wf (heap me) b lp) as Hlw.
  { apply (bw_level _ (orderBook me)); [apply (rd_wf _ _ Hrd)|]. rewrite Hm. set_solver. }
  pose proof (queue_best me b lp m Hm) as Hq.
  destruct (level_loop_fills a b ok lp _ fuel me 0%nat [] Hrd eq_refl) as (ts & me' & Hloop & Hf & Hstop & Hne).
  - eauto.
  - intros e He. apply Hok. by apply (lw_oprice _ _ _ Hlw).
  - rewrite Hq, length_app in Hfuel. lia.
  - exists ts, me'. split; [done|]. split; [done|].
    destruct (Qlt_le_dec 0 (rem_val (order_at me' a))) as [Hpos'|Hle].
    + right. destruct (fills_consumed _ _ _ _ _ _ Hf Hrd Hpos') as (es & -> & Hlen).
      rewrite length_app, Hlen. specialize (Hne (lw_nonempty _ _ _ Hlw) Hpos).
      destruct ts; [done|]. cbn. lia.
    + left. pose proof (ready_rem _ _ (fills_ready _ _ _ _ _ _ Hf Hrd)). lra.
Qed.

Lemma fills_aggr a b ok me ts me' :
  fills a b ok me ts me' -> ready me a -> same_terms (order_at me a) (order_at me' a).
Proof.
  induction 1 as [|me e l t me1 ts me2 Hq Hpos Hok Hfs _ IH]; [done|]. intros Hrd.
  transitivity (order_at me1 a); [by eapply step_aggr_terms|].
  apply IH. eapply step_ready; eauto using queue_cons_in.
Qed.

Lemma same_terms_is_buy o o' : same_terms o o' -> is_buy o' = is_buy o.
Proof. intros []. unfold is_buy. by rewrite st_Side. Qed.

Lemma IsFilled_rem me a : IsFilled (order_at me a) = true <-> rem_val (order_at me a) == 0.
Proof. by destruct (IsFilled_spec (order_at me a)). Qed.

Lemma limit_fills a b o : is_buy o = negb b -> forall fuel me trades,
  ready me a -> same_terms o (order_at me a) -> (length (queue me b) < fuel)%nat ->
  exists ts me', matchLimitOrder fuel me a trades = Some (trades ++ ts, me') /\
    fills a b (limit_ok o) me ts me' /\ stopped a b (limit_ok o) me'.
Proof.
  intros Hb fuel. induction fuel as [|fuel IH]; intros me trades Hrd Hst Hfuel; [lia|].
  cbn [matchLimitOrder].
  destruct (remaining_pos_spec (order_at me a)) as [Hpos|Hnpos].
  2: { exists [], me. rewrite app_nil_r. split; [done|]. split; [constructor|]. left.
       pose proof (ready_rem _ _ Hrd). lra. }
  rewrite (best_opposing_spec me a b) by (by rewrite (same_terms_is_buy _ _ Hst)).
  destruct (best_levels (orderBook me) b) as [|lp m] eqn:Hm; cbn [head].
  { exists [], me. rewrite app_nil_r. split; [done|]. split; [constructor|]. right. left.
    unfold queue, prio. by rewrite Hm. }
  assert (level_wf (heap me) b lp) as Hlw.
  { apply (bw_level _ (orderBook me)); [apply (rd_wf _ _ Hrd)|]. rewrite Hm. set_solver. }
  assert (reflect (limit_ok o (lpPrice lp)) (canMatch me a lp)) as Hcan.
  { unfold canMatch, limit_ok. rewrite (same_terms_is_buy _ _ Hst), (lw_price _ _ _ Hlw), (st_Price _ _ Hst).
    destruct (is_buy o); [apply GreaterThanOrEqual_spec|apply LessThanOrEqual_spec]. }
  destruct Hcan as [Hcan|Hcan].
  - destruct (round_fills a b (limit_ok o) fuel me lp m) as (ts & me1 & -> & Hf & Hprog); try done.
    + intros p Hp. unfold limit_ok, deq in *. destruct (is_buy o); lra.
    + lia.
    + cbn [mbind option_bind]. assert (ready me1 a) as Hrd1 by eauto using fills_ready.
      assert (same_terms o (order_at me1 a)) as Hst1 by (etransitivity; [done|]; by eapply fills_aggr).
      destruct (IsFilled (order_at me1 a)) eqn:Hfil.
      * exists ts, me1. split; [done|]. split; [done|]. left. by apply IsFilled_rem.
      * destruct Hprog as [Hz%IsFilled_rem|Hlt]; [congruence|].
        destruct (IH me1 (trades ++ ts)) as (ts' & me2 & -> & Hf' & Hstop); [done|done|lia|].
        exists (ts ++ ts'), me2. rewrite app_assoc. eauto using fills_app.
  - exists [], me. rewrite app_nil_r. split; [done|]. split; [constructor|]. right. right.
    destruct (elems_of (heap me) lp) as [|e l] eqn:Hel; [by destruct (lw_nonempty _ _ _ Hlw)|].
    exists e, (l ++ (m ≫= elems_of (heap me))). rewrite (queue_best me b lp m Hm), Hel.
    split; [done|]. intros Hok. apply Hcan.
    assert (oPrice (order_of (heap me) e) ≐ lpPrice lp) as Hp
      by (apply (lw_oprice _ _ _ Hlw); rewrite Hel; set_solver).
    unfold limit_ok, deq in *. destruct (is_buy o); lra.
Qed.

(** The market loop closes an unfilled order: the status it assigns when the
    book runs out. *)
Definition market_close me a : MatchingEngine :=
  if decimal_GreaterThan (RemainingQuantity (order_at me a)) decimal_Zero then
    assign_order me a (set_oStatus (order_at me a)
      (if decimal_GreaterThan (oFilledQuantity (order_at me a)) decimal_Zero
       then OrderStatusPartiallyFilled else OrderStatusRejected))
  else me.

Lemma market_fills a b : forall fuel me trades,
  ready me a -> is_buy (order_at me a) = negb b -> (length (queue me b) < fuel)%nat ->
  exists ts me1, matchMarketOrder fuel me a trades = Some (trades ++ ts, market_close me1 a) /\
    fills a b (fun _ => True) me ts me1 /\ stopped a b (fun _ => True) me1.
Proof.
  intros fuel. induction fuel as [|fuel IH]; intros me trades Hrd Hb Hfuel; [lia|].
  cbn [matchMarketOrder].
  destruct (remaining_pos_spec (order_at me a)) as [Hpos|Hnpos].
  2: { exists [], me. rewrite app_nil_r. unfold market_close.
       destruct (remaining_pos_spec (order_at me a)); [lra|].
       split; [done|]. split; [constructor|]. left. pose proof (ready_rem _ _ Hrd). lra. }
  rewrite (best_opposing_spec me a b) by done.
  destruct (best_levels (orderBook me) b) as [|lp m] eqn:Hm; cbn [head].
  { exists [], me. rewrite app_nil_r. unfold market_close.
    destruct (remaining_pos_spec (order_at me a)); [|lra].
    split; [done|]. split; [constructor|]. right. left. unfold queue, prio. by rewrite Hm. }
  destruct (round_fills a b (fun _ => True) fuel me lp m) as (ts & me1 & -> & Hf & Hprog); try done; [lia|].
  cbn [mbind option_bind]. assert (ready me1 a) as Hrd1 by eauto using fills_ready.
  assert (is_buy (order_at me1 a) = negb b) as Hb1
    by (rewrite (same_terms_is_buy (order_at me a) (order_at me1 a)); [done|by eapply fills_aggr]).
  destruct (IsFilled (order_at me1 a)) eqn:Hfil.
  - apply IsFilled_rem in Hfil. exists ts, me1. unfold market_close.
    destruct (remaining_pos_spec (order_at me1 a)); [lra|]. split; [done|]. split; [done|]. by left.
  - destruct Hprog as [Hz%IsFilled_rem|Hlt]; [congruence|].
    destruct (IH me1 (trades ++ ts)) as (ts' & me2 & -> & Hf' & Hstop); [done|done|lia|].
    exists (ts ++ ts'), me2. rewrite app_assoc. eauto using fills_app.
Qed.
End facts.
