(* ===== verification/MatchingSpec.v ===== *)
(** * Price-time priority: the specification of matching and its refinement

    [sweep] is the contract of the matching engine on plain numbers: an
    incoming quantity is allocated greedily to the resting quotes, in the
    order of the queue, as long as their price is acceptable.  The theorems
    relate it to what the loops do to orders, levels, trees and maps. *)

From S2P Require Import Prelude.
From S2P Require Import External.
From S2P Require Import Models.
From S2P Require Import OrderBook.
From S2P Require Import OrderBookFacts.
From S2P Require Import Events.
From S2P Require Import Matching.
From S2P Require Import MatchingFacts.
From S2P Require Import MatchingLoops.

(** ** The specification *)

Section spec.
Context `{UuidPkg}.
Local Open Scope Q_scope.

(** A resting quote, or the part of it a trade takes. *)
Record Quote := mkQuote { qID : uuid; qPrice : Q; qSize : Q }.

(** The trades, the queue that is left and the quantity that is left. *)
Fixpoint sweep (accept : Q -> bool) (want : Q) (queue : list Quote) : list Quote * list Quote * Q :=
  match queue with
  | [] => ([], [], want)
  | x :: queue' =>
      if Qle_bool want 0 || negb (accept (qPrice x)) then ([], queue, want)
      else if Qle_bool (qSize x) want then
        let '(ts, rest, want') := sweep accept (want - qSize x) queue' in (x :: ts, rest, want')
      else ([mkQuote (qID x) (qPrice x) want], mkQuote (qID x) (qPrice x) (qSize x - want) :: queue', 0)
  end.

(** Equality of numbers, not of their representations. *)
Record quote_eq (x y : Quote) : Prop := {
  qe_ID : qID x = qID y;
  qe_price : qPrice x == qPrice y;
  qe_size : qSize x == qSize y;
}.

#[global] Instance quote_eq_equiv : Equivalence quote_eq.
Proof.
  split.
  - by constructor.
  - intros x y []. constructor; by symmetry.
  - intros x y z [] []. constructor; by etransitivity.
Qed.
End spec.

Section abstraction.
Context `{DecimalSpec, UuidSpec, !EnvPkg, BTreeSpec}.
Local Open Scope Q_scope.

Definition quote_of (s : Store) (e : Element) : Quote :=
  mkQuote (oID (order_of s e)) (dval (oPrice (order_of s e))) (erem s e).

Definition quotes (me : MatchingEngine) (b : bool) : list Quote := quote_of (heap me) <$> queue me b.

(** What a trade took from the resting side [b]. *)
Definition quote_of_trade (b : bool) (t : Trade) : Quote :=
  mkQuote (if b then BuyOrderID t else SellOrderID t) (dval (tPrice t)) (dval (tQuantity t)).

(** The prices an order accepts, as a test. *)
Definition accepts (o : Order) (p : Q) : bool :=
  if bool_decide (oType o = OrderTypeMarket) then true
  else if is_buy o then Qle_bool p (dval (oPrice o)) else Qle_bool (dval (oPrice o)) p.

Definition accepts_price (o : Order) (p : decimal) : Prop := accepts o (dval p) = true.
End abstraction.

Section facts.
Context `{DecimalSpec, UuidSpec, !EnvPkg, BTreeSpec}.
Implicit Types (me : MatchingEngine) (e : Element) (b : bool) (a r : oref) (ok : decimal -> Prop).
Local Open Scope Q_scope.

Lemma fills_impl a b ok ok' me ts me' :
  (forall p, ok p -> ok' p) -> fills a b ok me ts me' -> fills a b ok' me ts me'.
Proof. intros Hok. induction 1; [constructor|]. econstructor; eauto. Qed.

Lemma stopped_impl a b ok ok' me : (forall p, ok' p -> ok p) -> stopped a b ok me -> stopped a b ok' me.
Proof. intros Hok [Hz|[Hn|(e & l & Hq & Hne)]]; [by left|by right; left|]. right. right. exists e, l. split; [done|]. naive_solver. Qed.

Lemma Qleb_iff x y : Qle_bool x y = true <-> x <= y.
Proof. apply Qle_bool_iff. Qed.

Lemma accepts_market o p : oType o = OrderTypeMarket -> accepts_price o p.
Proof. intros Ht. unfold accepts_price, accepts. by rewrite bool_decide_eq_true_2. Qed.

Lemma accepts_limit o p : oType o <> OrderTypeMarket -> accepts_price o p <-> limit_ok o p.
Proof.
  intros Ht. unfold accepts_price, accepts, limit_ok. rewrite bool_decide_eq_false_2 by done.
  destruct (is_buy o); apply Qleb_iff.
Qed.

(** ** A run of fills refines [sweep] *)

Lemma trade_quote a b me e t me' :
  fill_step me a e t me' -> is_buy (order_at me a) = negb b ->
  (qID (quote_of_trade b t) = oID (order_of (heap me) e)) /\
  dval (tPrice t) == dval (oPrice (order_of (heap me) e)).
Proof.
  intros Hfs Hb. destruct (fs_trade _ _ _ _ _ Hfs) as [Hp _ _ Hbuy Hsell].
  rewrite Hb in Hbuy, Hsell. rewrite Hp. split; [|reflexivity]. cbn. destruct b; cbn in *; done.
Qed.

(** The quotes behind the head are not touched. *)
Lemma step_quotes_tail a b me e t me' l :
  ready me a -> fill_step me a e t me' -> queue me b = e :: l ->
  quote_of (heap me') <$> l = quote_of (heap me) <$> l.
Proof.
  intros Hrd Hfs Hq. apply list_fmap_ext. intros i e' He'%list_elem_of_lookup_2.
  pose proof (queue_NoDup _ b (rd_wf _ _ Hrd)) as Hnd. rewrite Hq in Hnd.
  apply NoDup_cons in Hnd as [Hni _].
  assert (order_of (heap me') e' = order_of (heap me) e') as Heq.
  { apply (step_other me a e t me' Hrd (queue_cons_in _ _ _ _ Hq) Hfs); [|by intros ->].
    apply (queue_all _ b). rewrite Hq. set_solver. }
  unfold quote_of, erem. by rewrite Heq.
Qed.

Lemma step_quote_head a me e t me' :
  fill_step me a e t me' ->
  quote_eq (mkQuote (oID (order_of (heap me) e)) (dval (oPrice (order_of (heap me) e)))
             (erem (heap me) e - dval (tQuantity t))) (quote_of (heap me') e).
Proof.
  intros Hfs. pose proof (step_rest_terms _ _ _ _ _ Hfs) as Hst. constructor; cbn.
  - by rewrite (st_ID _ _ Hst).
  - by rewrite (st_Price _ _ Hst).
  - symmetry. by eapply step_rest_rem.
Qed.

Section run.
Context (a : oref) (b : bool) (accept : Q -> bool).
Hypothesis Haccept : forall x y, x == y -> accept x = accept y.
Let ok (p : decimal) : Prop := accept (dval p) = true.

Lemma sweep_stop me want l :
  stopped a b ok me -> want == rem_val (order_at me a) -> Forall2 quote_eq l (quotes me b) ->
  sweep accept want l = ([], l, want).
Proof.
  intros Hstop Hwant Hl. destruct l as [|x l]; [done|]. cbn [sweep].
  unfold quotes in Hl. assert (Qle_bool want 0 || negb (accept (qPrice x)) = true) as ->; [|done].
  apply orb_true_iff. destruct Hstop as [Hz|[Hn|(e & l' & Hq & Hne)]].
  - left. apply Qleb_iff. lra.
  - rewrite Hn in Hl. inversion Hl.
  - right. rewrite Hq in Hl. inversion Hl as [|? ? ? ? Hx _]; subst.
    apply negb_true_iff, not_true_iff_false. intros Hacc. apply Hne. unfold ok.
    by rewrite <- (Haccept (qPrice x)); [|apply (qe_price _ _ Hx)].
Qed.

Lemma fills_sweep me ts me' :
  fills a b ok me ts me' -> stopped a b ok me' -> ready me a -> is_buy (order_at me a) = negb b ->
  forall want l, want == rem_val (order_at me a) -> Forall2 quote_eq l (quotes me b) ->
  let '(fs, rest, want') := sweep accept want l in
  Forall2 quote_eq fs (quote_of_trade b <$> ts) /\ Forall2 quote_eq rest (quotes me' b) /\
  want' == rem_val (order_at me' a).
Proof.
  induction 1 as [me|me e l t me1 ts me2 Hq Hpos Hok Hfs Hrun IH];
    intros Hstop Hrd Hb want lq Hwant Hlq.
  { rewrite (sweep_stop me) by done. split; [constructor|done]. }
  pose proof (queue_cons_in _ _ _ _ Hq) as Hin.
  assert (ready me1 a) as Hrd1 by (eapply step_ready; eauto).
  unfold quotes in Hlq. rewrite Hq, fmap_cons in Hlq. apply Forall2_cons_inv_r in Hlq as (x & lx & Hx & Hlx & ->).
  pose proof (step_quotes_tail a b me e t me1 l Hrd Hfs Hq) as Htail. rewrite <- Htail in Hlx.
  destruct (trade_quote a b me e t me1 Hfs Hb) as [Hid Hprice].
  pose proof (step_qty me a e t me1 Hfs) as Hqty. pose proof (step_aggr_rem me a e t me1 Hfs) as Harem.
  destruct Hx as [Hxid Hxp Hxs]. cbn in Hxid, Hxp, Hxs. cbn [sweep].
  assert (Qle_bool want 0 || negb (accept (qPrice x)) = false) as ->.
  { apply orb_false_iff. split; [apply not_true_iff_false; rewrite Qleb_iff; lra|].
    apply negb_false_iff. rewrite (Haccept _ _ Hxp). apply Hok. }
  destruct (step_queue me a e t me1 Hrd Hfs b l Hq) as [(Hle & Hq1 & _)|(Hlt & Hq1 & Hz & _)].
  - rewrite Q.min_r in Hqty by done.
    assert (Qle_bool (qSize x) want = true) as -> by (apply Qleb_iff; lra).
    assert (is_buy (order_at me1 a) = negb b) as Hb1
      by (by rewrite (same_terms_is_buy _ _ (step_aggr_terms _ _ _ _ _ Hfs))).
    specialize (IH Hstop Hrd1 Hb1 (want - qSize x) lx). unfold quotes in IH at 1. rewrite Hq1 in IH.
    destruct (sweep accept (want - qSize x) lx) as [[fs rest] want'].
    destruct IH as (Hfs' & Hrest & Hw); [lra|done|]. split; [|done].
    constructor; [|done]. constructor; [by rewrite Hid|cbn; lra..].
  - rewrite Q.min_l in Hqty by lra.
    assert (Qle_bool (qSize x) want = false) as -> by (apply not_true_iff_false; rewrite Qleb_iff; lra).
    destruct (fills_done _ _ _ _ _ _ Hrun Hz) as [-> ->].
    split; [|split; [|by symmetry]].
    + constructor; [|constructor]. constructor; [by rewrite Hid|cbn; lra..].
    + unfold quotes. rewrite Hq1. constructor; [|done].
      etransitivity; [|by eapply step_quote_head]. constructor; cbn; [done|lra..].
Qed.
End run.
End facts.
