(* ===== verification/MatchingProps.v ===== *)
(** * What a new order does to the book

    The theorems about [matchOrder]: it returns, it keeps the book well-formed,
    live and uncrossed, it refines the price-time specification, quantities
    are conserved, and no acceptable quote is left behind. *)

From S2P Require Import Prelude.
From S2P Require Import External.
From S2P Require Import Models.
From S2P Require Import OrderBook.
From S2P Require Import OrderBookFacts.
From S2P Require Import Events.
From S2P Require Import Matching.
From S2P Require Import MatchingFacts.
From S2P Require Import MatchingLoops.
From S2P Require Import MatchingSpec.

Section defs.
Context `{DecimalSpec, UuidSpec, !EnvPkg, BTreeSpec}.
Local Open Scope Q_scope.

(** No bid reaches an ask. *)
Definition uncrossed (s : Store) (ob : OrderBook) : Prop :=
  forall e e', e ∈ prio s ob true -> e' ∈ prio s ob false ->
    dval (oPrice (order_of s e)) < dval (oPrice (order_of s e')).

Record book_inv (s : Store) (ob : OrderBook) : Prop := {
  bi_wf : book_wf s ob;
  bi_live : book_live s ob;
  bi_uncrossed : uncrossed s ob;
}.

(** What a caller of [matchOrder] provides: a new order of the heap. *)
Record submittable (me : MatchingEngine) (a : oref) : Prop := {
  sb_new : a ∉ elem_Value <$> all_elems (heap me) (orderBook me);
  sb_next : (a < next (heap me))%nat;
  sb_key : obOrders (orderBook me) !! uuid_String (oID (order_at me a)) = None;
  sb_filled : 0 <= dval (oFilledQuantity (order_at me a));
}.

(** The side a new order is matched against. *)
Definition opposing (o : Order) : bool := negb (is_buy o).

(** Enough fuel for any order: one unit per resting order and one more. *)
Definition enough_fuel (me : MatchingEngine) : nat :=
  S (length (all_elems (heap me) (orderBook me))).
End defs.

Section facts.
Context `{DecimalSpec, UuidSpec, !EnvPkg, BTreeSpec}.
Implicit Types (me : MatchingEngine) (s : Store) (ob : OrderBook) (e : Element) (b : bool) (a r : oref) (ok : decimal -> Prop).
Local Open Scope Q_scope.

(** ** Frames of a run *)

Lemma step_terms me a e t me' r : fill_step me a e t me' -> same_terms (order_at me r) (order_at me' r).
Proof.
  intros Hfs. destruct (decide (r = a)) as [->|Hra]; [by eapply step_aggr_terms|].
  destruct (decide (r = elem_Value e)) as [->|Hre]; [by eapply step_rest_terms|].
  by rewrite (fs_other _ _ _ _ _ Hfs).
Qed.

Lemma fills_terms a b ok me ts me' r : fills a b ok me ts me' -> same_terms (order_at me r) (order_at me' r).
Proof. induction 1; [done|]. etransitivity; [by eapply step_terms|done]. Qed.

Lemma fills_suffix a b ok me ts me' :
  fills a b ok me ts me' -> ready me a -> exists es, queue me b = es ++ queue me' b.
Proof.
  induction 1 as [|me e l t me1 ts me2 Hq Hpos Hok Hfs Hrun IH]; intros Hrd; [by exists []|].
  destruct IH as [es Hes]; [eapply step_ready; eauto using queue_cons_in|].
  destruct (step_queue me a e t me1 Hrd Hfs b l Hq) as [(_ & Hq1 & _)|(_ & Hq1 & _)].
  - exists (e :: es). rewrite Hq, <- Hq1, Hes. done.
  - exists es. by rewrite Hq, <- Hq1.
Qed.

Lemma queue_sides me b b' e :
  book_wf (heap me) (orderBook me) -> b <> b' -> e ∈ queue me b -> e ∉ queue me b'.
Proof.
  intros Hwf Hne He He'. pose proof (NoDup_fmap_1 _ _ (bw_ids _ _ Hwf)) as (_ & Hd & _)%NoDup_app.
  destruct b, b'; try done; [by destruct (Hd e He)|by destruct (Hd e He')].
Qed.

Lemma fills_other_side a b b' ok me ts me' :
  fills a b ok me ts me' -> ready me a -> b <> b' -> queue me' b' = queue me b'.
Proof.
  induction 1 as [|me e l t me1 ts me2 Hq Hpos Hok Hfs Hrun IH]; intros Hrd Hne; [done|].
  rewrite IH; [|eapply step_ready; eauto using queue_cons_in|done].
  unfold queue at 1. rewrite (fs_prio _ _ _ _ _ Hfs b'). case_match; [|done].
  apply filter_all. intros e' He' ->. revert He'. apply (queue_sides me b); [apply (rd_wf _ _ Hrd)|done|].
  rewrite Hq. set_solver.
Qed.

(** Orders off the matched queue are not touched. *)
Lemma fills_untouched a b ok me ts me' r :
  fills a b ok me ts me' -> ready me a -> r <> a -> r ∉ elem_Value <$> queue me b ->
  order_at me' r = order_at me r.
Proof.
  induction 1 as [|me e l t me1 ts me2 Hq Hpos Hok Hfs Hrun IH]; intros Hrd Hra Hr; [done|].
  rewrite IH.
  - apply (fs_other _ _ _ _ _ Hfs); [done|]. intros ->. apply Hr. rewrite Hq. set_solver.
  - eapply step_ready; eauto using queue_cons_in.
  - done.
  - destruct (step_queue me a e t me1 Hrd Hfs b l Hq) as [(_ & -> & _)|(_ & -> & _)];
      rewrite Hq in Hr; set_solver.
Qed.

Lemma fills_config a b ok me ts me' : fills a b ok me ts me' ->
  same_config me me' /\ next (heap me') = next (heap me) /\
  obInstrument (orderBook me') = obInstrument (orderBook me).
Proof.
  induction 1 as [|me e l t me1 ts me2 Hq Hpos Hok Hfs Hrun (IH1 & IH2 & IH3)]; [done|].
  rewrite IH2, IH3. split; [etransitivity; [apply (fs_config _ _ _ _ _ Hfs)|done]|].
  by rewrite (fs_next _ _ _ _ _ Hfs), (fs_instrument _ _ _ _ _ Hfs).
Qed.

(** ** Quantities of a run *)

Definition total (ts : list Trade) : Q := Qsum ((fun t => dval (tQuantity t)) <$> ts).

Lemma fills_total a b ok me ts me' : fills a b ok me ts me' ->
  dval (oFilledQuantity (order_at me' a)) == dval (oFilledQuantity (order_at me a)) + total ts.
Proof.
  induction 1 as [me|me e l t me1 ts me2 Hq Hpos Hok Hfs Hrun IH]; [unfold total, Qsum; cbn; lra|].
  rewrite IH, (step_aggr_filled _ _ _ _ _ Hfs).
  change (total (t :: ts)) with (dval (tQuantity t) + total ts). lra.
Qed.

Lemma fills_volume a b ok me ts me' : fills a b ok me ts me' -> ready me a ->
  Qsum (erem (heap me) <$> queue me b) == total ts + Qsum (erem (heap me') <$> queue me' b).
Proof.
  induction 1 as [me|me e l t me1 ts me2 Hq Hpos Hok Hfs Hrun IH]; intros Hrd.
  { unfold total at 1, Qsum at 2. cbn. lra. }
  assert (ready me1 a) as Hrd1 by (eapply step_ready; eauto using queue_cons_in).
  specialize (IH Hrd1). pose proof (step_qty me a e t me1 Hfs) as Hqty.
  pose proof (step_rest_rem _ _ _ _ _ Hfs) as Hrem.
  assert (Qsum (erem (heap me1) <$> l) == Qsum (erem (heap me) <$> l)) as Htail.
  { pose proof (step_quotes_tail a b me e t me1 l Hrd Hfs Hq) as Ht.
    apply (f_equal (fmap qSize)) in Ht. rewrite <- !list_fmap_compose in Ht.
    change (qSize ∘ quote_of (heap me1)) with (erem (heap me1)) in Ht.
    change (qSize ∘ quote_of (heap me)) with (erem (heap me)) in Ht. by rewrite Ht. }
  change (total (t :: ts)) with (dval (tQuantity t) + total ts). rewrite Hq.
  change (Qsum (erem (heap me) <$> e :: l)) with (erem (heap me) e + Qsum (erem (heap me) <$> l)).
  destruct (step_queue me a e t me1 Hrd Hfs b l Hq) as [(Hle & Hq1 & _)|(Hlt & Hq1 & Hz & _)].
  - rewrite Q.min_r in Hqty by done. rewrite Hq1 in IH. lra.
  - rewrite Hq1 in IH.
    change (Qsum (erem (heap me1) <$> e :: l)) with (erem (heap me1) e + Qsum (erem (heap me1) <$> l)) in IH.
    lra.
Qed.

Lemma fills_trades a b ok me ts me' : fills a b ok me ts me' -> ready me a ->
  Forall (fun t => 0 < dval (tQuantity t) /\ ok (tPrice t)) ts.
Proof.
  induction 1 as [|me e l t me1 ts me2 Hq Hpos Hok Hfs Hrun IH]; intros Hrd; [constructor|].
  constructor; [|apply IH; eapply step_ready; eauto using queue_cons_in].
  split; [eapply step_qty_bounds; eauto using queue_cons_in|].
  by rewrite (to_price _ _ _ (fs_trade _ _ _ _ _ Hfs)).
Qed.

(** ** Prices along a queue *)

Lemma StronglySorted_pairs {A} (R : relation A) (l : list A) :
  (forall x y, x ∈ l -> y ∈ l -> R x y) -> StronglySorted R l.
Proof.
  induction l as [|x l IH]; intros HR; constructor.
  - apply IH. intros. apply HR; set_solver.
  - apply Forall_forall. intros. apply HR; set_solver.
Qed.

Lemma prio_sorted s ob b : book_wf s ob ->
  StronglySorted (fun e e' => ~ better b (oPrice (order_of s e')) (oPrice (order_of s e))) (prio s ob b).
Proof.
  intros Hwf. unfold prio. pose proof (best_levels_sorted s ob b Hwf) as Hs.
  assert (forall lp e, lp ∈ best_levels ob b -> e ∈ elems_of s lp -> oPrice (order_of s e) ≐ lpPrice lp) as Hp.
  { intros lp e Hlp He. by apply (lw_oprice _ _ _ (bw_level _ _ _ _ Hwf Hlp)). }
  induction Hs as [|lp m Hm IH Hlp]; [constructor|]. rewrite bind_cons.
  rewrite Forall_forall in Hlp. apply StronglySorted_app_2.
  - intros e e' He (lp' & He' & Hlp')%list_elem_of_bind. specialize (Hlp lp' Hlp').
    pose proof (Hp lp e ltac:(set_solver) He). pose proof (Hp lp' e' ltac:(set_solver) He').
    unfold better, deq in *. destruct b; lra.
  - apply StronglySorted_pairs. intros e e' He He'.
    pose proof (Hp lp e ltac:(set_solver) He). pose proof (Hp lp e' ltac:(set_solver) He').
    unfold better, deq in *. destruct b; lra.
  - apply IH. intros. apply Hp; set_solver.
Qed.

(** An order that does not accept the head of the opposing queue accepts
    nothing behind it. *)
Lemma not_accepted_behind s ob o e l e' :
  book_wf s ob -> prio s ob (opposing o) = e :: l -> e' ∈ prio s ob (opposing o) ->
  ~ accepts_price o (oPrice (order_of s e)) -> ~ accepts_price o (oPrice (order_of s e')).
Proof.
  intros Hwf Hq He' Hne Hacc. apply Hne. rewrite Hq in He'.
  apply elem_of_cons in He' as [->|He']; [done|].
  pose proof (prio_sorted s ob (opposing o) Hwf) as Hs. rewrite Hq in Hs.
  apply StronglySorted_inv in Hs as [_ Hs]. rewrite Forall_forall in Hs. specialize (Hs e' He').
  unfold accepts_price, accepts, opposing, better in *. destruct (bool_decide _); [done|].
  destruct (is_buy o); cbn in *; rewrite Qleb_iff in *; lra.
Qed.

(** ** Resting what is left *)

Lemma ready_intro me a :
  book_inv (heap me) (orderBook me) -> submittable me a -> valid_order (order_at me a) -> ready me a.
Proof. intros [] [] []. by split. Qed.

(** The status assignments to [a] keep it ready. *)
Lemma all_elems_set_order s ob r o : all_elems (set_order s r o) ob = all_elems s ob.
Proof. done. Qed.

Lemma order_of_set_other s ob r o e :
  r ∉ elem_Value <$> all_elems s ob -> e ∈ all_elems s ob -> order_of (set_order s r o) e = order_of s e.
Proof.
  intros Hr He. unfold order_of. rewrite get_order_set, decide_False; [done|].
  intros Heq. apply Hr. rewrite Heq. by apply list_elem_of_fmap_2.
Qed.

Lemma book_inv_set_other s ob r o :
  book_inv s ob -> r ∉ elem_Value <$> all_elems s ob -> book_inv (set_order s r o) ob.
Proof.
  intros [Hwf Hlive Hunc] Hr. split.
  - by apply book_wf_set_other.
  - intros e He. rewrite (order_of_set_other s ob) by done. by apply Hlive.
  - intros e e' He He'. rewrite !(order_of_set_other s ob); [by apply Hunc|done| |done|];
      apply elem_of_all_elems; eauto.
Qed.

Lemma same_data_order_of s s' e : same_data s s' -> order_of s' e = order_of s e.
Proof. intros Hd. apply (same_data_get _ _ Hd). Qed.

Lemma same_data_all s s' ob : same_data s s' -> all_elems s' ob = all_elems s ob.
Proof. intros Hd. unfold all_elems. by rewrite !(same_data_prio s s'). Qed.

Lemma book_inv_same_data s s' ob : same_data s s' -> book_inv s ob -> book_inv s' ob.
Proof.
  intros Hd [Hwf Hlive Hunc]. split.
  - by eapply same_data_wf.
  - intros e. rewrite (same_data_all s s') by done. intros He.
    rewrite (same_data_order_of s s') by done. by apply Hlive.
  - intros e e'. rewrite !(same_data_prio s s') by done. intros He He'.
    rewrite !(same_data_order_of s s') by done. by apply Hunc.
Qed.

(** [rest_order] either leaves the engine alone or queues [a]. *)
Definition rests (o : Order) : bool :=
  bool_decide (oType o = OrderTypeLimit) && CanBeFilled o && negb (IsFilled o).

Lemma rest_order_skip me a : rests (order_at me a) = false -> rest_order me a = me.
Proof. intros Hr. unfold rest_order. unfold rests in Hr. by rewrite Hr. Qed.

Lemma rest_order_add me a : ready me a -> rests (order_at me a) = true ->
  exists s1 ob1 l1 l2 e,
    added (heap me) (orderBook me) (is_buy (order_at me a)) a s1 ob1 l1 l2 e /\
    notified (set_book me s1 ob1) (rest_order me a).
Proof.
  intros Hrd Hr. unfold rest_order. unfold rests in Hr. rewrite Hr.
  destruct (AddOrder_spec (heap me) (orderBook me) a (rd_wf _ _ Hrd) (rd_next _ _ Hrd) (rd_key _ _ Hrd))
    as (s1 & ob1 & l1 & l2 & e & -> & Hadd).
  exists s1, ob1, l1, l2, e. split; [done|].
  etransitivity; [apply updateOrderbookMetrics_notified|].
  etransitivity; [apply publishOrderbookChange_notified|].
  case_match; [apply emit_notified; by repeat constructor|done].
Qed.

Lemma added_elems s ob b r s' ob' l1 l2 e e' : added s ob b r s' ob' l1 l2 e ->
  e' ∈ all_elems s' ob' <-> e' = e \/ e' ∈ all_elems s ob.
Proof.
  intros Ha. rewrite !elem_of_all_elems. split.
  - intros [b' He']. destruct (decide (b = b')) as [<-|Hne].
    + rewrite (ad_prio _ _ _ _ _ _ _ _ _ Ha) in He'.
      assert (e' = e \/ e' ∈ l1 ++ l2) as [->|Hin] by set_solver; [by left|].
      right. exists b. by rewrite (ad_old _ _ _ _ _ _ _ _ _ Ha).
    + rewrite (ad_other _ _ _ _ _ _ _ _ _ Ha) in He' by done. eauto.
  - intros [->|[b' He']].
    + exists b. rewrite (ad_prio _ _ _ _ _ _ _ _ _ Ha). set_solver.
    + exists b'. destruct (decide (b = b')) as [<-|Hne].
      * rewrite (ad_prio _ _ _ _ _ _ _ _ _ Ha). rewrite (ad_old _ _ _ _ _ _ _ _ _ Ha) in He'. set_solver.
      * by rewrite (ad_other _ _ _ _ _ _ _ _ _ Ha).
Qed.

Lemma added_order_of s ob b r s' ob' l1 l2 e e' : added s ob b r s' ob' l1 l2 e ->
  order_of s' e' = order_of s e'.
Proof. intros Ha. unfold order_of, get_order. by rewrite (ad_orders _ _ _ _ _ _ _ _ _ Ha). Qed.

Lemma rest_live me a : ready me a -> rests (order_at me a) = true -> live (order_at me a).
Proof.
  intros Hrd Hr. unfold rests in Hr. apply andb_true_iff in Hr as [[_ Hc]%andb_true_iff Hf%negb_true_iff].
  destruct (rd_filled _ _ Hrd) as [H0f Hle]. split; [split; [done|]|done].
  destruct (IsFilled_spec (order_at me a)) as [|Hnz]; [done|]. unfold rem_val in Hnz. lra.
Qed.

(** The order that rests does not cross the book it joins. *)
Lemma rest_uncrossed me a e' :
  book_wf (heap me) (orderBook me) -> rests (order_at me a) = true ->
  stopped a (opposing (order_at me a)) (accepts_price (order_at me a)) me ->
  e' ∈ queue me (opposing (order_at me a)) -> ~ accepts_price (order_at me a) (oPrice (order_of (heap me) e')).
Proof.
  intros Hwf Hr [Hz|[Hn|(e & l & Hq & Hne)]] He'.
  - apply IsFilled_rem in Hz. unfold rests in Hr. rewrite Hz in Hr. by rewrite andb_false_r in Hr.
  - rewrite Hn in He'. set_solver.
  - by apply (not_accepted_behind (heap me) (orderBook me) (order_at me a) e l e').
Qed.

Lemma rest_inv me a : ready me a -> book_inv (heap me) (orderBook me) ->
  (rests (order_at me a) = true ->
   stopped a (opposing (order_at me a)) (accepts_price (order_at me a)) me) ->
  book_inv (heap (rest_order me a)) (orderBook (rest_order me a)).
Proof.
  intros Hrd Hinv Hstop. destruct (rests (order_at me a)) eqn:Hr; [|by rewrite rest_order_skip].
  specialize (Hstop eq_refl).
  destruct (rest_order_add me a Hrd Hr) as (s1 & ob1 & l1 & l2 & e & Hadd & Hn).
  rewrite (nt_book _ _ Hn). eapply book_inv_same_data; [apply (nt_data _ _ Hn)|]. cbn.
  assert (forall e', order_of s1 e' = order_of (heap me) e') as Hof by (intros; by eapply added_order_of).
  assert (order_of (heap me) e = order_at me a) as He
    by (unfold order_of; by rewrite (ad_value _ _ _ _ _ _ _ _ _ Hadd)).
  destruct Hinv as [Hwf Hlive Hunc]. split.
  - apply (ad_wf _ _ _ _ _ _ _ _ _ Hadd).
  - intros e' [->|He']%(added_elems _ _ _ _ _ _ _ _ _ _ Hadd); rewrite Hof; [|by apply Hlive].
    rewrite He. by apply rest_live.
  - pose proof (fun e' => rest_uncrossed me a e' Hwf Hr Hstop) as Hfar. unfold rests in Hr.
    apply andb_true_iff in Hr as [[Hl%bool_decide_eq_true _]%andb_true_iff _].
    assert (oType (order_at me a) <> OrderTypeMarket) as Hm by (rewrite Hl; done).
    intros x y. rewrite !Hof. unfold opposing in Hfar.
    pose proof (ad_prio _ _ _ _ _ _ _ _ _ Hadd) as Hp. pose proof (ad_old _ _ _ _ _ _ _ _ _ Hadd) as Ho.
    pose proof (ad_other _ _ _ _ _ _ _ _ _ Hadd (negb (is_buy (order_at me a)))) as Hoth.
    destruct (is_buy (order_at me a)) eqn:Hb; cbn in *; rewrite Hp, Hoth by done; intros Hx Hy.
    + assert (x = e \/ x ∈ l1 ++ l2) as [->|Hx'] by set_solver; [|rewrite <- Ho in Hx'; by apply Hunc].
      specialize (Hfar y Hy). rewrite accepts_limit in Hfar by done. unfold limit_ok in Hfar.
      rewrite Hb in Hfar. rewrite He. lra.
    + assert (y = e \/ y ∈ l1 ++ l2) as [->|Hy'] by set_solver; [|rewrite <- Ho in Hy'; by apply Hunc].
      specialize (Hfar x Hx). rewrite accepts_limit in Hfar by done. unfold limit_ok in Hfar.
      rewrite Hb in Hfar. rewrite He. lra.
Qed.

(** ** The run of [matchOrder] *)

Lemma queue_length_all me b : (length (queue me b) <= length (all_elems (heap me) (orderBook me)))%nat.
Proof. unfold all_elems, queue. rewrite length_app. destruct b; lia. Qed.

(** The engine between the loops and [rest_order]. *)
Definition closed me1 a : MatchingEngine :=
  if bool_decide (oType (order_at me1 a) = OrderTypeMarket) then market_close me1 a else me1.

Record matched me a (o : Order) (ts : list Trade) me1 me' : Prop := {
  mt_fills : fills a (opposing o) (accepts_price o) me ts me1;
  mt_stopped : stopped a (opposing o) (accepts_price o) me1;
  mt_notified : notified (rest_order (closed me1 a) a) me';
}.

Lemma matchOrder_run fuel me a :
  ready me a -> IsValid (order_at me a) = true -> (enough_fuel me <= fuel)%nat ->
  exists ts me1 me', matchOrder fuel me a = Some (ts, me') /\ matched me a (order_at me a) ts me1 me'.
Proof.
  intros Hrd Hv Hfuel. unfold matchOrder. rewrite Hv. cbn [negb]. set (o := order_at me a) in *.
  assert (length (queue me (opposing o)) < fuel)%nat as Hf.
  { pose proof (queue_length_all me (opposing o)). unfold enough_fuel in Hfuel. lia. }
  assert (is_buy o = negb (opposing o)) as Hb by (unfold opposing; by rewrite negb_involutive).
  case_bool_decide as Ht.
  - destruct (market_fills a (opposing o) fuel me [] Hrd Hb Hf) as (ts & me1 & -> & Hfl & Hst).
    cbn [app mbind option_bind].
    assert (same_terms o (order_at me1 a)) as Hterms by (by eapply fills_terms).
    exists ts, me1, (notify_trades (rest_order (market_close me1 a) a) a ts). split; [done|]. split.
    + eapply fills_impl; [|done]. intros. by apply accepts_market.
    + eapply stopped_impl; [|done]. done.
    + unfold closed. rewrite bool_decide_eq_true_2 by (by rewrite (st_Type _ _ Hterms)).
      apply notify_trades_notified.
  - destruct (limit_fills a (opposing o) o Hb fuel me [] Hrd) as (ts & me1 & -> & Hfl & Hst); [done|done|].
    cbn [app mbind option_bind].
    assert (same_terms o (order_at me1 a)) as Hterms by (by eapply fills_terms).
    exists ts, me1, (notify_trades (rest_order me1 a) a ts). split; [done|]. split.
    + eapply fills_impl; [|done]. intros. by apply accepts_limit.
    + eapply stopped_impl; [|done]. intros. by apply accepts_limit.
    + unfold closed. rewrite bool_decide_eq_false_2 by (by rewrite (st_Type _ _ Hterms)).
      apply notify_trades_notified.
Qed.

Lemma fills_inv a b ok me ts me' :
  fills a b ok me ts me' -> ready me a -> uncrossed (heap me) (orderBook me) ->
  book_inv (heap me') (orderBook me').
Proof.
  intros Hf Hrd Hunc. pose proof (fills_ready _ _ _ _ _ _ Hf Hrd) as Hrd'.
  split; [apply (rd_wf _ _ Hrd')|apply (rd_live _ _ Hrd')|].
  assert (forall b' e, e ∈ queue me' b' -> e ∈ queue me b') as Hsub.
  { intros b' e He. destruct (decide (b = b')) as [<-|Hne].
    - destruct (fills_suffix _ _ _ _ _ _ Hf Hrd) as [es ->]. set_solver.
    - by rewrite (fills_other_side _ _ _ _ _ _ _ Hf Hrd Hne) in He. }
  intros e e' He He'. unfold order_of. change (get_order (heap me')) with (order_at me').
  rewrite !(st_Price _ _ (fills_terms _ _ _ _ _ _ _ Hf)). apply Hunc; by apply Hsub.
Qed.

Lemma closed_inv me a : ready me a -> book_inv (heap me) (orderBook me) ->
  book_inv (heap (closed me a)) (orderBook (closed me a)).
Proof.
  intros Hrd Hinv. unfold closed. case_bool_decide; [|done]. unfold market_close.
  case_match; [|done]. apply book_inv_set_other; [done|apply (rd_new _ _ Hrd)].
Qed.

Lemma ready_assign_status me a st : ready me a ->
  ready (assign_order me a (set_oStatus (order_at me a) st)) a.
Proof.
  intros [Hwf Hlive Hnew Hnext Hkey Hfil].
  assert (order_at (assign_order me a (set_oStatus (order_at me a) st)) a = set_oStatus (order_at me a) st) as Ha.
  { unfold order_at at 1. cbn. by rewrite get_order_set, decide_True. }
  split; rewrite ?Ha; try done.
  - by apply book_wf_set_other.
  - intros e He. cbn. rewrite (order_of_set_other (heap me) (orderBook me)) by done. by apply Hlive.
Qed.

Lemma closed_ready me a : ready me a -> ready (closed me a) a.
Proof.
  intros Hrd. unfold closed. case_bool_decide; [|done]. unfold market_close.
  case_match; [|done]. by apply ready_assign_status.
Qed.

(** A market order never rests. *)
Lemma closed_market_terms me a : same_terms (order_at me a) (order_at (closed me a) a).
Proof.
  unfold closed. case_bool_decide; [|done]. unfold market_close. case_match; [|done].
  unfold order_at at 2. cbn. rewrite get_order_set, decide_True by done. by constructor.
Qed.

Lemma rests_limit o : rests o = true -> oType o = OrderTypeLimit.
Proof. unfold rests. rewrite !andb_true_iff, bool_decide_eq_true. tauto. Qed.

Lemma closed_rests me a : rests (order_at (closed me a) a) = true -> closed me a = me.
Proof.
  intros Hr%rests_limit. rewrite (st_Type _ _ (closed_market_terms me a)) in Hr.
  unfold closed. by rewrite Hr.
Qed.

Lemma accepts_terms o o' p : same_terms o o' -> accepts_price o' p <-> accepts_price o p.
Proof.
  intros Hst. unfold accepts_price, accepts.
  by rewrite (st_Type _ _ Hst), (same_terms_is_buy _ _ Hst), (st_Price _ _ Hst).
Qed.

Lemma opposing_terms o o' : same_terms o o' -> opposing o' = opposing o.
Proof. intros Hst. unfold opposing. by rewrite (same_terms_is_buy _ _ Hst). Qed.

Lemma stopped_terms a b o o' me : same_terms o o' ->
  stopped a b (accepts_price o) me -> stopped a b (accepts_price o') me.
Proof. intros Hst. apply stopped_impl. intros p. by apply (accepts_terms _ _ p Hst). Qed.

Lemma matched_inv me a ts me1 me' :
  ready me a -> uncrossed (heap me) (orderBook me) -> matched me a (order_at me a) ts me1 me' ->
  book_inv (heap me') (orderBook me').
Proof.
  intros Hrd Hunc [Hf Hstop Hn].
  pose proof (fills_ready _ _ _ _ _ _ Hf Hrd) as Hrd1.
  rewrite (nt_book _ _ Hn). eapply book_inv_same_data; [apply (nt_data _ _ Hn)|].
  apply rest_inv; [by apply closed_ready|apply closed_inv; [done|by eapply fills_inv]|].
  intros Hr. rewrite (closed_rests _ _ Hr).
  pose proof (fills_terms _ _ _ _ _ _ a Hf) as Hst. rewrite (opposing_terms _ _ Hst).
  by eapply stopped_terms.
Qed.

(** The final heap holds the orders the loops left, up to the closing status
    of a market order. *)
Lemma rest_order_at me a r : ready me a -> order_at (rest_order me a) r = order_at me r.
Proof.
  intros Hrd. destruct (rests (order_at me a)) eqn:Hr; [|by rewrite rest_order_skip].
  destruct (rest_order_add me a Hrd Hr) as (s1 & ob1 & l1 & l2 & e & Hadd & Hn).
  unfold order_at. destruct (same_data_get _ _ (nt_data _ _ Hn)) as [-> _]. cbn.
  unfold get_order. by rewrite (ad_orders _ _ _ _ _ _ _ _ _ Hadd).
Qed.

Lemma matched_order me a ts me1 me' r :
  ready me a -> matched me a (order_at me a) ts me1 me' -> order_at me' r = order_at (closed me1 a) r.
Proof.
  intros Hrd [Hf _ Hn]. pose proof (fills_ready _ _ _ _ _ _ Hf Hrd) as Hrd1.
  rewrite <- (rest_order_at (closed me1 a) a r) by (by apply closed_ready).
  unfold order_at. by destruct (same_data_get _ _ (nt_data _ _ Hn)) as [-> _].
Qed.

Lemma closed_other me a r : r <> a -> order_at (closed me a) r = order_at me r.
Proof.
  intros Hr. unfold closed. case_bool_decide; [|done]. unfold market_close. case_match; [|done].
  unfold order_at. cbn. by rewrite get_order_set, decide_False.
Qed.

Lemma closed_quantities me a :
  oFilledQuantity (order_at (closed me a) a) = oFilledQuantity (order_at me a).
Proof.
  unfold closed. case_bool_decide; [|done]. unfold market_close. case_match; [|done].
  unfold order_at at 1. cbn. by rewrite get_order_set, decide_True.
Qed.

Lemma closed_queue me a b : queue (closed me a) b = queue me b.
Proof. unfold closed. case_bool_decide; [|done]. unfold market_close. by case_match. Qed.

(** The opposing queue is final once the loops stop. *)
Lemma matched_queue me a ts me1 me' :
  ready me a -> matched me a (order_at me a) ts me1 me' ->
  queue me' (opposing (order_at me a)) = queue me1 (opposing (order_at me a)).
Proof.
  intros Hrd [Hf _ Hn]. pose proof (fills_ready _ _ _ _ _ _ Hf Hrd) as Hrd1.
  unfold queue at 1. rewrite (nt_book _ _ Hn), (same_data_prio _ _ _ _ (nt_data _ _ Hn)).
  rewrite <- (closed_queue me1 a).
  destruct (rests (order_at (closed me1 a) a)) eqn:Hr; [|by rewrite rest_order_skip].
  destruct (rest_order_add (closed me1 a) a (closed_ready _ _ Hrd1) Hr) as (s1 & ob1 & l1 & l2 & e & Hadd & Hn').
  rewrite (nt_book _ _ Hn'), (same_data_prio _ _ _ _ (nt_data _ _ Hn')). cbn.
  rewrite (ad_other _ _ _ _ _ _ _ _ _ Hadd); [done|].
  rewrite (same_terms_is_buy _ _ (closed_market_terms me1 a)).
  rewrite (same_terms_is_buy _ _ (fills_terms _ _ _ _ _ _ a Hf)). unfold opposing.
  by destruct (is_buy (order_at me a)).
Qed.

Lemma matched_erem me a ts me1 me' e b :
  ready me a -> matched me a (order_at me a) ts me1 me' -> e ∈ queue me1 b ->
  order_of (heap me') e = order_of (heap me1) e.
Proof.
  intros Hrd Hm He. pose proof (fills_ready _ _ _ _ _ _ (mt_fills _ _ _ _ _ _ Hm) Hrd) as Hrd1.
  change (order_at me' (elem_Value e) = order_at me1 (elem_Value e)).
  rewrite (matched_order _ _ _ _ _ _ Hrd Hm). apply closed_other. intros Hv.
  apply (rd_new _ _ Hrd1). rewrite <- Hv. apply list_elem_of_fmap_2. by eapply queue_all.
Qed.

(** ** New orders *)

(** A store grown by an allocation holds the same book. *)
Lemma alloc_order_inv s ob o : book_inv s ob -> book_inv (alloc_order s o).2 ob.
Proof.
  intros Hinv. unfold alloc_order. cbn [alloc snd].
  set (s1 := mkStore _ _ _ _ _). assert (book_inv s1 ob) as Hinv1.
  { destruct Hinv as [Hwf Hlive Hunc]. split; [|done|done].
    apply (book_wf_frame s); [done|cbn; lia|done|]. intros e _. done. }
  apply book_inv_set_other; [done|]. intros (e & Hv & He)%list_elem_of_fmap.
  pose proof (bw_fresh_elem _ _ (bi_wf _ _ Hinv) e He). lia.
Qed.

(** An order just allocated, with an identifier the book does not hold, can be
    submitted. *)
Lemma alloc_submittable me o :
  book_inv (heap me) (orderBook me) -> obOrders (orderBook me) !! uuid_String (oID o) = None ->
  0 <= dval (oFilledQuantity o) ->
  submittable (set_heap me (alloc_order (heap me) o).2) (alloc_order (heap me) o).1.
Proof.
  intros Hinv Hkey Hfil.
  assert (order_at (set_heap me (alloc_order (heap me) o).2) (alloc_order (heap me) o).1 = o) as Ho
    by (unfold order_at, alloc_order; cbn [alloc fst snd heap set_heap]; by rewrite get_order_set, decide_True).
  split; rewrite ?Ho; try done; [|cbn; lia].
  intros (e & Hv & He)%list_elem_of_fmap. cbn in Hv.
  pose proof (bw_fresh_elem _ _ (bi_wf _ _ Hinv) e He). lia.
Qed.

Lemma matchOrder_inv fuel me a :
  book_inv (heap me) (orderBook me) -> submittable me a -> (enough_fuel me <= fuel)%nat ->
  exists ts me', matchOrder fuel me a = Some (ts, me') /\ book_inv (heap me') (orderBook me').
Proof.
  intros Hinv Hsub Hfuel. destruct (IsValid (order_at me a)) eqn:Hval.
  - assert (valid_order (order_at me a)) as Hv by (by destruct (IsValid_spec (order_at me a))).
    assert (ready me a) as Hrd by (by apply ready_intro).
    destruct (matchOrder_run fuel me a Hrd Hval Hfuel) as (ts & me1 & me' & Hrun & Hm).
    exists ts, me'. split; [done|]. eapply matched_inv; [done|apply Hinv|done].
  - unfold matchOrder. rewrite Hval. cbn [negb].
    eexists _, _. split; [done|]. apply book_inv_set_other; [done|apply Hsub].
Qed.

Lemma book_inv_new s instrument : book_inv s (NewOrderBook instrument).
Proof.
  assert (forall b, prio s (NewOrderBook instrument) b = []) as Hp.
  { intros b. unfold prio. rewrite best_levels_side.
    assert (btree_Ascend (get_side (NewOrderBook instrument) b) = []) as ->
      by (destruct b; apply btree_Ascend_New). by destruct b. }
  split; [apply book_wf_new|..].
  - intros e. unfold all_elems. rewrite !Hp. set_solver.
  - intros e e'. rewrite !Hp. set_solver.
Qed.

(** ** Who trades, and at what price *)

Record made_by b me (t : Trade) e : Prop := {
  mb_maker : (if b then BuyOrderID t else SellOrderID t) = oID (order_of (heap me) e);
  mb_price : tPrice t = oPrice (order_of (heap me) e);
}.

Lemma fills_makers a b ok me ts me' :
  fills a b ok me ts me' -> ready me a -> is_buy (order_at me a) = negb b ->
  Forall2 (made_by b me) ts (take (length ts) (queue me b)).
Proof.
  induction 1 as [|me e l t me1 ts me2 Hq Hpos Hok Hfs Hrun IH]; intros Hrd Hb; [constructor|].
  rewrite Hq. cbn. constructor.
  - destruct (fs_trade _ _ _ _ _ Hfs) as [Hp _ _ Hbuy Hsell]. rewrite Hb in Hbuy, Hsell.
    split; [|done]. destruct b; done.
  - destruct (step_queue me a e t me1 Hrd Hfs b l Hq) as [(_ & Hq1 & _)|(_ & _ & Hz & _)].
    + rewrite Hq1 in IH. eapply Forall2_impl; [apply IH|].
      * eapply step_ready; eauto using queue_cons_in.
      * by rewrite (same_terms_is_buy _ _ (step_aggr_terms _ _ _ _ _ Hfs)).
      * intros t' e' [Hm Hp]. pose proof (step_terms _ _ _ _ _ (elem_Value e') Hfs) as Hst.
        split; [by rewrite Hm; apply (st_ID _ _ Hst)|by rewrite Hp; apply (st_Price _ _ Hst)].
    + destruct (fills_done _ _ _ _ _ _ Hrun Hz) as [-> _]. constructor.
Qed.

(** ** The status of the incoming order *)

Definition traded_status (o : Order) : string :=
  if IsFilled o then OrderStatusFilled else OrderStatusPartiallyFilled.

Lemma step_status me a e t me' :
  ready me a -> e ∈ all_elems (heap me) (orderBook me) -> 0 < rem_val (order_at me a) ->
  fill_step me a e t me' -> oStatus (order_at me' a) = traded_status (order_at me' a).
Proof.
  intros Hrd He Hpos Hfs. pose proof (step_qty_bounds me a e t me' Hrd He Hpos Hfs) as (Hq & Hqa & _).
  pose proof (step_aggr_filled _ _ _ _ _ Hfs) as Hfil. pose proof (step_aggr_rem _ _ _ _ _ Hfs) as Hrem.
  destruct (rd_filled _ _ Hrd) as [H0f _]. unfold traded_status, rem_val in *.
  destruct (fs_aggr _ _ _ _ _ Hfs) as [now Heq]. rewrite Heq in *. unfold Fill in *.
  set (o := set_oUpdatedAt _ _) in *.
  rewrite refresh_status_filled, (st_Quantity _ _ (refresh_status_terms o)) in *.
  assert (IsFilled (refresh_status o) = IsFilled o) as Hif.
  { unfold IsFilled. by rewrite refresh_status_filled, (st_Quantity _ _ (refresh_status_terms o)). }
  rewrite Hif. destruct (IsFilled o) eqn:Hf; [unfold refresh_status; by rewrite Hf|].
  apply refresh_status_live; [lra|]. destruct (IsFilled_spec o) as [|Hnz]; [done|].
  unfold rem_val in Hnz. lra.
Qed.

Lemma fills_status a b ok me ts me' :
  fills a b ok me ts me' -> ready me a -> ts <> [] ->
  oStatus (order_at me' a) = traded_status (order_at me' a).
Proof.
  induction 1 as [|me e l t me1 ts me2 Hq Hpos Hok Hfs Hrun IH]; intros Hrd Hne; [done|].
  destruct Hrun as [|? ? ? ? ? ? ? Hq' Hpos' Hok' Hfs' Hrun'].
  - eapply step_status; eauto using queue_cons_in.
  - apply IH; [|done]. eapply step_ready; eauto using queue_cons_in.
Qed.

Lemma fills_none a b ok me me' : fills a b ok me [] me' -> me' = me.
Proof. by inversion 1. Qed.

(** ** The location map at the end *)

Lemma matched_resting me a ts me1 me' :
  ready me a -> matched me a (order_at me a) ts me1 me' ->
  GetOrder (orderBook me') (uuid_String (oID (order_at me a))) =
    if rests (order_at (closed me1 a) a) then Some a else None.
Proof.
  intros Hrd [Hf _ Hn]. pose proof (closed_ready _ _ (fills_ready _ _ _ _ _ _ Hf Hrd)) as Hrd1.
  assert (oID (order_at (closed me1 a) a) = oID (order_at me a)) as Hid.
  { rewrite (st_ID _ _ (closed_market_terms me1 a)). apply (st_ID _ _ (fills_terms _ _ _ _ _ _ a Hf)). }
  unfold GetOrder. rewrite (nt_book _ _ Hn). destruct (rests _) eqn:Hr.
  - destruct (rest_order_add _ a Hrd1 Hr) as (s1 & ob1 & l1 & l2 & e & Hadd & Hn').
    rewrite (nt_book _ _ Hn'). cbn. destruct (ad_map _ _ _ _ _ _ _ _ _ Hadd) as [lr ->].
    change (get_order (heap (closed me1 a)) a) with (order_at (closed me1 a) a).
    rewrite Hid, lookup_insert_eq. cbn. by rewrite (ad_value _ _ _ _ _ _ _ _ _ Hadd).
  - rewrite rest_order_skip by done. rewrite <- Hid, (rd_key _ _ Hrd1). done.
Qed.

(** The incoming order's own side: it is queued behind everything at its price
    or better, or the queue does not change. *)
Lemma matched_own_side me a ts me1 me' :
  ready me a -> matched me a (order_at me a) ts me1 me' ->
  let b := is_buy (order_at me a) in
  if rests (order_at (closed me1 a) a) then
    exists l1 l2 e, queue me b = l1 ++ l2 /\ queue me' b = l1 ++ e :: l2 /\ elem_Value e = a /\
      (forall e', e' ∈ l1 -> ~ better b (oPrice (order_at me a)) (oPrice (order_of (heap me) e'))) /\
      (forall e', e' ∈ l2 -> better b (oPrice (order_at me a)) (oPrice (order_of (heap me) e')))
  else queue me' b = queue me b.
Proof.
  intros Hrd [Hf _ Hn] b. pose proof (closed_ready _ _ (fills_ready _ _ _ _ _ _ Hf Hrd)) as Hrd1.
  assert (same_terms (order_at me a) (order_at (closed me1 a) a)) as Hst.
  { etransitivity; [by eapply fills_terms|apply closed_market_terms]. }
  assert (queue (closed me1 a) b = queue me b) as Hq1.
  { rewrite closed_queue. apply (fills_other_side _ _ _ _ _ _ _ Hf Hrd). unfold opposing, b. by destruct (is_buy (order_at me a)). }
  assert (forall b', queue me' b' = queue (rest_order (closed me1 a) a) b') as Hq'.
  { intros b'. unfold queue. by rewrite (nt_book _ _ Hn), (same_data_prio _ _ _ _ (nt_data _ _ Hn)). }
  rewrite Hq'. destruct (rests _) eqn:Hr; [|by rewrite rest_order_skip].
  destruct (rest_order_add _ a Hrd1 Hr) as (s1 & ob1 & l1 & l2 & e & Hadd & Hn').
  rewrite (same_terms_is_buy _ _ Hst) in Hadd. fold b in Hadd.
  assert (forall r, r ∈ elem_Value <$> queue me b -> order_at (closed me1 a) r = order_at me r) as Hsame.
  { intros r (e' & -> & He')%list_elem_of_fmap.
    rewrite closed_other by (intros Hv; apply (rd_new _ _ Hrd); rewrite <- Hv;
      apply list_elem_of_fmap_2; by eapply queue_all).
    apply (fills_untouched _ _ _ _ _ _ _ Hf Hrd).
    - intros Hv. apply (rd_new _ _ Hrd). rewrite <- Hv. apply list_elem_of_fmap_2. by eapply queue_all.
    - intros (e2 & Hv & He2)%list_elem_of_fmap.
      assert (e' = e2) as <-.
      { eapply bw_value_unique; [apply (rd_wf _ _ Hrd)|by eapply queue_all..|done]. }
      revert He2. apply (queue_sides me b); [apply (rd_wf _ _ Hrd)| |done].
      unfold opposing, b. by destruct (is_buy (order_at me a)). }
  pose proof (ad_old _ _ _ _ _ _ _ _ _ Hadd) as Hold. change (prio _ _ b) with (queue (closed me1 a) b) in Hold.
  rewrite Hq1 in Hold.
  assert (forall e', e' ∈ l1 ++ l2 -> oPrice (order_of (heap (closed me1 a)) e') = oPrice (order_of (heap me) e')) as Hpe.
  { intros e' He'. change (order_of (heap (closed me1 a)) e') with (order_at (closed me1 a) (elem_Value e')).
    rewrite Hsame; [done|]. rewrite Hold. by apply list_elem_of_fmap_2. }
  exists l1, l2, e. split; [done|]. split.
  { unfold queue. rewrite (nt_book _ _ Hn'), (same_data_prio _ _ _ _ (nt_data _ _ Hn')).
    apply (ad_prio _ _ _ _ _ _ _ _ _ Hadd). }
  split; [apply (ad_value _ _ _ _ _ _ _ _ _ Hadd)|]. rewrite <- (st_Price _ _ Hst). split; intros e' He'.
  - rewrite <- Hpe by set_solver. by apply (ad_before _ _ _ _ _ _ _ _ _ Hadd).
  - rewrite <- Hpe by set_solver. by apply (ad_after _ _ _ _ _ _ _ _ _ Hadd).
Qed.

(** ** An order the location map does not know

    [lp] is the best opposing level and its queue is one exhausted order whose
    key is not in the location map: neither [UpdateOrder] nor [RemoveOrder] can
    reach it. *)
Record ghost_level me a lp e : Prop := {
  gl_best : best_opposing me a = Some lp;
  gl_queue : plOrders (get_level (heap me) (lpRef lp)) = [e];
  gl_filled : rem_val (order_of (heap me) e) == 0;
  gl_key : obOrders (orderBook me) !! ekey (heap me) e = None;
  gl_other : a <> elem_Value e;
  gl_want : 0 < rem_val (order_at me a);
}.

(** A round against such a level trades nothing and leaves it as it is. *)
Lemma ghost_round fuel me a lp e :
  ghost_level me a lp e ->
  exists t me', matchAgainstPriceLevel (S fuel) me a (lpRef lp) = Some ([t], me') /\
    dval (tQuantity t) == 0 /\ ghost_level me' a lp e /\
    same_terms (order_at me a) (order_at me' a).
Proof.
  intros [Hbest Hqueue Hfil Hkey Hne Hpos].
  unfold matchAgainstPriceLevel. rewrite Hqueue. cbn [head level_loop].
  destruct (remaining_pos_spec (order_at me a)); [|lra]. rewrite Hqueue. cbn [list_Next].
  rewrite bool_decide_eq_true_2 by done. cbn [head].
  destruct (execute_fill_spec me a (elem_Value e) 1 1 Hne) as (t & me1 & -> & Hex).
  assert (dval (tQuantity t) == 0) as Hqty.
  { rewrite (to_quantity _ _ _ (ex_trade _ _ _ _ _ Hex)), dval_Min_r; rewrite !dval_Remaining; [done|].
    unfold order_of in Hfil. unfold order_at at 1. lra. }
  destruct (ex_rest _ _ _ _ _ Hex) as [t1 Hrest]. destruct (ex_aggr _ _ _ _ _ Hex) as [t2 Haggr].
  assert (rem_val (order_at me1 (elem_Value e)) == 0) as Hrem.
  { rewrite Hrest, Fill_rem_val. unfold order_of in Hfil. unfold order_at. lra. }
  assert (uuid_String (oID (order_at me1 (elem_Value e))) = ekey (heap me) e) as Hk.
  { rewrite Hrest. by rewrite (st_ID _ _ (Fill_terms _ _ _)). }
  assert (settle_resting me1 (elem_Value e) = set_book me1 (heap me1) (orderBook me1)) as Hsettle.
  { unfold settle_resting, UpdateOrder. rewrite Hk, (ex_book _ _ _ _ _ Hex), Hkey.
    change (order_at (set_heap me1 (heap me1)) (elem_Value e)) with (order_at me1 (elem_Value e)).
    assert (IsFilled (order_at me1 (elem_Value e)) = true) as -> by (by apply IsFilled_rem).
    unfold RemoveOrder. cbn [orderBook set_heap heap]. by rewrite (ex_book _ _ _ _ _ Hex), Hk, Hkey. }
  rewrite Hsettle. exists t, (set_book me1 (heap me1) (orderBook me1)).
  split; [by destruct fuel|]. split; [done|].
  assert (same_terms (order_at me a) (order_at me1 a)) as Hst by (rewrite Haggr; apply Fill_terms).
  split; [|done]. split.
  - rewrite <- Hbest. unfold best_opposing. cbn [orderBook set_book set_orderBook].
    change (order_at (set_book me1 (heap me1) (orderBook me1)) a) with (order_at me1 a).
    by rewrite (same_terms_is_buy _ _ Hst), (ex_book _ _ _ _ _ Hex).
  - cbn. unfold get_level. by rewrite (ex_levels _ _ _ _ _ Hex).
  - exact Hrem.
  - change (orderBook (set_book me1 (heap me1) (orderBook me1))) with (orderBook me1).
    rewrite (ex_book _ _ _ _ _ Hex). change (obOrders (orderBook me) !! uuid_String (oID (order_at me1 (elem_Value e))) = None).
    by rewrite Hk.
  - done.
  - change (0 < rem_val (order_at me1 a)). rewrite Haggr, Fill_rem_val. lra.
Qed.
End facts.
