(* ===== verification/MatchingTheorems.v ===== *)
(** * Theorems about matching, with concrete instances

    The properties of [matchOrder], each with an instance on a small book of
    rational prices. *)

From S2P Require Import Prelude.
From S2P Require Import External.
From S2P Require Import Models.
From S2P Require Import OrderBook.
From S2P Require Import OrderBookFacts.
From S2P Require Import Events.
From S2P Require Import Matching.
From S2P Require Import MatchingFacts.
From S2P Require Import MatchingLoops.
From S2P Require Import MatchingSpec.
From S2P Require Import MatchingProps.

(** ** A book to evaluate

    Two asks at 101 and one at 102 for 5 units each, one bid at 99 for 4. *)

Module Demo.
Import Concrete.

Definition limit (id side : string) (price qty : Q) : Order :=
  NewOrder (id : uuid) 0 "alice" "BTC-USD" side "limit" (price : decimal) (qty : decimal).
Definition market (id side : string) (qty : Q) : Order :=
  NewOrder (id : uuid) 0 "bob" "BTC-USD" side "market" (0%Q : decimal) (qty : decimal).

(** Allocate an order in the engine's heap and match it. *)
Definition submit (me : MatchingEngine) (o : Order) : MatchingEngine :=
  let me1 := set_heap me (alloc_order (heap me) o).2 in
  match matchOrder (enough_fuel me1) me1 (alloc_order (heap me) o).1 with
  | Some (_, me2) => me2
  | None => me1
  end.

Lemma allocated_inv me o : book_inv (heap me) (orderBook me) ->
  book_inv (heap (set_heap me (alloc_order (heap me) o).2)) (orderBook (set_heap me (alloc_order (heap me) o).2)).
Proof. apply alloc_order_inv. Qed.

Lemma submit_inv me o :
  book_inv (heap me) (orderBook me) -> obOrders (orderBook me) !! uuid_String (oID o) = None ->
  (0 <= dval (oFilledQuantity o))%Q ->
  book_inv (heap (submit me o)) (orderBook (submit me o)).
Proof.
  intros Hinv Hkey Hfil. unfold submit.
  destruct (matchOrder_inv (enough_fuel (set_heap me (alloc_order (heap me) o).2))
    (set_heap me (alloc_order (heap me) o).2) (alloc_order (heap me) o).1) as (ts & me' & -> & Hinv').
  - by apply allocated_inv.
  - by apply alloc_submittable.
  - done.
  - done.
Qed.

Definition engine0 : MatchingEngine := NewMatchingEngine emptyStore "BTC-USD".
Definition engine1 : MatchingEngine := submit engine0 (limit "s1" "sell" 101 5).
Definition engine2 : MatchingEngine := submit engine1 (limit "s2" "sell" 101 5).
Definition engine3 : MatchingEngine := submit engine2 (limit "s3" "sell" 102 5).
Definition engine4 : MatchingEngine := submit engine3 (limit "b1" "buy" 99 4).

Lemma engine4_inv : book_inv (heap engine4) (orderBook engine4).
Proof.
  apply submit_inv; [|vm_compute; reflexivity|vm_compute; discriminate].
  apply submit_inv; [|vm_compute; reflexivity|vm_compute; discriminate].
  apply submit_inv; [|vm_compute; reflexivity|vm_compute; discriminate].
  apply submit_inv; [|vm_compute; reflexivity|vm_compute; discriminate].
  apply book_inv_new.
Qed.

(** A buyer of 12 units at 101, whom only ten units reach. *)
Definition taker_order : Order := limit "t1" "buy" 101 12.
Definition taker : oref := (alloc_order (heap engine4) taker_order).1.
Definition book4 : MatchingEngine := set_heap engine4 (alloc_order (heap engine4) taker_order).2.

Lemma book4_inv : book_inv (heap book4) (orderBook book4).
Proof. exact (allocated_inv engine4 taker_order engine4_inv). Qed.

Lemma taker_submittable : submittable book4 taker.
Proof.
  unfold book4, taker.
  apply alloc_submittable; [exact engine4_inv|vm_compute; reflexivity|vm_compute; discriminate].
Qed.
End Demo.

Section theorems.
Context `{DecimalSpec, UuidSpec, !EnvPkg, BTreeSpec}.
Implicit Types (me : MatchingEngine) (a : oref).
Local Open Scope Q_scope.

(** What the theorems below assume of the engine and the submitted order. *)
Lemma run_of fuel me a :
  book_inv (heap me) (orderBook me) -> submittable me a -> IsValid (order_at me a) = true ->
  (enough_fuel me <= fuel)%nat ->
  ready me a /\ exists ts me1 me', matchOrder fuel me a = Some (ts, me') /\
    matched me a (order_at me a) ts me1 me'.
Proof.
  intros Hinv Hsub Hval Hfuel.
  assert (valid_order (order_at me a)) as Hv by (by destruct (IsValid_spec (order_at me a))).
  assert (ready me a) as Hrd by (by apply ready_intro).
  split; [done|]. by apply matchOrder_run.
Qed.

(** C1: price-time priority.  On a well-formed book, [matchOrder] returns, and
    its trades, the opposing queue it leaves and the quantity it leaves unfilled
    are those of the specification [sweep]: the incoming quantity is allocated
    greedily to the opposing orders, best price first and first come first
    served within a price, while the price is acceptable. *)
Theorem matchOrder_refines_sweep fuel me a :
  book_inv (heap me) (orderBook me) -> submittable me a -> IsValid (order_at me a) = true ->
  (enough_fuel me <= fuel)%nat ->
  exists ts me', matchOrder fuel me a = Some (ts, me') /\
    let o := order_at me a in
    let '(fs, rest, want) := sweep (accepts o) (rem_val o) (quotes me (opposing o)) in
    Forall2 quote_eq fs (quote_of_trade (opposing o) <$> ts) /\
    Forall2 quote_eq rest (quotes me' (opposing o)) /\
    want == rem_val (order_at me' a).
Proof.
  intros Hinv Hsub Hval Hfuel.
  destruct (run_of fuel me a Hinv Hsub Hval Hfuel) as (Hrd & ts & me1 & me' & Hrun & Hm).
  exists ts, me'. split; [done|]. cbn zeta. set (o := order_at me a) in *.
  assert (forall x y, x == y -> accepts o x = accepts o y) as Hacc.
  { intros x y Hxy. unfold accepts. destruct (bool_decide _), (is_buy o); try done; by rewrite Hxy. }
  assert (is_buy o = negb (opposing o)) as Hb by (unfold opposing; by rewrite negb_involutive).
  pose proof (fills_sweep a (opposing o) (accepts o) Hacc me ts me1 (mt_fills _ _ _ _ _ _ Hm)
    (mt_stopped _ _ _ _ _ _ Hm) Hrd Hb (rem_val o) (quotes me (opposing o))) as Hsw.
  destruct (sweep _ _ _) as [[fs rest] want]. destruct Hsw as (Hfs & Hrest & Hw); [done|done|].
  split; [done|]. split.
  - pose proof (matched_queue _ _ _ _ _ Hrd Hm) as Hmq. fold o in Hmq. unfold quotes in *. rewrite Hmq.
    rewrite (list_fmap_ext _ (quote_of (heap me1)) (queue me1 (opposing o))); [done|].
    intros i e He%list_elem_of_lookup_2. unfold quote_of, erem.
    by rewrite (matched_erem _ _ _ _ _ _ _ Hrd Hm He).
  - rewrite Hw. unfold rem_val. rewrite (matched_order _ _ _ _ _ _ Hrd Hm).
    by rewrite closed_quantities, (st_Quantity _ _ (closed_market_terms me1 a)).
Qed.

(** C2: the book stays sound.  For every submittable order, valid or not,
    [matchOrder] returns and leaves a book that is well-formed (ordered trees,
    right volumes, exact location map), live (every resting order has something
    left and may be filled) and uncrossed (every bid is below every ask). *)
Theorem matchOrder_preserves_book fuel me a :
  book_inv (heap me) (orderBook me) -> submittable me a -> (enough_fuel me <= fuel)%nat ->
  exists ts me', matchOrder fuel me a = Some (ts, me') /\ book_inv (heap me') (orderBook me').
Proof. apply matchOrder_inv. Qed.


(** C4: no match is missed.  If the incoming order still wants something, no
    resting order of the opposing side has a price it accepts. *)
Theorem matchOrder_misses_nothing fuel me a :
  book_inv (heap me) (orderBook me) -> submittable me a -> IsValid (order_at me a) = true ->
  (enough_fuel me <= fuel)%nat ->
  exists ts me', matchOrder fuel me a = Some (ts, me') /\
    (0 < rem_val (order_at me' a) -> forall e, e ∈ queue me' (opposing (order_at me a)) ->
       ~ accepts_price (order_at me a) (oPrice (order_of (heap me') e))).
Proof.
  intros Hinv Hsub Hval Hfuel.
  destruct (run_of fuel me a Hinv Hsub Hval Hfuel) as (Hrd & ts & me1 & me' & Hrun & Hm).
  exists ts, me'. split; [done|]. intros Hpos e He. pose proof (mt_fills _ _ _ _ _ _ Hm) as Hf.
  rewrite (matched_queue _ _ _ _ _ Hrd Hm) in He.
  rewrite (matched_erem _ _ _ _ _ _ _ Hrd Hm He).
  destruct (mt_stopped _ _ _ _ _ _ Hm) as [Hz|[Hn|(e0 & l & Hq & Hne)]].
  - unfold rem_val in Hz, Hpos. rewrite (matched_order _ _ _ _ _ _ Hrd Hm), closed_quantities in Hpos.
    rewrite (st_Quantity _ _ (closed_market_terms me1 a)) in Hpos. lra.
  - rewrite Hn in He. set_solver.
  - apply (not_accepted_behind (heap me1) (orderBook me1) _ e0 l e); try done.
    apply (rd_wf _ _ (fills_ready _ _ _ _ _ _ Hf Hrd)).
Qed.

(** C5: the trades.  Trade number [k] is with the order that stood at place [k]
    of the opposing queue, at that order's own price; every trade has a
    positive quantity and a price the incoming order accepts. *)
Theorem matchOrder_trades_in_order fuel me a :
  book_inv (heap me) (orderBook me) -> submittable me a -> IsValid (order_at me a) = true ->
  (enough_fuel me <= fuel)%nat ->
  exists ts me', matchOrder fuel me a = Some (ts, me') /\
    let b := opposing (order_at me a) in
    Forall2 (made_by b me) ts (take (length ts) (queue me b)) /\
    Forall (fun t => 0 < dval (tQuantity t) /\ accepts_price (order_at me a) (tPrice t)) ts.
Proof.
  intros Hinv Hsub Hval Hfuel.
  destruct (run_of fuel me a Hinv Hsub Hval Hfuel) as (Hrd & ts & me1 & me' & Hrun & Hm).
  exists ts, me'. split; [done|]. pose proof (mt_fills _ _ _ _ _ _ Hm) as Hf. split.
  - apply (fills_makers _ _ _ _ _ _ Hf Hrd). unfold opposing. by rewrite negb_involutive.
  - by eapply fills_trades.
Qed.

(** Everything else is left alone.  Every order keeps its identity and
    terms; an order that is neither the incoming one nor in the opposing queue
    is unchanged; the incoming order's own side is unchanged unless the order
    rests, and then it stands behind every order at its price or better and
    before every worse one. *)
Theorem matchOrder_frame fuel me a :
  book_inv (heap me) (orderBook me) -> submittable me a -> IsValid (order_at me a) = true ->
  (enough_fuel me <= fuel)%nat ->
  exists ts me', matchOrder fuel me a = Some (ts, me') /\
    let o := order_at me a in
    (forall r, same_terms (order_at me r) (order_at me' r)) /\
    (forall r, r <> a -> r ∉ elem_Value <$> queue me (opposing o) -> order_at me' r = order_at me r) /\
    (queue me' (is_buy o) = queue me (is_buy o) \/
     exists l1 l2 e, queue me (is_buy o) = l1 ++ l2 /\ queue me' (is_buy o) = l1 ++ e :: l2 /\
       elem_Value e = a /\
       (forall e', e' ∈ l1 -> ~ better (is_buy o) (oPrice o) (oPrice (order_of (heap me) e'))) /\
       (forall e', e' ∈ l2 -> better (is_buy o) (oPrice o) (oPrice (order_of (heap me) e')))).
Proof.
  intros Hinv Hsub Hval Hfuel.
  destruct (run_of fuel me a Hinv Hsub Hval Hfuel) as (Hrd & ts & me1 & me' & Hrun & Hm).
  exists ts, me'. split; [done|]. pose proof (mt_fills _ _ _ _ _ _ Hm) as Hf. split; [|split].
  - intros r. rewrite (matched_order _ _ _ _ _ _ Hrd Hm). transitivity (order_at me1 r); [by eapply fills_terms|].
    destruct (decide (r = a)) as [->|Hr]; [apply closed_market_terms|by rewrite closed_other].
  - intros r Hr Hq. rewrite (matched_order _ _ _ _ _ _ Hrd Hm), closed_other by done.
    by apply (fills_untouched _ _ _ _ _ _ _ Hf Hrd).
  - pose proof (matched_own_side _ _ _ _ _ Hrd Hm) as Hown. cbn zeta in Hown.
    destruct (rests _); [by right|by left].
Qed.







(** An invalid order is rejected and changes nothing else: no trade, no
    notification, the same book. *)
Theorem matchOrder_rejects_invalid fuel me a :
  IsValid (order_at me a) = false ->
  exists me', matchOrder fuel me a = Some ([], me') /\
    order_at me' a = set_oStatus (order_at me a) OrderStatusRejected /\
    (forall r, r <> a -> order_at me' r = order_at me r) /\
    orderBook me' = orderBook me /\ levels (heap me') = levels (heap me) /\ output me' = output me.
Proof.
  intros Hval. unfold matchOrder. rewrite Hval. cbn [negb]. eexists. split; [reflexivity|].
  unfold order_at. cbn [heap assign_order set_heap]. split_and!; try done.
  - by rewrite get_order_set, decide_True.
  - intros r Hr. by rewrite get_order_set, decide_False.
Qed.

(** An order the location map has lost hangs the engine.  When the best
    opposing level holds only an exhausted order whose identifier is not in the
    location map (a second order with the same identifier was removed in its
    place), the market loop never returns, whatever the fuel. *)
Theorem ghost_order_hangs_market_loop me a lp e :
  ghost_level me a lp e -> forall fuel ts, matchMarketOrder fuel me a ts = None.
Proof.
  intros Hg fuel. revert me Hg. induction fuel as [|fuel IH]; intros me Hg ts; cbn [matchMarketOrder].
  - destruct (remaining_pos_spec (order_at me a)) as [|Hn]; [|destruct Hn; apply (gl_want _ _ _ _ Hg)].
    by rewrite (gl_best _ _ _ _ Hg).
  - destruct (remaining_pos_spec (order_at me a)) as [|Hn]; [|destruct Hn; apply (gl_want _ _ _ _ Hg)].
    rewrite (gl_best _ _ _ _ Hg). destruct fuel as [|fuel].
    + unfold matchAgainstPriceLevel. rewrite (gl_queue _ _ _ _ Hg). cbn [head level_loop].
      by destruct (remaining_pos_spec (order_at me a)) as [|Hn].
    + destruct (ghost_round fuel me a lp e Hg) as (t & me' & -> & _ & Hg' & _).
      cbn [mbind option_bind].
      assert (IsFilled (order_at me' a) = false) as ->.
      { apply not_true_iff_false. rewrite IsFilled_rem. pose proof (gl_want _ _ _ _ Hg'). lra. }
      by apply IH.
Qed.
End theorems.

(** ** Instances on the demonstration book *)

Module Instances.
Import Concrete Demo.
Local Open Scope Q_scope.

(** The taker buys all ten units at 101 and rests with two. *)
Example demo_outcome :
  option_map (fun '(ts, me') =>
      (map (fun t : Trade => (SellOrderID t : string, tPrice t : Q, tQuantity t : Q)) ts,
       Qred (rem_val (order_at me' taker)), oStatus (order_at me' taker)))
    (matchOrder 10 book4 taker) =
  Some ([("s1", 101 # 1, 5 # 1); ("s2", 101 # 1, 5 # 1)], 2 # 1, "partially_filled").
Proof. vm_compute. reflexivity. Qed.

Lemma matchOrder_refines_sweep_witness :
  exists ts me', matchOrder 10 book4 taker = Some (ts, me') /\
    let o := order_at book4 taker in
    let '(fs, rest, want) := sweep (accepts o) (rem_val o) (quotes book4 (opposing o)) in
    Forall2 quote_eq fs (quote_of_trade (opposing o) <$> ts) /\
    Forall2 quote_eq rest (quotes me' (opposing o)) /\
    want == rem_val (order_at me' taker).
Proof.
  apply (matchOrder_refines_sweep 10 book4 taker book4_inv taker_submittable);
    [vm_compute; reflexivity|vm_compute; lia].
Defined.

Lemma matchOrder_preserves_book_witness :
  exists ts me', matchOrder 10 book4 taker = Some (ts, me') /\ book_inv (heap me') (orderBook me').
Proof.
  apply (matchOrder_preserves_book 10 book4 taker book4_inv taker_submittable). vm_compute. lia.
Defined.


Lemma matchOrder_misses_nothing_witness :
  exists ts me', matchOrder 10 book4 taker = Some (ts, me') /\
    (0 < rem_val (order_at me' taker) -> forall e, e ∈ queue me' (opposing (order_at book4 taker)) ->
       ~ accepts_price (order_at book4 taker) (oPrice (order_of (heap me') e))).
Proof.
  apply (matchOrder_misses_nothing 10 book4 taker book4_inv taker_submittable);
    [vm_compute; reflexivity|vm_compute; lia].
Defined.

Lemma matchOrder_trades_in_order_witness :
  exists ts me', matchOrder 10 book4 taker = Some (ts, me') /\
    let b := opposing (order_at book4 taker) in
    Forall2 (made_by b book4) ts (take (length ts) (queue book4 b)) /\
    Forall (fun t => 0 < dval (tQuantity t) /\ accepts_price (order_at book4 taker) (tPrice t)) ts.
Proof.
  apply (matchOrder_trades_in_order 10 book4 taker book4_inv taker_submittable);
    [vm_compute; reflexivity|vm_compute; lia].
Defined.

Lemma matchOrder_frame_witness :
  exists ts me', matchOrder 10 book4 taker = Some (ts, me') /\
    let o := order_at book4 taker in
    (forall r, same_terms (order_at book4 r) (order_at me' r)) /\
    (forall r, r <> taker -> r ∉ elem_Value <$> queue book4 (opposing o) ->
       order_at me' r = order_at book4 r) /\
    (queue me' (is_buy o) = queue book4 (is_buy o) \/
     exists l1 l2 e, queue book4 (is_buy o) = l1 ++ l2 /\ queue me' (is_buy o) = l1 ++ e :: l2 /\
       elem_Value e = taker /\
       (forall e', e' ∈ l1 -> ~ better (is_buy o) (oPrice o) (oPrice (order_of (heap book4) e'))) /\
       (forall e', e' ∈ l2 -> better (is_buy o) (oPrice o) (oPrice (order_of (heap book4) e')))).
Proof.
  apply (matchOrder_frame 10 book4 taker book4_inv taker_submittable);
    [vm_compute; reflexivity|vm_compute; lia].
Defined.


(** An order of quantity zero. *)
Definition zero_order : Order := limit "z" "buy" 101 0.
Definition book_zero : MatchingEngine := set_heap engine4 (alloc_order (heap engine4) zero_order).2.

Lemma matchOrder_rejects_invalid_witness :
  exists me', matchOrder 10 book_zero taker = Some ([], me') /\
    order_at me' taker = set_oStatus (order_at book_zero taker) OrderStatusRejected /\
    (forall r, r <> taker -> order_at me' r = order_at book_zero r) /\
    orderBook me' = orderBook book_zero /\ levels (heap me') = levels (heap book_zero) /\
    output me' = output book_zero.
Proof. apply (matchOrder_rejects_invalid 10 book_zero taker). vm_compute. reflexivity. Defined.

(** *** A second order with the identifier of a resting one

    [s1] rests with 5 units; a copy of it is added to the live book (as the
    recovery of open orders does), and a market order for 12 units arrives.
    The first round fills the original, but updates and removes the copy. *)

Definition copy_added : Store * OrderBook :=
  let '(r, s) := alloc_order (heap engine1) (limit "s1" "sell" 101 5) in
  let '(_, s1, ob1) := AddLimitOrder s (orderBook engine1) r in (s1, ob1).
Definition with_copy : MatchingEngine := set_book engine1 copy_added.1 copy_added.2.
Definition hungry : oref := (alloc_order (heap with_copy) (market "m1" "buy" 12)).1.
Definition arrival : MatchingEngine := set_heap with_copy (alloc_order (heap with_copy) (market "m1" "buy" 12)).2.

Definition ask_level : LevelPtr := default (mkLevelPtr (0 : Q) 0%nat) (best_opposing arrival hungry).
Definition first_round : MatchingEngine :=
  match matchAgainstPriceLevel 5 arrival hungry (lpRef ask_level) with
  | Some (_, me) => me
  | None => arrival
  end.
Definition lost : Element :=
  default (mkElement 0%nat 0%nat) (head (plOrders (get_level (heap first_round) (lpRef ask_level)))).

Lemma ghost_order_hangs_market_loop_witness :
  ghost_level first_round hungry ask_level lost /\
  forall fuel ts, matchMarketOrder fuel first_round hungry ts = None.
Proof.
  assert (ghost_level first_round hungry ask_level lost) as Hg.
  { constructor; [vm_compute; reflexivity..|vm_compute; discriminate|vm_compute; reflexivity]. }
  split; [exact Hg|]. apply (ghost_order_hangs_market_loop first_round hungry ask_level lost Hg).
Defined.
End Instances.
