(* ===== verification/OrderBookTheorems.v ===== *)
(** * Theorems about the order book

    Cancellation, popping a level, the aggregate views (best prices, depth,
    top levels, sizes) against the flattened queue [prio], and the round trip
    of adding and cancelling an order. *)

From S2P Require Import Prelude.
From S2P Require Import External.
From S2P Require Import Models.
From S2P Require Import OrderBook.
From S2P Require Import OrderBookFacts.
From S2P Require Import Events.
From S2P Require Import Matching.
From S2P Require Import MatchingFacts.
From S2P Require Import MatchingLoops.
From S2P Require Import MatchingSpec.
From S2P Require Import MatchingProps.
From S2P Require Import MatchingTheorems.

Section facts.
Context `{DecimalSpec, UuidSpec, !EnvPkg, BTreeSpec}.
Implicit Types (s : Store) (ob : OrderBook) (lp : LevelPtr) (e : Element) (b : bool).

(** ** Iterators *)

(** An iterator that always continues is a fold. *)
Lemma iterate_fold {St} (f : LevelPtr -> St -> St) (l : list LevelPtr) (st : St) :
  iterate (fun x st => (f x st, true)) l st = foldl (fun st x => f x st) st l.
Proof. revert st. induction l as [|x l IH]; intros st; cbn; [done|apply IH]. Qed.

Lemma Qsum_bind {A B} (f : B -> Q) (g : A -> list B) (l : list A) :
  (Qsum (f <$> (l ≫= g)) == Qsum ((fun x => Qsum (f <$> g x)) <$> l))%Q.
Proof.
  induction l as [|x l IH]; [reflexivity|].
  rewrite bind_cons, fmap_app, Qsum_app, IH. reflexivity.
Qed.

Lemma foldl_volume s (l : list LevelPtr) v :
  (dval (foldl (fun v x => decimal_Add v (plVolume (get_level s (lpRef x)))) v l) ==
   dval v + Qsum ((fun x => dval (plVolume (get_level s (lpRef x)))) <$> l))%Q.
Proof.
  revert v. induction l as [|x l IH]; intros v; cbn [foldl]; [unfold Qsum; cbn; lra|].
  rewrite IH, dval_Add, fmap_cons.
  change (Qsum (?q :: ?r)) with (q + Qsum r)%Q. lra.
Qed.

Lemma side_levels_perm ob b : btree_Ascend (get_side ob b) ≡ₚ best_levels ob b.
Proof. rewrite best_levels_side. destruct b; [by rewrite reverse_Permutation|done]. Qed.

Lemma side_depth s ob b :
  book_wf s ob ->
  (Qsum ((fun x => dval (plVolume (get_level s (lpRef x)))) <$> btree_Ascend (get_side ob b)) ==
   Qsum (erem s <$> prio s ob b))%Q.
Proof.
  intros Hwf. rewrite side_levels_perm. unfold prio. rewrite Qsum_bind. apply Qsum_ext.
  intros lp Hlp. apply (lw_volume _ _ _ (bw_level _ _ _ _ Hwf Hlp)).
Qed.

(** The collecting iterator of [GetTopLevels] takes a prefix. *)
Lemma iterate_collect (n : Z) (l : list LevelPtr) (acc : list lref) (count : Z) :
  (0 <= count <= n)%Z ->
  (iterate (fun item (st : list lref * Z) =>
      let '(acc, count) := st in
      if (n <=? count)%Z then (st, false) else ((acc ++ [lpRef item], (count + 1)%Z), true))
    l (acc, count)).1 = acc ++ take (Z.to_nat (n - count)) (lpRef <$> l).
Proof.
  revert acc count. induction l as [|x l IH]; intros acc count Hc; cbn [iterate fmap list_fmap].
  - by rewrite take_nil, app_nil_r.
  - destruct (Z.leb_spec n count) as [Hle|Hlt].
    + replace (Z.to_nat (n - count)) with 0 by lia. by rewrite app_nil_r.
    + rewrite IH by lia. replace (Z.to_nat (n - count)) with (S (Z.to_nat (n - (count + 1)))) by lia.
      cbn [take]. by rewrite <- app_assoc.
Qed.

Lemma GetTopLevels_take ob n :
  make_cap_ok n = true ->
  GetTopLevels ob n = Some (take (Z.to_nat n) (lpRef <$> best_levels ob true),
                            take (Z.to_nat n) (lpRef <$> best_levels ob false)).
Proof.
  intros Hn. unfold GetTopLevels. rewrite Hn.
  assert (0 <= n)%Z as Hpos by (unfold make_cap_ok in Hn; lia). cbn zeta.
  unfold Ascend, Descend. rewrite !(iterate_collect n) by lia. rewrite !Z.sub_0_r, btree_Descend_spec. done.
Qed.

Lemma foldl_count s (l : list LevelPtr) n :
  foldl (fun count i => count + length (plOrders (get_level s (lpRef i)))) n l =
  n + length (l ≫= elems_of s).
Proof.
  revert n. induction l as [|x l IH]; intros n; cbn [foldl]; [cbn; lia|].
  rewrite IH, bind_cons, length_app. unfold elems_of at 2. lia.
Qed.

(** ** The size of the map *)

Lemma map_to_keys s ob : book_wf s ob -> dom (obOrders ob) = list_to_set (ekey s <$> all_elems s ob).
Proof.
  intros Hwf. apply set_eq. intros k. rewrite elem_of_dom, elem_of_list_to_set, list_elem_of_fmap. split.
  - intros [loc Hloc]. destruct (bw_loc _ _ _ _ Hwf Hloc) as (lp & _ & _ & _ & Hk & He). eauto.
  - intros (e & -> & He). destruct (bw_map_elem _ _ _ Hwf He) as (lp & _ & _ & ->). eauto.
Qed.

Lemma size_all_elems s ob : book_wf s ob -> Size ob = length (all_elems s ob).
Proof.
  intros Hwf. unfold Size. rewrite <- size_dom, (map_to_keys s) by done.
  rewrite size_list_to_set by apply (bw_keys _ _ Hwf). by rewrite length_fmap.
Qed.

(** ** Cancellation *)

Lemma CancelOrder_found s ob id loc :
  book_wf s ob -> obOrders ob !! uuid_String id = Some loc ->
  exists s1 ob1, CancelOrder s ob id =
      (Some (elem_Value (locElement loc)),
       set_order s1 (elem_Value (locElement loc))
         (set_oStatus (get_order s (elem_Value (locElement loc))) OrderStatusCancelled), ob1) /\
    removed s ob (locElement loc) s1 ob1.
Proof.
  intros Hwf Hloc. unfold CancelOrder. rewrite Hloc.
  destruct (remove_at_spec _ _ _ _ Hwf Hloc) as (s1 & ob1 & -> & Hrm).
  exists s1, ob1. split; [|done].
  assert (get_order s1 (elem_Value (locElement loc)) = get_order s (elem_Value (locElement loc))) as ->
    by (unfold get_order; by rewrite (rm_orders _ _ _ _ _ Hrm)). done.
Qed.

Lemma removed_elems s ob e s' ob' : removed s ob e s' ob' ->
  all_elems s' ob' = filter (fun e' => e' <> e) (all_elems s ob).
Proof. intros Hrm. unfold all_elems. by rewrite !(rm_prio _ _ _ _ _ Hrm), filter_app. Qed.

Lemma removed_new s ob e s' ob' : book_wf s ob -> e ∈ all_elems s ob -> removed s ob e s' ob' ->
  elem_Value e ∉ elem_Value <$> all_elems s' ob'.
Proof.
  intros Hwf He Hrm. rewrite (removed_elems _ _ _ _ _ Hrm). intros (e' & Hv & He')%list_elem_of_fmap.
  apply list_elem_of_filter in He' as [Hne He']. destruct Hne. symmetry. by eapply bw_value_unique.
Qed.

Lemma removed_inv s ob e s' ob' : book_inv s ob -> removed s ob e s' ob' -> book_inv s' ob'.
Proof.
  intros [Hwf Hlive Hunc] Hrm.
  assert (forall e', order_of s' e' = order_of s e') as Hof
    by (intros; unfold order_of, get_order; by rewrite (rm_orders _ _ _ _ _ Hrm)).
  split; [apply Hrm|..].
  - intros e'. rewrite (removed_elems _ _ _ _ _ Hrm), list_elem_of_filter. intros [_ He'].
    rewrite Hof. by apply Hlive.
  - intros x y. rewrite !(rm_prio _ _ _ _ _ Hrm), !list_elem_of_filter. intros [_ Hx] [_ Hy].
    rewrite !Hof. by apply Hunc.
Qed.

Lemma CancelOrder_inv s ob id :
  book_inv s ob -> let '(_, s', ob') := CancelOrder s ob id in book_inv s' ob'.
Proof.
  intros Hinv. destruct (obOrders ob !! uuid_String id) as [loc|] eqn:Hloc.
  - destruct (bw_loc _ _ _ _ (bi_wf _ _ Hinv) Hloc) as (lp & _ & _ & _ & _ & He).
    destruct (CancelOrder_found s ob id loc (bi_wf _ _ Hinv) Hloc) as (s1 & ob1 & -> & Hrm).
    apply book_inv_set_other; [by eapply removed_inv|]. eapply removed_new; [apply Hinv|done..].
  - unfold CancelOrder. by rewrite Hloc.
Qed.

(** ** Popping the best level *)

Lemma foldl_delete_lookup {V} s (l : list Element) (m : gmap string V) k v :
  foldl (fun m e => delete (uuid_String (oID (get_order s (elem_Value e)))) m) m l !! k = Some v <->
  m !! k = Some v /\ k ∉ ekey s <$> l.
Proof.
  revert m. induction l as [|e l IH]; intros m; cbn [foldl].
  - rewrite fmap_nil. set_solver.
  - rewrite IH, lookup_delete_Some, fmap_cons, not_elem_of_cons.
    change (uuid_String (oID (get_order s (elem_Value e)))) with (ekey s e).
    split; intros; intuition congruence.
Qed.

Section pop.
Context (s : Store) (ob : OrderBook) (b : bool) (lp0 : LevelPtr).
Hypothesis Hwf : book_wf s ob.
Hypothesis Hlp0 : lp0 ∈ best_levels ob b.
Let keep (lp : LevelPtr) : Prop := lpRef lp <> lpRef lp0.
Let ob' := set_side ob b (RemovePriceLevel (get_side ob b) (plPrice (get_level s (lpRef lp0)))).

Lemma pop_all : lp0 ∈ all_levels ob.
Proof. apply elem_of_all_levels. eauto. Qed.

Lemma pop_ascend b' : btree_Ascend (get_side ob' b') = filter keep (btree_Ascend (get_side ob b')).
Proof.
  pose proof pop_all as Hall0.
  assert (forall lp, lp ∈ btree_Ascend (get_side ob b') -> lp ∈ all_levels ob) as Hall.
  { intros lp Hlp. apply elem_of_all_levels. exists b'. by apply elem_of_best_levels. }
  unfold ob'. rewrite get_side_set_side. case_decide as Hb.
  - subst b'. unfold RemovePriceLevel. rewrite btree_Ascend_Delete by eauto using Less_strict_weak, bw_sorted, bw_core.
    rewrite (lw_price _ _ _ (bw_level _ _ _ _ Hwf Hlp0)).
    apply filter_ext_in. intros lp Hlp. rewrite same_item_price. unfold keep. split.
    + intros Hp Hr. assert (lp = lp0) as -> by (by eapply bw_level_unique; eauto). by apply Hp.
    + intros Hr Hp. destruct Hr. f_equal. symmetry.
      apply (sorted_same_unique Less Less_strict_weak lp0 lp _ (bw_sorted _ _ Hwf b)); [|done|].
      * by apply elem_of_best_levels.
      * by apply same_item_price.
  - symmetry. apply filter_all. intros lp Hlp Hr. destruct Hb.
    assert (lp = lp0) as -> by (by eapply bw_level_unique; eauto).
    eapply bw_side_unique; [done|done|by apply elem_of_best_levels].
Qed.

Lemma pop_best b' : best_levels ob' b' = filter keep (best_levels ob b').
Proof. rewrite !best_levels_side, !pop_ascend. destruct b'; [by rewrite filter_reverse|done]. Qed.

Lemma pop_levels : all_levels ob' = filter keep (all_levels ob).
Proof. unfold all_levels. by rewrite !pop_best, filter_app. Qed.

Lemma pop_prio b' : prio s ob' b' = filter (fun e => e ∉ elems_of s lp0) (prio s ob b').
Proof.
  unfold prio. rewrite pop_best, filter_bind. pose proof pop_all as Hall0.
  assert (forall lp, lp ∈ best_levels ob b' -> lp ∈ all_levels ob) as Hall
    by (intros; apply elem_of_all_levels; eauto).
  assert (forall lp, lp ∈ best_levels ob b' ->
    filter (fun e => e ∉ elems_of s lp0) (elems_of s lp) = if decide (keep lp) then elems_of s lp else []) as Hel.
  { intros lp Hlp. case_decide as Hk.
    - apply filter_all. intros e He He0. destruct Hk. f_equal. eapply bw_elem_owner; eauto.
    - assert (lp = lp0) as -> by (eapply bw_level_unique; eauto; by apply dec_stable).
      destruct (filter _ _) as [|e l] eqn:Hf; [done|].
      assert (e ∈ filter (fun e => e ∉ elems_of s lp0) (elems_of s lp0)) as [? ?]%list_elem_of_filter
        by (rewrite Hf; set_solver). done. }
  rewrite (bind_ext_in _ _ _ Hel). clear Hel Hall.
  induction (best_levels ob b') as [|lp l IH]; [done|]. rewrite filter_cons.
  rewrite (bind_cons (fun x => if decide (keep x) then _ else _)). case_decide; cbn; by rewrite IH.
Qed.

Lemma pop_elems : all_elems s ob' = filter (fun e => e ∉ elems_of s lp0) (all_elems s ob).
Proof. unfold all_elems. by rewrite !pop_prio, filter_app. Qed.

Lemma pop_wf m :
  (forall k loc, m !! k = Some loc <-> obOrders ob !! k = Some loc /\ k ∉ ekey s <$> elems_of s lp0) ->
  book_wf s (set_obOrders ob' m).
Proof.
  intros Hm. split; [split|].
  - intros b'. change (get_side (set_obOrders ob' m) b') with (get_side ob' b').
    rewrite pop_ascend. apply StronglySorted_filter, (bw_sorted _ _ Hwf).
  - change (all_levels (set_obOrders ob' m)) with (all_levels ob'). rewrite pop_levels.
    apply NoDup_filter_fmap, (bw_refs _ _ Hwf).
  - intros b' lp. change (best_levels (set_obOrders ob' m) b') with (best_levels ob' b').
    rewrite pop_best, list_elem_of_filter. intros [_ Hlp]. by apply (bw_level_ok _ _ Hwf).
  - change (all_elems s (set_obOrders ob' m)) with (all_elems s ob'). rewrite pop_elems.
    apply NoDup_filter_fmap, (bw_keys _ _ Hwf).
  - change (all_elems s (set_obOrders ob' m)) with (all_elems s ob'). rewrite pop_elems.
    apply NoDup_filter_fmap, (bw_ids _ _ Hwf).
  - intros k loc. change (all_levels (set_obOrders ob' m)) with (all_levels ob').
    cbn [obOrders set_obOrders]. rewrite Hm, (bw_map _ _ Hwf). rewrite pop_levels. split.
    + intros [(lp & Hlp & Href & He & Hk) Hne]. exists lp. split; [|done].
      apply list_elem_of_filter. split; [|done]. intros Hr.
      assert (lp = lp0) as -> by (by eapply bw_level_unique; eauto using pop_all).
      apply Hne. rewrite <- Hk. by apply list_elem_of_fmap_2.
    + intros (lp & [Hkeep Hlp]%list_elem_of_filter & Href & He & Hk). split; [by exists lp|].
      intros (e & Hke & He0)%list_elem_of_fmap.
      assert (locElement loc = e) as Heq.
      { apply (bw_key_unique s ob); eauto using all_elems_level, pop_all. congruence. }
      destruct Hkeep. f_equal. eapply bw_elem_owner; eauto using pop_all. by rewrite Heq.
  - intros lp. change (all_levels (set_obOrders ob' m)) with (all_levels ob').
    rewrite pop_levels, list_elem_of_filter. intros [_ Hlp]. by apply (bw_fresh_level _ _ Hwf).
  - intros e. change (all_elems s (set_obOrders ob' m)) with (all_elems s ob').
    rewrite pop_elems, list_elem_of_filter. intros [_ He]. by apply (bw_fresh_elem _ _ Hwf).
  - intros b' lp. change (best_levels (set_obOrders ob' m) b') with (best_levels ob' b').
    rewrite pop_best, list_elem_of_filter. intros [_ Hlp]. by eapply bw_nonempty.
Qed.
End pop.

(** ** The best level *)

Lemma best_level_extreme s ob : book_wf s ob -> forall b lp m, best_levels ob b = lp :: m ->
  (forall e, e ∈ prio s ob b -> ~ better b (oPrice (order_of s e)) (plPrice (get_level s (lpRef lp)))) /\
  (exists e, e ∈ prio s ob b /\ oPrice (order_of s e) ≐ plPrice (get_level s (lpRef lp))).
Proof.
  intros Hwf b lp m Hm. assert (lp ∈ best_levels ob b) as Hlp by (rewrite Hm; set_solver).
  pose proof (bw_level _ _ _ _ Hwf Hlp) as Hlw. rewrite (lw_price _ _ _ Hlw).
  destruct (elems_of s lp) as [|e0 l] eqn:Hel; [by destruct (lw_nonempty _ _ _ Hlw)|].
  assert (e0 ∈ elems_of s lp) as He0 by (rewrite Hel; set_solver).
  assert (prio s ob b = e0 :: (l ++ (m ≫= elems_of s))) as Hq
    by (unfold prio; by rewrite Hm, bind_cons, Hel).
  pose proof (lw_oprice _ _ _ Hlw e0 He0) as Hp0. split.
  - intros e He. pose proof (prio_sorted s ob b Hwf) as Hs. rewrite Hq in Hs, He.
    apply StronglySorted_inv in Hs as [_ Hs]. rewrite Forall_forall in Hs.
    apply elem_of_cons in He as [->|He]; [|specialize (Hs e He)]; unfold better, deq in *; destruct b; lra.
  - exists e0. rewrite Hq. split; [set_solver|done].
Qed.
End facts.

Section theorems.
Context `{DecimalSpec, UuidSpec, !EnvPkg, BTreeSpec}.
Implicit Types (s : Store) (ob : OrderBook) (lp : LevelPtr) (e : Element) (b : bool).

(** C7: adding an order.  [AddOrder] keeps the book well-formed and puts the
    order behind every order of its side at its price or better and before
    every worse one; the other side and every order are unchanged, and the
    order is found under its identifier. *)
Theorem AddOrder_price_time s ob r :
  book_wf s ob -> r < next s -> obOrders ob !! uuid_String (oID (get_order s r)) = None ->
  exists s' ob' l1 l2 e, AddOrder s ob r = (s', ob') /\
    let b := is_buy (get_order s r) in
    let p := oPrice (get_order s r) in
    book_wf s' ob' /\ orders s' = orders s /\ elem_Value e = r /\
    prio s ob b = l1 ++ l2 /\ prio s' ob' b = l1 ++ e :: l2 /\
    prio s' ob' (negb b) = prio s ob (negb b) /\
    (forall e', e' ∈ l1 -> ~ better b p (oPrice (order_of s e'))) /\
    (forall e', e' ∈ l2 -> better b p (oPrice (order_of s e'))) /\
    GetOrder ob' (uuid_String (oID (get_order s r))) = Some r.
Proof.
  intros Hwf Hr Hkey. destruct (AddOrder_spec s ob r Hwf Hr Hkey) as (s' & ob' & l1 & l2 & e & Heq & Hadd).
  exists s', ob', l1, l2, e. split; [done|]. cbn zeta.
  pose proof Hadd as [Hwf' Hv Hold Hprio Hother Hbefore Hafter [lr Hmap] _ Hord _ _ _].
  split_and!; try done.
  - apply Hother. by destruct (is_buy _).
  - unfold GetOrder. rewrite Hmap, lookup_insert_eq. cbn. by rewrite Hv.
Qed.

(** C8: cancelling an order.  [CancelOrder] finds an order exactly when it
    rests in the book; it then takes that order and nothing else off its queue,
    marks it cancelled, leaves every other order alone and keeps the book
    well-formed; otherwise it changes nothing. *)
Theorem CancelOrder_exact s ob id :
  book_wf s ob ->
  match CancelOrder s ob id with
  | (None, s', ob') =>
      s' = s /\ ob' = ob /\ forall e, e ∈ all_elems s ob -> oID (order_of s e) <> id
  | (Some r, s', ob') =>
      book_wf s' ob' /\ GetOrder ob (uuid_String id) = Some r /\ oID (get_order s r) = id /\
      GetOrder ob' (uuid_String id) = None /\
      get_order s' r = set_oStatus (get_order s r) OrderStatusCancelled /\
      (forall r', r' <> r -> get_order s' r' = get_order s r') /\
      (forall b, prio s' ob' b = filter (fun e => elem_Value e <> r) (prio s ob b))
  end.
Proof.
  intros Hwf. destruct (obOrders ob !! uuid_String id) as [loc|] eqn:Hloc.
  - destruct (bw_loc _ _ _ _ Hwf Hloc) as (lp & Hlp & _ & _ & Hk & He).
    destruct (CancelOrder_found s ob id loc Hwf Hloc) as (s1 & ob1 & -> & Hrm).
    assert (elem_Value (locElement loc) ∉ elem_Value <$> all_elems s1 ob1) as Hnew by (by eapply removed_new).
    split; [apply book_wf_set_other; [apply Hrm|done]|].
    split; [unfold GetOrder; by rewrite Hloc|].
    split; [by apply (inj uuid_String)|].
    split; [unfold GetOrder; by rewrite (rm_map _ _ _ _ _ Hrm), Hk, lookup_delete_eq|].
    split; [by rewrite get_order_set, decide_True|]. split.
    + intros r' Hr'. rewrite get_order_set, decide_False by done. unfold get_order. by rewrite (rm_orders _ _ _ _ _ Hrm).
    + intros b. change (prio s1 ob1 b = filter (fun e => elem_Value e <> elem_Value (locElement loc)) (prio s ob b)).
      rewrite (rm_prio _ _ _ _ _ Hrm). apply filter_ext_in. intros e He'.
      split; [|congruence]. intros Hne Hv. destruct Hne. eapply bw_value_unique; [done| |done|done].
      apply elem_of_all_elems. eauto.
  - unfold CancelOrder. rewrite Hloc. split_and!; [done..|]. intros e He Hid.
    destruct (bw_map_elem _ _ _ Hwf He) as (lp & _ & _ & Hm). unfold ekey in Hm. rewrite Hid in Hm. congruence.
Qed.

(** Adding an order and cancelling it is the identity on the queues and
    on the location map. *)
Theorem CancelOrder_AddOrder s ob r :
  book_wf s ob -> r < next s -> obOrders ob !! uuid_String (oID (get_order s r)) = None ->
  let '(s1, ob1) := AddOrder s ob r in
  let '(found, s2, ob2) := CancelOrder s1 ob1 (oID (get_order s r)) in
  found = Some r /\ (forall b, prio s2 ob2 b = prio s ob b) /\ obOrders ob2 = obOrders ob.
Proof.
  intros Hwf Hr Hkey. destruct (AddOrder_spec s ob r Hwf Hr Hkey) as (s1 & ob1 & l1 & l2 & e & -> & Hadd).
  pose proof Hadd as [Hwf1 Hv Hold Hprio Hother _ _ [lr Hmap] _ Hord _ _ _].
  assert (obOrders ob1 !! uuid_String (oID (get_order s r)) = Some (mkOrderLocation lr e)) as Hloc
    by (by rewrite Hmap, lookup_insert_eq).
  destruct (CancelOrder_found s1 ob1 _ _ Hwf1 Hloc) as (s2 & ob2 & -> & Hrm). cbn [locElement].
  split; [by rewrite Hv|].
  assert (e ∉ all_elems s ob) as Hne.
  { intros He. pose proof (bw_map_elem _ _ _ Hwf He) as (lp & _ & _ & Hm).
    unfold ekey, order_of in Hm. rewrite Hv in Hm. congruence. }
  split.
  - intros b. change (prio s2 ob2 b = prio s ob b). rewrite (rm_prio _ _ _ _ _ Hrm). cbn [locElement].
    assert (forall e', e' ∈ prio s ob b -> e' <> e) as Hall.
    { intros e' He' ->. apply Hne, elem_of_all_elems. eauto. }
    destruct (decide (is_buy (get_order s r) = b)) as [<-|Hb].
    + rewrite Hprio, Hold, filter_app, filter_cons_False by tauto. rewrite <- filter_app, <- Hold.
      by apply filter_all.
    + rewrite Hother by done. by apply filter_all.
  - rewrite (rm_map _ _ _ _ _ Hrm). cbn [locElement].
    assert (ekey s1 e = uuid_String (oID (get_order s r))) as ->.
    { unfold ekey, order_of. rewrite Hv. unfold get_order. by rewrite Hord. }
    by rewrite Hmap, delete_insert_id.
Qed.

(** Depth.  [GetDepth] returns what the resting orders of each side have
    left in total. *)
Theorem GetDepth_total s ob :
  book_wf s ob ->
  (dval (GetDepth s ob).1 == Qsum (erem s <$> prio s ob true) /\
   dval (GetDepth s ob).2 == Qsum (erem s <$> prio s ob false))%Q.
Proof.
  intros Hwf. unfold GetDepth, Ascend. cbn [fst snd].
  rewrite !(iterate_fold (fun item v => decimal_Add v (plVolume (get_level s (lpRef item))))).
  rewrite !foldl_volume, !dval_Zero, !Qplus_0_l.
  split; [apply (side_depth s ob true Hwf)|apply (side_depth s ob false Hwf)].
Qed.

(** The top of the book.  For a capacity the runtime accepts,
    [GetTopLevels n] is the first [n] levels of each side, best first;
    otherwise it panics. *)
Theorem GetTopLevels_best ob n :
  GetTopLevels ob n =
    if make_cap_ok n then
      Some (take (Z.to_nat n) (lpRef <$> best_levels ob true),
            take (Z.to_nat n) (lpRef <$> best_levels ob false))
    else None.
Proof.
  destruct (make_cap_ok n) eqn:Hn; [by apply GetTopLevels_take|].
  unfold GetTopLevels. by rewrite Hn.
Qed.

(** The counts.  [GetBidDepth] and [GetAskDepth] count the resting orders
    of a side, and together they are the size of the location map. *)
Theorem depth_counts s ob :
  book_wf s ob ->
  GetBidDepth s ob = length (prio s ob true) /\ GetAskDepth s ob = length (prio s ob false) /\
  Size ob = GetBidDepth s ob + GetAskDepth s ob.
Proof.
  intros Hwf.
  assert (GetBidDepth s ob = length (prio s ob true)) as Hbid.
  { unfold GetBidDepth, Descend.
    rewrite (iterate_fold (fun i count => count + length (plOrders (get_level s (lpRef i))))).
    rewrite foldl_count, btree_Descend_spec. done. }
  assert (GetAskDepth s ob = length (prio s ob false)) as Hask.
  { unfold GetAskDepth, Ascend.
    rewrite (iterate_fold (fun i count => count + length (plOrders (get_level s (lpRef i))))).
    by rewrite foldl_count. }
  split_and!; [done..|]. rewrite (size_all_elems s ob Hwf), Hbid, Hask. unfold all_elems. by rewrite length_app.
Qed.

(** Popping a level.  [PopBestLevel] returns the best level of the side
    and takes exactly that level's orders out of the book, which stays
    well-formed; on an empty side it changes nothing. *)
Theorem PopBestLevel_removes_best s ob b :
  book_wf s ob ->
  match PopBestLevel s ob b with
  | (None, ob') => ob' = ob /\ prio s ob b = []
  | (Some r, ob') =>
      book_wf s ob' /\ r = default 0 (head (lpRef <$> best_levels ob b)) /\
      prio s ob b = plOrders (get_level s r) ++ prio s ob' b /\
      prio s ob' (negb b) = prio s ob (negb b)
  end.
Proof.
  intros Hwf. unfold PopBestLevel. rewrite <- best_levels_head.
  destruct (best_levels ob b) as [|lp0 m] eqn:Hm; cbn [head].
  { split; [done|]. unfold prio. by rewrite Hm. }
  assert (lp0 ∈ best_levels ob b) as Hlp0 by (rewrite Hm; set_solver).
  set (mm := foldl _ _ _).
  assert (set_side (set_obOrders ob mm) b
     (RemovePriceLevel (get_side (set_obOrders ob mm) b) (plPrice (get_level s (lpRef lp0)))) =
     set_obOrders (set_side ob b (RemovePriceLevel (get_side ob b) (plPrice (get_level s (lpRef lp0))))) mm) as ->
    by (by destruct b).
  assert (NoDup (prio s ob b)) as Hnd.
  { pose proof (NoDup_fmap_1 _ _ (bw_ids _ _ Hwf)) as (Ht & _ & Hf)%NoDup_app. by destruct b. }
  assert (prio s ob b = elems_of s lp0 ++ (m ≫= elems_of s)) as Hq by (unfold prio; by rewrite Hm, bind_cons).
  split; [|split; [done|split]].
  - apply (pop_wf s ob b lp0 Hwf Hlp0). intros k loc. apply foldl_delete_lookup.
  - change (prio s (set_obOrders ?o ?x) b) with (prio s o b).
    rewrite (pop_prio s ob b lp0 Hwf Hlp0), Hq. fold (elems_of s lp0). f_equal.
    rewrite Hq in Hnd. apply NoDup_app in Hnd as (_ & Hd & _). rewrite filter_app.
    assert (filter (fun e => e ∉ elems_of s lp0) (elems_of s lp0) = []) as ->.
    { destruct (filter _ _) as [|e l] eqn:Hf; [done|].
      assert (e ∈ filter (fun e => e ∉ elems_of s lp0) (elems_of s lp0)) as [? ?]%list_elem_of_filter
        by (rewrite Hf; set_solver). done. }
    cbn. symmetry. apply filter_all. intros e He He0. by apply (Hd e He0).
  - change (prio s (set_obOrders ?o ?x) (negb b)) with (prio s o (negb b)).
    rewrite (pop_prio s ob b lp0 Hwf Hlp0). apply filter_all. intros e He He0.
    pose proof (NoDup_fmap_1 _ _ (bw_ids _ _ Hwf)) as (_ & Hd & _)%NoDup_app.
    assert (e ∈ prio s ob b) as Heb by (rewrite Hq; set_solver).
    destruct b; [by apply (Hd e Heb)|by apply (Hd e He)].
Qed.

(** The spread.  The best bid and ask prices are the highest bid and the
    lowest ask of the resting orders, and in an uncrossed book with both sides
    present the spread is positive. *)
Theorem best_prices_and_spread s ob :
  book_inv s ob ->
  (forall p, GetBestBidPrice s ob = Some p ->
     (forall e, e ∈ prio s ob true -> dval (oPrice (order_of s e)) <= dval p) /\
     (exists e, e ∈ prio s ob true /\ oPrice (order_of s e) ≐ p))%Q /\
  (forall p, GetBestAskPrice s ob = Some p ->
     (forall e, e ∈ prio s ob false -> dval p <= dval (oPrice (order_of s e))) /\
     (exists e, e ∈ prio s ob false /\ oPrice (order_of s e) ≐ p))%Q /\
  (prio s ob true <> [] -> prio s ob false <> [] -> 0 < dval (GetSpread s ob))%Q.
Proof.
  intros [Hwf Hlive Hunc].
  pose proof (best_level_extreme s ob Hwf) as Hbest.
  unfold GetBestBidPrice, GetBestAskPrice, GetBestBid, GetBestAsk, GetSpread.
  pose proof (best_levels_head ob true) as Ht. pose proof (best_levels_head ob false) as Hf.
  cbn [get_side] in Ht, Hf. rewrite <- Ht, <- Hf.
  split_and!.
  - destruct (best_levels ob true) as [|lp m] eqn:Hm; cbn [head]; intros p Hp; simplify_eq.
    destruct (Hbest _ _ _ Hm) as [Hall Hex]. split; [|done].
    intros e He. specialize (Hall e He). cbn in Hall. lra.
  - destruct (best_levels ob false) as [|lp m] eqn:Hm; cbn [head]; intros p Hp; simplify_eq.
    destruct (Hbest _ _ _ Hm) as [Hall Hex]. split; [|done].
    intros e He. specialize (Hall e He). cbn in Hall. lra.
  - intros Hb Ha. destruct (best_levels ob true) as [|lb mb] eqn:Hmb;
      [destruct Hb; unfold prio; by rewrite Hmb|].
    destruct (best_levels ob false) as [|la ma] eqn:Hma; [destruct Ha; unfold prio; by rewrite Hma|].
    cbn [head]. destruct (Hbest _ _ _ Hmb) as [_ (eb & Heb & Hpb)].
    destruct (Hbest _ _ _ Hma) as [_ (ea & Hea & Hpa)].
    rewrite dval_Sub. specialize (Hunc eb ea Heb Hea). unfold deq in *. lra.
Qed.
End theorems.

(** ** Instances on the demonstration book *)

Module BookInstances.
Import Concrete Demo.

Lemma book4_wf : book_wf (heap book4) (orderBook book4).
Proof. exact (bi_wf _ _ book4_inv). Qed.

Lemma AddOrder_price_time_witness :
  exists s' ob' l1 l2 e, AddOrder (heap book4) (orderBook book4) taker = (s', ob') /\
    let b := is_buy (get_order (heap book4) taker) in
    let p := oPrice (get_order (heap book4) taker) in
    book_wf s' ob' /\ orders s' = orders (heap book4) /\ elem_Value e = taker /\
    prio (heap book4) (orderBook book4) b = l1 ++ l2 /\ prio s' ob' b = l1 ++ e :: l2 /\
    prio s' ob' (negb b) = prio (heap book4) (orderBook book4) (negb b) /\
    (forall e', e' ∈ l1 -> ~ better b p (oPrice (order_of (heap book4) e'))) /\
    (forall e', e' ∈ l2 -> better b p (oPrice (order_of (heap book4) e'))) /\
    GetOrder ob' (uuid_String (oID (get_order (heap book4) taker))) = Some taker.
Proof.
  apply (AddOrder_price_time (heap book4) (orderBook book4) taker book4_wf);
    [vm_compute; lia|vm_compute; reflexivity].
Defined.

(** Cancelling the second ask at 101. *)
Definition s2 : @uuid string_uuid := "s2".
Definition cancel_s2 := CancelOrder (heap engine4) (orderBook engine4) s2.

Lemma CancelOrder_exact_witness :
  cancel_s2.1.1 = GetOrder (orderBook engine4) "s2" /\
  match cancel_s2 with
  | (None, s', ob') =>
      s' = heap engine4 /\ ob' = orderBook engine4 /\
      forall e, e ∈ all_elems (heap engine4) (orderBook engine4) -> oID (order_of (heap engine4) e) <> s2
  | (Some r, s', ob') =>
      book_wf s' ob' /\ GetOrder (orderBook engine4) (uuid_String s2) = Some r /\
      oID (get_order (heap engine4) r) = s2 /\
      GetOrder ob' (uuid_String s2) = None /\
      get_order s' r = set_oStatus (get_order (heap engine4) r) OrderStatusCancelled /\
      (forall r', r' <> r -> get_order s' r' = get_order (heap engine4) r') /\
      (forall b, prio s' ob' b = filter (fun e => elem_Value e <> r) (prio (heap engine4) (orderBook engine4) b))
  end.
Proof.
  split; [vm_compute; reflexivity|].
  apply (CancelOrder_exact (heap engine4) (orderBook engine4) s2 (bi_wf _ _ engine4_inv)).
Defined.

Lemma CancelOrder_AddOrder_witness :
  let '(s1, ob1) := AddOrder (heap book4) (orderBook book4) taker in
  let '(found, s2, ob2) := CancelOrder s1 ob1 (oID (get_order (heap book4) taker)) in
  found = Some taker /\ (forall b, prio s2 ob2 b = prio (heap book4) (orderBook book4) b) /\
  obOrders ob2 = obOrders (orderBook book4).
Proof.
  apply (CancelOrder_AddOrder (heap book4) (orderBook book4) taker book4_wf);
    [vm_compute; lia|vm_compute; reflexivity].
Defined.

Lemma GetDepth_total_witness :
  (dval (GetDepth (heap book4) (orderBook book4)).1 ==
     Qsum (erem (heap book4) <$> prio (heap book4) (orderBook book4) true) /\
   dval (GetDepth (heap book4) (orderBook book4)).2 ==
     Qsum (erem (heap book4) <$> prio (heap book4) (orderBook book4) false))%Q.
Proof. apply (GetDepth_total (heap book4) (orderBook book4) book4_wf). Defined.

Lemma GetTopLevels_best_witness :
  make_cap_ok 1 = true /\
  GetTopLevels (orderBook book4) 1 =
    (if make_cap_ok 1 then
       Some (take (Z.to_nat 1) (lpRef <$> best_levels (orderBook book4) true),
             take (Z.to_nat 1) (lpRef <$> best_levels (orderBook book4) false))
     else None).
Proof. split; [reflexivity|]. apply (GetTopLevels_best (orderBook book4) 1). Defined.

Lemma depth_counts_witness :
  GetBidDepth (heap book4) (orderBook book4) = length (prio (heap book4) (orderBook book4) true) /\
  GetAskDepth (heap book4) (orderBook book4) = length (prio (heap book4) (orderBook book4) false) /\
  Size (orderBook book4) = GetBidDepth (heap book4) (orderBook book4) + GetAskDepth (heap book4) (orderBook book4).
Proof. apply (depth_counts (heap book4) (orderBook book4) book4_wf). Defined.

Lemma PopBestLevel_removes_best_witness :
  match PopBestLevel (heap book4) (orderBook book4) false with
  | (None, ob') => ob' = orderBook book4 /\ prio (heap book4) (orderBook book4) false = []
  | (Some r, ob') =>
      book_wf (heap book4) ob' /\ r = default 0 (head (lpRef <$> best_levels (orderBook book4) false)) /\
      prio (heap book4) (orderBook book4) false =
        plOrders (get_level (heap book4) r) ++ prio (heap book4) ob' false /\
      prio (heap book4) ob' (negb false) = prio (heap book4) (orderBook book4) (negb false)
  end.
Proof. apply (PopBestLevel_removes_best (heap book4) (orderBook book4) false book4_wf). Defined.

Lemma best_prices_and_spread_witness :
  (prio (heap book4) (orderBook book4) true <> [] /\ prio (heap book4) (orderBook book4) false <> []) /\
  (0 < dval (GetSpread (heap book4) (orderBook book4)))%Q.
Proof.
  assert (prio (heap book4) (orderBook book4) true <> []) as Ht by (vm_compute; discriminate).
  assert (prio (heap book4) (orderBook book4) false <> []) as Hf by (vm_compute; discriminate).
  split; [exact (conj Ht Hf)|].
  exact (proj2 (proj2 (best_prices_and_spread (heap book4) (orderBook book4) book4_inv)) Ht Hf).
Defined.
End BookInstances.
