(* ===== verification/Snapshot.v ===== *)
(** * The snapshot manager (src/engine/snapshot_manager.go)

    Capturing the top of the book, writing the capture to the table
    [orderbook_snapshots], reading it back and comparing it with the live book.
    The table is the one of docker/init.sql, the schema the service is deployed
    with.  A database call takes the error the server or the driver reports
    instead of executing it, if any, and an insertion the time at which the
    server executes it. *)

From S2P Require Import Prelude.
From S2P Require Import Float.
From S2P Require Import Json.
From S2P Require Import External.
From S2P Require Import Models.
From S2P Require Import Sql.
From S2P Require Import OrderBook.

Section snapshot.
Context `{DecimalPkg, UuidPkg, BTreePkg}.

(** ** Data *)

Record SnapshotPriceLevel := mkSnapshotPriceLevel {
  slPrice : decimal;
  slTotalVolume : decimal;
  slOrderCount : Z;
}.

Definition SnapshotTypePeriodic : string := "periodic".
Definition SnapshotTypeOnDemand : string := "on-demand".
Definition SnapshotTypePreShutdown : string := "pre-shutdown".
Definition SnapshotTypeRecovery : string := "recovery".

Record OrderbookSnapshot := mkOrderbookSnapshot {
  osSnapshotID : Z;
  osInstrument : string;
  osBidLevels : list SnapshotPriceLevel;
  osAskLevels : list SnapshotPriceLevel;
  osBestBidPrice : option decimal;
  osBestAskPrice : option decimal;
  osSpread : option decimal;
  osTotalBidVolume : decimal;
  osTotalAskVolume : decimal;
  osSnapshotTimestamp : Z;
  osSnapshotType : string;
  osTriggeredBy : string;
}.

(** The values of the [interface{}] fields of a mismatch. *)
Inductive MismatchVal := MVInt (n : Z) | MVStr (s : string).

Record SnapshotMismatch := mkSnapshotMismatch {
  miLevel : string;
  miField : string;
  miSnapshotVal : MismatchVal;
  miLiveVal : MismatchVal;
  miDifference : decimal;
}.

(** [stopCh] is told by whether it is closed, [wg] by its counter. *)
Record SnapshotManager := mkSnapshotManager {
  smInstrument : string;
  smSnapshotInterval : Z;
  smMaxLevels : Z;
  smEnableCompression : bool;
  smRunning : bool;
  smStopClosed : bool;
  smWg : nat;
}.

Definition NewSnapshotManager (instrument : string) (snapshotInterval maxLevels : Z) : SnapshotManager :=
  mkSnapshotManager instrument snapshotInterval maxLevels true false false 0.

Definition SetCompression (sm : SnapshotManager) (enabled : bool) : SnapshotManager :=
  mkSnapshotManager (smInstrument sm) (smSnapshotInterval sm) (smMaxLevels sm) enabled (smRunning sm)
    (smStopClosed sm) (smWg sm).

(** ** Capturing *)

(** [make([]SnapshotPriceLevel, 0, n)]: an element takes 40 bytes. *)
Definition make_levels_ok (n : Z) : bool := (0 <=? n)%Z && (n * 40 <=? 2 ^ 48)%Z.

(** The conversion loop: the levels converted so far and their total volume. *)
Definition capture_level (s : Store) (st : list SnapshotPriceLevel * decimal) (priceLevel : lref)
    : list SnapshotPriceLevel * decimal :=
  let pl := get_level s priceLevel in
  let level := mkSnapshotPriceLevel (plPrice pl) (plVolume pl) (Z.of_nat (length (plOrders pl))) in
  (st.1 ++ [level], decimal_Add st.2 (slTotalVolume level)).

Definition capture_levels (s : Store) (priceLevels : list lref) : list SnapshotPriceLevel * decimal :=
  foldl (capture_level s) ([], decimal_Zero) priceLevels.

(** [None]: a panic of [make].  The levels are read after [GetTopLevels] has
    released the lock of the book; the model reads them in the same state. *)
Definition captureOrderbook `{!EnvPkg} (sm : SnapshotManager) (s : Store) (ob : OrderBook)
    (snapshotType triggeredBy : string) : option (OrderbookSnapshot * Store) :=
  let '(now, s1) := read_clock s in
  if make_levels_ok (smMaxLevels sm) then
    '(bidPriceLevels, askPriceLevels) ← GetTopLevels ob (smMaxLevels sm);
    let '(bidLevels, totalBidVolume) := capture_levels s1 bidPriceLevels in
    let '(askLevels, totalAskVolume) := capture_levels s1 askPriceLevels in
    let bestBidPrice := slPrice <$> head bidLevels in
    let bestAskPrice := slPrice <$> head askLevels in
    let spread :=
      match bestBidPrice, bestAskPrice with
      | Some bid, Some ask => Some (decimal_Sub ask bid)
      | _, _ => None
      end in
    Some (mkOrderbookSnapshot 0 (smInstrument sm) bidLevels askLevels bestBidPrice bestAskPrice spread
            totalBidVolume totalAskVolume now snapshotType triggeredBy, s1)
  else None.

(** ** Saving *)

Record SnapshotRow := mkSnapshotRow {
  srID : Z;
  srInstrument : string;
  srData : string;
  srBidCount : Z;
  srAskCount : Z;
  srBestBid : option decimal;
  srBestAsk : option decimal;
  srSpread : option decimal;
  srTotalBid : decimal;
  srTotalAsk : decimal;
  srTimestamp : Z;
  srType : string;
  srTriggeredBy : string;
  srCreatedAt : Z;
}.

(** The table with the next value of its sequence. *)
Record SnapshotTable := mkSnapshotTable { tbRows : list SnapshotRow; tbNext : Z }.

(** The document: [json.Marshal] writes the keys of a map in order, the fields
    of a struct as declared, and a decimal as a string. *)
Definition level_json (l : SnapshotPriceLevel) : json :=
  JObj [("price", JStr (decimal_String (slPrice l)));
        ("total_volume", JStr (decimal_String (slTotalVolume l)));
        ("order_count", JNum (Itoa (slOrderCount l)))].
Definition snapshot_json (bids asks : list SnapshotPriceLevel) : json :=
  JObj [("ask_levels", JArr (level_json <$> asks)); ("bid_levels", JArr (level_json <$> bids))].

(** The literal 0.9. *)
Definition ratio_limit : float64 := fround (9 # 10).

Definition final_data `{!GzipPkg} (sm : SnapshotManager) (snapshotJSON : string) : string :=
  let uncompressedSize := Z.of_nat (String.length snapshotJSON) in
  if smEnableCompression sm && (1024 <? uncompressedSize)%Z then
    match gzip_Write snapshotJSON with
    | None => snapshotJSON
    | Some compressedData =>
        let compressionRatio :=
          f_div (f_of_int (Z.of_nat (String.length compressedData))) (f_of_int uncompressedSize) in
        if f_le ratio_limit compressionRatio then snapshotJSON else compressedData
    end
  else snapshotJSON.

(** A nullable NUMERIC column of an optional price: [None] is an error. *)
Definition numeric_opt `{!PgPkg} (d : option decimal) : option (option decimal) :=
  match d with
  | None => Some None
  | Some d => Some <$> numeric_in (decimal_String d)
  end.

(** The INSERT: the values the columns make of the arguments. *)
Definition insert_row `{!PgPkg} (t : SnapshotTable) (now : Z) (snapshot : OrderbookSnapshot) (data : string)
    : option SnapshotRow :=
  data' ← jsonb_in data;
  bestBid ← numeric_opt (osBestBidPrice snapshot);
  bestAsk ← numeric_opt (osBestAskPrice snapshot);
  spread ← numeric_opt (osSpread snapshot);
  totalBid ← numeric_in (decimal_String (osTotalBidVolume snapshot));
  totalAsk ← numeric_in (decimal_String (osTotalAskVolume snapshot));
  if varchar_ok 50 (osInstrument snapshot) && varchar_ok 20 (osSnapshotType snapshot)
     && varchar_ok 50 (osTriggeredBy snapshot)
  then Some (mkSnapshotRow (tbNext t) (osInstrument snapshot) data'
               (Z.of_nat (length (osBidLevels snapshot))) (Z.of_nat (length (osAskLevels snapshot)))
               bestBid bestAsk spread totalBid totalAsk (osSnapshotTimestamp snapshot)
               (osSnapshotType snapshot) (osTriggeredBy snapshot) now)
  else None.

Definition set_osSnapshotID (o : OrderbookSnapshot) (id : Z) : OrderbookSnapshot :=
  mkOrderbookSnapshot id (osInstrument o) (osBidLevels o) (osAskLevels o) (osBestBidPrice o)
    (osBestAskPrice o) (osSpread o) (osTotalBidVolume o) (osTotalAskVolume o) (osSnapshotTimestamp o)
    (osSnapshotType o) (osTriggeredBy o).

Definition saveSnapshot `{!PgPkg, !GzipPkg} (sm : SnapshotManager) (t : SnapshotTable) (fault : option error)
    (now : Z) (snapshot : OrderbookSnapshot) : result OrderbookSnapshot * SnapshotTable :=
  let snapshotJSON := json_Marshal (snapshot_json (osBidLevels snapshot) (osAskLevels snapshot)) in
  let finalData := final_data sm snapshotJSON in
  match fault with
  | Some err => (inl (ErrWrap "failed to insert snapshot" err), t)
  | None =>
      match insert_row t now snapshot finalData with
      | None => (inl (ErrWrap "failed to insert snapshot" (ErrPq "22P02" "invalid input syntax")), t)
      | Some row =>
          (inr (set_osSnapshotID snapshot (srID row)), mkSnapshotTable (tbRows t ++ [row]) (tbNext t + 1)%Z)
      end
  end.

(** [None]: the panic of the capture. *)
Definition TakeSnapshot `{!EnvPkg, !PgPkg, !GzipPkg} (sm : SnapshotManager) (s : Store) (ob : OrderBook)
    (t : SnapshotTable) (fault : option error) (now : Z) (snapshotType triggeredBy : string)
    : option (option error * SnapshotTable * Store) :=
  '(snapshot, s1) ← captureOrderbook sm s ob snapshotType triggeredBy;
  Some (match saveSnapshot sm t fault now snapshot with
        | (inl err, t') => (Some (ErrWrap "failed to save snapshot" err), t', s1)
        | (inr _, t') => (None, t', s1)
        end).

(** ** Loading *)

(** The text of a decimal field, of a count field: a value of another type
    leaves the field at zero, and so does a text that is not a number. *)
Definition parse_decimal_field (levelMap : json) (key : string) : decimal :=
  match json_get levelMap key with
  | Some (JStr text) => default decimal_Zero (decimal_NewFromString text)
  | _ => decimal_Zero
  end.
Definition parse_count_field (levelMap : json) (key : string) : Z :=
  match json_get levelMap key with
  | Some (JNum lit) => match number_value lit with Some q => f_trunc (fround q) | None => 0%Z end
  | _ => 0%Z
  end.

Definition parse_level (item : json) : option SnapshotPriceLevel :=
  match item with
  | JObj _ => Some (mkSnapshotPriceLevel (parse_decimal_field item "price")
                      (parse_decimal_field item "total_volume") (parse_count_field item "order_count"))
  | _ => None
  end.

Definition parsePriceLevels (snapshotData : json) (key : string) : list SnapshotPriceLevel :=
  match json_get snapshotData key with
  | Some (JArr levelData) => omap parse_level levelData
  | _ => []
  end.

(** [json.Unmarshal] into a [map[string]interface{}]. *)
Definition Unmarshal_map (text : string) : option json :=
  match json_Unmarshal text with
  | Some (JObj m) => Some (JObj m)
  | Some JNull => Some (JObj [])
  | _ => None
  end.

(** The row [get_latest_snapshot] returns: one with the greatest creation time
    among those of the instrument. *)
Definition get_latest_snapshot (t : SnapshotTable) (instrument : string) : option SnapshotRow :=
  foldl (fun best r =>
    if bool_decide (srInstrument r = instrument) then
      match best with
      | Some b => if (srCreatedAt b <=? srCreatedAt r)%Z then Some r else best
      | None => Some r
      end
    else best) None (tbRows t).

(** A nullable column read into a [sql.NullString] and parsed. *)
Definition read_numeric `{!PgPkg} (d : decimal) : decimal :=
  default decimal_Zero (decimal_NewFromString (numeric_out d)).

Definition GetLatestSnapshot `{!PgPkg} (sm : SnapshotManager) (t : SnapshotTable) (fault : option error)
    : result OrderbookSnapshot :=
  match fault with
  | Some err => inl (ErrWrap "failed to get latest snapshot" err)
  | None =>
      match get_latest_snapshot t (smInstrument sm) with
      | None => inl (ErrText ("no snapshot found for " +:+ smInstrument sm))
      | Some row =>
          match Unmarshal_map (srData row) with
          | None => inl (ErrWrap "failed to unmarshal snapshot data" (ErrText "invalid character"))
          | Some snapshotData =>
              inr (mkOrderbookSnapshot (srID row) (srInstrument row)
                (parsePriceLevels snapshotData "bid_levels") (parsePriceLevels snapshotData "ask_levels")
                (read_numeric <$> srBestBid row) (read_numeric <$> srBestAsk row) (read_numeric <$> srSpread row)
                (read_numeric (srTotalBid row)) (read_numeric (srTotalAsk row))
                (srTimestamp row) (srType row) (srTriggeredBy row))
          end
      end
  end.

(** The best prices and the spread are scanned and not stored. *)
Definition getSnapshotByID `{!PgPkg} (t : SnapshotTable) (fault : option error) (snapshotID : Z)
    : result OrderbookSnapshot :=
  match fault with
  | Some err => inl (ErrWrap "failed to query snapshot" err)
  | None =>
      match snd <$> list_find (fun r => srID r = snapshotID) (tbRows t) with
      | None => inl (ErrText ("snapshot " +:+ Itoa snapshotID +:+ " not found"))
      | Some row =>
          match Unmarshal_map (srData row) with
          | None => inl (ErrWrap "failed to unmarshal snapshot data" (ErrText "invalid character"))
          | Some snapshotData =>
              inr (mkOrderbookSnapshot (srID row) (srInstrument row)
                (parsePriceLevels snapshotData "bid_levels") (parsePriceLevels snapshotData "ask_levels")
                None None None (read_numeric (srTotalBid row)) (read_numeric (srTotalAsk row))
                (srTimestamp row) (srType row) (srTriggeredBy row))
          end
      end
  end.

(** Reads the snapshot, logs it and leaves the book alone. *)
Definition RestoreFromSnapshot `{!PgPkg} (t : SnapshotTable) (fault : option error) (snapshotID : Z)
    (ob : OrderBook) : option error * OrderBook :=
  match getSnapshotByID t fault snapshotID with
  | inl err => (Some (ErrWrap "failed to get snapshot" err), ob)
  | inr _ => (None, ob)
  end.

(** [cleanup_old_snapshots] of db/snapshots_schema.sql: the rows of the
    instrument from the newest on, without the first [keepCount]; a negative
    OFFSET is an error. *)
Definition newer_first (a b : SnapshotRow) : Prop := (srTimestamp b <= srTimestamp a)%Z.
#[global] Instance newer_first_dec a b : Decision (newer_first a b).
Proof. unfold newer_first. apply _. Defined.

Definition snapshots_to_delete (t : SnapshotTable) (instrument : string) (keepCount : nat) : list SnapshotRow :=
  drop keepCount (merge_sort newer_first (filter (fun r => srInstrument r = instrument) (tbRows t))).

Definition CleanupOldSnapshots (sm : SnapshotManager) (t : SnapshotTable) (fault : option error) (keepCount : Z)
    : result Z * SnapshotTable :=
  match fault with
  | Some err => (inl (ErrWrap "failed to cleanup snapshots" err), t)
  | None =>
      if (keepCount <? 0)%Z then
        (inl (ErrWrap "failed to cleanup snapshots" (ErrPq "2201X" "OFFSET must not be negative")), t)
      else
        let doomed := srID <$> snapshots_to_delete t (smInstrument sm) (Z.to_nat keepCount) in
        let rows := filter (fun r => srID r ∉ doomed) (tbRows t) in
        (inr (Z.of_nat (length (tbRows t) - length rows)), mkSnapshotTable rows (tbNext t))
  end.

(** ** Comparing *)

Definition level_name (levelType : string) (i : nat) : string :=
  levelType +:+ "[" +:+ Itoa (Z.of_nat i) +:+ "]".

Definition decimal_mismatch (level field : string) (snap live : decimal) : list SnapshotMismatch :=
  if negb (decimal_Equal snap live) then
    [mkSnapshotMismatch level field (MVStr (decimal_String snap)) (MVStr (decimal_String live))
       (decimal_Sub live snap)]
  else [].

Definition count_mismatch (level field : string) (snap live : Z) : list SnapshotMismatch :=
  if negb (snap =? live)%Z then [mkSnapshotMismatch level field (MVInt snap) (MVInt live) decimal_Zero] else [].

(** One iteration of the loop over the common levels. *)
Definition compare_level (levelType : string) (i : nat) (snapLevel liveLevel : SnapshotPriceLevel)
    : list SnapshotMismatch :=
  decimal_mismatch (level_name levelType i) "price" (slPrice snapLevel) (slPrice liveLevel)
  ++ decimal_mismatch (level_name levelType i) "volume" (slTotalVolume snapLevel) (slTotalVolume liveLevel)
  ++ count_mismatch (level_name levelType i) "order_count" (slOrderCount snapLevel) (slOrderCount liveLevel).

Fixpoint compare_from (levelType : string) (i : nat) (snapshotLevels liveLevels : list SnapshotPriceLevel)
    : list SnapshotMismatch :=
  match snapshotLevels, liveLevels with
  | snapLevel :: ss, liveLevel :: ls =>
      compare_level levelType i snapLevel liveLevel ++ compare_from levelType (S i) ss ls
  | _, _ => []
  end.

Definition comparePriceLevels (snapshotLevels liveLevels : list SnapshotPriceLevel) (levelType : string)
    : list SnapshotMismatch :=
  compare_from levelType 0 snapshotLevels liveLevels.

Definition ValidateAgainstLiveBook `{!EnvPkg} (sm : SnapshotManager) (s : Store) (ob : OrderBook)
    (snapshot : OrderbookSnapshot) : option (list SnapshotMismatch * Store) :=
  '(liveSnapshot, s1) ← captureOrderbook sm s ob SnapshotTypeRecovery "validation";
  Some (count_mismatch "bids" "level_count" (Z.of_nat (length (osBidLevels snapshot)))
          (Z.of_nat (length (osBidLevels liveSnapshot)))
        ++ count_mismatch "asks" "level_count" (Z.of_nat (length (osAskLevels snapshot)))
             (Z.of_nat (length (osAskLevels liveSnapshot)))
        ++ comparePriceLevels (osBidLevels snapshot) (osBidLevels liveSnapshot) "bid"
        ++ comparePriceLevels (osAskLevels snapshot) (osAskLevels liveSnapshot) "ask"
        ++ decimal_mismatch "totals" "bid_volume" (osTotalBidVolume snapshot) (osTotalBidVolume liveSnapshot)
        ++ decimal_mismatch "totals" "ask_volume" (osTotalAskVolume snapshot) (osTotalAskVolume liveSnapshot),
        s1).

Definition ValidateLatestSnapshot `{!EnvPkg, !PgPkg} (sm : SnapshotManager) (s : Store) (ob : OrderBook)
    (t : SnapshotTable) (fault : option error) : option (result (list SnapshotMismatch) * Store) :=
  match GetLatestSnapshot sm t fault with
  | inl err => Some (inl (ErrWrap "failed to get latest snapshot" err), s)
  | inr snapshot =>
      '(mismatches, s1) ← ValidateAgainstLiveBook sm s ob snapshot;
      Some (inr mismatches, s1)
  end.

(** ** The life of a manager

    The loops are the goroutines [Start] spawned, each waiting in its select or
    done; [LPanic] is a crash of the process. *)

Inductive life :=
  | LLive (sm : SnapshotManager) (taken : list string)   (** the types of the snapshots taken *)
  | LPanic.

Definition set_life (sm : SnapshotManager) (running closed : bool) (wg : nat) : SnapshotManager :=
  mkSnapshotManager (smInstrument sm) (smSnapshotInterval sm) (smMaxLevels sm) (smEnableCompression sm)
    running closed wg.

(** [Start]: the new goroutine is in the counter of [wg]. *)
Definition Start (sm : SnapshotManager) : SnapshotManager :=
  if smRunning sm then sm else set_life sm true (smStopClosed sm) (S (smWg sm)).

(** [Stop] up to [wg.Wait]; [None] is the panic of closing a closed channel. *)
Definition Stop (sm : SnapshotManager) : option SnapshotManager :=
  if negb (smRunning sm) then Some sm
  else if smStopClosed sm then None
  else Some (set_life sm false true (smWg sm)).

(** One step of the manager: a call, or a turn of a loop.  A tick may win the
    select against the closed channel. *)
Inductive life_step : life -> life -> Prop :=
  | ls_start sm taken : life_step (LLive sm taken) (LLive (Start sm) taken)
  | ls_stop sm sm' taken : Stop sm = Some sm' -> life_step (LLive sm taken) (LLive sm' taken)
  | ls_stop_panic sm taken : Stop sm = None -> life_step (LLive sm taken) LPanic
  | ls_ticker_panic sm taken : (0 < smWg sm)%nat -> (smSnapshotInterval sm <= 0)%Z ->
      life_step (LLive sm taken) LPanic
  | ls_tick sm taken : (0 < smWg sm)%nat -> (0 < smSnapshotInterval sm)%Z ->
      life_step (LLive sm taken) (LLive sm (taken ++ [SnapshotTypePeriodic]))
  | ls_final sm taken : (0 < smWg sm)%nat -> (0 < smSnapshotInterval sm)%Z -> smStopClosed sm = true ->
      life_step (LLive sm taken)
        (LLive (set_life sm (smRunning sm) (smStopClosed sm) (smWg sm - 1)) (taken ++ [SnapshotTypePreShutdown])).
End snapshot.
