(* ===== verification/SnapshotTheorems.v ===== *)
(** * Properties of the snapshot manager

    What a capture says about the book, when validation finds no difference,
    the round trip of a snapshot through the database, what compression does to
    it, and the life cycle. *)

From S2P Require Import Prelude.
From S2P Require Import Float.
From S2P Require Import Json.
From S2P Require Import External.
From S2P Require Import Models.
From S2P Require Import Sql.
From S2P Require Import OrderBook.
From S2P Require Import OrderBookFacts.
From S2P Require Import Matching.
From S2P Require Import MatchingFacts.
From S2P Require Import MatchingLoops.
From S2P Require Import MatchingSpec.
From S2P Require Import MatchingProps.
From S2P Require Import MatchingTheorems.
From S2P Require Import OrderBookTheorems.
From S2P Require Import Snapshot.

Section facts.
Context `{DecimalSpec, UuidSpec, !EnvPkg, BTreeSpec}.
Implicit Types (s : Store) (ob : OrderBook) (lp : LevelPtr) (sm : SnapshotManager).

(** ** The capture *)

Definition level_of s (r : lref) : SnapshotPriceLevel :=
  mkSnapshotPriceLevel (plPrice (get_level s r)) (plVolume (get_level s r))
    (Z.of_nat (length (plOrders (get_level s r)))).

Lemma capture_fold s refs acc v :
  (foldl (capture_level s) (acc, v) refs).1 = acc ++ (level_of s <$> refs) /\
  (dval (foldl (capture_level s) (acc, v) refs).2 ==
   dval v + Qsum ((fun r => dval (plVolume (get_level s r))) <$> refs))%Q.
Proof.
  revert acc v. induction refs as [|r refs IH]; intros acc v; cbn [foldl].
  - rewrite app_nil_r. split; [done|]. unfold Qsum. cbn. lra.
  - change (capture_level s (acc, v) r) with (acc ++ [level_of s r], decimal_Add v (plVolume (get_level s r))).
    destruct (IH (acc ++ [level_of s r]) (decimal_Add v (plVolume (get_level s r)))) as [-> ->].
    rewrite <- app_assoc, dval_Add, !fmap_cons. split; [done|].
    change (Qsum (?q :: ?l)) with (q + Qsum l)%Q. cbn beta. lra.
Qed.

Lemma capture_levels_fst s refs : (capture_levels s refs).1 = level_of s <$> refs.
Proof. apply (capture_fold s refs [] decimal_Zero). Qed.

Lemma capture_levels_total s refs :
  (dval (capture_levels s refs).2 == Qsum ((fun r => dval (plVolume (get_level s r))) <$> refs))%Q.
Proof. unfold capture_levels. rewrite (proj2 (capture_fold s refs [] decimal_Zero)), dval_Zero. lra. Qed.

Lemma make_levels_cap n : make_levels_ok n = true -> make_cap_ok n = true.
Proof. unfold make_levels_ok, make_cap_ok. lia. Qed.

(** The levels of a side that a capture of [n] levels holds. *)
Definition top_levels ob (b : bool) (n : Z) : list LevelPtr := take (Z.to_nat n) (best_levels ob b).

Definition capture_of sm s ob (ty by_ : string) : OrderbookSnapshot :=
  let bids := capture_levels s (lpRef <$> top_levels ob true (smMaxLevels sm)) in
  let asks := capture_levels s (lpRef <$> top_levels ob false (smMaxLevels sm)) in
  let bid := slPrice <$> head bids.1 in
  let ask := slPrice <$> head asks.1 in
  mkOrderbookSnapshot 0 (smInstrument sm) bids.1 asks.1 bid ask
    (match bid, ask with Some b, Some a => Some (decimal_Sub a b) | _, _ => None end)
    bids.2 asks.2 (time_Now (clock s)) ty by_.

Lemma capture_eq sm s ob ty by_ : make_levels_ok (smMaxLevels sm) = true ->
  captureOrderbook sm s ob ty by_ = Some (capture_of sm s ob ty by_, (read_clock s).2).
Proof.
  intros Hn. unfold captureOrderbook. cbn [read_clock]. rewrite Hn, GetTopLevels_take by (by apply make_levels_cap).
  cbn [mbind option_bind]. unfold capture_of, top_levels. rewrite !fmap_take.
  change (capture_levels (read_clock s).2 ?l) with (capture_levels s l).
  change (capture_levels (mkStore (orders s) (levels s) (next s) (S (clock s)) (uuids s)) ?l) with (capture_levels s l).
  by destruct (capture_levels s (take _ (lpRef <$> best_levels ob true))),
    (capture_levels s (take _ (lpRef <$> best_levels ob false))).
Qed.

(** ** Comparison *)

Record level_eq (a b : SnapshotPriceLevel) : Prop := {
  le_price : slPrice a ≐ slPrice b;
  le_volume : slTotalVolume a ≐ slTotalVolume b;
  le_count : slOrderCount a = slOrderCount b;
}.

Lemma decimal_mismatch_nil level field a b : decimal_mismatch level field a b = [] <-> a ≐ b.
Proof. unfold decimal_mismatch. case_decimal; cbn; split; try done. Qed.

Lemma count_mismatch_nil level field a b : count_mismatch level field a b = [] <-> a = b.
Proof. unfold count_mismatch. destruct (Z.eqb_spec a b); cbn; split; done. Qed.

Lemma app_nil_iff {A} (l k : list A) : l ++ k = [] <-> l = [] /\ k = [].
Proof. split; [apply app_eq_nil|by intros [-> ->]]. Qed.

Lemma compare_level_nil ty i a b : compare_level ty i a b = [] <-> level_eq a b.
Proof.
  unfold compare_level. rewrite !app_nil_iff, !decimal_mismatch_nil, count_mismatch_nil.
  split; [intros (? & ? & ?); by constructor|by intros []].
Qed.

Lemma compare_from_nil ty i ss ls : length ss = length ls ->
  compare_from ty i ss ls = [] <-> Forall2 level_eq ss ls.
Proof.
  revert i ls. induction ss as [|x ss IH]; intros i [|y ls]; cbn; intros Hl; try lia; [by split|].
  rewrite app_nil_iff, compare_level_nil, IH by lia. by rewrite Forall2_cons.
Qed.

(** Two snapshots that show the same book. *)
Record same_view (a b : OrderbookSnapshot) : Prop := {
  sv_bids : Forall2 level_eq (osBidLevels a) (osBidLevels b);
  sv_asks : Forall2 level_eq (osAskLevels a) (osAskLevels b);
  sv_bid_volume : osTotalBidVolume a ≐ osTotalBidVolume b;
  sv_ask_volume : osTotalAskVolume a ≐ osTotalAskVolume b;
}.

Lemma Validate_nil sm s ob snap : make_levels_ok (smMaxLevels sm) = true ->
  exists ms, ValidateAgainstLiveBook sm s ob snap = Some (ms, (read_clock s).2) /\
    (ms = [] <-> same_view snap (capture_of sm s ob SnapshotTypeRecovery "validation")).
Proof.
  intros Hn. unfold ValidateAgainstLiveBook. rewrite capture_eq by done. cbn [mbind option_bind].
  eexists. split; [done|]. set (live := capture_of _ _ _ _ _).
  rewrite !app_nil_iff, !decimal_mismatch_nil, !count_mismatch_nil. unfold comparePriceLevels. split.
  - intros (Hb & Ha & Hbs & Has & Hv & Hw). apply compare_from_nil in Hbs, Has; [|lia..]. by constructor.
  - intros [Hb Ha Hv Hw]. pose proof (Forall2_length _ _ _ Hb) as Hlb. pose proof (Forall2_length _ _ _ Ha) as Hla.
    split_and!; try lia; try done; by apply compare_from_nil.
Qed.
End facts.

Section storage.
Context `{DecimalSpec, UuidSpec, !EnvPkg, BTreeSpec, !PgPkg, !PgSpec, GzipSpec}.
Implicit Types (s : Store) (ob : OrderBook) (sm : SnapshotManager) (t : SnapshotTable).

(** ** Reading a document back *)

Definition count_ok (l : SnapshotPriceLevel) : Prop := (0 <= slOrderCount l <= 2 ^ 53)%Z.

Lemma parse_decimal_ok j j' k d : json_equiv j j' -> json_get j k = Some (JStr (decimal_String d)) ->
  parse_decimal_field j' k ≐ d.
Proof.
  intros Hj Hk. destruct (json_equiv_get_some _ _ _ _ Hj Hk) as (y & Hy & Hs).
  apply json_equiv_str in Hs as ->. unfold parse_decimal_field. rewrite Hy.
  destruct (NewFromString_String d) as (d' & -> & Hd). done.
Qed.

Lemma parse_level_ok l j : count_ok l -> json_equiv (level_json l) j ->
  exists l', parse_level j = Some l' /\ level_eq l' l.
Proof.
  intros Hc Hj. destruct (json_equiv_obj _ _ Hj) as [m Hm]. unfold parse_level. rewrite Hm.
  eexists. split; [done|]. rewrite <- Hm. split; cbn [slPrice slTotalVolume slOrderCount].
  - by apply (parse_decimal_ok (level_json l)).
  - by apply (parse_decimal_ok (level_json l)).
  - destruct (json_equiv_get_some _ _ "order_count" _ Hj eq_refl) as (y & Hy & Hs).
    destruct (Itoa_number (slOrderCount l)) as (_ & q & Hq & Hv).
    destruct (json_equiv_num _ _ _ Hs Hq) as (l' & q' & -> & Hv' & Hq'). unfold parse_count_field.
    rewrite Hy, Hv'. apply trunc_count; [unfold count_ok in Hc; lia|by rewrite Hq'].
Qed.

Lemma parse_levels_ok ls js : Forall count_ok ls -> Forall2 json_equiv (level_json <$> ls) js ->
  Forall2 level_eq (omap parse_level js) ls.
Proof.
  intros Hc. revert js. induction Hc as [|l ls Hl Hls IH]; intros js Hj; cbn [fmap list_fmap] in Hj.
  - apply Forall2_nil_inv_l in Hj as ->. constructor.
  - apply Forall2_cons_inv_l in Hj as (j & js' & Hj & Hjs & ->).
    destruct (parse_level_ok l j Hl Hj) as (l' & Hp & Hl'). cbn. rewrite Hp. constructor; [done|by apply IH].
Qed.

Lemma level_json_ok l : numbers_ok (level_json l) = true /\ nul_free (level_json l) = true.
Proof.
  unfold level_json. cbn [numbers_ok nul_free forallb fst snd].
  rewrite (proj1 (Itoa_number _)), !(plain_nul_free _ (String_plain _)). done.
Qed.

Lemma snapshot_json_ok bids asks :
  numbers_ok (snapshot_json bids asks) = true /\ nul_free (snapshot_json bids asks) = true.
Proof.
  assert (forall ls, forallb numbers_ok (level_json <$> ls) = true /\ forallb nul_free (level_json <$> ls) = true) as Hls.
  { intros ls. rewrite !forallb_forall. split; intros j Hj%list_elem_of_In;
      apply list_elem_of_fmap in Hj as (l & -> & _); apply level_json_ok. }
  unfold snapshot_json. cbn [numbers_ok nul_free forallb fst snd].
  rewrite !(proj1 (Hls _)), !(proj2 (Hls _)). done.
Qed.

(** The document in the column, read by key. *)
Lemma stored_levels bids asks : Forall count_ok bids -> Forall count_ok asks ->
  exists data doc, jsonb_in (json_Marshal (snapshot_json bids asks)) = Some data /\
    Unmarshal_map data = Some doc /\
    Forall2 level_eq (parsePriceLevels doc "bid_levels") bids /\
    Forall2 level_eq (parsePriceLevels doc "ask_levels") asks.
Proof.
  intros Hb Ha. destruct (snapshot_json_ok bids asks) as [Hn Hz].
  destruct (jsonb_in_valid _ _ (json_Unmarshal_Marshal _ Hn) Hz) as (data & doc & Hd & Hu & He).
  exists data, doc. split; [done|]. split.
  { unfold Unmarshal_map. rewrite Hu. by destruct (json_equiv_obj _ _ He) as [m ->]. }
  unfold parsePriceLevels. split.
  - destruct (json_equiv_get_some _ _ "bid_levels" _ He eq_refl) as (y & -> & Hy).
    destruct (json_equiv_arr _ _ Hy) as (js & -> & Hjs). by apply parse_levels_ok.
  - destruct (json_equiv_get_some _ _ "ask_levels" _ He eq_refl) as (y & -> & Hy).
    destruct (json_equiv_arr _ _ Hy) as (js & -> & Hjs). by apply parse_levels_ok.
Qed.

(** ** Writing and finding a row *)

(** The columns hold the numbers of the snapshot exactly. *)
Record columns_fit (o : OrderbookSnapshot) : Prop := {
  cf_bid d : osBestBidPrice o = Some d -> numeric_fits (dval d);
  cf_ask d : osBestAskPrice o = Some d -> numeric_fits (dval d);
  cf_spread d : osSpread o = Some d -> numeric_fits (dval d);
  cf_bid_volume : numeric_fits (dval (osTotalBidVolume o));
  cf_ask_volume : numeric_fits (dval (osTotalAskVolume o));
  cf_text : varchar_ok 50 (osInstrument o) && varchar_ok 20 (osSnapshotType o)
            && varchar_ok 50 (osTriggeredBy o) = true;
}.

Lemma numeric_opt_ok d : (forall x, d = Some x -> numeric_fits (dval x)) -> exists d', numeric_opt d = Some d'.
Proof.
  intros Hd. destruct d as [d|]; cbn; [|eauto].
  destruct (numeric_in_String d (Hd d eq_refl)) as (d' & -> & _). cbn. eauto.
Qed.

Lemma read_numeric_ok d : read_numeric d ≐ d.
Proof. unfold read_numeric. by destruct (NewFromString_numeric_out d) as (d' & -> & Hd). Qed.

Lemma insert_row_ok t now o data text : columns_fit o -> jsonb_in text = Some data ->
  exists row, insert_row t now o text = Some row /\
    srData row = data /\ srInstrument row = osInstrument o /\ srCreatedAt row = now /\ srID row = tbNext t /\
    srTotalBid row ≐ osTotalBidVolume o /\ srTotalAsk row ≐ osTotalAskVolume o.
Proof.
  intros [Hb Ha Hs Hvb Hva Ht] Hj. unfold insert_row. rewrite Hj. cbn [mbind option_bind].
  destruct (numeric_opt_ok _ Hb) as [b ->]. destruct (numeric_opt_ok _ Ha) as [a ->].
  destruct (numeric_opt_ok _ Hs) as [sp ->]. cbn [mbind option_bind].
  destruct (numeric_in_String _ Hvb) as (vb & -> & Hvb'). destruct (numeric_in_String _ Hva) as (va & -> & Hva').
  cbn [mbind option_bind]. rewrite Ht. by eexists.
Qed.

Lemma get_latest_snoc t n row :
  (forall r, r ∈ tbRows t -> srInstrument r = srInstrument row -> (srCreatedAt r < srCreatedAt row)%Z) ->
  get_latest_snapshot (mkSnapshotTable (tbRows t ++ [row]) n) (srInstrument row) = Some row.
Proof.
  intros Hold. unfold get_latest_snapshot. cbn [tbRows]. rewrite foldl_app. cbn [foldl].
  rewrite bool_decide_eq_true_2 by done. set (f := fun best r => _).
  assert (forall b, foldl f None (tbRows t) = Some b -> (srCreatedAt b < srCreatedAt row)%Z) as Hb.
  { assert (forall b acc, foldl f acc (tbRows t) = Some b -> (forall a, acc = Some a -> (srCreatedAt a < srCreatedAt row)%Z) ->
      (srCreatedAt b < srCreatedAt row)%Z) as Hgen; [|intros b Hb; by eapply Hgen].
    induction (tbRows t) as [|r rs IH]; cbn [foldl]; intros b acc Hf Hacc; [by apply Hacc|].
    apply (IH ltac:(set_solver) b (f acc r) Hf). intros a Ha. unfold f in Ha. case_bool_decide; [|by apply Hacc].
    destruct acc as [c|]; [|simplify_eq; apply Hold; [set_solver|done]].
    destruct (_ <=? _)%Z; simplify_eq; [apply Hold; [set_solver|done]|by apply Hacc]. }
  destruct (foldl f None (tbRows t)) as [b|]; [|done]. specialize (Hb b eq_refl).
  destruct (Z.leb_spec (srCreatedAt b) (srCreatedAt row)); [done|lia].
Qed.
End storage.

(** ** Theorems *)

Section theorems.
Context `{DecimalSpec, UuidSpec, !EnvPkg, BTreeSpec, !PgPkg, !PgSpec, GzipSpec}.
Implicit Types (s : Store) (ob : OrderBook) (sm : SnapshotManager) (t : SnapshotTable).

Definition side_levels (o : OrderbookSnapshot) (b : bool) : list SnapshotPriceLevel :=
  if b then osBidLevels o else osAskLevels o.
Definition side_volume (o : OrderbookSnapshot) (b : bool) : decimal :=
  if b then osTotalBidVolume o else osTotalAskVolume o.

Lemma side_capture sm s ob ty by_ b :
  side_levels (capture_of sm s ob ty by_) b = level_of s <$> (lpRef <$> top_levels ob b (smMaxLevels sm)) /\
  (dval (side_volume (capture_of sm s ob ty by_) b) ==
   Qsum ((fun r => dval (plVolume (get_level s r))) <$> (lpRef <$> top_levels ob b (smMaxLevels sm))))%Q.
Proof. destruct b; cbn; by rewrite capture_levels_fst, capture_levels_total. Qed.

(** The best levels of an uncrossed book are apart. *)
Lemma best_levels_apart s ob lb mb la ma :
  book_inv s ob -> best_levels ob true = lb :: mb -> best_levels ob false = la :: ma ->
  (dval (plPrice (get_level s (lpRef lb))) < dval (plPrice (get_level s (lpRef la))))%Q.
Proof.
  intros [Hwf _ Hunc] Hb Ha. pose proof (best_level_extreme s ob Hwf) as Hbest.
  destruct (Hbest _ _ _ Hb) as [_ (eb & Heb & Hpb)]. destruct (Hbest _ _ _ Ha) as [_ (ea & Hea & Hpa)].
  specialize (Hunc eb ea Heb Hea). unfold deq in *. lra.
Qed.

(** What a captured level says about a level of the book. *)
Definition describes s (l : SnapshotPriceLevel) (lp : LevelPtr) : Prop :=
  slPrice l = lpPrice lp /\ slOrderCount l = Z.of_nat (length (elems_of s lp)) /\
  (dval (slTotalVolume l) == Qsum (erem s <$> elems_of s lp))%Q.

Lemma level_of_describes s ob b lp : book_wf s ob -> lp ∈ best_levels ob b ->
  describes s (level_of s (lpRef lp)) lp.
Proof.
  intros Hwf Hlp. pose proof (bw_level _ _ _ _ Hwf Hlp) as [Hok _].
  split_and!; [apply (lw_price _ _ _ Hok)|done|apply (lw_volume _ _ _ Hok)].
Qed.

(** A capture describes the top of the book.  It holds the best
    [maxLevels] levels of each side in order, each with its price, the number
    of its orders and what they have left; the totals are those of these
    levels, the spread of an uncrossed book is positive, and the book is
    unchanged.  It panics exactly for a bound [make] rejects. *)
Theorem capture_describes_book sm s ob ty by_ :
  book_inv s ob ->
  match captureOrderbook sm s ob ty by_ with
  | None => make_levels_ok (smMaxLevels sm) = false
  | Some (snap, s1) =>
      orders s1 = orders s /\ levels s1 = levels s /\
      (forall b, Forall2 (describes s) (side_levels snap b) (top_levels ob b (smMaxLevels sm)) /\
         (dval (side_volume snap b) ==
          Qsum (erem s <$> (top_levels ob b (smMaxLevels sm) ≫= elems_of s)))%Q) /\
      (forall d, osSpread snap = Some d -> 0 < dval d)%Q
  end.
Proof.
  intros Hinv. pose proof (bi_wf _ _ Hinv) as Hwf. destruct (make_levels_ok (smMaxLevels sm)) eqn:Hn.
  2: { unfold captureOrderbook. cbn [read_clock]. by rewrite Hn. }
  rewrite capture_eq by done. split_and!; [done..| |].
  - intros b. destruct (side_capture sm s ob ty by_ b) as [-> ->].
    assert (forall lp, lp ∈ top_levels ob b (smMaxLevels sm) -> lp ∈ best_levels ob b) as Hin
      by (intros lp (i & Hi & _)%elem_of_take; by eapply list_elem_of_lookup_2).
    split.
    + rewrite <- list_fmap_compose. apply Forall2_fmap_l, Forall_Forall2_diag, Forall_forall.
      intros lp Hlp. apply (level_of_describes s ob b lp Hwf). auto.
    + rewrite <- list_fmap_compose, Qsum_bind. apply Qsum_ext. intros lp Hlp.
      apply (lw_volume _ _ _ (bw_level _ _ _ _ Hwf (Hin _ Hlp))).
  - intros d. cbn [osSpread capture_of]. rewrite !capture_levels_fst. unfold top_levels.
    destruct (best_levels ob true) as [|lb mb] eqn:Hb; [by rewrite take_nil|].
    destruct (best_levels ob false) as [|la ma] eqn:Ha;
      [rewrite take_nil; by destruct (take _ _)|].
    destruct (Z.to_nat (smMaxLevels sm)) as [|k]; [done|]. cbn. intros Hd. simplify_eq.
    rewrite dval_Sub. pose proof (best_levels_apart _ _ _ _ _ _ Hinv Hb Ha). lra.
Qed.

(** The document of a snapshot, as [json.Marshal] writes it. *)
Definition snapshot_text (o : OrderbookSnapshot) : string :=
  json_Marshal (snapshot_json (osBidLevels o) (osAskLevels o)).

(** C18: validation is exact.  [ValidateAgainstLiveBook] reports no mismatch
    exactly when the snapshot shows the same levels and totals as the book
    does now, as numbers. *)
Theorem validation_exact sm s ob snap :
  make_levels_ok (smMaxLevels sm) = true ->
  exists ms s1, ValidateAgainstLiveBook sm s ob snap = Some (ms, s1) /\
    (ms = [] <-> same_view snap (capture_of sm s ob SnapshotTypeRecovery "validation")).
Proof. intros Hn. destruct (Validate_nil sm s ob snap Hn) as (ms & He & Hiff). eauto. Qed.

(** Taking a snapshot and validating the latest one. *)
Lemma take_and_validate sm s ob t now ty by_ :
  make_levels_ok (smMaxLevels sm) = true ->
  final_data sm (snapshot_text (capture_of sm s ob ty by_)) = snapshot_text (capture_of sm s ob ty by_) ->
  columns_fit (capture_of sm s ob ty by_) ->
  Forall count_ok (osBidLevels (capture_of sm s ob ty by_)) ->
  Forall count_ok (osAskLevels (capture_of sm s ob ty by_)) ->
  (forall r, r ∈ tbRows t -> srInstrument r = smInstrument sm -> (srCreatedAt r < now)%Z) ->
  exists t' s1 s2,
    TakeSnapshot sm s ob t None now ty by_ = Some (None, t', s1) /\
    ValidateLatestSnapshot sm s1 ob t' None = Some (inr [], s2).
Proof.
  intros Hn Hfinal Hfit Hcb Hca Hnew. unfold TakeSnapshot. rewrite capture_eq by done. cbn [mbind option_bind].
  set (o := capture_of sm s ob ty by_) in *.
  destruct (stored_levels _ _ Hcb Hca) as (data & doc & Hj & Hu & Hbids & Hasks).
  destruct (insert_row_ok t now o data _ Hfit Hj) as (row & Hrow & Hd & Hi & Hc & _ & Hvb & Hva).
  unfold saveSnapshot. change (json_Marshal (snapshot_json _ _)) with (snapshot_text o). rewrite Hfinal.
  change (snapshot_text o) with (json_Marshal (snapshot_json (osBidLevels o) (osAskLevels o))). rewrite Hrow. eexists _, _, _. split; [reflexivity|].
  unfold ValidateLatestSnapshot, GetLatestSnapshot.
  change (smInstrument sm) with (osInstrument o). rewrite <- Hi, get_latest_snoc by (rewrite Hi, Hc; apply Hnew).
  rewrite Hd, Hu.
  match goal with |- context [ValidateAgainstLiveBook sm ?s1 ob ?snap] =>
    destruct (Validate_nil sm s1 ob snap Hn) as (ms & -> & Hms) end.
  cbn [mbind option_bind]. repeat f_equal. apply Hms. split; cbn [osBidLevels osAskLevels osTotalBidVolume osTotalAskVolume].
  - exact Hbids.
  - exact Hasks.
  - transitivity (srTotalBid row); [apply read_numeric_ok|exact Hvb].
  - transitivity (srTotalAsk row); [apply read_numeric_ok|exact Hva].
Qed.

(** C19: the round trip through the database.  A snapshot that is written
    uncompressed, whose numbers the columns hold and which is the newest of its
    instrument, is the one read back, and validating it against the unchanged
    book finds nothing. *)
Theorem snapshot_round_trip sm s ob t now ty by_ :
  make_levels_ok (smMaxLevels sm) = true ->
  final_data sm (snapshot_text (capture_of sm s ob ty by_)) = snapshot_text (capture_of sm s ob ty by_) ->
  columns_fit (capture_of sm s ob ty by_) ->
  Forall count_ok (osBidLevels (capture_of sm s ob ty by_)) ->
  Forall count_ok (osAskLevels (capture_of sm s ob ty by_)) ->
  (forall r, r ∈ tbRows t -> srInstrument r = smInstrument sm -> (srCreatedAt r < now)%Z) ->
  exists t' s1 s2,
    TakeSnapshot sm s ob t None now ty by_ = Some (None, t', s1) /\
    ValidateLatestSnapshot sm s1 ob t' None = Some (inr [], s2).
Proof. apply take_and_validate. Qed.

(** A compressed snapshot is lost.  When compression replaces the
    document, the column rejects it: [TakeSnapshot] reports an error and the
    table stays as it was. *)
Theorem compressed_snapshot_lost sm s ob t now ty by_ :
  let text := snapshot_text (capture_of sm s ob ty by_) in
  make_levels_ok (smMaxLevels sm) = true ->
  final_data sm text <> text ->
  exists err s1, TakeSnapshot sm s ob t None now ty by_ = Some (Some err, t, s1).
Proof.
  intros text Hn Hz. unfold TakeSnapshot. rewrite capture_eq by done. cbn [mbind option_bind].
  unfold saveSnapshot. change (json_Marshal (snapshot_json _ _)) with text. unfold final_data in *.
  destruct (smEnableCompression sm && _); [|done]. destruct (gzip_Write text) as [z|] eqn:Hg; [|done].
  destruct (f_le _ _); [done|]. unfold insert_row.
  rewrite (jsonb_in_invalid z) by (by eapply gzip_not_json). cbn. eauto.
Qed.

(** ** The life cycle *)

Definition fresh_life (instrument : string) (interval maxLevels : Z) : life :=
  LLive (NewSnapshotManager instrument interval maxLevels) [].

(** While the stop channel is open there is a loop exactly when the manager
    runs, and no final snapshot has been taken. *)
Definition life_inv (interval : Z) (l : life) : Prop :=
  match l with
  | LLive sm taken =>
      smSnapshotInterval sm = interval /\
      (smStopClosed sm = false ->
       smWg sm = (if smRunning sm then 1 else 0) /\ SnapshotTypePreShutdown ∉ taken)
  | LPanic => True
  end.

Lemma life_step_inv interval l l' : life_inv interval l -> life_step l l' -> life_inv interval l'.
Proof.
  intros Hinv Hstep. destruct Hstep; cbn in *; try done; destruct Hinv as [Hi Hinv].
  - unfold Start. destruct (smRunning sm) eqn:Hr; [split; [done|by rewrite Hr]|]. split; [done|]. cbn. intros Hc.
    destruct (Hinv Hc) as [-> ?]. done.
  - unfold Stop in *. destruct (smRunning sm) eqn:Hr; cbn in *; [|simplify_eq; split; [done|by rewrite Hr]].
    destruct (smStopClosed sm) eqn:Hc; simplify_eq. done.
  - split; [done|]. intros Hc. destruct (Hinv Hc) as [? Hnot]. split; [done|].
    rewrite elem_of_app, list_elem_of_singleton. by intros [?|?].
  - split; [done|]. congruence.
Qed.

(** The life cycle.  In every reachable state of a manager with a positive
    interval, no final snapshot is taken before a stop and at most one loop
    runs; the process crashes only by stopping a manager that was started again
    after a stop, and then it does, since the stop channel is closed already. *)
Theorem manager_life instrument interval maxLevels sm taken :
  (0 < interval)%Z ->
  rtc life_step (fresh_life instrument interval maxLevels) (LLive sm taken) ->
  (smStopClosed sm = false -> smWg sm <= 1 /\ SnapshotTypePreShutdown ∉ taken) /\
  (life_step (LLive sm taken) LPanic <-> smRunning sm = true /\ smStopClosed sm = true) /\
  (forall sm', smRunning sm = true -> Stop sm = Some sm' -> Stop (Start sm') = None).
Proof.
  intros Hpos Hreach.
  assert (life_inv interval (LLive sm taken)) as [Hi Hinv].
  { remember (fresh_life _ _ _) as l0 eqn:Hl0. assert (life_inv interval l0) as Hl by (subst; split; [done|]; split; [done|apply not_elem_of_nil]).
    clear Hl0. induction Hreach; eauto using life_step_inv. }
  split_and!.
  - intros Hc. destruct (Hinv Hc) as [-> ?]. split; [destruct (smRunning sm); lia|done].
  - split.
    + inversion 1; subst; [|lia]. rename select (Stop sm = None) into Hs.
      unfold Stop in Hs. by destruct (smRunning sm), (smStopClosed sm).
    + intros [Hr Hc]. apply ls_stop_panic. unfold Stop. by rewrite Hr, Hc.
  - intros sm' Hr Hs. unfold Stop in Hs. rewrite Hr in Hs. cbn in Hs.
    destruct (smStopClosed sm); simplify_eq. done.
Qed.
End theorems.

(** ** Instances on the demonstration book *)

Module SnapshotInstances.
Import Concrete ConcretePg Demo.

Definition sm10 : SnapshotManager := SetCompression (NewSnapshotManager "BTC-USD" 60 10) false.

Definition snap4 : OrderbookSnapshot :=
  capture_of sm10 (heap book4) (orderBook book4) "periodic" "timer".

Lemma capture_describes_book_witness :
  book_inv (heap book4) (orderBook book4) /\ osSpread snap4 = Some 2%Q /\
  (0 < dval 2%Q)%Q /\ (dval (side_volume snap4 false) == Qsum (erem (heap book4) <$>
     (top_levels (orderBook book4) false (smMaxLevels sm10) ≫= elems_of (heap book4))))%Q.
Proof.
  pose proof (capture_describes_book sm10 (heap book4) (orderBook book4) "periodic" "timer" book4_inv) as Hc.
  rewrite (capture_eq sm10 (heap book4) (orderBook book4) "periodic" "timer" eq_refl) in Hc.
  destruct Hc as (_ & _ & Hv & Hs). assert (osSpread snap4 = Some 2%Q) as Hsp by (vm_compute; reflexivity).
  split; [exact book4_inv|]. split; [exact Hsp|]. split; [exact (Hs 2%Q Hsp)|].
  exact (proj2 (Hv false)).
Defined.

Lemma validation_exact_witness :
  make_levels_ok (smMaxLevels sm10) = true /\
  exists ms s1, ValidateAgainstLiveBook sm10 (heap book4) (orderBook book4) snap4 = Some (ms, s1) /\
    (ms = [] <-> same_view snap4 (capture_of sm10 (heap book4) (orderBook book4) SnapshotTypeRecovery "validation")).
Proof.
  split; [reflexivity|].
  exact (validation_exact sm10 (heap book4) (orderBook book4) snap4 eq_refl).
Defined.

Definition no_rows : SnapshotTable := mkSnapshotTable [] 1.

(** A numeral as a column value. *)
Ltac fits n := exists n; split; [vm_compute; reflexivity|vm_compute; reflexivity].

Lemma option_fits (o : option Q) (q d : Q) : o = Some q -> numeric_fits q -> o = Some d -> numeric_fits d.
Proof. intros Ho Hq Hd. assert (q = d) as <- by congruence. exact Hq. Qed.

Lemma snap4_fits : columns_fit snap4.
Proof.
  split.
  - intros d. apply (option_fits _ 99%Q d); [vm_compute; reflexivity|fits 9900000000%Z].
  - intros d. apply (option_fits _ 101%Q d); [vm_compute; reflexivity|fits 10100000000%Z].
  - intros d. apply (option_fits _ 2%Q d); [vm_compute; reflexivity|fits 200000000%Z].
  - fits 400000000%Z.
  - fits 1500000000%Z.
  - reflexivity.
Qed.

Lemma counts_ok (l : list SnapshotPriceLevel) :
  forallb (fun n => (0 <=? n) && (n <=? 2 ^ 53))%Z (slOrderCount <$> l) = true -> Forall count_ok l.
Proof.
  rewrite forallb_forall. intros Hl. apply Forall_forall. intros x Hx. unfold count_ok.
  specialize (Hl (slOrderCount x)). rewrite <- list_elem_of_In in Hl.
  specialize (Hl (list_elem_of_fmap_2 _ _ _ Hx)). lia.
Qed.

Lemma snap4_counts : Forall count_ok (osBidLevels snap4) /\ Forall count_ok (osAskLevels snap4).
Proof. split; apply counts_ok; vm_compute; reflexivity. Qed.

Lemma snapshot_round_trip_witness :
  exists t' s1 s2,
    TakeSnapshot sm10 (heap book4) (orderBook book4) no_rows None 7 "periodic" "timer" = Some (None, t', s1) /\
    ValidateLatestSnapshot sm10 s1 (orderBook book4) t' None = Some (inr [], s2).
Proof.
  refine (snapshot_round_trip sm10 (heap book4) (orderBook book4) no_rows 7 "periodic" "timer" eq_refl _
            snap4_fits (proj1 snap4_counts) (proj2 snap4_counts) _).
  - reflexivity.
  - intros r Hr. by apply not_elem_of_nil in Hr.
Defined.

(** Twenty levels of asks, and the compression the constructor switches on. *)
Definition wide : MatchingEngine :=
  foldl (fun me i => submit me (limit ("s" +:+ pretty i) "sell" (100 + inject_Z (Z.of_nat i))%Q 5)) engine0 (seq 0 20).
Definition smz : SnapshotManager := NewSnapshotManager "BTC-USD" 60 100.
Definition wide_text : string := snapshot_text (capture_of smz (heap wide) (orderBook wide) "periodic" "timer").

Lemma compressed_snapshot_lost_witness :
  String.length wide_text = 1252 /\
  exists err s1, TakeSnapshot smz (heap wide) (orderBook wide) no_rows None 7 "periodic" "timer"
                 = Some (Some err, no_rows, s1).
Proof.
  split; [vm_compute; reflexivity|].
  refine (compressed_snapshot_lost smz (heap wide) (orderBook wide) no_rows 7 "periodic" "timer" eq_refl _).
  change (final_data smz wide_text <> wide_text). intros Heq.
  apply (f_equal String.length) in Heq. vm_compute in Heq. discriminate Heq.
Defined.

Definition started : SnapshotManager := Start (NewSnapshotManager "BTC-USD" 60 10).

Lemma manager_life_witness :
  rtc life_step (fresh_life "BTC-USD" 60 10) (LLive started []) /\
  exists sm', Stop started = Some sm' /\ Stop (Start sm') = None.
Proof.
  assert (rtc life_step (fresh_life "BTC-USD" 60 10) (LLive started [])) as Hr
    by (eapply rtc_l; [apply ls_start|apply rtc_refl]).
  split; [exact Hr|].
  destruct (manager_life "BTC-USD" 60 10 started [] eq_refl Hr) as (_ & _ & Hs).
  eexists. split; [reflexivity|]. apply Hs; reflexivity.
Defined.
End SnapshotInstances.
