(* ===== verification/Recovery.v ===== *)
(** * The recovery manager (src/engine/recovery_manager.go)

    Rebuilding the book from the table [orders_snapshot], the checks of the
    result against the database and the report.  The answers of the database
    are arguments: the outcome of [GetLatestSnapshot], the rows of the query for
    open orders with the errors a row set can have, and the outcome of the query
    for the totals.  [RecoveryReport] is split along the groups the struct is
    declared in.  The log output ([printRecoveryReport] and the diff summary)
    has no effect on the state. *)

From Stdlib Require Import Ascii.
From S2P Require Import Prelude.
From S2P Require Import Float.
From S2P Require Import Json.
From S2P Require Import External.
From S2P Require Import Models.
From S2P Require Import Sql.
From S2P Require Import OrderBook.
From S2P Require Import Snapshot.

Section recovery.
Context `{DecimalPkg, !DecimalFloat, UuidPkg, BTreePkg, !PgPkg, !EnvPkg}.

(** ** Data *)

Record RecoveryManager := mkRecoveryManager { rmInstrument : string }.

Definition NewRecoveryManager (instrument : string) : RecoveryManager := mkRecoveryManager instrument.

Record RecoveryOptions := mkRecoveryOptions { optDryRun : bool; optVerbose : bool; optFailOnError : bool }.

Record RecoveryDiff := mkRecoveryDiff {
  rdField : string;
  rdRecoveredValue : string;
  rdExpectedValue : string;
  rdDifference : string;
  rdSeverity : string;
  rdDescription : string;
}.

Record ReportRun := mkReportRun {
  rrStartTime : Z;
  rrEndTime : Z;
  rrDuration : Z;
  rrRecoveryMethod : string;
  rrDryRun : bool;
}.

Record ReportSnapshot := mkReportSnapshot {
  rsSnapshotUsed : bool;
  rsSnapshotID : Z;
  rsSnapshotTimestamp : Z;
  rsSnapshotBidLevels : nat;
  rsSnapshotAskLevels : nat;
}.

Record ReportReplay := mkReportReplay {
  rpEventsReplayed : nat;
  rpOrdersRestored : nat;
  rpEventsSinceSnapshot : Z;
}.

(** The before group, and the after group without its best prices. *)
Record ReportDepth := mkReportDepth {
  rbTotalBidVolume : decimal;
  rbTotalAskVolume : decimal;
  rbBidLevels : nat;
  rbAskLevels : nat;
}.

Record ReportAfter := mkReportAfter {
  raDepth : ReportDepth;
  raBestBid : option decimal;
  raBestAsk : option decimal;
  raSpread : option decimal;
}.

Record DatabaseTotals := mkDatabaseTotals {
  dtTotalBidVolume : decimal;
  dtTotalAskVolume : decimal;
  dtOpenOrderCount : Z;
  dtOpenBuyOrderCount : Z;
  dtOpenSellOrderCount : Z;
}.

(** [Diffs], [ValidationPassed] and [ValidationErrors]. *)
Record ReportVerdict := mkReportVerdict {
  rvDiffs : list RecoveryDiff;
  rvPassed : bool;
  rvErrors : list string;
}.

Record ReportTimes := mkReportTimes {
  rtSnapshotLoadTime : Z;
  rtEventReplayTime : Z;
  rtValidationTime : Z;
}.

Record RecoveryReport := mkRecoveryReport {
  rcRun : ReportRun;
  rcSnapshot : ReportSnapshot;
  rcReplay : ReportReplay;
  rcBefore : ReportDepth;
  rcAfter : ReportAfter;
  rcDatabase : option DatabaseTotals;   (** [None]: the database group was not assigned *)
  rcVerdict : ReportVerdict;
  rcTimes : ReportTimes;
}.

Definition no_depth : ReportDepth := mkReportDepth decimal_Zero decimal_Zero 0 0.
Definition no_after : ReportAfter := mkReportAfter no_depth None None None.
Definition no_verdict : ReportVerdict := mkReportVerdict [] false [].

(** ** Loading the open orders *)

(** A row of [orders_snapshot], as far as it is read.  The price column of
    docker/init.sql may be NULL. *)
Record OrderRow := mkOrderRow {
  orOrderID : string;
  orInstrument : string;
  orSide : string;
  orPrice : option decimal;
  orQuantity : decimal;
  orFilledQuantity : decimal;
  orStatus : string;
  orCreatedAt : Z;
  orUpdatedAt : Z;
}.

(** The order of a scanned row; [None] is a row the loop skips. *)
Definition order_of_row (row : OrderRow) (price : decimal) : option Order :=
  price ← decimal_NewFromString (numeric_out price);
  quantity ← decimal_NewFromString (numeric_out (orQuantity row));
  filledQty ← decimal_NewFromString (numeric_out (orFilledQuantity row));
  let orderSide := if bool_decide (orSide row = "buy") then OrderSideBuy else OrderSideSell in
  orderStatus ← (if bool_decide (orStatus row = "open") then Some OrderStatusOpen
                 else if bool_decide (orStatus row = "partially_filled") then Some OrderStatusPartiallyFilled
                 else None);
  orderUUID ← uuid_Parse (orOrderID row);
  Some (mkOrder orderUUID "" (orInstrument row) orderSide OrderTypeLimit price quantity filledQty orderStatus
          (orCreatedAt row) (orUpdatedAt row)).

(** The loop over the rows: every order is a fresh object. *)
Fixpoint load_rows (rows : list OrderRow) (orders : list oref) (s : Store) : result (list oref) * Store :=
  match rows with
  | [] => (inr orders, s)
  | row :: rows' =>
      match orPrice row with
      | None => (inl (ErrWrap "failed to scan order" scan_null), s)
      | Some price =>
          match order_of_row row price with
          | None => load_rows rows' orders s
          | Some order => let '(r, s1) := alloc_order s order in load_rows rows' (orders ++ [r]) s1
          end
      end
  end.

(** The answer to the query for open orders: an error, or the rows and the
    error [rows.Err] reports after the last one. *)
Definition OpenOrders : Type := result (list OrderRow * option error).

Definition loadOpenOrders (answer : OpenOrders) (s : Store) : result (list oref) * Store :=
  match answer with
  | inl err => (inl (ErrWrap "failed to query orders" err), s)
  | inr (rows, rowsErr) =>
      match load_rows rows [] s with
      | (inl err, s1) => (inl err, s1)
      | (inr orders, s1) =>
          match rowsErr with
          | Some err => (inl (ErrWrap "error iterating orders" err), s1)
          | None => (inr orders, s1)
          end
      end
  end.

(** The rows the query selects and the order it returns them in. *)
Definition open_row (instrument : string) (row : OrderRow) : Prop :=
  orInstrument row = instrument /\ (orStatus row = "open" \/ orStatus row = "partially_filled").
#[global] Instance open_row_dec instrument row : Decision (open_row instrument row).
Proof. unfold open_row. apply _. Defined.

Definition answers_open (table : list OrderRow) (instrument : string) (rows : list OrderRow) : Prop :=
  rows ≡ₚ filter (open_row instrument) table /\
  StronglySorted (fun a b => orCreatedAt a <= orCreatedAt b)%Z rows.

(** ** The totals of the database *)

Definition sum_column (f : OrderRow -> decimal) (rows : list OrderRow) : decimal :=
  foldr (fun r v => decimal_Add (f r) v) decimal_Zero rows.
Definition remaining_if (side : string) (row : OrderRow) : decimal :=
  if bool_decide (orSide row = side) then decimal_Sub (orQuantity row) (orFilledQuantity row) else decimal_Zero.
Definition count_if (side : string) (rows : list OrderRow) : Z :=
  Z.of_nat (length (filter (fun r => orSide r = side) rows)).

Definition getDatabaseTotals (rm : RecoveryManager) (table : list OrderRow) (fault : option error)
    : result DatabaseTotals :=
  match fault with
  | Some err => inl (ErrWrap "failed to query totals" err)
  | None =>
      let rows := filter (open_row (rmInstrument rm)) table in
      inr (mkDatabaseTotals
        (read_numeric (sum_column (remaining_if "buy") rows))
        (read_numeric (sum_column (remaining_if "sell") rows))
        (Z.of_nat (length rows)) (count_if "buy" rows) (count_if "sell" rows))
  end.

(** ** The state after recovery *)

Definition sum_levels (s : Store) (v : decimal) (ls : list lref) : decimal :=
  foldl (fun v level => decimal_Add v (plVolume (get_level s level))) v ls.

Definition capturePostRecoveryState (s : Store) (ob : OrderBook) (after : ReportAfter) : option ReportAfter :=
  '(bidLevels, askLevels) ← GetTopLevels ob 100;
  let depth := mkReportDepth (sum_levels s (rbTotalBidVolume (raDepth after)) bidLevels)
                 (sum_levels s (rbTotalAskVolume (raDepth after)) askLevels)
                 (length bidLevels) (length askLevels) in
  let bestBid := match GetBestBid ob with
                 | Some lp => Some (plPrice (get_level s (lpRef lp))) | None => raBestBid after end in
  let bestAsk := match GetBestAsk ob with
                 | Some lp => Some (plPrice (get_level s (lpRef lp))) | None => raBestAsk after end in
  let spread := match bestBid, bestAsk with
                | Some bid, Some ask => Some (decimal_Sub ask bid)
                | _, _ => raSpread after
                end in
  Some (mkReportAfter depth bestBid bestAsk spread).

(** ** Validation *)

Definition add_error (v : ReportVerdict) (err : string) : ReportVerdict :=
  mkReportVerdict (rvDiffs v) false (rvErrors v ++ [err]).
Definition add_diff (v : ReportVerdict) (d : RecoveryDiff) : ReportVerdict :=
  mkReportVerdict (rvDiffs v ++ [d]) (rvPassed v) (rvErrors v).

(** [0.00000001]. *)
Definition tolerance : decimal := decimal_NewFromFloat 1 8.

(** [string(volumeType[0]-32) + volumeType[1:]]. *)
Definition display_type (volumeType : string) : string :=
  match volumeType with
  | EmptyString => ""
  | String c rest => String (chr (nat_of_ascii c - 32)) rest
  end.

(** [fmt.Sprintf("%.2f", x)] for a finite float64. *)
Definition fmt_2f (x : float64) : string :=
  let n := rne (Qabs.Qabs x * 100)%Q in
  (if Qle_bool 0 x then "" else "-") +:+ Itoa (n / 100) +:+ "."
    +:+ Itoa (n / 10 mod 10) +:+ Itoa (n mod 10).

Definition validateVolumeWithTolerance (v : ReportVerdict) (volumeType : string) (recoveredVol dbVol : decimal)
    (verbose : bool) : ReportVerdict :=
  let diff := decimal_Sub recoveredVol dbVol in
  if decimal_GreaterThan (decimal_Abs diff) tolerance then
    let err := display_type volumeType +:+ " volume mismatch: orderbook=" +:+ decimal_String recoveredVol
               +:+ ", database=" +:+ decimal_String dbVol +:+ ", diff=" +:+ decimal_String diff in
    let diffPercent :=
      if decimal_IsZero dbVol then decimal_Zero
      else decimal_Mul (decimal_Div diff dbVol) (decimal_NewFromInt 100) in
    add_diff (add_error v err)
      (mkRecoveryDiff (volumeType +:+ "_volume") (decimal_String recoveredVol) (decimal_String dbVol)
         (decimal_String diff +:+ " (" +:+ fmt_2f (decimal_InexactFloat64 diffPercent) +:+ "%)") "error"
         ("Recovered " +:+ volumeType +:+ " volume does not match database total"))
  else if verbose && negb (decimal_IsZero diff) then
    add_diff v
      (mkRecoveryDiff (volumeType +:+ "_volume") (decimal_String recoveredVol) (decimal_String dbVol)
         (decimal_String diff) "info" ("Tiny " +:+ volumeType +:+ " volume difference within tolerance"))
  else v.

Definition check_loaded (ordersRestored : nat) (after : ReportAfter) (v : ReportVerdict) : ReportVerdict :=
  if bool_decide (ordersRestored = 0)
     && (bool_decide (0 < rbBidLevels (raDepth after)) || bool_decide (0 < rbAskLevels (raDepth after)))
  then add_error v "Orderbook has levels but no orders were loaded" else v.

(** A value that must not be negative: the error and the diff. *)
Definition check_sign (value : decimal) (err field description : string) (v : ReportVerdict) : ReportVerdict :=
  if decimal_IsNegative value then
    add_diff (add_error v err)
      (mkRecoveryDiff field (decimal_String value) ">= 0" (decimal_String value) "error" description)
  else v.

Definition check_spread (after : ReportAfter) (v : ReportVerdict) : ReportVerdict :=
  match raSpread after with
  | None => v
  | Some spread =>
      check_sign spread
        ("Negative spread: " +:+ decimal_String spread
         +:+ " (bid=" +:+ default "<nil>" (decimal_String <$> raBestBid after)
         +:+ ", ask=" +:+ default "<nil>" (decimal_String <$> raBestAsk after) +:+ ")")
        "spread" "Crossed book detected - best ask < best bid" v
  end.

(** The diff both branches of the count check append. *)
Definition count_diff (after : ReportAfter) (totals : DatabaseTotals) : RecoveryDiff :=
  mkRecoveryDiff "ask_order_count" (Itoa (Z.of_nat (rbAskLevels (raDepth after))))
    (Itoa (dtOpenSellOrderCount totals) +:+ " orders") "N/A" "info"
    "Orderbook levels vs database orders (levels may aggregate multiple orders)".

Definition check_totals (after : ReportAfter) (totals : DatabaseTotals) (verbose : bool) (v : ReportVerdict)
    : ReportVerdict :=
  let v1 := validateVolumeWithTolerance v "bid" (rbTotalBidVolume (raDepth after)) (dtTotalBidVolume totals) verbose in
  let v2 := validateVolumeWithTolerance v1 "ask" (rbTotalAskVolume (raDepth after)) (dtTotalAskVolume totals) verbose in
  if verbose then
    let v3 := if (0 <? dtOpenBuyOrderCount totals)%Z then add_diff v2 (count_diff after totals) else v2 in
    if (0 <? dtOpenSellOrderCount totals)%Z then add_diff v3 (count_diff after totals) else v3
  else v2.

Definition validateRecoveryWithDiffs (ordersRestored : nat) (after : ReportAfter)
    (dbTotals : result DatabaseTotals) (verbose : bool) : ReportVerdict * option DatabaseTotals :=
  let v0 := mkReportVerdict [] true [] in
  let v1 := check_loaded ordersRestored after v0 in
  let bidVolume := rbTotalBidVolume (raDepth after) in
  let askVolume := rbTotalAskVolume (raDepth after) in
  let v2 := check_sign bidVolume ("Negative bid volume: " +:+ decimal_String bidVolume) "total_bid_volume"
              "Bid volume must be non-negative" v1 in
  let v3 := check_sign askVolume ("Negative ask volume: " +:+ decimal_String askVolume) "total_ask_volume"
              "Ask volume must be non-negative" v2 in
  let v4 := check_spread after v3 in
  match dbTotals with
  | inr totals => (check_totals after totals verbose v4, Some totals)
  | inl _ => (v4, None)
  end.

(** ** Recovery *)

Fixpoint add_orders (orders : list oref) (s : Store) (ob : OrderBook) : Store * OrderBook :=
  match orders with
  | [] => (s, ob)
  | order :: orders' => let '(s1, ob1) := AddOrder s ob order in add_orders orders' s1 ob1
  end.

(** What the database answers to the three queries, in the order they are
    sent. *)
Record Answers := mkAnswers {
  anSnapshot : result OrderbookSnapshot;
  anOrders : OpenOrders;
  anTotals : result DatabaseTotals;
}.

Definition snapshot_group (a : Answers) : ReportSnapshot :=
  match anSnapshot a with
  | inr snapshot => mkReportSnapshot true (osSnapshotID snapshot) (osSnapshotTimestamp snapshot)
                      (length (osBidLevels snapshot)) (length (osAskLevels snapshot))
  | inl _ => mkReportSnapshot false 0 0 0 0
  end.

(** The report, the error, the store, the live book and the book the report is
    about, which for a dry run is a temporary one.  [None] would be a panic of
    [GetTopLevels]. *)
Definition RecoverOrderbookWithOptions (rm : RecoveryManager) (a : Answers) (opts : RecoveryOptions)
    (s : Store) (orderbook : OrderBook)
    : option (RecoveryReport * option error * Store * OrderBook * OrderBook) :=
  let '(startTime, s) := read_clock s in
  let '(snapshotStart, s) := read_clock s in
  let '(snapshotEnd, s) := read_clock s in
  let loadTime := (snapshotEnd - snapshotStart)%Z in
  let sn := snapshot_group a in
  let method0 := if rsSnapshotUsed sn then "" else "full_replay" in
  let '(replayStart, s) := read_clock s in
  match loadOpenOrders (anOrders a) s with
  | (inl err, s) =>
      Some (mkRecoveryReport (mkReportRun startTime 0 0 method0 (optDryRun opts)) sn (mkReportReplay 0 0 0)
              no_depth no_after None no_verdict (mkReportTimes loadTime 0 0),
            Some (ErrWrap "failed to load open orders" err), s, orderbook, orderbook)
  | (inr orders, s) =>
      let '(s, tempOrderbook) :=
        add_orders orders s (if optDryRun opts then NewOrderBook (rmInstrument rm) else orderbook) in
      let liveOrderbook := if optDryRun opts then orderbook else tempOrderbook in
      let '(replayEnd, s) := read_clock s in
      let '(since, method, s) :=
        if rsSnapshotUsed sn then
          let '(now, s) := read_clock s in ((now - rsSnapshotTimestamp sn)%Z, "snapshot_plus_orders", s)
        else (0%Z, method0, s) in
      after ← capturePostRecoveryState s tempOrderbook no_after;
      let '(validationStart, s) := read_clock s in
      let '(verdict, database) :=
        validateRecoveryWithDiffs (length orders) after (anTotals a) (optVerbose opts) in
      let '(validationEnd, s) := read_clock s in
      let '(endTime, s) := read_clock s in
      Some (mkRecoveryReport
              (mkReportRun startTime endTime (endTime - startTime) method (optDryRun opts)) sn
              (mkReportReplay 0 (length orders) since) no_depth after database verdict
              (mkReportTimes loadTime (replayEnd - replayStart) (validationEnd - validationStart)),
            None, s, liveOrderbook, tempOrderbook)
  end.

Definition RecoverOrderbook (rm : RecoveryManager) (a : Answers) (s : Store) (orderbook : OrderBook) :=
  RecoverOrderbookWithOptions rm a (mkRecoveryOptions false false false) s orderbook.

(** The age of the latest snapshot is only logged. *)
Definition QuickRecoveryCheck (ping : option error) (totals : result DatabaseTotals) : option error :=
  match ping with
  | Some err => Some (ErrWrap "database not available" err)
  | None =>
      match totals with
      | inl err => Some (ErrWrap "failed to query database totals" err)
      | inr _ => None
      end
  end.
End recovery.
