(* ===== verification/RecoveryTheorems.v ===== *)
(** * Properties of the recovery manager

    The book recovery builds from the stored orders, what a dry run leaves
    alone, what the validation decides, and the verdict of a recovery from the
    database's own table. *)

From S2P Require Import Prelude.
From S2P Require Import Float.
From S2P Require Import Json.
From S2P Require Import External.
From S2P Require Import Models.
From S2P Require Import Sql.
From S2P Require Import OrderBook.
From S2P Require Import OrderBookFacts.
From S2P Require Import Matching.
From S2P Require Import MatchingFacts.
From S2P Require Import MatchingLoops.
From S2P Require Import MatchingSpec.
From S2P Require Import MatchingProps.
From S2P Require Import MatchingTheorems.
From S2P Require Import OrderBookTheorems.
From S2P Require Import Snapshot.
From S2P Require Import SnapshotTheorems.
From S2P Require Import Recovery.

Section facts.
Context `{DecimalSpec, !DecimalFloat, UuidSpec, BTreeSpec, !PgPkg, !PgSpec, !EnvPkg}.
Implicit Types (s : Store) (ob : OrderBook) (lp : LevelPtr) (e : Element) (b : bool).

(** ** Loading *)

(** The orders of the rows that are not skipped. *)
Definition row_order (row : OrderRow) : option Order := p ← orPrice row; order_of_row row p.
Definition loaded (rows : list OrderRow) : list Order := omap row_order rows.

Definition priced (row : OrderRow) : Prop := is_Some (orPrice row).

Record loads s s' (os : list Order) (refs : list oref) : Prop := {
  ld_orders : get_order s' <$> refs = os;
  ld_bound r : r ∈ refs -> next s <= r < next s';
  ld_old r : r < next s -> get_order s' r = get_order s r;
  ld_levels : levels s' = levels s;
  ld_next : next s <= next s';
}.

Lemma load_rows_spec rows acc s : Forall priced rows ->
  exists refs s', load_rows rows acc s = (inr (acc ++ refs), s') /\ loads s s' (loaded rows) refs.
Proof.
  intros Hp. revert acc s. induction Hp as [|row rows [p Hrow] Hrows IH]; intros acc s; cbn [load_rows].
  - exists [], s. rewrite app_nil_r. split; [done|]. split; try done; set_solver.
  - rewrite Hrow. unfold loaded. cbn [omap list_omap]. unfold row_order at 1. rewrite Hrow. cbn [mbind option_bind].
    destruct (order_of_row row p) as [o|]; [|apply IH].
    set (s1 := set_order (alloc s).2 (next s) o). change (alloc_order s o) with (next s, s1). cbn iota. destruct (IH (acc ++ [next s : oref]) s1) as (refs & s' & Heq & Hld).
    exists (next s :: refs), s'. rewrite Heq, <- app_assoc. split; [done|].
    destruct Hld as [Ho Hb Hold Hl Hn]. assert (get_order s1 (next s) = o) as Hnew
      by (unfold s1; by rewrite get_order_set, decide_True).
    split; try done.
    + rewrite fmap_cons, Ho. f_equal. rewrite Hold by (cbn; lia). done.
    + intros r [->|Hr]%elem_of_cons; [cbn in Hn; lia|]. specialize (Hb r Hr). cbn in Hb. lia.
    + intros r Hr. rewrite Hold by (cbn; lia). unfold s1. rewrite get_order_set, decide_False by lia. done.
    + cbn in Hn. lia.
Qed.

(** ** Filling a book *)

(** Price, then time: the order of a queue. *)
Definition precedes b (o o' : Order) : Prop :=
  better b (oPrice o) (oPrice o') \/ (oPrice o ≐ oPrice o' /\ (oCreatedAt o <= oCreatedAt o')%Z).

Lemma not_better b p q : ~ better b p q -> better b q p \/ p ≐ q.
Proof. unfold better, deq. destruct b; intros Hn; destruct (Q_dec (dval p) (dval q)) as [[?|?]|?]; tauto. Qed.

Definition queue s ob b : list Order := order_of s <$> prio s ob b.

Lemma queue_orders s s' ob b : orders s' = orders s -> order_of s' <$> prio s ob b = queue s ob b.
Proof. intros Ho. apply list_fmap_ext. intros _ e _. unfold order_of, get_order. by rewrite Ho. Qed.

Lemma key_fresh_queue s ob o : book_wf s ob ->
  (forall b o', o' ∈ queue s ob b -> oID o' <> oID o) -> obOrders ob !! uuid_String (oID o) = None.
Proof.
  intros Hwf Hq. destruct (obOrders ob !! _) as [loc|] eqn:Hl; [exfalso|done].
  destruct (bw_loc _ _ _ _ Hwf Hl) as (lp & _ & _ & _ & Hk & He). apply elem_of_all_elems in He as [b He].
  apply (Hq b (order_of s (locElement loc))); [by apply list_elem_of_fmap_2|by apply (inj uuid_String)].
Qed.

(** What adding one order does to the queues, as lists of orders. *)
Lemma AddOrder_queue s ob r : book_wf s ob -> r < next s ->
  (forall b o', o' ∈ queue s ob b -> oID o' <> oID (get_order s r)) ->
  exists s' ob', AddOrder s ob r = (s', ob') /\ book_wf s' ob' /\ orders s' = orders s /\ next s <= next s' /\
    clock s' = clock s /\
    let o := get_order s r in
    forall b, exists l1 l2, queue s ob b = l1 ++ l2 /\
      queue s' ob' b = (if bool_decide (is_buy o = b) then l1 ++ o :: l2 else queue s ob b) /\
      (forall o', o' ∈ l1 -> ~ better (is_buy o) (oPrice o) (oPrice o')) /\
      (forall o', o' ∈ l2 -> is_buy o = b -> better (is_buy o) (oPrice o) (oPrice o')).
Proof.
  intros Hwf Hr Hid. destruct (AddOrder_spec s ob r Hwf Hr (key_fresh_queue _ _ _ Hwf Hid))
    as (s' & ob' & l1 & l2 & e & Heq & Hadd).
  destruct Hadd as [Hwf' Hv Hold Hprio Hother Hbefore Hafter _ _ Hord Hnext Hclk _].
  exists s', ob'. split_and!; [done..|]. cbn zeta. intros b.
  assert (forall e', order_of s' e' = order_of s e') as Hof by (intros; unfold order_of, get_order; by rewrite Hord).
  assert (forall l, order_of s' <$> l = order_of s <$> l) as Hmap by (intros; by apply list_fmap_ext).
  destruct (bool_decide_reflect (is_buy (get_order s r) = b)) as [Hb|Hb].
  - exists (order_of s <$> l1), (order_of s <$> l2). unfold queue. rewrite <- Hb, Hold, Hprio, Hmap.
    assert (order_of s e = get_order s r) as He by (unfold order_of; by rewrite Hv).
    rewrite !fmap_app, fmap_cons, He. split_and!; [done..| |].
    + intros o' (e' & -> & He')%list_elem_of_fmap. by apply Hbefore.
    + intros o' (e' & -> & He')%list_elem_of_fmap _. by apply Hafter.
  - exists [], (queue s ob b). unfold queue. rewrite (Hother b Hb), Hmap. split_and!; [done..|set_solver|done].
Qed.

Lemma precedes_insert b o l1 l2 :
  (forall o', o' ∈ l1 ++ l2 -> (oCreatedAt o' <= oCreatedAt o)%Z) ->
  (forall o', o' ∈ l1 -> ~ better b (oPrice o) (oPrice o')) ->
  (forall o', o' ∈ l2 -> better b (oPrice o) (oPrice o')) ->
  StronglySorted (precedes b) (l1 ++ l2) -> StronglySorted (precedes b) (l1 ++ o :: l2).
Proof.
  intros Ht Hnot Hbetter (Hx & Hl1 & Hl2)%StronglySorted_app. apply StronglySorted_app. split_and!; [|done|].
  - intros o1 o2 Ho1 [->|Ho2]%elem_of_cons; [|by apply Hx].
    destruct (not_better _ _ _ (Hnot o1 Ho1)) as [?|?]; [by left|right]. split; [by symmetry|].
    apply Ht. set_solver.
  - constructor; [done|]. apply Forall_forall. intros o' Ho'. left. by apply Hbetter.
Qed.

Lemma add_orders_queue refs s ob :
  book_wf s ob -> (forall r, r ∈ refs -> r < next s) ->
  NoDup (oID <$> (get_order s <$> refs)) ->
  (forall b o' r, o' ∈ queue s ob b -> r ∈ refs ->
     oID o' <> oID (get_order s r) /\ (oCreatedAt o' <= oCreatedAt (get_order s r))%Z) ->
  StronglySorted (fun o o' => oCreatedAt o <= oCreatedAt o')%Z (get_order s <$> refs) ->
  (forall b, StronglySorted (precedes b) (queue s ob b)) ->
  exists s' ob', add_orders refs s ob = (s', ob') /\ book_wf s' ob' /\ orders s' = orders s /\ clock s' = clock s /\
    forall b, queue s' ob' b ≡ₚ queue s ob b ++ filter (fun o => is_buy o = b) (get_order s <$> refs) /\
      StronglySorted (precedes b) (queue s' ob' b).
Proof.
  revert s ob. induction refs as [|r refs IH]; intros s ob Hwf Hr Hnd Hids Htime Hsort; cbn [add_orders].
  { exists s, ob. split_and!; try done. intros b. by rewrite app_nil_r. }
  cbn [fmap list_fmap] in Hnd, Htime. apply NoDup_cons in Hnd as [Hnew Hnd].
  inversion Htime as [|? ? Htime' Hall]; subst. rewrite Forall_forall in Hall.
  destruct (AddOrder_queue s ob r Hwf) as (s1 & ob1 & -> & Hwf1 & Ho1 & Hn1 & Hc1 & Hq); [apply Hr; set_solver| |].
  { intros b o' Ho'. apply (Hids b o' r); [done|set_solver]. }
  assert (forall x, get_order s1 x = get_order s x) as Hget by (intros; unfold get_order; by rewrite Ho1).
  assert (get_order s1 <$> refs = get_order s <$> refs) as Hmap by (by apply list_fmap_ext).
  assert (forall b o', o' ∈ queue s1 ob1 b -> o' = get_order s r \/ o' ∈ queue s ob b) as Hin.
  { intros b o' Ho'. destruct (Hq b) as (l1 & l2 & Hold & Hnewq & _). rewrite Hnewq in Ho'.
    rewrite Hold in Ho' |- *. case_bool_decide; set_solver. }
  destruct (IH s1 ob1 Hwf1) as (s' & ob' & -> & Hwf' & Ho' & Hc' & Hres).
  - intros x Hx. assert (x < next s) by (apply Hr; set_solver). lia.
  - by rewrite Hmap.
  - intros b o' x Ho Hx. rewrite Hget. destruct (Hin b o' Ho) as [->|Hold].
    + split; [|apply Hall; by apply list_elem_of_fmap_2]. intros Heq. destruct Hnew. rewrite Heq.
      apply list_elem_of_fmap_2, list_elem_of_fmap_2. done.
    + apply (Hids b o' x); [done|set_solver].
  - by rewrite Hmap.
  - intros b. destruct (Hq b) as (l1 & l2 & Hold & -> & Hl1 & Hl2). case_bool_decide as Hb; [|apply Hsort].
    subst b. apply precedes_insert; [|done|by auto|rewrite <- Hold; apply Hsort].
    intros o' Ho2. rewrite <- Hold in Ho2. apply (Hids (is_buy (get_order s r)) o' r); [done|set_solver].
  - exists s', ob'. split_and!; try done; [by rewrite Ho'|by rewrite Hc'|]. intros b.
    destruct (Hres b) as [Hp Hs]. split; [|done]. rewrite Hp, Hmap, fmap_cons.
    destruct (Hq b) as (l1 & l2 & Hold & Hnewq & _). rewrite Hnewq. case_bool_decide as Hb.
    + rewrite filter_cons_True by done. rewrite Hold. solve_Permutation.
    + rewrite filter_cons_False by done. done.
Qed.

(** ** A run of the recovery *)

(** Two stores that differ at most in their clock. *)
Definition same_heap s s' : Prop := orders s' = orders s /\ levels s' = levels s /\ next s' = next s.

Lemma same_heap_prio s s' ob b : same_heap s s' -> prio s' ob b = prio s ob b.
Proof.
  intros (_ & Hl & _). apply bind_ext_in. intros lp _. unfold elems_of, get_level. by rewrite Hl.
Qed.

Lemma same_heap_wf s s' ob : same_heap s s' -> book_wf s ob -> book_wf s' ob.
Proof.
  intros (Ho & Hl & Hn) Hwf. apply (book_wf_frame s); [done|lia|intros; unfold get_level; by rewrite Hl|].
  intros e _. unfold erem, order_of, get_order. by rewrite Ho.
Qed.

Lemma same_heap_queue s s' ob b : same_heap s s' -> queue s' ob b = queue s ob b.
Proof.
  intros Hs. unfold queue. rewrite (same_heap_prio _ _ _ _ Hs). apply queue_orders. apply Hs.
Qed.

(** What a recovery without errors consists of. *)
Record recovers (rm : RecoveryManager) (a : Answers) (opts : RecoveryOptions) s ob (rows : list OrderRow)
    (report : RecoveryReport) s' ob2 : Prop := {
  rv_split : exists refs s1 s2, loads s s1 (loaded rows) refs /\
    add_orders refs s1 (if optDryRun opts then NewOrderBook (rmInstrument rm) else ob) = (s2, ob2) /\
    same_heap s2 s';
  rv_after : capturePostRecoveryState s' ob2 no_after = Some (rcAfter report);
  rv_restored : rpOrdersRestored (rcReplay report) = length (loaded rows);
  rv_verdict : (validateRecoveryWithDiffs (length (loaded rows)) (rcAfter report) (anTotals a) (optVerbose opts)).1
               = rcVerdict report;
  rv_method : rrRecoveryMethod (rcRun report) =
    if rsSnapshotUsed (rcSnapshot report) then "snapshot_plus_orders" else "full_replay";
}.

Lemma recover_run rm a opts s ob rows :
  anOrders a = inr (rows, None) -> Forall priced rows ->
  exists report s' ob2,
    RecoverOrderbookWithOptions rm a opts s ob
      = Some (report, None, s', if optDryRun opts then ob else ob2, ob2) /\
    recovers rm a opts s ob rows report s' ob2.
Proof.
  intros Hrows Hp. unfold RecoverOrderbookWithOptions. cbn [read_clock]. cbn iota.
  set (t := mkStore _ _ _ _ _). destruct (load_rows_spec rows [] t Hp) as (refs & s1 & Hload & Hld).
  unfold loadOpenOrders. rewrite Hrows, Hload. cbn [app].
  destruct (add_orders refs s1 _) as [s2 ob2] eqn:Hadd.
  assert (length refs = length (loaded rows)) as Hlen by (rewrite <- (ld_orders _ _ _ _ Hld); by rewrite length_fmap).
  assert (forall s3, exists after, capturePostRecoveryState s3 ob2 no_after = Some after) as Hafter.
  { intros s3. unfold capturePostRecoveryState. rewrite GetTopLevels_take by done. cbn. eauto. }
  assert (loads s s1 (loaded rows) refs) as Hld' by (destruct Hld; by constructor).
  cbn [read_clock]. cbn iota.
  destruct (rsSnapshotUsed (snapshot_group a)) eqn:Hu; cbn iota;
    match goal with |- context [capturePostRecoveryState ?s3 ob2 no_after] =>
      destruct (Hafter s3) as [after Ha]; rewrite Ha end; cbn [mbind option_bind];
    rewrite Hlen;
    destruct (validateRecoveryWithDiffs _ after (anTotals a) (optVerbose opts)) as [v d] eqn:Hv;
    eexists _, _, ob2; (split; [reflexivity|]); split; cbn; try done; try (by rewrite Hv); try (by rewrite Hu);
    by exists refs, s1, s2.
Qed.

(** ** The volumes of the report *)


Definition after_volume (after : ReportAfter) b : decimal :=
  if b then rbTotalBidVolume (raDepth after) else rbTotalAskVolume (raDepth after).
Definition after_levels (after : ReportAfter) b : nat :=
  if b then rbBidLevels (raDepth after) else rbAskLevels (raDepth after).


(** ** The verdict *)

(** Equal up to the tolerance, a hundred-millionth. *)
Definition close (x y : Q) : Prop := (Qabs.Qabs (x - y) <= 1 # 100000000)%Q.

Lemma dval_tolerance : (dval tolerance == 1 # 100000000)%Q.
Proof. unfold tolerance. rewrite dval_NewFromFloat by lia. reflexivity. Qed.

Lemma check_volume_passed v ty a d verbose :
  rvPassed (validateVolumeWithTolerance v ty a d verbose) = true <-> rvPassed v = true /\ close (dval a) (dval d).
Proof.
  unfold validateVolumeWithTolerance, close. pose proof dval_tolerance as Ht.
  case_decimal; rewrite dval_Abs, dval_Sub, Ht in E.
  - split; [done|]. intros [_ Hc]. lra.
  - apply Qnot_lt_le in E. destruct (verbose && _); cbn; tauto.
Qed.

Lemma check_loaded_passed n after v :
  rvPassed (check_loaded n after v) = true <->
  rvPassed v = true /\ (n = 0 -> after_levels after true = 0 /\ after_levels after false = 0).
Proof.
  unfold check_loaded, after_levels. destruct (bool_decide_reflect (n = 0)) as [Hn|Hn]; cbn [andb]; [|tauto].
  destruct (bool_decide_reflect (0 < rbBidLevels (raDepth after))), (bool_decide_reflect (0 < rbAskLevels (raDepth after)));
    cbn [orb]; cbn; intuition (try done; try lia).
Qed.

Lemma check_sign_passed d err f desc v :
  rvPassed (check_sign d err f desc v) = true <-> rvPassed v = true /\ (0 <= dval d)%Q.
Proof.
  unfold check_sign. case_decimal; cbn; [split; [done|intros [_ ?]; lra]|]. split; [intros ->; split; [done|lra]|tauto].
Qed.

Lemma check_spread_passed after v :
  rvPassed (check_spread after v) = true <->
  rvPassed v = true /\ (forall d, raSpread after = Some d -> (0 <= dval d)%Q).
Proof.
  unfold check_spread. destruct (raSpread after) as [d|]; [rewrite check_sign_passed; naive_solver|naive_solver].
Qed.

Lemma check_totals_passed after t verbose v :
  rvPassed (check_totals after t verbose v) = true <->
  rvPassed v = true /\ close (dval (after_volume after true)) (dval (dtTotalBidVolume t)) /\
  close (dval (after_volume after false)) (dval (dtTotalAskVolume t)).
Proof.
  assert (forall w, rvPassed (let v3 := if (0 <? dtOpenBuyOrderCount t)%Z then add_diff w (count_diff after t) else w in
    if (0 <? dtOpenSellOrderCount t)%Z then add_diff v3 (count_diff after t) else v3) = rvPassed w) as Hdiff
    by (intros w; cbn; by destruct (0 <? _)%Z, (0 <? _)%Z).
  unfold check_totals. cbn zeta in *. cbn [after_volume].
  destruct verbose; rewrite ?Hdiff, !check_volume_passed; tauto.
Qed.
End facts.

(** ** What a temporary book leaves alone *)

Section frame.
Context `{DecimalSpec, !DecimalFloat, UuidSpec, BTreeSpec, !PgPkg, !EnvPkg}.
Implicit Types (s : Store) (ob : OrderBook) (lp : LevelPtr) (b : bool).

(** The references below [n], an allocation point of the past, are untouched. *)
Record untouched (n : nat) s s' : Prop := {
  un_levels r : r < n -> get_level s' r = get_level s r;
  un_orders r : r < n -> get_order s' r = get_order s r;
  un_next : n <= next s -> n <= next s';
}.

#[global] Instance untouched_preorder n : PreOrder (untouched n).
Proof.
  split; [by constructor|]. intros s1 s2 s3 [Hl Ho Hn] [Hl' Ho' Hn']. split; [..|auto].
  - intros r Hr. by rewrite Hl', Hl.
  - intros r Hr. by rewrite Ho', Ho.
Qed.

Lemma load_rows_untouched n rows acc s : n <= next s -> untouched n s (load_rows rows acc s).2.
Proof.
  revert acc s. induction rows as [|row rows IH]; intros acc s Hn; cbn [load_rows]; [reflexivity|].
  destruct (orPrice row) as [p|]; [|reflexivity]. destruct (order_of_row row p) as [o|]; [|by apply IH].
  set (s1 := set_order (alloc s).2 (next s) o). change (alloc_order s o) with (next s, s1). cbn iota.
  etransitivity; [|apply IH; cbn; lia]. split; [done| |cbn; lia].
  intros r Hr. unfold s1. rewrite get_order_set, decide_False by lia. done.
Qed.

(** A book all of whose levels were allocated after [n]. *)
Record recent (n : nat) s ob : Prop := {
  rc_sorted b : StronglySorted (item_lt Less) (btree_Ascend (get_side ob b));
  rc_levels b lp : lp ∈ btree_Ascend (get_side ob b) -> n <= lpRef lp;
  rc_next : n <= next s;
}.

Lemma GetOrCreate_recent n s ob b p : recent n s ob ->
  exists r s1 t, GetOrCreatePriceLevel s (get_side ob b) p = (r, s1, t) /\ n <= r /\
    untouched n s s1 /\ recent n s1 (set_side ob b t).
Proof.
  intros [Hs Hl Hn]. unfold GetOrCreatePriceLevel. rewrite (btree_Get_spec _ _ _ Less_strict_weak (Hs b)).
  destruct (list_find _ _) as [[i lp]|] eqn:Hf; cbn.
  - apply list_find_Some in Hf as (Hi & _). eexists _, _, _. split; [done|]. rewrite set_side_get_side.
    split_and!; [|reflexivity|done]. apply (Hl b). by eapply list_elem_of_lookup_2.
  - eexists _, _, _. split; [done|]. split_and!; [lia| |].
    + split; [|done|cbn; lia]. intros r Hr. unfold get_level. cbn. by rewrite lookup_total_insert_ne by lia.
    + split; [| |cbn; lia].
      * intros b'. rewrite get_side_set_side. case_decide; [|apply Hs].
        rewrite (btree_Ascend_ReplaceOrInsert _ _ _ Less_strict_weak (Hs b)).
        apply item_insert_sorted; [apply Less_strict_weak|apply Hs].
      * intros b' lp. rewrite get_side_set_side. case_decide; [|apply Hl].
        rewrite (btree_Ascend_ReplaceOrInsert _ _ _ Less_strict_weak (Hs b)).
        intros Hlp. destruct (item_insert_elem_of Less Less_strict_weak _ _ _ Hlp) as [->|Hold]; [cbn; lia|by eapply Hl].
Qed.

Lemma AddOrder_recent n s ob r : recent n s ob ->
  exists s' ob', AddOrder s ob r = (s', ob') /\ untouched n s s' /\ recent n s' ob'.
Proof.
  intros Hrec. unfold AddOrder.
  destruct (GetOrCreate_recent n s ob (is_buy (get_order s r)) (oPrice (get_order s r)) Hrec)
    as (lr & s1 & t & -> & Hlr & Hu & Hrec1).
  cbn [PriceLevel_AddOrder PushBack]. unfold PriceLevel_AddOrder, PushBack. cbn. eexists _, _. split; [done|]. split.
  - etransitivity; [exact Hu|]. split; [|done|cbn; lia]. intros x Hx. unfold set_plVolume, get_level. cbn.
    rewrite !lookup_total_insert_ne by lia. done.
  - destruct Hrec1 as [Hs Hl Hn]. split; [apply Hs|apply Hl|cbn; lia].
Qed.

Lemma add_orders_recent n refs s ob : recent n s ob ->
  exists s' ob', add_orders refs s ob = (s', ob') /\ untouched n s s'.
Proof.
  revert s ob. induction refs as [|r refs IH]; intros s ob Hrec; cbn [add_orders].
  - eexists _, _. split; [done|reflexivity].
  - destruct (AddOrder_recent n s ob r Hrec) as (s1 & ob1 & -> & Hu & Hrec1).
    destruct (IH s1 ob1 Hrec1) as (s2 & ob2 & -> & Hu2). eexists _, _. split; [done|]. by etransitivity.
Qed.

Lemma recent_new n s instrument : n <= next s -> recent n s (NewOrderBook instrument).
Proof.
  intros Hn. assert (forall b, btree_Ascend (get_side (NewOrderBook instrument) b) = []) as He
    by (intros []; apply btree_Ascend_New).
  split; [..|done]; intros b; rewrite He; [constructor|set_solver].
Qed.

(** A book is as it was when its references are untouched. *)
Lemma untouched_wf s s' ob : book_wf s ob -> untouched (next s) s s' -> book_wf s' ob.
Proof.
  intros Hwf [Hl Ho Hn]. apply (book_wf_frame s); [done|auto| |].
  - intros lp Hlp. apply Hl. by apply (bw_fresh_level s ob (bw_core _ _ Hwf)).
  - intros e He. assert (order_of s' e = order_of s e) as Hoe.
    { apply Ho. by apply (bw_fresh_elem s ob (bw_core _ _ Hwf)). }
    unfold erem. by rewrite Hoe.
Qed.

Lemma untouched_queue s s' ob b : book_wf s ob -> untouched (next s) s s' -> queue s' ob b = queue s ob b.
Proof.
  intros Hwf [Hl Ho Hn]. unfold queue.
  assert (prio s' ob b = prio s ob b) as ->.
  { apply bind_ext_in. intros lp Hlp. unfold elems_of. rewrite Hl; [done|].
    apply (bw_fresh_level s ob (bw_core _ _ Hwf)), elem_of_all_levels. eauto. }
  apply Forall_fmap_ext_1, Forall_forall. intros e He. apply Ho.
  apply (bw_fresh_elem s ob (bw_core _ _ Hwf)), elem_of_all_elems. eauto.
Qed.
End frame.

(** ** Recovery from the database's own table *)

Section table.
Context `{DecimalSpec, !DecimalFloat, UuidSpec, BTreeSpec, !PgPkg, !PgSpec, !EnvPkg}.
Implicit Types (s : Store) (ob : OrderBook) (b : bool) (row : OrderRow).










End table.

(** ** Theorems *)

Section theorems.
Context `{DecimalSpec, !DecimalFloat, UuidSpec, BTreeSpec, !PgPkg, !PgSpec, !EnvPkg}.
Implicit Types (s : Store) (ob : OrderBook) (b : bool).

Lemma rebuilds rm a opts s rows :
  anOrders a = inr (rows, None) -> Forall priced rows ->
  StronglySorted (fun o o' => oCreatedAt o <= oCreatedAt o')%Z (loaded rows) ->
  NoDup (oID <$> loaded rows) ->
  let ob := NewOrderBook (rmInstrument rm) in
  exists report s' live ob',
    RecoverOrderbookWithOptions rm a opts s ob = Some (report, None, s', live, ob') /\
    book_wf s' ob' /\ live = (if optDryRun opts then ob else ob') /\
    rpOrdersRestored (rcReplay report) = length (loaded rows) /\
    forall b, queue s' ob' b ≡ₚ filter (fun o => is_buy o = b) (loaded rows) /\
      StronglySorted (precedes b) (queue s' ob' b).
Proof.
  intros Hrows Hp Ht Hnd ob. destruct (recover_run rm a opts s ob rows Hrows Hp) as (report & s' & ob' & Hrun & Hrec).
  exists report, s', (if optDryRun opts then ob else ob'), ob'. split; [done|].
  destruct Hrec as [(refs & s1 & s2 & Hld & Hadd & Hsame) _ Hrest _ _].
  assert ((if optDryRun opts then NewOrderBook (rmInstrument rm) else ob) = ob) as Hob by (by destruct (optDryRun opts)).
  rewrite Hob in Hadd. pose proof (book_wf_new s1 (rmInstrument rm)) as Hwf0. fold ob in Hwf0.
  assert (forall b, queue s1 ob b = []) as Hempty.
  { intros b. unfold queue, prio, best_levels, ob, NewOrderBook, NewOrderBookSide. cbn [Bids Asks].
    rewrite !btree_Ascend_New. by destruct b. }
  destruct (add_orders_queue refs s1 ob Hwf0) as (s2' & ob2' & Heq & Hwf & _ & _ & Hq).
  - intros r Hr. apply (ld_bound _ _ _ _ Hld r Hr).
  - by rewrite (ld_orders _ _ _ _ Hld).
  - intros b o' r Ho. rewrite Hempty in Ho. set_solver.
  - by rewrite (ld_orders _ _ _ _ Hld).
  - intros b. rewrite Hempty. constructor.
  - rewrite Hadd in Heq. simplify_eq. split_and!; [by eapply same_heap_wf|done|done|]. intros b.
    rewrite (same_heap_queue _ _ _ _ Hsame). destruct (Hq b) as [Hperm Hs].
    rewrite Hempty, (ld_orders _ _ _ _ Hld) in Hperm. done.
Qed.

Lemma verdict_iff n after totals verbose :
  rvPassed (validateRecoveryWithDiffs n after totals verbose).1 = true <->
  (n = 0 -> after_levels after true = 0 /\ after_levels after false = 0) /\
  (forall b, 0 <= dval (after_volume after b))%Q /\
  (forall d, raSpread after = Some d -> 0 <= dval d)%Q /\
  (forall t, totals = inr t ->
     close (dval (after_volume after true)) (dval (dtTotalBidVolume t)) /\
     close (dval (after_volume after false)) (dval (dtTotalAskVolume t))).
Proof.
  assert ((forall b, 0 <= dval (after_volume after b))%Q <->
    (0 <= dval (after_volume after true))%Q /\ (0 <= dval (after_volume after false))%Q) as ->
    by (split; [by split|intros [? ?] []; done]).
  unfold validateRecoveryWithDiffs. destruct totals as [err|t]; cbn [fst].
  - rewrite check_spread_passed, !check_sign_passed, check_loaded_passed. cbn [after_volume rvPassed]. naive_solver.
  - rewrite check_totals_passed, check_spread_passed, !check_sign_passed, check_loaded_passed.
    cbn [after_volume rvPassed]. naive_solver.
Qed.

(** C13: the book recovery builds.  From an empty book and stored orders with
    prices and distinct identifiers in the order of their creation, recovery
    builds a well-formed book whose queues hold exactly the orders of the rows
    that were not skipped, by price and then by creation time; a live recovery
    returns that book, and the report counts the orders. *)
Theorem recovery_rebuilds_book rm a opts s rows :
  anOrders a = inr (rows, None) -> Forall priced rows ->
  StronglySorted (fun o o' => oCreatedAt o <= oCreatedAt o')%Z (loaded rows) ->
  NoDup (oID <$> loaded rows) ->
  let ob := NewOrderBook (rmInstrument rm) in
  exists report s' live ob',
    RecoverOrderbookWithOptions rm a opts s ob = Some (report, None, s', live, ob') /\
    book_wf s' ob' /\ live = (if optDryRun opts then ob else ob') /\
    rpOrdersRestored (rcReplay report) = length (loaded rows) /\
    forall b, queue s' ob' b ≡ₚ filter (fun o => is_buy o = b) (loaded rows) /\
      StronglySorted (precedes b) (queue s' ob' b).
Proof. apply rebuilds. Qed.

(** What validation decides.  It passes exactly when levels come with
    loaded orders, no volume and no spread is negative, and, if the database
    answered, both volumes are within a hundred-millionth of its totals. *)
Theorem validation_verdict n after totals verbose :
  rvPassed (validateRecoveryWithDiffs n after totals verbose).1 = true <->
  (n = 0 -> after_levels after true = 0 /\ after_levels after false = 0) /\
  (forall b, 0 <= dval (after_volume after b))%Q /\
  (forall d, raSpread after = Some d -> 0 <= dval d)%Q /\
  (forall t, totals = inr t ->
     close (dval (after_volume after true)) (dval (dtTotalBidVolume t)) /\
     close (dval (after_volume after false)) (dval (dtTotalAskVolume t))).
Proof. apply verdict_iff. Qed.

(** A dry run works on a book of its own. *)
Lemma dry_run_untouched rm a opts s ob :
  optDryRun opts = true -> book_wf s ob ->
  exists report err s' temp,
    RecoverOrderbookWithOptions rm a opts s ob = Some (report, err, s', ob, temp) /\
    book_wf s' ob /\ forall b, queue s' ob b = queue s ob b.
Proof.
  intros Hdry Hwf. unfold RecoverOrderbookWithOptions. rewrite Hdry. cbn [read_clock]. cbn iota.
  set (t := mkStore _ _ _ _ _).
  assert (forall s', untouched (next s) s s' -> book_wf s' ob /\ forall b, queue s' ob b = queue s ob b) as Hdone
    by (intros s' Hs'; split; [by eapply untouched_wf|intros b; by apply untouched_queue]).
  assert (untouched (next s) s (loadOpenOrders (anOrders a) t).2) as Hload.
  { transitivity t; [by constructor|]. unfold loadOpenOrders. destruct (anOrders a) as [err|[rows rerr]]; [reflexivity|].
    pose proof (load_rows_untouched (next s) rows [] t (le_n _)) as Hl.
    destruct (load_rows rows [] t) as [[|] s1]; [done|by destruct rerr]. }
  destruct (loadOpenOrders (anOrders a) t) as [[err|refs] s1]; cbn [snd] in Hload.
  { eexists _, _, _, _. split; [reflexivity|auto]. }
  destruct (add_orders_recent (next s) refs s1 (NewOrderBook (rmInstrument rm))) as (s2 & ob2 & Hadd & Hu2).
  { apply recent_new. by apply (un_next _ _ _ Hload). }
  rewrite Hadd. cbn [read_clock]. cbn iota.
  assert (untouched (next s) s s2) as Hu by (by etransitivity).
  destruct (rsSnapshotUsed (snapshot_group a)); cbn iota;
    unfold capturePostRecoveryState; rewrite GetTopLevels_take by done; cbn [mbind option_bind];
    destruct (validateRecoveryWithDiffs _ _ _ _); (eexists _, _, _, _; split; [reflexivity|]);
    apply Hdone; (etransitivity; [exact Hu|by constructor]).
Qed.

(** A dry run does not touch the live book.  Whatever the database
    answers, errors included, a dry run returns the live book it was given,
    still well-formed and with the same queues. *)
Theorem dry_run_leaves_live_book rm a opts s ob :
  optDryRun opts = true -> book_wf s ob ->
  exists report err s' temp,
    RecoverOrderbookWithOptions rm a opts s ob = Some (report, err, s', ob, temp) /\
    book_wf s' ob /\ forall b, queue s' ob b = queue s ob b.
Proof. apply dry_run_untouched. Qed.




End theorems.

(** ** Instances *)

Module RecoveryInstances.
Import Concrete ConcretePg.

Definition rm0 : RecoveryManager := NewRecoveryManager "BTC-USD".
Definition row (id side : string) (price qty : Q) (created : Z) : @OrderRow q_decimal :=
  mkOrderRow id "BTC-USD" side (Some price) qty 0%Q "open" created created.

Definition rows3 : list OrderRow := [row "b1" "buy" 99 4 1; row "s1" "sell" 101 5 2; row "b2" "buy" 99 1 3].
Definition stale_row : OrderRow :=
  mkOrderRow "x" "BTC-USD" "buy" None (1 : Q) (1 : Q) "filled" 9 9.
Definition table3 : list OrderRow := stale_row :: rows3.

Definition answers3 : Answers :=
  mkAnswers (inl ErrNoRows) (inr (rows3, None)) (getDatabaseTotals rm0 table3 None).
Definition live_options : RecoveryOptions := mkRecoveryOptions false true false.
Definition dry_options : RecoveryOptions := mkRecoveryOptions true false false.

Lemma rows3_priced : Forall priced rows3.
Proof. repeat constructor; eexists; reflexivity. Qed.

Lemma loaded3_sorted : StronglySorted (fun o o' => oCreatedAt o <= oCreatedAt o')%Z (loaded rows3).
Proof.
  assert (StronglySorted Z.le (oCreatedAt <$> loaded rows3)) as Hs
    by (vm_compute; repeat constructor; discriminate).
  induction (loaded rows3) as [|o l IH]; [constructor|]. rewrite fmap_cons in Hs.
  apply StronglySorted_inv in Hs as [Hs Hall]. constructor; [by apply IH|].
  rewrite Forall_forall in Hall. apply Forall_forall. intros o' Ho'. apply Hall. by apply list_elem_of_fmap_2.
Qed.

Lemma loaded3_ids : NoDup (oID <$> loaded rows3).
Proof.
  assert (oID <$> loaded rows3 = ["b1"; "s1"; "b2"]) as -> by (vm_compute; reflexivity).
  apply (bool_decide_unpack _). vm_compute. exact I.
Qed.

Lemma recovery_rebuilds_book_witness :
  exists report s' live ob',
    RecoverOrderbookWithOptions rm0 answers3 live_options emptyStore (NewOrderBook "BTC-USD")
      = Some (report, None, s', live, ob') /\ book_wf s' ob' /\ live = ob' /\
    rpOrdersRestored (rcReplay report) = 3 /\
    queue s' ob' true ≡ₚ filter (fun o => is_buy o = true) (loaded rows3).
Proof.
  destruct (recovery_rebuilds_book rm0 answers3 live_options emptyStore rows3 eq_refl rows3_priced
              loaded3_sorted loaded3_ids) as (report & s' & live & ob' & Hrun & Hwf & Hlive & Hn & Hq).
  exists report, s', live, ob'. split; [exact Hrun|]. split; [exact Hwf|]. split; [exact Hlive|].
  split; [exact Hn|]. exact (proj1 (Hq true)).
Defined.






Definition passed (o : option (RecoveryReport * option error * Store * OrderBook * OrderBook)) : option bool :=
  (fun r => rvPassed (rcVerdict r.1.1.1.1)) <$> o.

(** That recovery passes; one of 101 price levels does not, although every
    order is back in the book. *)
Example recovery_passes :
  passed (RecoverOrderbookWithOptions rm0 answers3 live_options emptyStore (NewOrderBook "BTC-USD")) = Some true.
Proof. vm_compute. reflexivity. Qed.

Definition deep_rows : list OrderRow :=
  (fun i => row ("o" +:+ pretty i) "buy" (inject_Z (Z.of_nat (S i))) 1 (Z.of_nat i)) <$> seq 0 101.

Example deep_recovery_fails :
  passed (RecoverOrderbookWithOptions rm0
            (mkAnswers (inl ErrNoRows) (inr (deep_rows, None)) (getDatabaseTotals rm0 deep_rows None))
            live_options emptyStore (NewOrderBook "BTC-USD")) = Some false.
Proof. vm_compute. reflexivity. Qed.

Lemma dry_run_leaves_live_book_witness :
  optDryRun dry_options = true /\
  exists report err s' temp,
    RecoverOrderbookWithOptions rm0 answers3 dry_options (heap Demo.book4) (orderBook Demo.book4)
      = Some (report, err, s', orderBook Demo.book4, temp) /\
    book_wf s' (orderBook Demo.book4) /\
    forall b, queue s' (orderBook Demo.book4) b = queue (heap Demo.book4) (orderBook Demo.book4) b.
Proof.
  split; [reflexivity|].
  exact (dry_run_leaves_live_book rm0 answers3 dry_options (heap Demo.book4) (orderBook Demo.book4)
           eq_refl (bi_wf _ _ Demo.book4_inv)).
Defined.

(** A live recovery into a book that holds the orders already: every order
    rests twice, and the location map knows only one of the two. *)
Definition recover_into (s : Store) (ob : OrderBook) : option (Store * OrderBook) :=
  (fun r => (r.1.1.2, r.1.2)) <$> RecoverOrderbook rm0 answers3 s ob.

Definition twice : option (Store * OrderBook) :=
  '(s, ob) ← recover_into emptyStore (NewOrderBook "BTC-USD"); recover_into s ob.

Theorem second_recovery_duplicates :
  (fun r => (GetBidDepth r.1 r.2, GetAskDepth r.1 r.2, Size r.2)) <$> twice = Some (4, 2, 3).
Proof. vm_compute. reflexivity. Qed.
End RecoveryInstances.
