(* ===== verification/Postgres.v ===== *)
(** * The PostgreSQL store (src/persistence/postgres.go)

    Trades and order updates in transactions, with a retry loop for transient
    errors, and the queries.  The tables are those of src/db/schema.sql with
    their constraints and the trigger on updates.  Every call on the connection
    consumes one entry of the environment: [faults n] is the error the [n]-th
    call reports instead of executing, [lost n] tells for a failed commit
    whether the server had executed it, [pg_now n] is the server's clock.  A
    transaction works on a copy of the tables; rolling back returns to the
    tables it began with. *)

From S2P Require Import Prelude.
From S2P Require Import Json.
From S2P Require Import External.
From S2P Require Import Models.
From S2P Require Import Sql.
From S2P Require Import Snapshot.

Section postgres.
Context `{DecimalPkg, UuidPkg, !PgPkg}.

(** ** Data *)

Record PostgresStore := mkPostgresStore { psMaxRetries : Z; psRetryDelay : Z }.

Definition NewPostgresStore : PostgresStore := mkPostgresStore 3 (100 * 10 ^ 6).
Definition SetRetryConfig (ps : PostgresStore) (maxRetries retryDelay : Z) : PostgresStore :=
  mkPostgresStore maxRetries retryDelay.

Record TradeRecord := mkTradeRecord {
  tdTradeID : uuid;
  tdBuyOrderID : uuid;
  tdSellOrderID : uuid;
  tdInstrument : string;
  tdPrice : decimal;
  tdQuantity : decimal;
  tdTimestamp : Z;
  tdCreatedAt : Z;
}.

Record OrderUpdate := mkOrderUpdate {
  ouOrderID : uuid;
  ouFilledQuantity : decimal;
  ouStatus : string;
  ouUpdatedAt : Z;
}.

(** The tables hold the values their columns made of the arguments; a row is
    found under the text of its identifier.  In [pgOrders] the field
    [oCreatedAt] is the column [timestamp]. *)
Record Tables := mkTables {
  pgTrades : gmap string TradeRecord;
  pgOrders : gmap string Order;
}.

Record Pg := mkPg { pgTables : Tables; pgCalls : nat; pgSleeps : list Z }.

Context (faults : nat -> option error) (lost : nat -> bool) (pg_now : nat -> Z).

Definition bump (db : Pg) (t : Tables) : Pg := mkPg t (S (pgCalls db)) (pgSleeps db).

(** One call on the connection. *)
Definition call (db : Pg) : option error * Pg := (faults (pgCalls db), bump db (pgTables db)).

(** ** Statements *)

Definition positive (d : decimal) : bool := decimal_GreaterThan d decimal_Zero.

(** The row the columns of [trades] make of the arguments; [None] is a
    rejected value or a violated constraint. *)
Definition trade_row (trade : TradeRecord) : option TradeRecord :=
  price ← numeric_in (decimal_String (tdPrice trade));
  quantity ← numeric_in (decimal_String (tdQuantity trade));
  if varchar_ok 50 (tdInstrument trade) && positive price && positive quantity
  then Some (mkTradeRecord (tdTradeID trade) (tdBuyOrderID trade) (tdSellOrderID trade) (tdInstrument trade)
               price quantity (tdTimestamp trade) (tdCreatedAt trade))
  else None.

Definition violation : error := ErrPq "23514" "new row violates check constraint".

(** ON CONFLICT (trade_id) DO NOTHING. *)
Definition insert_trade_stmt (t : Tables) (trade : TradeRecord) : option Tables :=
  row ← trade_row trade;
  Some (match pgTrades t !! uuid_String (tdTradeID trade) with
        | Some _ => t
        | None => mkTables (<[uuid_String (tdTradeID trade) := row]> (pgTrades t)) (pgOrders t)
        end).

Definition insertTrade (db : Pg) (trade : TradeRecord) : option error * Pg :=
  let '(f, db1) := call db in
  match f with
  | Some err => (Some (ErrWrap "failed to execute insert trade" err), db1)
  | None =>
      match insert_trade_stmt (pgTables db1) trade with
      | None => (Some (ErrWrap "failed to execute insert trade" violation), db1)
      | Some t =>
          let '(f2, db2) := call (mkPg t (pgCalls db1) (pgSleeps db1)) in
          match f2 with
          | Some err => (Some (ErrWrap "failed to get rows affected" err), db2)
          | None => (None, db2)
          end
      end
  end.

(** CHECK (status IN ...), of the length a VARCHAR(20) holds. *)
Definition status_ok (status : string) : bool :=
  bool_decide (status ∈ [OrderStatusOpen; OrderStatusPartiallyFilled; OrderStatusFilled;
                         OrderStatusCancelled; OrderStatusRejected]).

(** The row after the UPDATE and its trigger, which replaces [updated_at]. *)
Definition updated_row (o : Order) (update : OrderUpdate) (now : Z) : option Order :=
  filled ← numeric_in (decimal_String (ouFilledQuantity update));
  if status_ok (ouStatus update) && decimal_GreaterThanOrEqual filled decimal_Zero
     && decimal_LessThanOrEqual filled (oQuantity o)
  then Some (set_oUpdatedAt (set_oStatus (set_oFilledQuantity o filled) (ouStatus update)) now)
  else None.

(** The outcome of the UPDATE: an error, or the tables and the number of rows. *)
Definition update_order_stmt (t : Tables) (update : OrderUpdate) (now : Z) : result (Tables * nat) :=
  match pgOrders t !! uuid_String (ouOrderID update) with
  | None => inr (t, 0)
  | Some o =>
      match updated_row o update now with
      | None => inl violation
      | Some o' => inr (mkTables (pgTrades t) (<[uuid_String (ouOrderID update) := o']> (pgOrders t)), 1)
      end
  end.

Definition updateOrder (db : Pg) (update : OrderUpdate) : option error * Pg :=
  let '(f, db1) := call db in
  match f with
  | Some err => (Some (ErrWrap "failed to update order" err), db1)
  | None =>
      match update_order_stmt (pgTables db1) update (pg_now (pgCalls db)) with
      | inl err => (Some (ErrWrap "failed to update order" err), db1)
      | inr (t, rowsAffected) =>
          let '(f2, db2) := call (mkPg t (pgCalls db1) (pgSleeps db1)) in
          match f2 with
          | Some err => (Some (ErrWrap "failed to get rows affected" err), db2)
          | None =>
              if bool_decide (rowsAffected = 0)
              then (Some (ErrText ("order not found: " +:+ uuid_String (ouOrderID update))), db2)
              else (None, db2)
          end
      end
  end.

(** ** Transactions *)

(** The deferred rollback: the tables of the beginning. *)
Definition rollback (db0 db : Pg) : Pg := mkPg (pgTables db0) (pgCalls db) (pgSleeps db).

(** [tx.Commit]: an error leaves the tables as they were, or not. *)
Definition commit (db0 db : Pg) : option error * Pg :=
  let '(f, db1) := call db in
  match f with
  | None => (None, db1)
  | Some err => (Some err, if lost (pgCalls db) then db1 else rollback db0 db1)
  end.

(** The shape of the transactions: begin, a body on the connection, commit. *)
Definition in_tx (db : Pg) (body : Pg -> option error * Pg) (on_commit : error -> error) : option error * Pg :=
  let '(f, db1) := call db in
  match f with
  | Some err => (Some (ErrWrap "failed to begin transaction" err), db1)
  | None =>
      match body db1 with
      | (Some err, db2) => (Some err, rollback db1 db2)
      | (None, db2) =>
          match commit db1 db2 with
          | (Some err, db3) => (Some (on_commit err), db3)
          | (None, db3) => (None, db3)
          end
      end
  end.

(** A statement, with its error wrapped, and the next ones. *)
Definition stmt (prefix : string) (f : Pg -> option error * Pg) (next : Pg -> option error * Pg) (db : Pg)
    : option error * Pg :=
  match f db with
  | (Some err, db1) => (Some (ErrWrap prefix err), db1)
  | (None, db1) => next db1
  end.

Definition persistTradeWithOrdersTx (trade : TradeRecord) (buyOrderUpdate sellOrderUpdate : OrderUpdate) (db : Pg)
    : option error * Pg :=
  in_tx db
    (stmt "failed to insert trade" (fun db => insertTrade db trade)
      (stmt "failed to update buy order" (fun db => updateOrder db buyOrderUpdate)
        (stmt "failed to update sell order" (fun db => updateOrder db sellOrderUpdate)
          (fun db => (None, db)))))
    (ErrWrap "failed to commit transaction").

(** The body of [PersistTradeOnly] returns the error of the commit as it is. *)
Definition persistTradeOnlyTx (trade : TradeRecord) (db : Pg) : option error * Pg :=
  in_tx db (stmt "failed to insert trade" (fun db => insertTrade db trade) (fun db => (None, db))) (fun err => err).

Fixpoint insert_trades (trades : list TradeRecord) (next : Pg -> option error * Pg) (db : Pg)
    : option error * Pg :=
  match trades with
  | [] => next db
  | trade :: trades' =>
      stmt ("failed to insert trade " +:+ uuid_String (tdTradeID trade)) (fun db => insertTrade db trade)
        (insert_trades trades' next) db
  end.

Fixpoint update_orders (updates : list OrderUpdate) (db : Pg) : option error * Pg :=
  match updates with
  | [] => (None, db)
  | update :: updates' =>
      stmt ("failed to update order " +:+ uuid_String (ouOrderID update)) (fun db => updateOrder db update)
        (update_orders updates') db
  end.

(** The deduplicating map, last update of an order wins. *)
Definition order_update_map (orderUpdates : list OrderUpdate) : gmap string OrderUpdate :=
  foldl (fun m update => <[uuid_String (ouOrderID update) := update]> m) ∅ orderUpdates.

(** [iteration] is the order in which ranging over the map visits it. *)
Definition persistMultipleTradesTx (trades : list TradeRecord) (iteration : list OrderUpdate) (db : Pg)
    : option error * Pg :=
  in_tx db (insert_trades trades (update_orders iteration)) (ErrWrap "failed to commit transaction").

Definition visits (orderUpdates iteration : list OrderUpdate) : Prop :=
  iteration ≡ₚ (map_to_list (order_update_map orderUpdates)).*2.

(** ** Retrying *)

Definition isRetryableError (err : error) : bool :=
  match err with
  | ErrPq code _ =>
      bool_decide (code ∈ ["40001"; "40P01"; "08000"; "08003"; "08006"; "57P03"])
  | _ => errors_Is err ErrDeadlock || errors_Is err ErrSerializationFailure || errors_Is err ErrConnectionFailure
  end.

(** int64 arithmetic of a [time.Duration]. *)
Definition backoff (ps : PostgresStore) (attempt : nat) : Z :=
  wrap64 (psRetryDelay ps * (if bool_decide (attempt < 64) then wrap64 (2 ^ Z.of_nat attempt) else 0)).

(** [ctx_done n] is the error of a context that is done at the [n]-th wait. *)
Context (ctx_done : nat -> option error).

(** The attempts from number [attempt] on, [left] of them with a successor. *)
Fixpoint retry_loop (ps : PostgresStore) (fn : Pg -> option error * Pg) (left attempt : nat) (db : Pg)
    : option error * Pg :=
  match fn db with
  | (None, db1) => (None, db1)
  | (Some err, db1) =>
      if negb (isRetryableError err) then (Some err, db1)
      else
        match left with
        | 0 => (Some (ErrWrap "max retries exceeded" err), db1)
        | S left' =>
            match ctx_done attempt with
            | Some cerr => (Some cerr, db1)
            | None =>
                retry_loop ps fn left' (S attempt)
                  (mkPg (pgTables db1) (pgCalls db1) (pgSleeps db1 ++ [backoff ps attempt]))
            end
        end
  end.

(** A negative bound runs no attempt and formats a nil error. *)
Definition executeWithRetry (ps : PostgresStore) (fn : Pg -> option error * Pg) (db : Pg) : option error * Pg :=
  if (psMaxRetries ps <? 0)%Z then (Some (ErrText "max retries exceeded: %!w(<nil>)"), db)
  else retry_loop ps fn (Z.to_nat (psMaxRetries ps)) 0 db.

Definition PersistTradeWithOrders (ps : PostgresStore) (trade : TradeRecord)
    (buyOrderUpdate sellOrderUpdate : OrderUpdate) (db : Pg) : option error * Pg :=
  executeWithRetry ps (persistTradeWithOrdersTx trade buyOrderUpdate sellOrderUpdate) db.

Definition PersistTradeOnly (ps : PostgresStore) (trade : TradeRecord) (db : Pg) : option error * Pg :=
  executeWithRetry ps (persistTradeOnlyTx trade) db.

(** The map is built anew in every attempt; the attempts may visit it in
    different orders, here the same one. *)
Definition PersistMultipleTrades (ps : PostgresStore) (trades : list TradeRecord) (iteration : list OrderUpdate)
    (db : Pg) : option error * Pg :=
  executeWithRetry ps (persistMultipleTradesTx trades iteration) db.

(** ** Queries *)

Definition parsed (prefix : string) (d : decimal) : result decimal :=
  match decimal_NewFromString (numeric_out d) with
  | Some d' => inr d'
  | None => inl (ErrWrap prefix (ErrText "can't convert to decimal"))
  end.

Definition scan_trade (row : TradeRecord) : result TradeRecord :=
  match parsed "failed to parse price" (tdPrice row) with
  | inl err => inl err
  | inr price =>
      match parsed "failed to parse quantity" (tdQuantity row) with
      | inl err => inl err
      | inr quantity =>
          inr (mkTradeRecord (tdTradeID row) (tdBuyOrderID row) (tdSellOrderID row) (tdInstrument row)
                 price quantity (tdTimestamp row) (tdCreatedAt row))
      end
  end.

Definition GetTrade (db : Pg) (tradeID : uuid) : result TradeRecord * Pg :=
  let '(f, db1) := call db in
  match f with
  | Some err => (inl (ErrWrap "failed to get trade" err), db1)
  | None =>
      match pgTrades (pgTables db1) !! uuid_String tradeID with
      | None => (inl (ErrText ("trade not found: " +:+ uuid_String tradeID)), db1)
      | Some row => (scan_trade row, db1)
      end
  end.

(** The zero [time.Time]. *)
Definition zero_time : Z := (-62135596800 * 10 ^ 9)%Z.

(** [updated_at] is scanned into a variable and not copied to the order. *)
Definition scan_order (row : Order) (price quantity filled : decimal) : Order :=
  mkOrder (oID row) (oClientID row) (oInstrument row) (oSide row) (oType row) price quantity filled
    (oStatus row) (oCreatedAt row) zero_time.

Definition GetOrder (db : Pg) (orderID : uuid) : result Order * Pg :=
  let '(f, db1) := call db in
  match f with
  | Some err => (inl (ErrWrap "failed to get order" err), db1)
  | None =>
      match pgOrders (pgTables db1) !! uuid_String orderID with
      | None => (inl (ErrText ("order not found: " +:+ uuid_String orderID)), db1)
      | Some row =>
          (match parsed "failed to parse price" (oPrice row) with
           | inl err => inl err
           | inr price =>
               match parsed "failed to parse quantity" (oQuantity row) with
               | inl err => inl err
               | inr quantity =>
                   match parsed "failed to parse filled quantity" (oFilledQuantity row) with
                   | inl err => inl err
                   | inr filled => inr (scan_order row price quantity filled)
                   end
               end
           end, db1)
      end
  end.

(** The row the columns of [orders] make of an order. *)
Definition order_row (o : Order) : option Order :=
  price ← numeric_in (decimal_String (oPrice o));
  quantity ← numeric_in (decimal_String (oQuantity o));
  filled ← numeric_in (decimal_String (oFilledQuantity o));
  if varchar_ok 255 (oClientID o) && varchar_ok 50 (oInstrument o)
     && bool_decide (oSide o ∈ [OrderSideBuy; OrderSideSell])
     && bool_decide (oType o ∈ [OrderTypeMarket; OrderTypeLimit])
     && status_ok (oStatus o) && positive quantity
     && decimal_GreaterThanOrEqual filled decimal_Zero && decimal_LessThanOrEqual filled quantity
  then Some (mkOrder (oID o) (oClientID o) (oInstrument o) (oSide o) (oType o) price quantity filled
               (oStatus o) (oCreatedAt o) (oUpdatedAt o))
  else None.

Definition InsertOrder (db : Pg) (order : Order) : option error * Pg :=
  let '(f, db1) := call db in
  match f with
  | Some err => (Some (ErrWrap "failed to insert order" err), db1)
  | None =>
      match order_row order with
      | None => (Some (ErrWrap "failed to insert order" violation), db1)
      | Some row =>
          let t := pgTables db1 in
          (None, match pgOrders t !! uuid_String (oID order) with
                 | Some _ => db1
                 | None => mkPg (mkTables (pgTrades t) (<[uuid_String (oID order) := row]> (pgOrders t)))
                             (pgCalls db1) (pgSleeps db1)
                 end)
      end
  end.

(** The loop over the rows of a query for trades stops at the first error. *)
Fixpoint scan_trades (rows : list TradeRecord) (trades : list TradeRecord) : result (list TradeRecord) :=
  match rows with
  | [] => inr trades
  | row :: rows' =>
      match scan_trade row with
      | inl err => inl err
      | inr trade => scan_trades rows' (trades ++ [trade])
      end
  end.

(** [rows] is the server's answer: newest first, at most [limit] of them. *)
Definition answers_trades (t : Tables) (instrument : string) (limit : nat) (rows : list TradeRecord) : Prop :=
  exists all, all ≡ₚ filter (fun r => tdInstrument r = instrument) (map_to_list (pgTrades t)).*2 /\
    StronglySorted (fun a b => tdTimestamp b <= tdTimestamp a)%Z all /\ rows = take limit all.

Definition GetTradesByInstrument (answer : result (list TradeRecord * option error)) : result (list TradeRecord) :=
  match answer with
  | inl err => inl (ErrWrap "failed to query trades" err)
  | inr (rows, rowsErr) =>
      match scan_trades rows [] with
      | inl err => inl err
      | inr trades =>
          match rowsErr with
          | Some err => inl (ErrWrap "error iterating trades" err)
          | None => inr trades
          end
      end
  end.

(** A number that cannot be read is zero here. *)
Definition scan_client_order (row : Order) : Order :=
  scan_order row (read_numeric (oPrice row)) (read_numeric (oQuantity row)) (read_numeric (oFilledQuantity row)).

Definition GetOrdersByClientID (answer : result (list Order * option error)) : result (list Order) :=
  match answer with
  | inl err => inl (ErrWrap "failed to query orders" err)
  | inr (rows, rowsErr) =>
      match rowsErr with
      | Some err => inl (ErrWrap "error iterating orders" err)
      | None => inr (scan_client_order <$> rows)
      end
  end.
End postgres.
