(* ===== verification/PostgresTheorems.v ===== *)
(** * Properties of the PostgreSQL store

    Atomicity, idempotence and order independence of the transactions against
    a specification on the tables, what the retry loop does, and the round trip
    of a trade. *)

From S2P Require Import Prelude.
From S2P Require Import Json.
From S2P Require Import External.
From S2P Require Import Models.
From S2P Require Import Sql.
From S2P Require Import Snapshot.
From S2P Require Import Postgres.

(** ** The specification on tables *)

Section spec.
Context `{DecimalPkg, UuidPkg, !PgPkg}.

(** An update that finds its row and respects the constraints. *)
Definition apply_update (t : Tables) (update : OrderUpdate) (now : Z) : option Tables :=
  match update_order_stmt t update now with
  | inr (t', S _) => Some t'
  | _ => None
  end.

Definition apply_trade (t : Tables) (trade : TradeRecord) (buy sell : OrderUpdate) (now1 now2 : Z) : option Tables :=
  t1 ← insert_trade_stmt t trade; t2 ← apply_update t1 buy now1; apply_update t2 sell now2.

(** The rows without the column the trigger writes. *)
Definition erase (o : Order) : Order := set_oUpdatedAt o 0.
Definition erased (m : gmap string Order) : gmap string Order := erase <$> m.

Definition same_tables (t t' : Tables) : Prop :=
  pgTrades t = pgTrades t' /\ erased (pgOrders t) = erased (pgOrders t').

#[global] Instance same_tables_equiv : Equivalence same_tables.
Proof. unfold same_tables. split; [done|intros ? ? []; done|intros ? ? ? [] []; split; congruence]. Qed.

(** The same update on erased rows. *)
Definition erased_row (o : Order) (update : OrderUpdate) : option Order := updated_row o update 0.

Definition erased_update (m : gmap string Order) (update : OrderUpdate) : option (gmap string Order) :=
  o ← m !! uuid_String (ouOrderID update);
  o' ← erased_row o update;
  Some (<[uuid_String (ouOrderID update) := o']> m).

Lemma updated_row_erase o update now :
  erase <$> updated_row o update now = erased_row (erase o) update.
Proof.
  unfold erased_row, updated_row. destruct (numeric_in _) as [f|]; [|done]. cbn [mbind option_bind].
  change (oQuantity (erase o)) with (oQuantity o). by destruct (_ && _).
Qed.

Lemma apply_update_erased t update now :
  (fun t' => (pgTrades t', erased (pgOrders t'))) <$> apply_update t update now =
  (fun m => (pgTrades t, m)) <$> erased_update (erased (pgOrders t)) update.
Proof.
  unfold apply_update, update_order_stmt, erased_update, erased. rewrite lookup_fmap.
  destruct (pgOrders t !! _) as [o|]; [|done]. cbn [fmap option_fmap option_map mbind option_bind].
  rewrite <- (updated_row_erase o update now). destruct (updated_row o update now) as [o'|]; [|done]. cbn.
  by rewrite fmap_insert.
Qed.

Lemma apply_update_Some t update now t' : apply_update t update now = Some t' ->
  pgTrades t' = pgTrades t /\ erased_update (erased (pgOrders t)) update = Some (erased (pgOrders t')).
Proof.
  intros Ht. pose proof (apply_update_erased t update now) as He. rewrite Ht in He.
  destruct (erased_update _ _) as [m|]; cbn in He; simplify_eq. split; congruence.
Qed.

Lemma apply_update_defined t update now m : erased_update (erased (pgOrders t)) update = Some m ->
  exists t', apply_update t update now = Some t'.
Proof.
  intros Hm. pose proof (apply_update_erased t update now) as He. rewrite Hm in He.
  destruct (apply_update t update now) as [t'|]; [eauto|done].
Qed.

(** A row once updated can be updated again, and what an update writes does
    not depend on what an earlier one wrote. *)
Lemma erased_row_quantity o update o' : erased_row o update = Some o' -> oQuantity o' = oQuantity o.
Proof.
  unfold erased_row, updated_row. destruct (numeric_in _); [|done]. cbn. destruct (_ && _); [|done].
  intros. by simplify_eq.
Qed.

Lemma erased_row_over o u o' u' : erased_row o u = Some o' -> erased_row o' u' = erased_row o u'.
Proof.
  intros Ho. pose proof (erased_row_quantity _ _ _ Ho) as Hq.
  unfold erased_row, updated_row in *. destruct (numeric_in (decimal_String (ouFilledQuantity u))) as [f|]; [|done].
  cbn in Ho. destruct (_ && _) in Ho; [|done]. simplify_eq.
  destruct (numeric_in (decimal_String (ouFilledQuantity u'))) as [f'|]; [|done]. cbn. by destruct (_ && _).
Qed.

Lemma erased_update_Some m u m' : erased_update m u = Some m' ->
  exists o o', m !! uuid_String (ouOrderID u) = Some o /\ erased_row o u = Some o' /\
    m' = <[uuid_String (ouOrderID u) := o']> m.
Proof.
  unfold erased_update. intros (o & Ho & Hm)%bind_Some. apply bind_Some in Hm as (o' & Ho' & Hm).
  simplify_eq. eauto.
Qed.

Lemma erased_update_intro m u o o' : m !! uuid_String (ouOrderID u) = Some o -> erased_row o u = Some o' ->
  erased_update m u = Some (<[uuid_String (ouOrderID u) := o']> m).
Proof. intros Ho Ho'. unfold erased_update. rewrite Ho. cbn. by rewrite Ho'. Qed.

(** Two updates applied twice are the two updates applied once. *)
Lemma erased_updates_idem m b s m1 m2 :
  erased_update m b = Some m1 -> erased_update m1 s = Some m2 ->
  exists m3, erased_update m2 b = Some m3 /\ erased_update m3 s = Some m2.
Proof.
  intros (o & o' & Ho & Ho' & ->)%erased_update_Some (p & p' & Hp & Hp' & ->)%erased_update_Some.
  destruct (decide (uuid_String (ouOrderID b) = uuid_String (ouOrderID s))) as [Heq|Hne].
  - rewrite Heq in *. rewrite lookup_insert_eq in Hp. simplify_eq. rewrite insert_insert_eq.
    eexists. split.
    + apply (erased_update_intro _ _ p' p); [by rewrite Heq, lookup_insert_eq|].
      rewrite (erased_row_over _ _ _ b Hp'). rewrite (erased_row_over _ _ _ b Ho'). done.
    + rewrite Heq, insert_insert_eq.
      rewrite (erased_update_intro _ _ p p'); [by rewrite insert_insert_eq|by rewrite lookup_insert_eq|done].
  - eexists. split.
    + apply (erased_update_intro _ _ o' o'); [by rewrite lookup_insert_ne, lookup_insert_eq by done|].
      by rewrite (erased_row_over _ _ _ b Ho').
    + rewrite insert_id by (by rewrite lookup_insert_ne, lookup_insert_eq by done).
      rewrite (erased_update_intro _ _ p' p'); [by rewrite insert_insert_eq|by rewrite lookup_insert_eq|].
      by rewrite (erased_row_over _ _ _ s Hp').
Qed.

Lemma insert_trade_idem t trade t1 : insert_trade_stmt t trade = Some t1 ->
  insert_trade_stmt t1 trade = Some t1 /\ pgOrders t1 = pgOrders t.
Proof.
  unfold insert_trade_stmt. destruct (trade_row trade) as [row|]; [|done]. cbn. intros Ht. simplify_eq.
  destruct (pgTrades t !! _) eqn:Hk; [by rewrite Hk|]. cbn. by rewrite lookup_insert_eq.
Qed.

Lemma insert_trade_over t trade t1 t2 : insert_trade_stmt t trade = Some t1 -> pgTrades t2 = pgTrades t1 ->
  insert_trade_stmt t2 trade = Some t2.
Proof.
  unfold insert_trade_stmt. destruct (trade_row trade) as [row|]; [|done]. cbn. intros Ht Heq. simplify_eq.
  rewrite Heq. destruct (pgTrades t !! _) eqn:Hk; [by rewrite Hk|]. cbn. by rewrite lookup_insert_eq.
Qed.

Lemma apply_trade_idem t trade b s n1 n2 t' :
  apply_trade t trade b s n1 n2 = Some t' ->
  forall k1 k2, exists t'', apply_trade t' trade b s k1 k2 = Some t'' /\ same_tables t'' t'.
Proof.
  unfold apply_trade. intros (t1 & Ht1 & Ht)%bind_Some k1 k2. apply bind_Some in Ht as (t2 & Ht2 & Ht').
  apply apply_update_Some in Ht2 as [Htr2 Hb], Ht' as [Htr Hs].
  destruct (erased_updates_idem _ _ _ _ _ Hb Hs) as (m3 & Hm3 & Hm4).
  rewrite (insert_trade_over _ _ _ t' Ht1) by congruence. cbn [mbind option_bind].
  destruct (apply_update_defined t' b k1 _ Hm3) as [t3 Ht3]. rewrite Ht3. cbn [mbind option_bind].
  apply apply_update_Some in Ht3 as [Htr3 Hm3']. rewrite Hm3 in Hm3'. simplify_eq.
  destruct (apply_update_defined t3 s k2 _ Hm4) as [t4 Ht4]. exists t4. split; [done|].
  apply apply_update_Some in Ht4 as [Htr4 Hm4']. rewrite Hm4 in Hm4'. simplify_eq. split; congruence.
Qed.
End spec.

(** ** What the transactions do *)

Section ops.
Context `{DecimalPkg, UuidPkg, !PgPkg}.
Context (faults : nat -> option error) (lost : nat -> bool) (pg_now : nat -> Z).

(** The errors of the driver do not contain the sentinels of the package,
    which nothing returns. *)
Definition no_sentinel (e : error) : Prop :=
  errors_Is e ErrDeadlock = false /\ errors_Is e ErrSerializationFailure = false /\
  errors_Is e ErrConnectionFailure = false.

Definition driver_faults : Prop := forall n e, faults n = Some e -> no_sentinel e.

(** An error that [fmt.Errorf] wrapped. *)
Definition wrapped (e : error) : Prop := exists p e', e = ErrWrap p e' /\ no_sentinel e'.

Lemma no_sentinel_wrap p e : no_sentinel e -> no_sentinel (ErrWrap p e).
Proof. intros (Ha & Hb & Hc). unfold no_sentinel. cbn. by rewrite Ha, Hb, Hc. Qed.

Lemma wrapped_not_retryable e : wrapped e -> isRetryableError e = false.
Proof.
  intros (p & e' & -> & Hn). destruct (no_sentinel_wrap p e' Hn) as (Ha & Hb & Hc).
  unfold isRetryableError. by rewrite Ha, Hb, Hc.
Qed.

Lemma wrapped_no_sentinel e : wrapped e -> no_sentinel e.
Proof. intros (p & e' & -> & Hn). by apply no_sentinel_wrap. Qed.

(** A computation on the connection relates the tables by [R] when it
    succeeds and returns a harmless error when it fails. *)
Definition does (R : Tables -> Tables -> Prop) (f : Pg -> option error * Pg) : Prop :=
  forall db, match f db with
  | (None, db') => R (pgTables db) (pgTables db')
  | (Some e, _) => no_sentinel e
  end.

Hypothesis Hdriver : driver_faults.

Lemma insertTrade_does trade :
  does (fun t t' => insert_trade_stmt t trade = Some t') (fun db => insertTrade faults db trade).
Proof.
  intros db. unfold insertTrade, call. destruct (faults (pgCalls db)) as [e|] eqn:Hf; cbn.
  { by eapply no_sentinel_wrap, Hdriver. }
  destruct (insert_trade_stmt (pgTables db) trade) as [t|] eqn:Ht; [|by apply no_sentinel_wrap].
  cbn. destruct (faults (S (pgCalls db))) as [e|] eqn:Hf2; [by eapply no_sentinel_wrap, Hdriver|done].
Qed.

Lemma updateOrder_does update :
  does (fun t t' => exists now, apply_update t update now = Some t')
    (fun db => updateOrder faults pg_now db update).
Proof.
  intros db. unfold updateOrder, call. destruct (faults (pgCalls db)) as [e|] eqn:Hf; cbn.
  { by eapply no_sentinel_wrap, Hdriver. }
  destruct (update_order_stmt (pgTables db) update _) as [err|[t n]] eqn:Ht.
  { apply no_sentinel_wrap. unfold update_order_stmt in Ht. repeat case_match; by simplify_eq. }
  cbn. destruct (faults (S (pgCalls db))) as [e|] eqn:Hf2; [by eapply no_sentinel_wrap, Hdriver|].
  case_bool_decide as Hn; [done|]. eexists. unfold apply_update. rewrite Ht. by destruct n.
Qed.

Lemma stmt_does prefix f next R R' : does R f -> does R' next ->
  does (fun t t' => exists t1, R t t1 /\ R' t1 t') (stmt prefix f next).
Proof.
  intros Hf Hn db. unfold stmt. specialize (Hf db). destruct (f db) as [[e|] db1]; [by apply no_sentinel_wrap|].
  specialize (Hn db1). destruct (next db1) as [[e|] db2]; [done|eauto].
Qed.

Lemma does_mono (R R' : Tables -> Tables -> Prop) f : (forall t t', R t t' -> R' t t') -> does R f -> does R' f.
Proof. intros HR Hf db. specialize (Hf db). destruct (f db) as [[e|] db']; auto. Qed.

Lemma ret_does : does eq (fun db => (None, db)).
Proof. by intros db. Qed.

(** Whether the tables stayed or the transaction took effect although its
    commit reported an error. *)
Definition unchanged_or (R : Tables -> Tables -> Prop) (t t' : Tables) : Prop :=
  t' = t \/ (exists k, is_Some (faults k) /\ lost k = true) /\ R t t'.

Lemma in_tx_does R body on_commit db : does R body ->
  match in_tx faults lost db body on_commit with
  | (None, db') => R (pgTables db) (pgTables db')
  | (Some e, db') => unchanged_or R (pgTables db) (pgTables db')
  end.
Proof.
  intros Hb. unfold in_tx, commit, call. destruct (faults (pgCalls db)) as [e|]; [by left|].
  specialize (Hb (bump db (pgTables db))). destruct (body _) as [[e|] db2]; [by left|].
  destruct (faults (pgCalls db2)) as [e|] eqn:Hf; [|done].
  destruct (lost (pgCalls db2)) eqn:Hl; [right|by left]. split; [|done]. exists (pgCalls db2).
  split; [by eexists|done].
Qed.

(** The errors of a transaction whose commit error is wrapped. *)
Lemma in_tx_wrapped R prefix body db e : does R body ->
  (forall db e, (body db).1 = Some e -> wrapped e) ->
  (in_tx faults lost db body (ErrWrap prefix)).1 = Some e -> wrapped e.
Proof.
  intros Hb Hw. unfold in_tx, commit, call. destruct (faults (pgCalls db)) as [e0|] eqn:Hf.
  { cbn. intros. simplify_eq. eexists _, _. split; [done|by eapply Hdriver]. }
  specialize (Hw (bump db (pgTables db))). destruct (body _) as [[e1|] db2]; cbn in *.
  { intros. simplify_eq. by apply Hw. }
  destruct (faults (pgCalls db2)) as [e2|] eqn:Hf2; cbn; [|done].
  intros. simplify_eq. eexists _, _. split; [done|by eapply Hdriver].
Qed.

Lemma stmt_wrapped prefix f next R db e : does R f -> (forall db e, (next db).1 = Some e -> wrapped e) ->
  (stmt prefix f next db).1 = Some e -> wrapped e.
Proof.
  intros Hf Hn. unfold stmt. specialize (Hf db). destruct (f db) as [[e1|] db1]; cbn; [|apply Hn].
  intros. simplify_eq. by eexists _, _.
Qed.

(** ** Trades with their orders *)

Context (trade : TradeRecord) (buy sell : OrderUpdate).

Definition trade_applied (t t' : Tables) : Prop := exists n1 n2, apply_trade t trade buy sell n1 n2 = Some t'.

Definition trade_body : Pg -> option error * Pg :=
  stmt "failed to insert trade" (fun db => insertTrade faults db trade)
    (stmt "failed to update buy order" (fun db => updateOrder faults pg_now db buy)
      (stmt "failed to update sell order" (fun db => updateOrder faults pg_now db sell)
        (fun db => (None, db)))).

Lemma trade_body_does : does trade_applied trade_body.
Proof.
  eapply does_mono; [|apply stmt_does; [apply insertTrade_does|apply stmt_does; [apply updateOrder_does|
    apply stmt_does; [apply updateOrder_does|apply ret_does]]]].
  intros t t' (t1 & Ht1 & t2 & [n1 Ht2] & t3 & [n2 Ht3] & <-). exists n1, n2.
  unfold apply_trade. rewrite Ht1. cbn. rewrite Ht2. cbn. done.
Qed.

Lemma trade_body_wrapped db e : (trade_body db).1 = Some e -> wrapped e.
Proof.
  apply (stmt_wrapped _ _ _ _ db e (insertTrade_does trade)). intros db1 e1.
  apply (stmt_wrapped _ _ _ _ db1 e1 (updateOrder_does buy)). intros db2 e2.
  by apply (stmt_wrapped _ _ _ _ db2 e2 (updateOrder_does sell)).
Qed.

Lemma trade_tx_wrapped db e :
  (persistTradeWithOrdersTx faults lost pg_now trade buy sell db).1 = Some e -> wrapped e.
Proof. apply (in_tx_wrapped _ _ _ db e trade_body_does trade_body_wrapped). Qed.
End ops.

(** A function all of whose errors are not retryable runs once. *)
Lemma retry_once `{DecimalPkg, UuidPkg} ctx_done ps (fn : Pg -> option error * Pg) db :
  (0 <= psMaxRetries ps)%Z -> (forall e, (fn db).1 = Some e -> isRetryableError e = false) ->
  executeWithRetry ctx_done ps fn db = fn db.
Proof.
  intros Hps Hfn. unfold executeWithRetry. destruct (Z.ltb_spec (psMaxRetries ps) 0); [lia|].
  destruct (Z.to_nat (psMaxRetries ps)); cbn [retry_loop]; destruct (fn db) as [[e|] db1] eqn:Hf; try done;
    rewrite (Hfn e) by (by rewrite ?Hf); done.
Qed.

(** ** Many trades *)

Section many.
Context `{DecimalPkg, UuidPkg, !PgPkg}.

Fixpoint insert_all (t : Tables) (trades : list TradeRecord) : option Tables :=
  match trades with
  | [] => Some t
  | trade :: trades' => t1 ← insert_trade_stmt t trade; insert_all t1 trades'
  end.

Inductive updates_applied : Tables -> list OrderUpdate -> Tables -> Prop :=
  | ua_nil t : updates_applied t [] t
  | ua_cons t u now t1 us t' : apply_update t u now = Some t1 -> updates_applied t1 us t' ->
      updates_applied t (u :: us) t'.

Lemma insert_all_orders t trades t' : insert_all t trades = Some t' -> pgOrders t' = pgOrders t.
Proof.
  revert t. induction trades as [|trade trades IH]; cbn; intros t Ht; [by simplify_eq|].
  apply bind_Some in Ht as (t1 & Ht1 & Ht). rewrite (IH _ Ht). by apply insert_trade_idem in Ht1 as [_ ->].
Qed.

(** Updates of different orders: each row gets its own, the others stay. *)
Lemma updates_applied_rows t us t' : updates_applied t us t' ->
  NoDup ((fun u => uuid_String (ouOrderID u)) <$> us) ->
  pgTrades t' = pgTrades t /\
  (forall u, u ∈ us -> exists o o', erased (pgOrders t) !! uuid_String (ouOrderID u) = Some o /\
     erased_row o u = Some o' /\ erased (pgOrders t') !! uuid_String (ouOrderID u) = Some o') /\
  (forall k, k ∉ (fun u => uuid_String (ouOrderID u)) <$> us ->
     erased (pgOrders t') !! k = erased (pgOrders t) !! k).
Proof.
  induction 1 as [t|t u now t1 us t' Hu Hus IH]; intros Hnd; [split_and!; [done|set_solver|done]|].
  rewrite fmap_cons in Hnd. apply NoDup_cons in Hnd as [Hnew Hnd]. destruct (IH Hnd) as (Htr & Hin & Hout).
  apply apply_update_Some in Hu as [Htr1 Hu]. apply erased_update_Some in Hu as (o & o' & Ho & Ho' & Hm).
  split_and!; [congruence| |].
  - intros x [->|Hx]%elem_of_cons.
    + exists o, o'. split_and!; [done..|]. rewrite Hout by done. by rewrite Hm, lookup_insert_eq.
    + destruct (Hin x Hx) as (p & p' & Hp & Hp' & Hx'). exists p, p'. split_and!; [|done..].
      rewrite Hm, lookup_insert_ne in Hp; [done|]. intros Heq. destruct Hnew. rewrite Heq.
      by apply (list_elem_of_fmap_2 (fun u => uuid_String (ouOrderID u))).
  - intros k Hk. rewrite fmap_cons in Hk. apply not_elem_of_cons in Hk as [Hk1 Hk2]. rewrite Hout by done.
    by rewrite Hm, lookup_insert_ne.
Qed.

Lemma order_update_map_key us k u : order_update_map us !! k = Some u -> k = uuid_String (ouOrderID u) /\ u ∈ us.
Proof.
  unfold order_update_map. revert k u. induction us as [|x us IH] using rev_ind; intros k u; cbn; [done|].
  rewrite foldl_app. cbn. rewrite lookup_insert_Some. intros [[<- <-]|[_ Hk]]; [split; [done|set_solver]|].
  destruct (IH _ _ Hk). split; [done|set_solver].
Qed.

Lemma visits_keys us iteration : visits us iteration ->
  NoDup ((fun u => uuid_String (ouOrderID u)) <$> iteration) /\
  forall u, u ∈ iteration <-> order_update_map us !! uuid_String (ouOrderID u) = Some u.
Proof.
  unfold visits. intros Hv. assert ((fun u => uuid_String (ouOrderID u)) <$> (map_to_list (order_update_map us)).*2
    = (map_to_list (order_update_map us)).*1) as Hkeys.
  { rewrite <- list_fmap_compose. apply Forall_fmap_ext_1, Forall_forall. intros [k u] Hk%elem_of_map_to_list. cbn.
    by destruct (order_update_map_key _ _ _ Hk) as [-> _]. }
  split.
  - rewrite Hv, Hkeys. apply NoDup_fst_map_to_list.
  - intros u. rewrite Hv, list_elem_of_fmap. split.
    + intros ([k x] & -> & Hk%elem_of_map_to_list). cbn. by destruct (order_update_map_key _ _ _ Hk) as [<- _].
    + intros Hu. exists (uuid_String (ouOrderID u), u). split; [done|by apply elem_of_map_to_list].
Qed.
Context (faults : nat -> option error) (lost : nat -> bool) (pg_now : nat -> Z).
Hypothesis Hdriver : driver_faults faults.

Lemma update_orders_does us : does (fun t t' => updates_applied t us t') (update_orders faults pg_now us).
Proof.
  induction us as [|u us IH]; [intros db; constructor|]. cbn [update_orders].
  eapply does_mono; [|apply stmt_does; [by apply updateOrder_does|exact IH]].
  intros t t' (t1 & [now Ht1] & Hus). by econstructor.
Qed.

Lemma insert_trades_does trades R next : does R next ->
  does (fun t t' => exists t1, insert_all t trades = Some t1 /\ R t1 t') (insert_trades faults trades next).
Proof.
  intros Hn. induction trades as [|trade trades IH]; cbn [insert_trades].
  - eapply does_mono; [|exact Hn]. intros t t' HR. by exists t.
  - eapply does_mono; [|apply stmt_does; [by apply (insertTrade_does faults Hdriver trade)|exact IH]].
    intros t t' (t1 & Ht1 & t2 & Ht2 & HR). exists t2. cbn. by rewrite Ht1.
Qed.

Lemma update_orders_wrapped us db e : (update_orders faults pg_now us db).1 = Some e -> wrapped e.
Proof.
  revert db e. induction us as [|u us IH]; [done|]. intros db e. cbn [update_orders].
  apply (stmt_wrapped _ _ _ _ db e (updateOrder_does faults pg_now Hdriver u)), IH.
Qed.

Lemma insert_trades_wrapped trades next db e : (forall db e, (next db).1 = Some e -> wrapped e) ->
  (insert_trades faults trades next db).1 = Some e -> wrapped e.
Proof.
  intros Hn. revert db e. induction trades as [|trade trades IH]; [by apply Hn|]. intros db e. cbn [insert_trades].
  apply (stmt_wrapped _ _ _ _ db e (insertTrade_does faults Hdriver trade)), IH.
Qed.

Lemma multiple_tx_wrapped trades us db e :
  (persistMultipleTradesTx faults lost pg_now trades us db).1 = Some e -> wrapped e.
Proof.
  apply (in_tx_wrapped faults lost Hdriver _ _ _ db e (insert_trades_does trades _ _ (update_orders_does us))).
  intros db' e'. apply insert_trades_wrapped, update_orders_wrapped.
Qed.

End many.

(** ** Theorems *)

Section theorems.
Context `{DecimalSpec, UuidSpec, !PgPkg, !PgSpec}.
Context (faults : nat -> option error) (lost : nat -> bool) (pg_now : nat -> Z) (ctx_done : nat -> option error).
Implicit Types (db : Pg).

(** C12: a trade and its orders are persisted together.  Without an error the
    trade is stored (or was already) and both orders carry their updates; with
    an error the tables are as they were, unless the server executed the commit
    whose error was reported, and then everything is stored. *)
Theorem PersistTradeWithOrders_atomic ps trade buy sell db :
  (0 <= psMaxRetries ps)%Z -> driver_faults faults ->
  match PersistTradeWithOrders faults lost pg_now ctx_done ps trade buy sell db with
  | (None, db') => trade_applied trade buy sell (pgTables db) (pgTables db')
  | (Some _, db') => unchanged_or faults lost (trade_applied trade buy sell) (pgTables db) (pgTables db')
  end.
Proof.
  intros Hps Hd. unfold PersistTradeWithOrders. rewrite retry_once; [|done|].
  - apply in_tx_does, trade_body_does, Hd.
  - intros e He. by eapply wrapped_not_retryable, trade_tx_wrapped.
Qed.

(** Persisting a stored trade again changes nothing.  After a successful
    call, another one with the same arguments, whatever errors it meets, leaves
    the trades and the orders as they are, but for the time the trigger writes. *)
Theorem PersistTradeWithOrders_idempotent ps trade buy sell db db1 db2 e faults' lost' now' ctx' :
  (0 <= psMaxRetries ps)%Z -> driver_faults faults -> driver_faults faults' ->
  PersistTradeWithOrders faults lost pg_now ctx_done ps trade buy sell db = (None, db1) ->
  PersistTradeWithOrders faults' lost' now' ctx' ps trade buy sell db1 = (e, db2) ->
  same_tables (pgTables db2) (pgTables db1).
Proof.
  intros Hps Hd Hd' Hfirst Hagain.
  assert (forall f l n c d, driver_faults f -> PersistTradeWithOrders f l n c ps trade buy sell d
    = persistTradeWithOrdersTx f l n trade buy sell d) as Honce.
  { intros f l n c d Hf. apply retry_once; [done|]. intros e' He. by eapply wrapped_not_retryable, trade_tx_wrapped. }
  rewrite Honce in Hfirst, Hagain by done.
  pose proof (in_tx_does faults lost _ _ (ErrWrap "failed to commit transaction") db (trade_body_does faults pg_now Hd trade buy sell)) as Ht1.
  pose proof (in_tx_does faults' lost' _ _ (ErrWrap "failed to commit transaction") db1 (trade_body_does faults' now' Hd' trade buy sell)) as Ht2.
  change (in_tx faults lost db _ _) with (persistTradeWithOrdersTx faults lost pg_now trade buy sell db) in Ht1.
  change (in_tx faults' lost' db1 _ _) with (persistTradeWithOrdersTx faults' lost' now' trade buy sell db1) in Ht2.
  rewrite Hfirst in Ht1. rewrite Hagain in Ht2. destruct Ht1 as (n1 & n2 & Ht1).
  assert (forall t, trade_applied trade buy sell (pgTables db1) t -> same_tables t (pgTables db1)) as Hsame.
  { intros t (k1 & k2 & Hk). destruct (apply_trade_idem _ _ _ _ _ _ _ Ht1 k1 k2) as (t' & Ht' & Hst). congruence. }
  destruct e as [e|]; [|by apply Hsame]. destruct Ht2 as [->|[_ Ht2]]; [reflexivity|by apply Hsame].
Qed.

(** The retry loop is never entered.  The errors of these transactions are
    wrapped before they reach [isRetryableError], which looks only at the
    outermost error: a transaction that fails with a serialization failure or a
    deadlock is attempted once. *)
Theorem transactions_not_retried ps trade buy sell trades iteration db :
  (0 <= psMaxRetries ps)%Z -> driver_faults faults ->
  PersistTradeWithOrders faults lost pg_now ctx_done ps trade buy sell db
    = persistTradeWithOrdersTx faults lost pg_now trade buy sell db /\
  PersistMultipleTrades faults lost pg_now ctx_done ps trades iteration db
    = persistMultipleTradesTx faults lost pg_now trades iteration db.
Proof.
  intros Hps Hd. split; apply retry_once; try done; intros e He; apply wrapped_not_retryable.
  - by eapply trade_tx_wrapped.
  - by eapply multiple_tx_wrapped.
Qed.

(** [n] attempts that fail with a retryable error and the waits after them. *)
Inductive fails ps (fn : Pg -> option error * Pg) : nat -> nat -> Pg -> Pg -> Prop :=
  | fails_0 a db : fails ps fn a 0 db db
  | fails_S a n db e db1 db' : fn db = (Some e, db1) -> isRetryableError e = true ->
      fails ps fn (S a) n (mkPg (pgTables db1) (pgCalls db1) (pgSleeps db1 ++ [backoff ps a])) db' ->
      fails ps fn a (S n) db db'.

Lemma retry_loop_fails ps fn left a db : (forall n, ctx_done n = None) ->
  exists n dbn, n <= left /\ fails ps fn a n db dbn /\
    match retry_loop ctx_done ps fn left a db with
    | (None, db') => fn dbn = (None, db')
    | (Some e, db') =>
        (fn dbn = (Some e, db') /\ isRetryableError e = false) \/
        (n = left /\ exists e0, fn dbn = (Some e0, db') /\ isRetryableError e0 = true /\
           e = ErrWrap "max retries exceeded" e0)
    end.
Proof.
  intros Hctx. revert a db. induction left as [|left IH]; intros a db; cbn [retry_loop];
    destruct (fn db) as [[e|] db1] eqn:Hf.
  2,4: by exists 0, db; split_and!; [lia|constructor|].
  - exists 0, db. split_and!; [lia|constructor|]. destruct (isRetryableError e) eqn:He; cbn [negb]; [right|by left].
    split; [done|eauto].
  - destruct (isRetryableError e) eqn:He; cbn [negb].
    + rewrite Hctx. destruct (IH (S a) (mkPg (pgTables db1) (pgCalls db1) (pgSleeps db1 ++ [backoff ps a])))
        as (n & dbn & Hn & Hfs & Hres).
      exists (S n), dbn. split_and!; [lia|by econstructor|].
      destruct (retry_loop _ _ _ _ _ _) as [[e1|] db2]; [|done]. destruct Hres as [?|[-> ?]]; [by left|by right].
    + exists 0, db. split_and!; [lia|constructor|by left].
Qed.

(** What the retry loop does.  For a context that is not done, it attempts
    the function at most [maxRetries + 1] times, all but the last attempt
    failing with a retryable error; it succeeds when the last attempt does,
    returns its error when that is not retryable, and otherwise has used up
    every attempt.  Without overflow the wait before attempt [i + 1] is
    [retryDelay * 2^i]. *)
Theorem executeWithRetry_attempts ps (fn : Pg -> option error * Pg) db :
  (0 <= psMaxRetries ps)%Z -> (forall n, ctx_done n = None) ->
  (exists n dbn, (Z.of_nat n <= psMaxRetries ps)%Z /\ fails ps fn 0 n db dbn /\
    match executeWithRetry ctx_done ps fn db with
    | (None, db') => fn dbn = (None, db')
    | (Some e, db') =>
        (fn dbn = (Some e, db') /\ isRetryableError e = false) \/
        (Z.of_nat n = psMaxRetries ps /\ exists e0, fn dbn = (Some e0, db') /\ isRetryableError e0 = true /\
           e = ErrWrap "max retries exceeded" e0)
    end) /\
  (forall i, (Z.of_nat i <= psMaxRetries ps)%Z -> (0 <= psRetryDelay ps)%Z -> (psMaxRetries ps < 63)%Z ->
     (psRetryDelay ps * 2 ^ psMaxRetries ps < 2 ^ 63)%Z -> backoff ps i = (psRetryDelay ps * 2 ^ Z.of_nat i)%Z).
Proof.
  intros Hps Hctx. split.
  - unfold executeWithRetry. destruct (Z.ltb_spec (psMaxRetries ps) 0); [lia|].
    destruct (retry_loop_fails ps fn (Z.to_nat (psMaxRetries ps)) 0 db Hctx) as (n & dbn & Hn & Hf & Hres).
    exists n, dbn. split_and!; [lia|done|].
    destruct (retry_loop _ _ _ _ _ _) as [[e|] db']; [|done]. destruct Hres as [?|[-> ?]]; [by left|right].
    split; [lia|done].
  - intros i Hi Hd Hm Hover. unfold backoff. rewrite bool_decide_eq_true_2 by lia.
    assert (0 < 2 ^ Z.of_nat i <= 2 ^ psMaxRetries ps)%Z as [Hpos Hle]
      by (split; [apply Z.pow_pos_nonneg; lia|apply Z.pow_le_mono_r; lia]).
    assert (2 ^ Z.of_nat i < 2 ^ 63)%Z by (apply Z.pow_lt_mono_r; lia).
    assert (forall z, (0 <= z < 2 ^ 63)%Z -> wrap64 z = z) as Hw
      by (intros z Hz; unfold wrap64; rewrite Z.mod_small by lia; lia).
    rewrite (Hw (2 ^ Z.of_nat i)%Z) by lia. apply Hw. split; [nia|]. nia.
Qed.

(** Many trades at once.  When [PersistMultipleTrades] succeeds, all the
    trades are stored and every order that has updates carries the last of
    them, the other orders are unchanged; this does not depend on the order in
    which the map of updates is visited. *)
Theorem PersistMultipleTrades_last_update ps trades updates iteration db :
  (0 <= psMaxRetries ps)%Z -> driver_faults faults -> visits updates iteration ->
  match PersistMultipleTrades faults lost pg_now ctx_done ps trades iteration db with
  | (None, db') =>
      (exists t, insert_all (pgTables db) trades = Some t /\ pgTrades (pgTables db') = pgTrades t) /\
      forall k, match order_update_map updates !! k with
        | Some u => exists o, pgOrders (pgTables db) !! k = Some o /\
            erase <$> pgOrders (pgTables db') !! k = erased_row (erase o) u /\
            is_Some (erased_row (erase o) u)
        | None => erase <$> pgOrders (pgTables db') !! k = erase <$> pgOrders (pgTables db) !! k
        end
  | (Some _, db') => unchanged_or faults lost (fun t t' => exists t1, insert_all t trades = Some t1 /\
                       updates_applied t1 iteration t') (pgTables db) (pgTables db')
  end.
Proof.
  intros Hps Hd Hv. unfold PersistMultipleTrades. rewrite retry_once;
    [|done|intros e He; by eapply wrapped_not_retryable, multiple_tx_wrapped].
  pose proof (in_tx_does faults lost _ _ (ErrWrap "failed to commit transaction") db
    (insert_trades_does faults Hd trades _ _ (update_orders_does faults pg_now Hd iteration))) as Htx.
  change (in_tx faults lost db _ _) with (persistMultipleTradesTx faults lost pg_now trades iteration db) in Htx.
  destruct (persistMultipleTradesTx _ _ _ _ _ _) as [[e|] db']; [done|].
  destruct Htx as (t & Ht & Hus). destruct (visits_keys _ _ Hv) as [Hnd Hmem].
  destruct (updates_applied_rows _ _ _ Hus Hnd) as (Htr & Hin & Hout).
  split; [by exists t|]. intros k. pose proof (insert_all_orders _ _ _ Ht) as Hord.
  destruct (order_update_map updates !! k) as [u|] eqn:Hk.
  - destruct (order_update_map_key _ _ _ Hk) as [-> _]. destruct (Hin u) as (o & o' & Ho & Ho' & Hnew); [by apply Hmem|].
    unfold erased in Ho, Hnew. rewrite lookup_fmap in Ho, Hnew. rewrite Hord in Ho.
    destruct (pgOrders (pgTables db) !! _) as [p|]; [|done]. cbn in Ho. simplify_eq. exists p.
    split_and!; [done|by rewrite Hnew|by eexists].
  - specialize (Hout k). unfold erased in Hout. rewrite !lookup_fmap, Hord in Hout. apply Hout.
    intros (u & -> & Hu)%list_elem_of_fmap. apply Hmem in Hu. congruence.
Qed.

(** ** The round trip of a trade *)

(** The trade is absent or stored as its columns hold it. *)
Definition stored_as trade (t : Tables) : Prop :=
  pgTrades t !! uuid_String (tdTradeID trade) = None \/
  (is_Some (trade_row trade) /\ pgTrades t !! uuid_String (tdTradeID trade) = trade_row trade).

Lemma insert_stored trade t t' : stored_as trade t -> insert_trade_stmt t trade = Some t' ->
  is_Some (trade_row trade) /\ pgTrades t' !! uuid_String (tdTradeID trade) = trade_row trade.
Proof.
  intros Hs. unfold insert_trade_stmt. destruct (trade_row trade) as [row|] eqn:Hr; [|done]. cbn. intros Ht. simplify_eq.
  split; [by eexists|]. destruct Hs as [Hn|[_ Hn]]; [rewrite Hn; cbn; by rewrite lookup_insert_eq|].
  rewrite Hr in Hn. by destruct (pgTrades t !! _) eqn:Hk; simplify_eq.
Qed.

Lemma only_body_does trade : driver_faults faults -> does (fun t t' => insert_trade_stmt t trade = Some t')
  (stmt "failed to insert trade" (fun db => insertTrade faults db trade) (fun db => (None, db))).
Proof.
  intros Hd. eapply does_mono; [|apply stmt_does; [by apply (insertTrade_does faults Hd trade)|apply ret_does]].
  intros t t' (t1 & Ht & <-). done.
Qed.

Lemma only_loop_stored ps trade left a db db' : driver_faults faults -> stored_as trade (pgTables db) ->
  retry_loop ctx_done ps (persistTradeOnlyTx faults lost trade) left a db = (None, db') ->
  is_Some (trade_row trade) /\ pgTrades (pgTables db') !! uuid_String (tdTradeID trade) = trade_row trade.
Proof.
  intros Hd. revert a db. induction left as [|left IH]; intros a db Hs; cbn [retry_loop];
    pose proof (in_tx_does faults lost _ _ (fun e => e) db (only_body_does trade Hd)) as Htx;
    change (in_tx faults lost db _ _) with (persistTradeOnlyTx faults lost trade db) in Htx;
    destruct (persistTradeOnlyTx faults lost trade db) as [[e|] db1].
  - by destruct (isRetryableError e).
  - intros. simplify_eq. by eapply insert_stored.
  - destruct (negb (isRetryableError e)); [done|]. destruct (ctx_done a); [done|]. apply IH. cbn.
    destruct Htx as [->|[_ Htx]]; [done|]. right. by eapply insert_stored.
  - intros. simplify_eq. by eapply insert_stored.
Qed.

(** The round trip of a trade.  A trade that was not stored and that
    [PersistTradeOnly] reports as persisted, with numbers its columns hold, is
    what [GetTrade] returns. *)
Theorem trade_round_trip ps trade db db1 :
  driver_faults faults -> pgTrades (pgTables db) !! uuid_String (tdTradeID trade) = None ->
  numeric_fits (dval (tdPrice trade)) -> numeric_fits (dval (tdQuantity trade)) ->
  PersistTradeOnly faults lost ctx_done ps trade db = (None, db1) -> faults (pgCalls db1) = None ->
  exists trade' db2, GetTrade faults db1 (tdTradeID trade) = (inr trade', db2) /\
    tdTradeID trade' = tdTradeID trade /\ tdBuyOrderID trade' = tdBuyOrderID trade /\
    tdSellOrderID trade' = tdSellOrderID trade /\ tdInstrument trade' = tdInstrument trade /\
    tdPrice trade' ≐ tdPrice trade /\ tdQuantity trade' ≐ tdQuantity trade /\
    tdTimestamp trade' = tdTimestamp trade /\ tdCreatedAt trade' = tdCreatedAt trade.
Proof.
  intros Hd Hnew Hp Hq Hpersist Hf. unfold PersistTradeOnly, executeWithRetry in Hpersist.
  destruct (psMaxRetries ps <? 0)%Z; [done|].
  destruct (only_loop_stored _ _ _ _ _ _ Hd (or_introl Hnew) Hpersist) as [[row Hr] Hrow].
  unfold GetTrade, call. rewrite Hf. cbn [pgTables bump]. rewrite Hrow, Hr. unfold trade_row in Hr.
  destruct (numeric_in_String _ Hp) as (p & Hpn & Hpv). destruct (numeric_in_String _ Hq) as (q & Hqn & Hqv).
  rewrite Hpn, Hqn in Hr. cbn in Hr. destruct (_ && _) in Hr; [|done]. simplify_eq.
  unfold scan_trade, parsed. cbn [tdPrice tdQuantity].
  destruct (NewFromString_numeric_out p) as (p' & -> & Hp'). destruct (NewFromString_numeric_out q) as (q' & -> & Hq').
  eexists _, _. split; [reflexivity|]. cbn. unfold deq. split_and!; try done; by etransitivity.
Qed.
End theorems.

(** ** Instances *)

Module PostgresInstances.
Import Concrete ConcretePg.

Definition no_faults (n : nat) : option error := None.
Definition deadlock : error := ErrPq "40P01" "deadlock detected".
(** The first update of an order meets a deadlock. *)
Definition deadlock_at_3 (n : nat) : option error := if bool_decide (n = 3) then Some deadlock else None.
Definition not_lost (n : nat) : bool := false.
Definition clock0 (n : nat) : Z := Z.of_nat n.

Lemma no_faults_driver : driver_faults no_faults.
Proof. by intros n e. Qed.
Lemma deadlock_driver : driver_faults deadlock_at_3.
Proof. intros n e. unfold deadlock_at_3. case_bool_decide; [|done]. intros. by simplify_eq. Qed.

Definition stored (id side : string) : @Order q_decimal string_uuid :=
  mkOrder id "alice" "BTC-USD" side "limit" (100 : Q) (5 : Q) (0 : Q) "open" 1 1.
Definition db0 : Pg :=
  mkPg (mkTables ∅ (<["b1" := stored "b1" "buy"]> (<["s1" := stored "s1" "sell"]> ∅))) 0 [].
Definition trade0 : TradeRecord := mkTradeRecord ("t1" : @uuid string_uuid) "b1" "s1" "BTC-USD" (100 : Q) (5 : Q) 2 2.
Definition fill (id : @uuid string_uuid) : OrderUpdate := mkOrderUpdate id (5 : Q) "filled" 2.

Definition persisted : option error * Pg :=
  PersistTradeWithOrders no_faults not_lost clock0 no_faults NewPostgresStore trade0 (fill "b1") (fill "s1") db0.

Lemma PersistTradeWithOrders_atomic_witness :
  persisted.1 = None /\ trade_applied trade0 (fill "b1") (fill "s1") (pgTables db0) (pgTables persisted.2).
Proof.
  assert (persisted.1 = None) as He by (vm_compute; reflexivity). split; [exact He|].
  pose proof (PersistTradeWithOrders_atomic no_faults not_lost clock0 no_faults NewPostgresStore trade0
                (fill "b1") (fill "s1") db0 ltac:(discriminate) no_faults_driver) as Ha.
  change (PersistTradeWithOrders no_faults not_lost clock0 no_faults NewPostgresStore trade0 (fill "b1") (fill "s1") db0)
    with persisted in Ha.
  destruct persisted as [[e|] db']; [discriminate He|exact Ha].
Defined.

Lemma pair_eta {A} (p : option A * Pg) : p.1 = None -> p = (None, p.2).
Proof. destruct p as [[]]; cbn; congruence. Qed.

(** The second call meets a deadlock. *)
Lemma PersistTradeWithOrders_idempotent_witness :
  same_tables
    (pgTables (PersistTradeWithOrders deadlock_at_3 not_lost clock0 no_faults NewPostgresStore trade0
                 (fill "b1") (fill "s1") persisted.2).2)
    (pgTables persisted.2).
Proof.
  apply (PersistTradeWithOrders_idempotent no_faults not_lost clock0 no_faults NewPostgresStore trade0
           (fill "b1") (fill "s1") db0 persisted.2 _
           (PersistTradeWithOrders deadlock_at_3 not_lost clock0 no_faults NewPostgresStore trade0
              (fill "b1") (fill "s1") persisted.2).1 deadlock_at_3 not_lost clock0 no_faults
           ltac:(discriminate) no_faults_driver deadlock_driver).
  - apply (pair_eta persisted). vm_compute. reflexivity.
  - by destruct (PersistTradeWithOrders deadlock_at_3 _ _ _ _ _ _ _ _).
Defined.

(** A deadlock, which the server asks to retry, is reported after one attempt. *)
Lemma transactions_not_retried_witness :
  isRetryableError deadlock = true /\
  PersistTradeWithOrders deadlock_at_3 not_lost clock0 no_faults NewPostgresStore trade0 (fill "b1") (fill "s1") db0
    = persistTradeWithOrdersTx deadlock_at_3 not_lost clock0 trade0 (fill "b1") (fill "s1") db0 /\
  (persistTradeWithOrdersTx deadlock_at_3 not_lost clock0 trade0 (fill "b1") (fill "s1") db0).1
    = Some (ErrWrap "failed to update buy order" (ErrWrap "failed to update order" deadlock)).
Proof.
  split; [reflexivity|]. split; [|vm_compute; reflexivity].
  exact (proj1 (transactions_not_retried deadlock_at_3 not_lost clock0 no_faults NewPostgresStore trade0
    (fill "b1") (fill "s1") [] [] db0 ltac:(discriminate) deadlock_driver)).
Defined.

(** Two deadlocks, then success. *)
Definition flaky (db : Pg) : option error * Pg :=
  (if bool_decide (pgCalls db < 2) then Some ErrDeadlock else None, bump db (pgTables db)).

Lemma executeWithRetry_attempts_witness :
  (exists n dbn, (Z.of_nat n <= 3)%Z /\ fails NewPostgresStore flaky 0 n db0 dbn /\
     flaky dbn = (None, (executeWithRetry no_faults NewPostgresStore flaky db0).2)) /\
  backoff NewPostgresStore 2 = (100000000 * 2 ^ 2)%Z.
Proof.
  destruct (executeWithRetry_attempts no_faults NewPostgresStore flaky db0 ltac:(discriminate) (fun _ => eq_refl))
    as [(n & dbn & Hn & Hf & Hres) Hwait].
  split; [|exact (Hwait 2 ltac:(vm_compute; discriminate) ltac:(vm_compute; discriminate) eq_refl eq_refl)].
  exists n, dbn. split; [exact Hn|]. split; [exact Hf|].
  assert ((executeWithRetry no_faults NewPostgresStore flaky db0).1 = None) as He by (vm_compute; reflexivity).
  destruct (executeWithRetry _ _ _ _) as [[e|] db']; [discriminate He|exact Hres].
Defined.

Definition updates2 : list OrderUpdate := [mkOrderUpdate "b1" (1 : Q) "partially_filled" 2; fill "b1"].

Lemma updates2_visits : visits updates2 [fill "b1"].
Proof. unfold visits. vm_compute. reflexivity. Qed.

Lemma PersistMultipleTrades_last_update_witness :
  exists db', PersistMultipleTrades no_faults not_lost clock0 no_faults NewPostgresStore [trade0] [fill "b1"] db0
      = (None, db') /\
    erase <$> pgOrders (pgTables db') !! "s1" = erase <$> pgOrders (pgTables db0) !! "s1".
Proof.
  pose proof (PersistMultipleTrades_last_update no_faults not_lost clock0 no_faults NewPostgresStore [trade0]
    updates2 [fill "b1"] db0 ltac:(discriminate) no_faults_driver updates2_visits) as Hm.
  assert ((PersistMultipleTrades no_faults not_lost clock0 no_faults NewPostgresStore [trade0] [fill "b1"] db0).1 = None) as He
    by (vm_compute; reflexivity).
  destruct (PersistMultipleTrades _ _ _ _ _ _ _ _) as [[e|] db']; [discriminate He|].
  exists db'. split; [reflexivity|]. exact (proj2 Hm "s1").
Defined.

Definition only : option error * Pg := PersistTradeOnly no_faults not_lost no_faults NewPostgresStore trade0 db0.

Lemma trade_round_trip_witness :
  exists trade' db2, GetTrade no_faults only.2 "t1" = (inr trade', db2) /\ tdPrice trade' ≐ (100%Q : decimal).
Proof.
  destruct (trade_round_trip no_faults not_lost no_faults NewPostgresStore trade0 db0 only.2 no_faults_driver)
    as (trade' & db2 & Hg & _ & _ & _ & _ & Hp & _).
  - reflexivity.
  - exists 10000000000%Z. split; vm_compute; reflexivity.
  - exists 500000000%Z. split; vm_compute; reflexivity.
  - apply (pair_eta only). vm_compute. reflexivity.
  - reflexivity.
  - exists trade', db2. split; [exact Hg|exact Hp].
Defined.
End PostgresInstances.
