(* ===== verification/Admin.v ===== *)
(** * The handlers of snapshots and recovery
      (src/api/snapshot_handler.go, recovery_handler.go, router.go)

    A handler takes the request, the managers with the store, the book and the
    table they work on, and the errors its queries meet; [None] is a panic of
    the capture.  A time in a response stands for its text. *)

From Stdlib Require Import Ascii String.
From S2P Require Import Prelude.
From S2P Require Import Web.
From S2P Require Import Json.
From S2P Require Import Text.
From S2P Require Import External.
From S2P Require Import Models.
From S2P Require Import Sql.
From S2P Require Import OrderBook.
From S2P Require Import Snapshot.
From S2P Require Import Recovery.

Local Open Scope string_scope.

Section admin.
Context `{DecimalPkg, !DecimalFloat, UuidPkg, BTreePkg, !PgPkg, !GzipPkg, !EnvPkg}.

Record SnapshotHandler := mkSnapshotHandler { snapshotManager : SnapshotManager }.
Definition NewSnapshotHandler (sm : SnapshotManager) : SnapshotHandler := mkSnapshotHandler sm.

Record SnapshotResponse := mkSnapshotResponse {
  spSuccess : bool;
  spMessage : string;
  spSnapshot : option OrderbookSnapshot;
  spMismatches : list SnapshotMismatch;
  spError : string;
}.

(** The entry of the history and the map it is in. *)
Record HistoryEntry := mkHistoryEntry {
  heSnapshotID : Z; heInstrument : string; heTimestamp : Z; heBidLevels : nat; heAskLevels : nat; heSnapshotType : string;
}.
Record History := mkHistory {
  hySuccess : bool; hyInstrument : string; hySnapshots : list HistoryEntry; hyCount : nat; hyLimit : option Z; hyMessage : option string;
}.

Record RecoveryResponse := mkRecoveryResponse {
  ryReqSuccess : bool; ryMessage : string; ryReport : option RecoveryReport; ryError : string;
}.

Inductive AdminBody :=
  | ABSnapshot (r : SnapshotResponse)
  | ABHistory (h : History)
  | ABRecovery (r : RecoveryResponse)
  | ABText (message : string).

Definition StatusCreated : Z := 201.

Definition respond_snapshot (statusCode : Z) (r : SnapshotResponse) : Response AdminBody :=
  mkResponse statusCode json_header (ABSnapshot r).
Definition respond_recovery (statusCode : Z) (r : RecoveryResponse) : Response AdminBody :=
  mkResponse statusCode json_header (ABRecovery r).

Definition snapshot_failure (message : string) : SnapshotResponse := mkSnapshotResponse false "" None [] message.
Definition recovery_failure (message : string) : RecoveryResponse := mkRecoveryResponse false "" None message.

(** The body of a trigger request; unknown members are ignored.  [None]: the
    decoder fails. *)
Fixpoint decode_triggered (by_ : string) (m : list (string * json)) : option string :=
  match m with
  | [] => Some by_
  | (k, x) :: m' =>
      if same_name k "triggered_by" then
        match x with
        | JStr s => decode_triggered (decode_text s) m'
        | JNull => decode_triggered by_ m'
        | _ => None
        end
      else decode_triggered by_ m'
  end.
Definition decode_trigger (body : string) : option string :=
  '(j, _) ← parse_value (2 * String.length body + 1) body;
  match j with
  | JObj m => decode_triggered "" m
  | JNull => Some ""
  | _ => None
  end.

(** ** Snapshots *)

(** [save] and [load] are the errors of the two statements. *)
Definition HandleTriggerSnapshot (h : SnapshotHandler) (r : Request) (s : Store) (ob : OrderBook) (t : SnapshotTable)
    (save load : option error) (now : Z) : option (Response AdminBody * SnapshotTable * Store) :=
  if negb (bool_decide (reqMethod r = "POST")) then
    Some (respond_snapshot StatusMethodNotAllowed (snapshot_failure "Method not allowed"), t, s)
  else
    let triggeredBy := default "admin_api" (decode_trigger (reqBody r)) in
    '(err, t1, s1) ← TakeSnapshot (snapshotManager h) s ob t save now SnapshotTypeOnDemand triggeredBy;
    Some (match err with
          | Some e =>
              (respond_snapshot StatusInternalServerError (snapshot_failure ("Failed to take snapshot: " ++ err_Error e)),
               t1, s1)
          | None =>
              match GetLatestSnapshot (snapshotManager h) t1 load with
              | inl _ =>
                  (respond_snapshot StatusOK
                     (mkSnapshotResponse true "Snapshot created successfully (unable to retrieve details)" None [] ""),
                   t1, s1)
              | inr snapshot =>
                  (respond_snapshot StatusCreated
                     (mkSnapshotResponse true
                        ("Snapshot created successfully (ID: " ++ Itoa (osSnapshotID snapshot) ++ ")")
                        (Some snapshot) [] ""), t1, s1)
              end
          end).

Definition HandleGetLatestSnapshot (h : SnapshotHandler) (r : Request) (t : SnapshotTable) (load : option error)
    : Response AdminBody :=
  if negb (bool_decide (reqMethod r = "GET")) then
    respond_snapshot StatusMethodNotAllowed (snapshot_failure "Method not allowed")
  else
    match GetLatestSnapshot (snapshotManager h) t load with
    | inl err => respond_snapshot StatusNotFound (snapshot_failure ("No snapshot found: " ++ err_Error err))
    | inr snapshot => respond_snapshot StatusOK (mkSnapshotResponse true "" (Some snapshot) [] "")
    end.

(** The limit of the history: 10, or a positive number of the query up to 100. *)
Definition history_limit (limitStr : string) : Z :=
  match Atoi limitStr with
  | Some parsedLimit =>
      if (0 <? parsedLimit)%Z then if (100 <? parsedLimit)%Z then 100%Z else parsedLimit else 10%Z
  | None => 10%Z
  end.

Definition HandleGetSnapshot (h : SnapshotHandler) (r : Request) (t : SnapshotTable) (load : option error)
    : Response AdminBody :=
  if negb (bool_decide (reqMethod r = "GET")) then
    respond_snapshot StatusMethodNotAllowed (snapshot_failure "Method not allowed")
  else
    let instrument :=
      let q := query_Get r "instrument" in if bool_decide (q = "") then "BTC-USD" else q in
    let limit := history_limit (query_Get r "limit") in
    match GetLatestSnapshot (snapshotManager h) t load with
    | inl _ =>
        mkResponse StatusOK json_header (ABHistory (mkHistory true instrument [] 0 None (Some "No snapshots available")))
    | inr snapshot =>
        let entry := mkHistoryEntry (osSnapshotID snapshot) (osInstrument snapshot) (osSnapshotTimestamp snapshot)
                       (length (osBidLevels snapshot)) (length (osAskLevels snapshot)) (osSnapshotType snapshot) in
        mkResponse StatusOK json_header (ABHistory (mkHistory true instrument [entry] 1 (Some limit) None))
    end.

Definition HandleRestoreSnapshot (h : SnapshotHandler) (r : Request) (t : SnapshotTable) (load : option error)
    (ob : OrderBook) : Response AdminBody * OrderBook :=
  if negb (bool_decide (reqMethod r = "POST")) then
    (respond_snapshot StatusMethodNotAllowed (snapshot_failure "Method not allowed"), ob)
  else
    let snapshotIDStr := query_Get r "id" in
    if bool_decide (snapshotIDStr = "") then
      (respond_snapshot StatusBadRequest (snapshot_failure "Missing snapshot ID"), ob)
    else
      match Atoi snapshotIDStr with
      | None => (respond_snapshot StatusBadRequest (snapshot_failure "Invalid snapshot ID"), ob)
      | Some snapshotID =>
          match RestoreFromSnapshot t load snapshotID ob with
          | (Some err, ob1) =>
              (respond_snapshot StatusInternalServerError
                 (snapshot_failure ("Failed to restore snapshot: " ++ err_Error err)), ob1)
          | (None, ob1) =>
              (respond_snapshot StatusOK
                 (mkSnapshotResponse true ("Orderbook restored from snapshot " ++ Itoa snapshotID) None [] ""), ob1)
          end
      end.

Definition HandleValidateSnapshot (h : SnapshotHandler) (r : Request) (s : Store) (ob : OrderBook) (t : SnapshotTable)
    (load : option error) : option (Response AdminBody * Store) :=
  if negb (bool_decide (reqMethod r = "GET")) then
    Some (respond_snapshot StatusMethodNotAllowed (snapshot_failure "Method not allowed"), s)
  else
    '(res, s1) ← ValidateLatestSnapshot (snapshotManager h) s ob t load;
    Some (match res with
          | inl err =>
              respond_snapshot StatusInternalServerError
                (snapshot_failure ("Failed to validate snapshot: " ++ err_Error err))
          | inr [] =>
              respond_snapshot StatusOK
                (mkSnapshotResponse true "Snapshot matches live orderbook perfectly" None [] "")
          | inr mismatches =>
              respond_snapshot StatusOK
                (mkSnapshotResponse false
                   ("Found " ++ Itoa (Z.of_nat (length mismatches))
                    ++ " mismatches between snapshot and live orderbook") None mismatches "")
          end, s1).

(** ** Recovery *)

Record RecoveryHandler := mkRecoveryHandler { recoveryManager : RecoveryManager }.
Definition NewRecoveryHandler (rm : RecoveryManager) : RecoveryHandler := mkRecoveryHandler rm.

(** The live book is the handler's [orderbook]. *)
Definition HandleTriggerRecovery (h : RecoveryHandler) (r : Request) (a : Answers) (s : Store) (ob : OrderBook)
    : option (Response AdminBody * Store * OrderBook) :=
  if negb (bool_decide (reqMethod r = "POST")) then
    Some (respond_recovery StatusMethodNotAllowed (recovery_failure "Method not allowed"), s, ob)
  else
    let dryRun := bool_decide (query_Get r "dry_run" = "true") in
    let verbose := bool_decide (query_Get r "verbose" = "true") in
    '(report, err, s1, live, _) ←
      RecoverOrderbookWithOptions (recoveryManager h) a (mkRecoveryOptions dryRun verbose false) s ob;
    Some (match err with
          | Some e =>
              (respond_recovery StatusInternalServerError (recovery_failure ("Recovery failed: " ++ err_Error e)), s1, live)
          | None =>
              if negb (rvPassed (rcVerdict report)) then
                let message := "Recovery completed with " ++ Itoa (Z.of_nat (length (rvErrors (rcVerdict report))))
                               ++ " validation errors" in
                let message := if dryRun then "DRY-RUN: " ++ message else message in
                (respond_recovery StatusOK (mkRecoveryResponse false message (Some report) ""), s1, live)
              else
                let message := "Recovery completed successfully: "
                               ++ Itoa (Z.of_nat (rpOrdersRestored (rcReplay report))) ++ " orders restored in "
                               ++ duration_String (rrDuration (rcRun report)) in
                let message := if dryRun then "DRY-RUN: " ++ message ++ " (no changes applied)" else message in
                (respond_recovery StatusOK (mkRecoveryResponse true message (Some report) ""), s1, live)
          end).

Definition HandleRecoveryStatus (r : Request) (ping : option error) (totals : result DatabaseTotals)
    : Response AdminBody :=
  if negb (bool_decide (reqMethod r = "GET")) then
    respond_recovery StatusMethodNotAllowed (recovery_failure "Method not allowed")
  else
    match QuickRecoveryCheck ping totals with
    | Some err =>
        respond_recovery StatusServiceUnavailable (recovery_failure ("Recovery check failed: " ++ err_Error err))
    | None =>
        respond_recovery StatusOK
          (mkRecoveryResponse true "Recovery system healthy - database accessible, snapshots available" None "")
    end.

(** ** The router *)

Definition admin_error (statusCode : Z) (message : string) : Response AdminBody :=
  mkResponse statusCode http_error_header (ABText (message ++ str1 (chr 10))).

Definition router_TriggerSnapshot (sm : option SnapshotManager) (r : Request) (s : Store) (ob : OrderBook)
    (t : SnapshotTable) (save load : option error) (now : Z) : option (Response AdminBody * SnapshotTable * Store) :=
  match sm with
  | None => Some (admin_error StatusServiceUnavailable "Snapshot manager not available", t, s)
  | Some sm => HandleTriggerSnapshot (NewSnapshotHandler sm) r s ob t save load now
  end.

Definition router_GetLatestSnapshot (sm : option SnapshotManager) (r : Request) (t : SnapshotTable)
    (load : option error) : Response AdminBody :=
  match sm with
  | None => admin_error StatusServiceUnavailable "Snapshot manager not available"
  | Some sm => HandleGetLatestSnapshot (NewSnapshotHandler sm) r t load
  end.

Definition router_GetSnapshotHistory (sm : option SnapshotManager) (r : Request) (t : SnapshotTable)
    (load : option error) : Response AdminBody :=
  match sm with
  | None => admin_error StatusServiceUnavailable "Snapshot manager not available"
  | Some sm => HandleGetSnapshot (NewSnapshotHandler sm) r t load
  end.

Definition router_TriggerRecovery (rm : option RecoveryManager) (r : Request) (a : Answers) (s : Store) (ob : OrderBook)
    : option (Response AdminBody * Store * OrderBook) :=
  match rm with
  | None => Some (admin_error StatusServiceUnavailable "Recovery manager not available", s, ob)
  | Some rm => HandleTriggerRecovery (NewRecoveryHandler rm) r a s ob
  end.

Definition router_GetRecoveryStatus (rm : option RecoveryManager) (r : Request) (ping : option error)
    (totals : result DatabaseTotals) : Response AdminBody :=
  match rm with
  | None => admin_error StatusServiceUnavailable "Recovery manager not available"
  | Some _ => HandleRecoveryStatus r ping totals
  end.
End admin.
