(* ===== verification/AdminTheorems.v ===== *)
(** * Theorems about the snapshot and recovery endpoints

    The endpoints composed with the managers: a snapshot triggered over HTTP is
    the one the validation endpoint finds equal to the book; a recovery over
    HTTP leaves the live book alone when it is a dry run, and its answer is the
    verdict. *)

From Stdlib Require Import Ascii String.
From S2P Require Import Prelude.
From S2P Require Import Web.
From S2P Require Import Json.
From S2P Require Import Text.
From S2P Require Import External.
From S2P Require Import Models.
From S2P Require Import Sql.
From S2P Require Import OrderBook.
From S2P Require Import OrderBookFacts.
From S2P Require Import Matching.
From S2P Require Import MatchingTheorems.
From S2P Require Import Snapshot.
From S2P Require Import SnapshotTheorems.
From S2P Require Import Recovery.
From S2P Require Import RecoveryTheorems.
From S2P Require Import Admin.

Section theorems.
Context `{DecimalSpec, !DecimalFloat, UuidSpec, !EnvPkg, BTreeSpec, !PgPkg, !PgSpec, GzipSpec}.
Implicit Types (s : Store) (ob : OrderBook) (sm : SnapshotManager) (t : SnapshotTable) (r : Request).

(** The text under "triggered_by", or the default when the body does not decode. *)
Definition triggered_by r : string := default "admin_api"%string (decode_trigger (reqBody r)).

(** What a capture holds of the book does not depend on its labels. *)
Lemma capture_levels_labels sm s ob ty by_ ty' by_' :
  osBidLevels (capture_of sm s ob ty by_) = osBidLevels (capture_of sm s ob ty' by_') /\
  osAskLevels (capture_of sm s ob ty by_) = osAskLevels (capture_of sm s ob ty' by_').
Proof. done. Qed.

Lemma columns_fit_labels sm s ob ty by_ ty' by_' :
  columns_fit (capture_of sm s ob ty by_) -> varchar_ok 20 ty' = true -> varchar_ok 50 by_' = true ->
  columns_fit (capture_of sm s ob ty' by_').
Proof.
  intros [Hb Ha Hs Hvb Hva Ht] Hty Hby. split; [exact Hb|exact Ha|exact Hs|exact Hvb|exact Hva|].
  cbn in *. rewrite Hty, Hby. by destruct (varchar_ok 50 (smInstrument sm)).
Qed.

(** A validation that ends read a snapshot. *)
Lemma validated_was_found sm s ob t ms s1 :
  ValidateLatestSnapshot sm s ob t None = Some (inr ms, s1) -> exists snap, GetLatestSnapshot sm t None = inr snap.
Proof. unfold ValidateLatestSnapshot. destruct (GetLatestSnapshot sm t None) as [|snap]; [done|by eexists]. Qed.

(** A snapshot triggered over HTTP.  Under the conditions of the round trip the
    trigger answers 201 with the snapshot it stored, and the validation endpoint
    then answers that the book matches it. *)
Theorem trigger_then_validate sm s ob t now r r' :
  let shot := capture_of sm s ob SnapshotTypeOnDemand (triggered_by r) in
  make_levels_ok (smMaxLevels sm) = true ->
  final_data sm (snapshot_text shot) = snapshot_text shot ->
  columns_fit shot -> Forall count_ok (osBidLevels shot) -> Forall count_ok (osAskLevels shot) ->
  (forall row, row ∈ tbRows t -> srInstrument row = smInstrument sm -> (srCreatedAt row < now)%Z) ->
  reqMethod r = "POST"%string -> reqMethod r' = "GET"%string ->
  exists snap msg t' s1 s2,
    router_TriggerSnapshot (Some sm) r s ob t None None now
      = Some (respond_snapshot StatusCreated (mkSnapshotResponse true msg (Some snap) [] ""%string), t', s1) /\
    HandleValidateSnapshot (NewSnapshotHandler sm) r' s1 ob t' None
      = Some (respond_snapshot StatusOK
                (mkSnapshotResponse true "Snapshot matches live orderbook perfectly"%string None [] ""%string), s2).
Proof.
  intros shot Hn Hf Hc Hb Ha Hold Hp Hg.
  destruct (take_and_validate sm s ob t now SnapshotTypeOnDemand (triggered_by r) Hn Hf Hc Hb Ha Hold)
    as (t' & s1 & s2 & Ht & Hv).
  destruct (validated_was_found _ _ _ _ _ _ Hv) as [snap Hs].
  unfold router_TriggerSnapshot, HandleTriggerSnapshot, HandleValidateSnapshot. rewrite Hp, Hg, !bool_decide_eq_true_2 by done.
  cbn [negb snapshotManager NewSnapshotHandler]. fold (triggered_by r). rewrite Ht. cbn [mbind option_bind].
  rewrite Hs. eexists snap, _, t', s1, s2. split; [reflexivity|]. by rewrite Hv.
Qed.

(** A dry run over HTTP.  Whatever the database answers, the request leaves the
    live book and its queues as they are, and is answered 500 when the recovery
    failed and otherwise 200 with the verdict as its success. *)
Theorem dry_run_request rm a s ob r :
  reqMethod r = "POST"%string -> query_Get r "dry_run"%string = "true"%string -> book_wf s ob ->
  exists resp s',
    router_TriggerRecovery (Some rm) r a s ob = Some (resp, s', ob) /\
    (forall b, queue s' ob b = queue s ob b) /\
    ((respStatus resp = StatusInternalServerError /\
      exists e, respBody resp = ABRecovery (recovery_failure ("Recovery failed: " +:+ e))) \/
     (respStatus resp = StatusOK /\
      exists report msg, respBody resp
        = ABRecovery (mkRecoveryResponse (rvPassed (rcVerdict report)) ("DRY-RUN: " +:+ msg) (Some report) ""%string))).
Proof.
  intros Hp Hd Hwf. unfold router_TriggerRecovery, HandleTriggerRecovery. rewrite Hp, Hd, !bool_decide_eq_true_2 by done.
  cbn [negb recoveryManager NewRecoveryHandler].
  edestruct (dry_run_untouched rm a (mkRecoveryOptions true (bool_decide (query_Get r "verbose" = "true")%string) false) s ob)
    as (report & err & s' & temp & -> & _ & Hq); [done..|]. cbn [mbind option_bind].
  destruct err as [e|]; [|destruct (rvPassed (rcVerdict report)) eqn:Hv; cbn [negb]];
    (eexists _, _; split; [reflexivity|]; split; [done|]; cbn [respStatus respBody]).
  - left. split; [done|by eexists].
  - right. split; [done|]. exists report. rewrite Hv. by eexists.
  - right. split; [done|]. exists report. rewrite Hv. by eexists.
Qed.

(** The history holds the newest snapshot or nothing, whatever the limit, and
    the limit it reports is between 1 and 100. *)
Theorem history_is_latest sm r t load :
  reqMethod r = "GET"%string ->
  exists h, respBody (router_GetSnapshotHistory (Some sm) r t load) = ABHistory h /\
    hyCount h = length (hySnapshots h) /\ hyCount h <= 1 /\
    (forall limit, hyLimit h = Some limit -> 1 <= limit <= 100)%Z /\
    (hyCount h = 1 <-> exists snap, GetLatestSnapshot sm t load = inr snap).
Proof.
  intros Hg. unfold router_GetSnapshotHistory, HandleGetSnapshot. rewrite Hg, bool_decide_eq_true_2 by done.
  cbn [negb snapshotManager NewSnapshotHandler]. destruct (GetLatestSnapshot sm t load) as [e|snap]; cbn [respBody];
    (eexists; split; [reflexivity|]; cbn [hyCount hySnapshots hyLimit length]; split_and!; [lia..| |]).
  - done.
  - split; [done|by intros [? ?]].
  - intros limit [= <-]. unfold history_limit. destruct (Atoi _) as [n|]; [|lia].
    destruct (Z.ltb_spec 0 n), (Z.ltb_spec 100 n); lia.
  - split; [by eexists|done].
Qed.
End theorems.

(** ** On the demonstration book *)

Module AdminInstances.
Import Concrete ConcretePg Demo SnapshotInstances RecoveryInstances.
Local Open Scope string_scope.

Definition request (method body : string) (query : gmap string string) : Request :=
  mkRequest method ∅ query ∅ body None "/admin" "127.0.0.1:9".

(** A body that does not decode is triggered by "admin_api". *)
Example trigger_default : triggered_by (request "POST" "{" ∅) = "admin_api" /\
  triggered_by (request "POST" (json_Marshal (JObj [("Triggered_By", JStr "ops")])) ∅) = "ops" /\
  triggered_by (request "POST" "{}" ∅) = "".
Proof. vm_compute. done. Qed.

Definition shot4 : OrderbookSnapshot :=
  capture_of sm10 (heap book4) (orderBook book4) SnapshotTypeOnDemand "admin_api".

Lemma shot4_fits : columns_fit shot4.
Proof. exact (columns_fit_labels sm10 (heap book4) (orderBook book4) "periodic" "timer" SnapshotTypeOnDemand "admin_api"
         snap4_fits eq_refl eq_refl). Qed.

Lemma shot4_counts : Forall count_ok (osBidLevels shot4) /\ Forall count_ok (osAskLevels shot4).
Proof.
  destruct (capture_levels_labels sm10 (heap book4) (orderBook book4) SnapshotTypeOnDemand "admin_api" "periodic" "timer")
    as [Hb Ha].
  unfold shot4. rewrite Hb, Ha. exact snap4_counts.
Qed.

Lemma trigger_then_validate_witness :
  exists snap msg t' s1 s2,
    router_TriggerSnapshot (Some sm10) (request "POST" "" ∅) (heap book4) (orderBook book4) no_rows None None 7
      = Some (respond_snapshot StatusCreated (mkSnapshotResponse true msg (Some snap) [] ""), t', s1) /\
    HandleValidateSnapshot (NewSnapshotHandler sm10) (request "GET" "" ∅) s1 (orderBook book4) t' None
      = Some (respond_snapshot StatusOK
                (mkSnapshotResponse true "Snapshot matches live orderbook perfectly" None [] ""), s2).
Proof.
  pose proof (trigger_then_validate sm10 (heap book4) (orderBook book4) no_rows 7 (request "POST" "" ∅)
                (request "GET" "" ∅)) as Ht.
  assert (triggered_by (request "POST" "" ∅) = "admin_api") as Hby by (vm_compute; reflexivity).
  cbv zeta in Ht. rewrite Hby in Ht. fold shot4 in Ht.
  refine (Ht eq_refl _ shot4_fits (proj1 shot4_counts) (proj2 shot4_counts) _ eq_refl eq_refl).
  - reflexivity.
  - intros r Hr. by apply not_elem_of_nil in Hr.
Defined.
End AdminInstances.
