(* ===== verification/Hub.v ===== *)
(** * The WebSocket hub and its clients
      (src/websocket/hub.go, client.go, messages.go, snapshot_provider.go)

    The hub's [Run] loop, the timer that flushes order book deltas, the two
    pumps of every client and the producers of messages run concurrently.  A
    state holds the hub and its clients together with the position of each of
    these goroutines; a step is one atomic action of one of them, and it splits
    the code at every channel operation and wherever a lock is taken or
    released.  A broadcast holds [h.mu] for reading while it sends, so the steps
    that need it for writing wait ([unlocked]).  Clients are named by numbers, as
    their pointers; a message stands for the bytes [json.Marshal] makes of it.
    [None] is a panic: sending on a closed channel or closing one twice. *)

From S2P Require Import Prelude.
From S2P Require Import External.
From S2P Require Import Models.
From S2P Require Import OrderBook.
From S2P Require Import Sql.
From S2P Require Import Postgres.

Section hub.
Context `{DecimalPkg, UuidPkg, BTreePkg}.

(** ** Messages *)

Definition TopicOrderbookDeltas : string := "orderbook_deltas".
Definition TopicTrades : string := "trades".
Definition TopicOrders : string := "orders".

Record ClientMessage := mkClientMessage { cmAction : string; cmTopic : string }.

Record OrderbookDeltaMessage := mkOrderbookDeltaMessage {
  odInstrument : string; odSide : string; odPrice : decimal; odSize : decimal; odTimestamp : Z;
}.

Record TradeMessage := mkTradeMessage {
  tmTradeID : string; tmInstrument : string; tmBuyOrderID : string; tmSellOrderID : string;
  tmPrice : decimal; tmQuantity : decimal; tmTimestamp : Z;
}.

Record OrderMessage := mkOrderMessage {
  omOrderID : string; omClientID : string; omInstrument : string; omSide : string; omType : string;
  omStatus : string; omPrice : decimal; omQuantity : decimal; omFilledQuantity : decimal;
  omRemainingQuantity : decimal; omTimestamp : Z;
}.

Record OrderbookLevel := mkOrderbookLevel { blPrice : decimal; blSize : decimal }.

Record WsOrderbookSnapshot := mkWsOrderbookSnapshot {
  wsInstrument : string; wsBids : list OrderbookLevel; wsAsks : list OrderbookLevel; wsTimestamp : Z;
}.

Record TradesSnapshot := mkTradesSnapshot {
  tsInstrument : string; tsTrades : list TradeMessage; tsCount : nat; tsTimestamp : Z;
}.

Record OrdersSnapshot := mkOrdersSnapshot {
  rsClientID : string; rsOrders : list OrderMessage; rsCount : nat; rsTimestamp : Z;
}.

(** What the [Data] field of a message holds. *)
Inductive MessageData :=
  | DNone
  | DDeltas (l : list OrderbookDeltaMessage)
  | DTrade (t : TradeMessage)
  | DOrder (o : OrderMessage)
  | DOrderbook (s : WsOrderbookSnapshot)
  | DTrades (s : TradesSnapshot)
  | DOrders (s : OrdersSnapshot)
  | DText (key value : string)
  | DWelcome (client_id message : string) (topics : list string).

Record Message := mkMessage { mgType : string; mgTopic : string; mgTimestamp : Z; mgData : MessageData }.

(** ** The snapshot provider *)

(** The engine's book as it is when the provider is asked; [spStore] is the
    PostgreSQL store's answer to the trades query, if there is a store. *)
Record SnapshotProvider := mkSnapshotProvider {
  spHeap : Store;
  spBook : OrderBook;
  spStore : option (result (list TradeRecord));
}.

Definition NewSnapshotProvider (s : Store) (ob : OrderBook) (db : bool) (answer : result (list TradeRecord))
    : SnapshotProvider :=
  mkSnapshotProvider s ob (if db then Some answer else None).

Definition ws_level (s : Store) (r : lref) : OrderbookLevel :=
  mkOrderbookLevel (plPrice (get_level s r)) (plVolume (get_level s r)).

(** [None]: the panic of [GetTopLevels]. *)
Definition GetOrderbookSnapshot (sp : SnapshotProvider) (instrument : string) (levels : Z) (now : Z)
    : option WsOrderbookSnapshot :=
  '(bids, asks) ← GetTopLevels (spBook sp) levels;
  Some (mkWsOrderbookSnapshot instrument (ws_level (spHeap sp) <$> bids) (ws_level (spHeap sp) <$> asks) now).

(** Times are nanoseconds; [UnixMilli] rounds down. *)
Definition trade_message (t : TradeRecord) : TradeMessage :=
  mkTradeMessage (uuid_String (tdTradeID t)) (tdInstrument t) (uuid_String (tdBuyOrderID t))
    (uuid_String (tdSellOrderID t)) (tdPrice t) (tdQuantity t) (tdTimestamp t / 10 ^ 6)%Z.

Definition GetTradesSnapshot (sp : SnapshotProvider) (instrument : string) (now : Z) : TradesSnapshot :=
  match spStore sp with
  | Some (inr trades) => mkTradesSnapshot instrument (trade_message <$> trades) (length trades) now
  | _ => mkTradesSnapshot instrument [] 0 now
  end.

Definition GetOrdersSnapshot (clientID : string) (now : Z) : OrdersSnapshot := mkOrdersSnapshot clientID [] 0 now.

(** ** Clients and hub *)

Definition sendBufferSize : nat := 256.
Definition channelSize : nat := 256.

(** What is left of the handler a client's [readPump] is in. *)
Inductive act :=
  | AActivity
  | ASubscribe (topic : string)
  | AUnsubscribe (topic : string)
  | ASend (type topic : string) (d : MessageData)
  | ASnapshot (topic : string).

(** Where the goroutine of [HandleWebSocket] and then [readPump] is: blocked in
    [Register], before the welcome message, reading, blocked in [Unregister], or
    finished. *)
Inductive stage := SNew | SGreet | SOpen | SLeaving | SGone.

(** Where [writePump] is: not started, in its select, before [len(c.send)],
    taking [n] more queued messages, or returned; with the frame being written. *)
Inductive writer :=
  | WOff
  | WSelect
  | WFrame (frame : list Message)
  | WQueued (frame : list Message) (n : nat)
  | WDone (lost : list Message).

Record Client := mkClient {
  clID : string;
  clSend : list Message;
  clClosed : bool;
  clSubscriptions : gset string;
  clClientID : string;
  clStage : stage;
  clTodo : list act;
  clWriter : writer;
  clFrames : list (list Message);
}.

Definition NewClient (id : string) : Client := mkClient id [] false ∅ "" SNew [] WOff [].

(** Where a call of [broadcastToTopic] is: before the lookup, between its two
    read locks, or inside the second with the subscribers still to be served
    (a map is ranged over in any order). *)
Inductive bcast :=
  | BLookup (topic : string) (m : Message)
  | BLock (topic : string) (m : Message)
  | BSend (todo : gset nat) (m : Message).

(** Where [Run] is: in its select, or in a case. *)
Inductive run_pc := RIdle | RInsert (c : nat) | RActive (c : nat) | RForget (c : nat) | RCast (b : bcast).

(** [hTimer] tells whether [batchTimer] is set, [hFlush] where its function is
    once it runs; [hConns] are the clients that exist. *)
Record Hub := mkHub {
  hClients : gset nat;
  hSubs : gmap string (gset nat);
  hDeltaCh : list OrderbookDeltaMessage;
  hTradeCh : list TradeMessage;
  hOrderCh : list OrderMessage;
  hPending : list OrderbookDeltaMessage;
  hTimer : bool;
  hFlush : option bcast;
  hActivity : gmap nat Z;
  hRun : run_pc;
  hConns : gmap nat Client;
}.

Definition NewHub : Hub := mkHub ∅ ∅ [] [] [] [] false None ∅ RIdle ∅.

Definition set_conns (h : Hub) (m : gmap nat Client) : Hub :=
  mkHub (hClients h) (hSubs h) (hDeltaCh h) (hTradeCh h) (hOrderCh h) (hPending h) (hTimer h) (hFlush h)
    (hActivity h) (hRun h) m.
Definition set_run (h : Hub) (pc : run_pc) : Hub :=
  mkHub (hClients h) (hSubs h) (hDeltaCh h) (hTradeCh h) (hOrderCh h) (hPending h) (hTimer h) (hFlush h)
    (hActivity h) pc (hConns h).
Definition set_clients (h : Hub) (s : gset nat) : Hub :=
  mkHub s (hSubs h) (hDeltaCh h) (hTradeCh h) (hOrderCh h) (hPending h) (hTimer h) (hFlush h)
    (hActivity h) (hRun h) (hConns h).
Definition set_subs (h : Hub) (m : gmap string (gset nat)) : Hub :=
  mkHub (hClients h) m (hDeltaCh h) (hTradeCh h) (hOrderCh h) (hPending h) (hTimer h) (hFlush h)
    (hActivity h) (hRun h) (hConns h).
Definition set_activity (h : Hub) (m : gmap nat Z) : Hub :=
  mkHub (hClients h) (hSubs h) (hDeltaCh h) (hTradeCh h) (hOrderCh h) (hPending h) (hTimer h) (hFlush h)
    m (hRun h) (hConns h).
Definition set_channels (h : Hub) (ds : list OrderbookDeltaMessage) (ts : list TradeMessage) (os : list OrderMessage)
    : Hub :=
  mkHub (hClients h) (hSubs h) ds ts os (hPending h) (hTimer h) (hFlush h) (hActivity h) (hRun h) (hConns h).
Definition set_batch (h : Hub) (ds : list OrderbookDeltaMessage) (timer : bool) (f : option bcast) : Hub :=
  mkHub (hClients h) (hSubs h) (hDeltaCh h) (hTradeCh h) (hOrderCh h) ds timer f (hActivity h) (hRun h) (hConns h).

Definition set_send (l : list Message) (c : Client) : Client :=
  mkClient (clID c) l (clClosed c) (clSubscriptions c) (clClientID c) (clStage c) (clTodo c) (clWriter c) (clFrames c).
Definition close_send (c : Client) : Client :=
  mkClient (clID c) (clSend c) true (clSubscriptions c) (clClientID c) (clStage c) (clTodo c) (clWriter c) (clFrames c).
Definition set_own (f : gset string -> gset string) (c : Client) : Client :=
  mkClient (clID c) (clSend c) (clClosed c) (f (clSubscriptions c)) (clClientID c) (clStage c) (clTodo c)
    (clWriter c) (clFrames c).
Definition set_stage (st : stage) (c : Client) : Client :=
  mkClient (clID c) (clSend c) (clClosed c) (clSubscriptions c) (clClientID c) st (clTodo c) (clWriter c) (clFrames c).
Definition set_todo (l : list act) (c : Client) : Client :=
  mkClient (clID c) (clSend c) (clClosed c) (clSubscriptions c) (clClientID c) (clStage c) l (clWriter c) (clFrames c).
Definition set_writer (w : writer) (c : Client) : Client :=
  mkClient (clID c) (clSend c) (clClosed c) (clSubscriptions c) (clClientID c) (clStage c) (clTodo c) w (clFrames c).
Definition add_frame (f : list Message) (c : Client) : Client :=
  mkClient (clID c) (clSend c) (clClosed c) (clSubscriptions c) (clClientID c) (clStage c) (clTodo c) (clWriter c)
    (clFrames c ++ [f]).

(** The client [c] points to is updated. *)
Definition upd (h : Hub) (c : nat) (f : Client -> Client) : Hub := set_conns h (alter f c (hConns h)).
Definition stage_of (h : Hub) (c : nat) : option stage := clStage <$> hConns h !! c.

(** ** Sending *)

(** The goroutines that send to clients. *)
Inductive sender := GHub | GTimer | GClient.

(** What a step shows: a message offered to a client and whether its buffer
    took it, a delta taken into the channel, a batch given out, a broadcast that
    begins to send. *)
Inductive label :=
  | LTau
  | LSend (g : sender) (c : nat) (m : Message) (taken : bool)
  | LAccept (d : OrderbookDeltaMessage)
  | LBatch (ds : list OrderbookDeltaMessage)
  | LLock (g : sender).

(** The select with a default: a full buffer drops the message. *)
Definition deliver (h : Hub) (g : sender) (c : nat) (m : Message) : option (label * Hub) :=
  match hConns h !! c with
  | None => Some (LTau, h)
  | Some cl =>
      if clClosed cl then None
      else if bool_decide (length (clSend cl) < sendBufferSize)
      then Some (LSend g c m true, upd h c (set_send (clSend cl ++ [m])))
      else Some (LSend g c m false, h)
  end.

Definition sendMessage (h : Hub) (c : nat) (m : Message) : option (label * Hub) := deliver h GClient c m.

Definition subscribers (h : Hub) (topic : string) : gset nat := default ∅ (hSubs h !! topic).

(** The broadcast that goroutine [g] is in. *)
Definition cast_of (h : Hub) (g : sender) : option bcast :=
  match g with
  | GHub => match hRun h with RCast b => Some b | _ => None end
  | GTimer => hFlush h
  | GClient => None
  end.
Definition set_cast (h : Hub) (g : sender) (b : bcast) : Hub :=
  match g with
  | GHub => set_run h (RCast b)
  | GTimer => set_batch h (hPending h) (hTimer h) (Some b)
  | GClient => h
  end.

(** What follows the broadcast: [Run] returns to its select, the flush clears
    the batch and the timer. *)
Definition cast_end (h : Hub) (g : sender) : label * Hub :=
  match g with
  | GHub => (LTau, set_run h RIdle)
  | GTimer => (LBatch (hPending h), set_batch h [] false None)
  | GClient => (LTau, h)
  end.

(** The two parts of [broadcastToTopic] before it sends. *)
Definition cast_lookup (h : Hub) (g : sender) (topic : string) (m : Message) : label * Hub :=
  if bool_decide (subscribers h topic = ∅) then cast_end h g else (LTau, set_cast h g (BLock topic m)).
Definition cast_lock (h : Hub) (g : sender) (topic : string) (m : Message) : label * Hub :=
  (LLock g, set_cast h g (BSend (subscribers h topic) m)).
Definition cast_send (h : Hub) (g : sender) (todo : gset nat) (c : nat) (m : Message) : option (label * Hub) :=
  deliver (set_cast h g (BSend (todo ∖ {[c]}) m)) g c m.

Definition casting (b : option bcast) : bool := match b with Some (BSend _ _) => true | _ => false end.

(** No goroutine holds [h.mu] for reading. *)
Definition unlocked (h : Hub) : bool := negb (casting (cast_of h GHub)) && negb (casting (cast_of h GTimer)).

(** ** The cases of [Run] *)

(** Receiving from [register]: the client's goroutine goes on. *)
Definition run_register (h : Hub) (c : nat) : Hub := set_run (upd h c (set_stage SGreet)) (RInsert c).
Definition run_insert (h : Hub) (c : nat) : Hub := set_run (set_clients h ({[c]} ∪ hClients h)) (RActive c).
Definition run_active (h : Hub) (c : nat) (now : Z) : Hub :=
  set_run (set_activity h (<[c := now]> (hActivity h))) RIdle.

(** Receiving from [unregister], with the block under [h.mu]. *)
Definition run_unregister (h : Hub) (c : nat) : option Hub :=
  let h1 := set_run (upd h c (set_stage SGone)) (RForget c) in
  if bool_decide (c ∈ hClients h) then
    if default false (clClosed <$> hConns h !! c) then None
    else
      let h2 := set_clients (set_subs h1 ((fun s => s ∖ {[c]}) <$> hSubs h1)) (hClients h1 ∖ {[c]}) in
      Some (upd h2 c close_send)
  else Some h1.
Definition run_forget (h : Hub) (c : nat) : Hub := set_run (set_activity h (delete c (hActivity h))) RIdle.

(** The delta joins the batch, and the timer is set if it is not. *)
Definition run_delta (h : Hub) (d : OrderbookDeltaMessage) (ds : list OrderbookDeltaMessage) : Hub :=
  set_batch (set_channels h ds (hTradeCh h) (hOrderCh h)) (hPending h ++ [d]) true (hFlush h).
Definition run_trade (h : Hub) (t : TradeMessage) (ts : list TradeMessage) (now : Z) : Hub :=
  set_run (set_channels h (hDeltaCh h) ts (hOrderCh h))
    (RCast (BLookup TopicTrades (mkMessage "trade" TopicTrades now (DTrade t)))).
Definition run_order (h : Hub) (o : OrderMessage) (os : list OrderMessage) (now : Z) : Hub :=
  set_run (set_channels h (hDeltaCh h) (hTradeCh h) os)
    (RCast (BLookup TopicOrders (mkMessage "order" TopicOrders now (DOrder o)))).

(** The function of the timer, up to its call of [broadcastToTopic]. *)
Definition flushOrderbookDeltas (h : Hub) (now : Z) : Hub :=
  match hPending h with
  | [] => set_batch h [] false None
  | _ :: _ =>
      set_batch h (hPending h) (hTimer h)
        (Some (BLookup TopicOrderbookDeltas
                 (mkMessage "orderbook_delta_batch" TopicOrderbookDeltas now (DDeltas (hPending h)))))
  end.

(** ** Producers *)

Definition BroadcastOrderbookDelta (h : Hub) (d : OrderbookDeltaMessage) : label * Hub :=
  if bool_decide (length (hDeltaCh h) < channelSize)
  then (LAccept d, set_channels h (hDeltaCh h ++ [d]) (hTradeCh h) (hOrderCh h)) else (LTau, h).
Definition BroadcastTrade (h : Hub) (t : TradeMessage) : label * Hub :=
  if bool_decide (length (hTradeCh h) < channelSize)
  then (LTau, set_channels h (hDeltaCh h) (hTradeCh h ++ [t]) (hOrderCh h)) else (LTau, h).
Definition BroadcastOrder (h : Hub) (o : OrderMessage) : label * Hub :=
  if bool_decide (length (hOrderCh h) < channelSize)
  then (LTau, set_channels h (hDeltaCh h) (hTradeCh h) (hOrderCh h ++ [o])) else (LTau, h).

(** ** Subscriptions and activity *)

Definition Subscribe (h : Hub) (c : nat) (topic : string) : Hub :=
  set_subs h (<[topic := {[c]} ∪ subscribers h topic]> (hSubs h)).
Definition Unsubscribe (h : Hub) (c : nat) (topic : string) : Hub :=
  match hSubs h !! topic with
  | None => h
  | Some s => set_subs h (<[topic := s ∖ {[c]}]> (hSubs h))
  end.

Definition validTopic (topic : string) : bool :=
  bool_decide (topic = TopicOrderbookDeltas) || bool_decide (topic = TopicTrades) || bool_decide (topic = TopicOrders).

Definition UpdateActivity (h : Hub) (c : nat) (now : Z) : Hub := set_activity h (<[c := now]> (hActivity h)).

(** The clients whose connection [cleanupIdleClients] closes. *)
Definition is_idle (h : Hub) (now idleTimeout : Z) (c : nat) : bool :=
  match hActivity h !! c with Some t => (idleTimeout <? now - t)%Z | None => false end.
Definition idleClients (h : Hub) (now idleTimeout : Z) : list nat :=
  filter (fun c => is_idle h now idleTimeout c = true) (elements (hClients h)).

Definition GetStats (h : Hub) : nat * gmap string nat := (size (hClients h), (fun s => size s) <$> hSubs h).

(** ** The handlers of a client

    A handler is the list of the actions it makes; [own] is the client's
    [subscriptions], which no other goroutine touches. *)

Definition sendError (text : string) : list act := [ASend "error" "" (DText "error" text)].
Definition sendPong : list act := [ASend "pong" "" DNone].

Definition handleSubscribe (topic : string) : list act :=
  if negb (validTopic topic) then sendError ("Invalid topic: " +:+ topic)
  else [ASubscribe topic;
        ASend "subscribed" topic (DText "message" ("Successfully subscribed to " +:+ topic));
        ASnapshot topic].

Definition handleUnsubscribe (topic : string) : list act :=
  [AUnsubscribe topic;
   ASend "unsubscribed" topic (DText "message" ("Successfully unsubscribed from " +:+ topic))].

Definition handleResync (own : gset string) (topic : string) : list act :=
  if negb (validTopic topic) then sendError ("Invalid topic for resync: " +:+ topic)
  else if negb (bool_decide (topic ∈ own)) then sendError ("Not subscribed to topic: " +:+ topic)
  else [ASnapshot topic; ASend "resynced" topic (DText "message" ("Fresh snapshot sent for " +:+ topic))].

(** [msg] is the outcome of decoding the bytes. *)
Definition handleMessage (own : gset string) (msg : option ClientMessage) : list act :=
  AActivity ::
  match msg with
  | None => sendError "Invalid message format"
  | Some m =>
      if bool_decide (cmAction m = "subscribe") then handleSubscribe (cmTopic m)
      else if bool_decide (cmAction m = "unsubscribe") then handleUnsubscribe (cmTopic m)
      else if bool_decide (cmAction m = "ping") then sendPong
      else if bool_decide (cmAction m = "resync") then handleResync own (cmTopic m)
      else sendError ("Unknown action: " +:+ cmAction m)
  end.

(** The data of a snapshot: no answer for an unknown topic, a panic inside. *)
Definition snapshot_data (sp : SnapshotProvider) (clientID topic : string) (now : Z) : option (option MessageData) :=
  if bool_decide (topic = TopicOrderbookDeltas) then
    s ← GetOrderbookSnapshot sp "BTC-USD" 20 now; Some (Some (DOrderbook s))
  else if bool_decide (topic = TopicTrades) then Some (Some (DTrades (GetTradesSnapshot sp "BTC-USD" now)))
  else if bool_decide (topic = TopicOrders) then Some (Some (DOrders (GetOrdersSnapshot clientID now)))
  else Some None.

(** [now] is the clock in seconds, [now_ms] in milliseconds. *)
Definition sendSnapshot (h : Hub) (c : nat) (now now_ms : Z) (p : option SnapshotProvider) (topic : string)
    : option (label * Hub) :=
  match p with
  | None => Some (LTau, h)
  | Some sp =>
      data ← snapshot_data sp (default "" (clClientID <$> hConns h !! c)) topic now_ms;
      match data with
      | None => Some (LTau, h)
      | Some d => sendMessage h c (mkMessage "snapshot" topic now d)
      end
  end.

(** One action of client [c]'s handler. *)
Definition perform (h : Hub) (c : nat) (now now_ms : Z) (p : option SnapshotProvider) (a : act)
    : option (label * Hub) :=
  match a with
  | AActivity => Some (LTau, UpdateActivity h c now)
  | ASubscribe topic => Some (LTau, upd (Subscribe h c topic) c (set_own (union {[topic]})))
  | AUnsubscribe topic => Some (LTau, upd (Unsubscribe h c topic) c (set_own (fun s => s ∖ {[topic]})))
  | ASend type topic d => sendMessage h c (mkMessage type topic now d)
  | ASnapshot topic => sendSnapshot h c now now_ms p topic
  end.

Definition needs_lock (a : act) : bool :=
  match a with ASubscribe _ | AUnsubscribe _ => true | _ => false end.

(** The first part of [Start]; the pumps run from then on. *)
Definition welcome (h : Hub) (c : nat) (now : Z) : option (label * Hub) :=
  sendMessage (upd (upd h c (set_stage SOpen)) c (set_writer WSelect)) c
    (mkMessage "welcome" "" now
       (DWelcome (default "" (clID <$> hConns h !! c)) "Connected to trading engine WebSocket"
          ["orderbook_deltas"; "trades"; "orders"])).

(** One action of [writePump]: taking a message, counting the queued ones,
    taking them, finishing the frame, finding the channel closed.  [None]: it waits. *)
Definition write_next (cl : Client) : option Client :=
  match clWriter cl with
  | WSelect =>
      match clSend cl with
      | m :: q => Some (set_writer (WFrame [m]) (set_send q cl))
      | [] => if clClosed cl then Some (set_writer (WDone []) cl) else None
      end
  | WFrame f => Some (set_writer (WQueued f (length (clSend cl))) cl)
  | WQueued f (S n) =>
      match clSend cl with
      | m :: q => Some (set_writer (WQueued (f ++ [m]) n) (set_send q cl))
      | [] => None
      end
  | WQueued f O => Some (set_writer WSelect (add_frame f cl))
  | WOff | WDone _ => None
  end.

(** Writing a frame or a ping fails: [writePump] returns. *)
Definition write_fail (cl : Client) : Client :=
  match clWriter cl with
  | WSelect => set_writer (WDone []) cl
  | WFrame f => set_writer (WDone f) cl
  | WQueued f _ => set_writer (WDone f) cl
  | WOff | WDone _ => cl
  end.

(** ** Steps

    [HandleWebSocket] creates a client, registers it and starts its pumps.  The
    connection may fail at any time between two messages, be it because the
    peer leaves or because [cleanupIdleClients] closes it. *)

Inductive hub_step : Hub -> option (label * Hub) -> Prop :=
  | hs_connect h c id : hConns h !! c = None ->
      hub_step h (Some (LTau, set_conns h (<[c := NewClient id]> (hConns h))))
  | hs_register h c : hRun h = RIdle -> stage_of h c = Some SNew -> hub_step h (Some (LTau, run_register h c))
  | hs_insert h c : hRun h = RInsert c -> unlocked h = true -> hub_step h (Some (LTau, run_insert h c))
  | hs_active h c now : hRun h = RActive c -> hub_step h (Some (LTau, run_active h c now))
  | hs_welcome h c now : stage_of h c = Some SGreet -> hub_step h (welcome h c now)
  | hs_message h c cl msg : hConns h !! c = Some cl -> clStage cl = SOpen -> clTodo cl = [] ->
      hub_step h (Some (LTau, upd h c (set_todo (handleMessage (clSubscriptions cl) msg))))
  | hs_perform h c cl a rest now now_ms p : hConns h !! c = Some cl -> clStage cl = SOpen -> clTodo cl = a :: rest ->
      (needs_lock a = true -> unlocked h = true) ->
      hub_step h (perform (upd h c (set_todo rest)) c now now_ms p a)
  | hs_disconnect h c cl : hConns h !! c = Some cl -> clStage cl = SOpen -> clTodo cl = [] ->
      hub_step h (Some (LTau, upd h c (set_stage SLeaving)))
  | hs_unregister h c : hRun h = RIdle -> stage_of h c = Some SLeaving -> unlocked h = true ->
      hub_step h (pair LTau <$> run_unregister h c)
  | hs_forget h c : hRun h = RForget c -> hub_step h (Some (LTau, run_forget h c))
  | hs_delta h d ds : hRun h = RIdle -> hDeltaCh h = d :: ds -> hFlush h = None ->
      hub_step h (Some (LTau, run_delta h d ds))
  | hs_trade h t ts now : hRun h = RIdle -> hTradeCh h = t :: ts -> hub_step h (Some (LTau, run_trade h t ts now))
  | hs_order h o os now : hRun h = RIdle -> hOrderCh h = o :: os -> hub_step h (Some (LTau, run_order h o os now))
  | hs_flush h now : hTimer h = true -> hFlush h = None -> hub_step h (Some (LTau, flushOrderbookDeltas h now))
  | hs_lookup h g topic m : cast_of h g = Some (BLookup topic m) -> hub_step h (Some (cast_lookup h g topic m))
  | hs_lock h g topic m : cast_of h g = Some (BLock topic m) -> hub_step h (Some (cast_lock h g topic m))
  | hs_send h g todo c m : cast_of h g = Some (BSend todo m) -> c ∈ todo -> hub_step h (cast_send h g todo c m)
  | hs_end h g m : cast_of h g = Some (BSend ∅ m) -> hub_step h (Some (cast_end h g))
  | hs_write h c cl cl' : hConns h !! c = Some cl -> write_next cl = Some cl' ->
      hub_step h (Some (LTau, upd h c (fun _ => cl')))
  | hs_write_fail h c : hub_step h (Some (LTau, upd h c write_fail))
  | hs_broadcast_delta h d : hub_step h (Some (BroadcastOrderbookDelta h d))
  | hs_broadcast_trade h t : hub_step h (Some (BroadcastTrade h t))
  | hs_broadcast_order h o : hub_step h (Some (BroadcastOrder h o)).

(** A run of the program with what its steps show. *)
Inductive hub_run (h : Hub) : list label -> Hub -> Prop :=
  | hr_nil : hub_run h [] h
  | hr_snoc tr l h1 h2 : hub_run h tr h1 -> hub_step h1 (Some (l, h2)) -> hub_run h (tr ++ [l]) h2.
End hub.
