(* ===== verification/HubTheorems.v ===== *)
(** * Theorems about the WebSocket hub

    An invariant of every reachable state and what follows from it: no
    goroutine sends on a closed channel or closes one twice, a client that has
    left leaves nothing behind, deltas are never stranded.  Then the order of
    what a client receives, the broadcasts and the batching of deltas, over
    arbitrary interleavings. *)

From S2P Require Import Prelude.
From S2P Require Import External.
From S2P Require Import Models.
From S2P Require Import OrderBook.
From S2P Require Import Sql.
From S2P Require Import Postgres.
From S2P Require Import Hub.

Section hub_theorems.
Context `{DecimalPkg, UuidPkg, BTreePkg}.
Implicit Types (h : Hub) (cl : Client) (c : nat) (m : Message).

(** ** The invariant *)

(** Stages between the registration and the end of the unregistration, and
    those in which [readPump] may hold subscriptions. *)
Definition live (st : stage) : bool := match st with SGreet | SOpen | SLeaving => true | _ => false end.
Definition reading (st : stage) : bool := match st with SOpen | SLeaving => true | _ => false end.

Definition own_of (h : Hub) (c : nat) : gset string := default ∅ (clSubscriptions <$> hConns h !! c).
Definition present h c : Prop := exists st, stage_of h c = Some st /\ live st = true.
Definition reads h c : Prop := exists st, stage_of h c = Some st /\ reading st = true.

Definition writer_ok cl : Prop :=
  match clWriter cl with WQueued _ n => n <= length (clSend cl) | _ => True end.

(** What holds of one client. *)
Record client_inv (cl : Client) : Prop := {
  ci_closed : clClosed cl = true <-> clStage cl = SGone;
  ci_buffer : length (clSend cl) <= sendBufferSize;
  ci_writer : writer_ok cl;
  ci_todo : clTodo cl <> [] -> clStage cl = SOpen;
  ci_valid : forall t, ASubscribe t ∈ clTodo cl \/ t ∈ clSubscriptions cl -> validTopic t = true;
  ci_fresh : reading (clStage cl) = false -> clStage cl <> SGone -> clSubscriptions cl = ∅;
  ci_off : clWriter cl <> WOff -> reading (clStage cl) = true \/ clStage cl = SGone;
}.

(** How the hub's maps, the clients' stages and the goroutines fit together. *)
Record shape (h : Hub) : Prop := {
  sh_clients c : c ∈ hClients h -> present h c;
  sh_live c : present h c -> c ∈ hClients h \/ hRun h = RInsert c;
  sh_run c : hRun h = RInsert c \/ hRun h = RActive c -> present h c;
  sh_subs t c : c ∈ subscribers h t -> reads h c /\ t ∈ own_of h c;
  sh_own t c : reads h c -> t ∈ own_of h c -> c ∈ subscribers h t;
  sh_cast g todo m c : cast_of h g = Some (BSend todo m) -> c ∈ todo -> reads h c;
  sh_activity c : c ∈ dom (hActivity h) -> present h c \/ hRun h = RForget c;
}.

(** The batch of deltas and the bounds of the channels. *)
Record batch_inv (h : Hub) : Prop := {
  bi_pending : hPending h <> [] -> hTimer h = true;
  bi_flush : hFlush h <> None -> hPending h <> [];
  bi_delta : length (hDeltaCh h) <= channelSize;
  bi_trade : length (hTradeCh h) <= channelSize;
  bi_order : length (hOrderCh h) <= channelSize;
}.

Record hub_inv (h : Hub) : Prop := {
  hi_client c cl : hConns h !! c = Some cl -> client_inv cl;
  hi_shape : shape h;
  hi_batch : batch_inv h;
}.

(** ** Lookups *)

Lemma conns_upd h c f c' :
  hConns (upd h c f) !! c' = if decide (c' = c) then f <$> hConns h !! c' else hConns h !! c'.
Proof.
  unfold upd. cbn. case_decide as E; [subst; by rewrite lookup_alter_eq|]. by rewrite lookup_alter_ne.
Qed.

Lemma stage_of_upd h c f c' :
  stage_of (upd h c f) c' = if decide (c' = c) then clStage ∘ f <$> hConns h !! c' else stage_of h c'.
Proof. unfold stage_of. rewrite conns_upd. case_decide; [|done]. by destruct (hConns h !! c'). Qed.

Lemma own_of_upd h c f c' :
  own_of (upd h c f) c' = if decide (c' = c) then default ∅ (clSubscriptions ∘ f <$> hConns h !! c') else own_of h c'.
Proof. unfold own_of. rewrite conns_upd. case_decide; [|done]. by destruct (hConns h !! c'). Qed.

(** A client update that keeps the stage and the subscriptions. *)
Definition keeps (h : Hub) (c : nat) (f : Client -> Client) : Prop :=
  forall cl, hConns h !! c = Some cl -> clStage (f cl) = clStage cl /\ clSubscriptions (f cl) = clSubscriptions cl.

Lemma stage_of_keeps h c f c' : keeps h c f -> stage_of (upd h c f) c' = stage_of h c'.
Proof.
  intros K. rewrite stage_of_upd. case_decide as E; [|done]. subst. unfold stage_of.
  destruct (hConns h !! c) as [cl|] eqn:Hc; [|done]. cbn. f_equal. by apply K.
Qed.

Lemma own_of_keeps h c f c' : keeps h c f -> own_of (upd h c f) c' = own_of h c'.
Proof.
  intros K. rewrite own_of_upd. case_decide as E; [|done]. subst. unfold own_of.
  destruct (hConns h !! c) as [cl|] eqn:Hc; [|done]. cbn. by apply K.
Qed.

Lemma stage_of_Some h c st : stage_of h c = Some st -> exists cl, hConns h !! c = Some cl /\ clStage cl = st.
Proof. unfold stage_of. destruct (hConns h !! c) as [cl|]; cbn; naive_solver. Qed.

(** ** Transport of the parts of the invariant *)

Lemma casts_same h h' : hRun h' = hRun h -> hFlush h' = hFlush h -> forall g, cast_of h' g = cast_of h g.
Proof. intros E1 E2 []; cbn; by rewrite ?E1, ?E2. Qed.

Lemma shape_ext h h' :
  (forall c, stage_of h' c = stage_of h c) -> (forall c, own_of h' c = own_of h c) ->
  hClients h' = hClients h -> hSubs h' = hSubs h -> hActivity h' = hActivity h -> hRun h' = hRun h ->
  hFlush h' = hFlush h -> shape h -> shape h'.
Proof.
  intros Hst Hown Hcl Hsubs Hact Hrun Hfl [].
  pose proof (casts_same h h' Hrun Hfl) as Hcast.
  assert (forall c, present h' c <-> present h c) as Hp by (intros c; unfold present; by rewrite Hst).
  assert (forall c, reads h' c <-> reads h c) as Hr by (intros c; unfold reads; by rewrite Hst).
  assert (forall t, subscribers h' t = subscribers h t) as Hs by (intros t; unfold subscribers; by rewrite Hsubs).
  split.
  - intros c. rewrite Hcl, Hp. auto.
  - intros c. rewrite Hcl, Hp, Hrun. auto.
  - intros c. rewrite Hp, Hrun. auto.
  - intros t c. rewrite Hs, Hr, Hown. auto.
  - intros t c. rewrite Hs, Hr, Hown. auto.
  - intros g todo m c. rewrite Hcast, Hr. eauto.
  - intros c. rewrite Hact, Hp, Hrun. auto.
Qed.

Lemma hub_inv_upd h c f :
  keeps h c f -> (forall cl, hConns h !! c = Some cl -> client_inv cl -> client_inv (f cl)) ->
  hub_inv h -> hub_inv (upd h c f).
Proof.
  intros K Hf [Hc Hs [? ? ? ? ?]]. split.
  - intros c' cl'. rewrite conns_upd. case_decide as E; [subst|by apply Hc].
    intros (cl & Hcl & ->)%fmap_Some. eauto.
  - revert Hs. apply shape_ext; try done.
    + intros c'. by apply stage_of_keeps.
    + intros c'. by apply own_of_keeps.
  - done.
Qed.

(** ** Sending *)

Lemma client_inv_push cl m :
  client_inv cl -> length (clSend cl) < sendBufferSize -> client_inv (set_send (clSend cl ++ [m]) cl).
Proof.
  intros [] Hlt. split; try done; cbn.
  - rewrite length_app. cbn. lia.
  - revert ci_writer0. unfold writer_ok. cbn. rewrite length_app. destruct (clWriter cl); cbn; lia.
Qed.

(** Offering a message to a client that is not gone succeeds. *)
Lemma deliver_ok h g c m st :
  hub_inv h -> stage_of h c = Some st -> st <> SGone ->
  exists cl h', hConns h !! c = Some cl /\
    deliver h g c m = Some (LSend g c m (bool_decide (length (clSend cl) < sendBufferSize)), h') /\ hub_inv h'.
Proof.
  intros Hi (cl & Hcl & <-)%stage_of_Some Hst. exists cl. unfold deliver. rewrite Hcl.
  destruct (clClosed cl) eqn:Hclosed.
  { destruct Hst. by eapply ci_closed; [by eapply hi_client|]. }
  case_bool_decide as Hlt; [|by eauto].
  eexists. split; [done|]. split; [done|]. apply hub_inv_upd; [by intros cl' ?|..|done].
  intros cl' Hcl' ?. simplify_eq. by apply client_inv_push.
Qed.

(** ** Every step preserves the invariant *)

(** Steps that only move a broadcast or fill and empty channels. *)
Definition quiet (pc : run_pc) : bool := match pc with RIdle | RCast _ => true | _ => false end.

Lemma hub_inv_ext h h' :
  hConns h' = hConns h -> hClients h' = hClients h -> hSubs h' = hSubs h -> hActivity h' = hActivity h ->
  hRun h' = hRun h \/ quiet (hRun h') = true /\ quiet (hRun h) = true ->
  (forall g todo m c, cast_of h' g = Some (BSend todo m) -> c ∈ todo -> reads h c) ->
  batch_inv h' -> hub_inv h -> hub_inv h'.
Proof.
  intros Ec Ecl Es Ea Er Hcast ? [Hc [] _].
  assert (forall c, (hRun h' = RInsert c <-> hRun h = RInsert c) /\ (hRun h' = RActive c <-> hRun h = RActive c) /\
                    (hRun h' = RForget c <-> hRun h = RForget c)) as Hpc.
  { intros c. destruct Er as [->|[Q' Q]]; [done|]. destruct (hRun h'), (hRun h); naive_solver. }
  assert (forall c, present h' c <-> present h c) as Hp by (intros c; unfold present, stage_of; by rewrite Ec).
  assert (forall c, reads h' c <-> reads h c) as Hr by (intros c; unfold reads, stage_of; by rewrite Ec).
  assert (forall t, subscribers h' t = subscribers h t) as Hs by (intros t; unfold subscribers; by rewrite Es).
  assert (forall c, own_of h' c = own_of h c) as Ho by (intros c; unfold own_of; by rewrite Ec).
  split; [by rewrite Ec|split|done].
  - intros c. rewrite Ecl, Hp. auto.
  - intros c. rewrite Ecl, Hp. destruct (Hpc c) as (-> & _). auto.
  - intros c. rewrite Hp. destruct (Hpc c) as (-> & -> & _). auto.
  - intros t c. rewrite Hs, Hr, Ho. auto.
  - intros t c. rewrite Hs, Hr, Ho. auto.
  - intros g todo m c. rewrite Hr. apply Hcast.
  - intros c. rewrite Ea, Hp. destruct (Hpc c) as (_ & _ & ->). auto.
Qed.

Lemma NewHub_inv : hub_inv NewHub.
Proof.
  split.
  - intros c cl. cbn. by rewrite lookup_empty.
  - assert (forall c, stage_of NewHub c = None) as Hst by done.
    split; unfold present, reads; cbn -[subscribers stage_of]; try setoid_rewrite Hst; try set_solver.
    by intros [] ??? ?.
  - split; cbn; try done; unfold channelSize; lia.
Qed.

Lemma NewClient_inv id : client_inv (NewClient id).
Proof. split; cbn; try done; [unfold sendBufferSize; lia|]. intros t [?|?]; set_solver. Qed.

Lemma stage_of_connect h c id c' :
  stage_of (set_conns h (<[c := NewClient id]> (hConns h))) c' = if decide (c' = c) then Some SNew else stage_of h c'.
Proof.
  unfold stage_of. cbn. case_decide as E; [subst; by rewrite lookup_insert_eq|]. by rewrite lookup_insert_ne.
Qed.

Lemma step_connect h c id :
  hConns h !! c = None -> hub_inv h -> hub_inv (set_conns h (<[c := NewClient id]> (hConns h))).
Proof.
  intros Hc [Hcl [] [? ? ? ? ?]]. set (h' := set_conns h _).
  assert (stage_of h c = None) as Hst by (unfold stage_of; by rewrite Hc).
  assert (forall c', present h' c' <-> present h c') as Hp.
  { intros c'. unfold present, h'. rewrite stage_of_connect. case_decide; [subst; rewrite Hst|done]. naive_solver. }
  assert (forall c', reads h' c' <-> reads h c') as Hr.
  { intros c'. unfold reads, h'. rewrite stage_of_connect. case_decide; [subst; rewrite Hst|done]. naive_solver. }
  assert (forall c', reads h c' -> own_of h' c' = own_of h c') as Ho.
  { intros c' (st & Hs & _). unfold own_of, h'. cbn. rewrite lookup_insert_ne; [done|]. intros ->. congruence. }
  split; [|split|done].
  - intros c' cl'. unfold h'. cbn. destruct (decide (c = c')) as [->|?].
    + rewrite lookup_insert_eq. intros [= <-]. apply NewClient_inv.
    + rewrite lookup_insert_ne by done. apply Hcl.
  - intros c'. rewrite Hp. apply sh_clients0.
  - intros c'. rewrite Hp. apply sh_live0.
  - intros c'. rewrite Hp. apply sh_run0.
  - intros t c' Hin. destruct (sh_subs0 t c' Hin) as [Hrd ?]. rewrite Hr, Ho by done. done.
  - intros t c'. rewrite Hr. intros Hrd. rewrite Ho by done. by apply sh_own0.
  - intros g todo m c'. rewrite Hr. apply sh_cast0.
  - intros c'. rewrite Hp. apply sh_activity0.
Qed.

(** [Run] takes a registration. *)
Lemma step_register h c :
  hRun h = RIdle -> stage_of h c = Some SNew -> hub_inv h -> hub_inv (run_register h c).
Proof.
  intros Hrun Hst [Hcl [] [? ? ? ? ?]]. set (h' := run_register h c).
  destruct (stage_of_Some _ _ _ Hst) as (cl & Hc & Hs).
  assert (forall c', stage_of h' c' = if decide (c' = c) then Some SGreet else stage_of h c') as Hst'.
  { intros c'. unfold h', run_register. change (stage_of (set_run ?h ?r)) with (stage_of h).
    rewrite stage_of_upd. case_decide as E; [subst; by rewrite Hc|done]. }
  assert (forall c', present h' c' <-> present h c' \/ c' = c) as Hp.
  { intros c'. unfold present. rewrite Hst'. case_decide as E; [|naive_solver].
    split; [by right|]. intros _. by exists SGreet. }
  assert (forall c', reads h' c' <-> reads h c') as Hr.
  { intros c'. unfold reads. rewrite Hst'. case_decide; [subst; rewrite Hst|done]. naive_solver. }
  assert (forall c', own_of h' c' = own_of h c') as Ho.
  { intros c'. unfold h', run_register. change (own_of (set_run ?h ?r)) with (own_of h).
    rewrite own_of_upd. case_decide; [|done]. unfold own_of. by destruct (hConns h !! c'). }
  split; [|split|done].
  - intros c' cl'. unfold h', run_register. cbn [hConns set_run]. rewrite conns_upd.
    case_decide; [subst|by apply Hcl]. rewrite Hc. intros [= <-]. destruct (Hcl _ _ Hc).
    split; cbn; rewrite ?Hs in *; try naive_solver.
  - intros c' ?. rewrite Hp. auto.
  - intros c'. rewrite Hp. intros [?| ->]; [|by right]. destruct (sh_live0 c') as [?|?]; [done|by left|congruence].
  - intros c'. rewrite Hp. cbn. intros [E|?]; [injection E as ->; by right|done].
  - intros t c'. rewrite Hr, Ho. apply sh_subs0.
  - intros t c'. rewrite Hr, Ho. apply sh_own0.
  - intros [] todo m c'; rewrite Hr; [done|apply (sh_cast0 GTimer)|done].
  - intros c' Hd. rewrite Hp. destruct (sh_activity0 c' Hd) as [?|?]; [by left; left|congruence].
Qed.

Lemma step_insert h c : hRun h = RInsert c -> hub_inv h -> hub_inv (run_insert h c).
Proof.
  intros Hrun [Hcl [] [? ? ? ? ?]]. split; [done|split|done]; unfold run_insert;
    try change (present (set_run (set_clients h ?s) ?r)) with (present h); cbn.
  - intros c' [Hx|?]%elem_of_union; [apply elem_of_singleton in Hx as ->|]; auto.
  - intros c' Hp. left. rewrite elem_of_union, elem_of_singleton.
    destruct (sh_live0 c' Hp) as [?|E]; [by right|]. left. congruence.
  - intros c' [?|E]; [done|]. injection E as ->. auto.
  - apply sh_subs0.
  - apply sh_own0.
  - intros [] todo m c'; [done|apply (sh_cast0 GTimer)|done].
  - intros c' Hd. destruct (sh_activity0 c' Hd) as [?|?]; [by left|congruence].
Qed.

Lemma step_active h c now : hRun h = RActive c -> hub_inv h -> hub_inv (run_active h c now).
Proof.
  intros Hrun [Hcl [] [? ? ? ? ?]]. split; [done|split|done]; unfold run_active; cbn.
  - apply sh_clients0.
  - intros c' Hp. destruct (sh_live0 c' Hp) as [?|?]; [by left|congruence].
  - intros c' [?|?]; done.
  - apply sh_subs0.
  - apply sh_own0.
  - intros [] todo m c'; [done|apply (sh_cast0 GTimer)|done].
  - intros c'. rewrite dom_insert. intros [Hx|Hd]%elem_of_union.
    + apply elem_of_singleton in Hx as ->. left. apply sh_run0. by right.
    + destruct (sh_activity0 c' Hd) as [?|?]; [by left|congruence].
Qed.

Lemma step_forget h c : hRun h = RForget c -> hub_inv h -> hub_inv (run_forget h c).
Proof.
  intros Hrun [Hcl [] [? ? ? ? ?]]. split; [done|split|done]; unfold run_forget; cbn.
  - apply sh_clients0.
  - intros c' Hp. destruct (sh_live0 c' Hp) as [?|?]; [by left|congruence].
  - intros c' [?|?]; done.
  - apply sh_subs0.
  - apply sh_own0.
  - intros [] todo m c'; [done|apply (sh_cast0 GTimer)|done].
  - intros c'. rewrite dom_delete. intros [Hd ?]%elem_of_difference.
    rewrite elem_of_singleton in *. destruct (sh_activity0 c' Hd) as [?|?]; [by left|congruence].
Qed.

(** The goroutine of a registered client moves on. *)
Lemma step_restage h c st st' f :
  stage_of h c = Some st -> live st = true -> live st' = true -> reading st' = true ->
  (reading st = true \/ own_of h c = ∅) ->
  (forall cl, hConns h !! c = Some cl -> clStage (f cl) = st' /\ clSubscriptions (f cl) = clSubscriptions cl) ->
  (forall cl, hConns h !! c = Some cl -> client_inv cl -> client_inv (f cl)) ->
  hub_inv h -> hub_inv (upd h c f).
Proof.
  intros Hst L L' R' Hown Hf Hci [Hcl [] [? ? ? ? ?]]. set (h' := upd h c f).
  destruct (stage_of_Some _ _ _ Hst) as (cl & Hc & Hs).
  assert (forall c', stage_of h' c' = if decide (c' = c) then Some st' else stage_of h c') as Hst'.
  { intros c'. unfold h'. rewrite stage_of_upd. case_decide as E; [subst c'|done]. rewrite Hc. cbn. f_equal. by apply Hf. }
  assert (forall c', own_of h' c' = own_of h c') as Ho.
  { intros c'. unfold h'. rewrite own_of_upd. case_decide as E; [subst c'|done]. unfold own_of. rewrite Hc. cbn. by apply Hf. }
  assert (forall c', present h' c' <-> present h c') as Hp.
  { intros c'. unfold present. rewrite Hst'. case_decide as E; [subst c'|done]. rewrite Hst. naive_solver. }
  assert (forall c', reads h c' -> reads h' c') as Hr.
  { intros c' (x & Hx & Rx). unfold reads. rewrite Hst'. case_decide; eauto. }
  assert (forall t c', reads h' c' -> t ∈ own_of h c' -> reads h c') as Hr'.
  { intros t c'. unfold reads. rewrite Hst'. case_decide as E; [subst c'|done]. intros _ Hin.
    destruct Hown as [Hrd|E']; [by exists st|]. rewrite E' in Hin. by apply not_elem_of_empty in Hin. }
  split; [|split|done].
  - intros c' cl'. unfold h'. rewrite conns_upd. case_decide as E; [subst c'|by apply Hcl].
    intros (cl0 & Hcl0 & ->)%fmap_Some. eauto.
  - intros c'. rewrite Hp. apply sh_clients0.
  - intros c'. rewrite Hp. apply sh_live0.
  - intros c'. rewrite Hp. apply sh_run0.
  - intros t c' Hin. rewrite Ho. destruct (sh_subs0 t c' Hin). auto.
  - intros t c' Hrd. rewrite Ho. intros Hin. apply sh_own0; eauto.
  - intros g todo m c' Hg Hin. apply Hr. by eapply sh_cast0.
  - intros c'. rewrite Hp. apply sh_activity0.
Qed.

Lemma own_of_fresh h c st :
  hub_inv h -> stage_of h c = Some st -> reading st = false -> st <> SGone -> own_of h c = ∅.
Proof.
  intros Hi (cl & Hc & <-)%stage_of_Some Hr Hne. unfold own_of. rewrite Hc. cbn.
  by apply (ci_fresh _ (hi_client _ Hi _ _ Hc)).
Qed.

Lemma step_welcome h c now :
  stage_of h c = Some SGreet -> hub_inv h -> exists l h', welcome h c now = Some (l, h') /\ hub_inv h'.
Proof.
  intros Hst Hi. destruct (stage_of_Some _ _ _ Hst) as (cl & Hc & Hs). unfold welcome, sendMessage.
  set (h2 := upd (upd h c _) c _).
  assert (hub_inv h2) as Hi2.
  { assert (hub_inv (upd h c (set_stage SOpen))) as Hi1.
    { apply (step_restage h c SGreet SOpen); try done; [right; by eapply own_of_fresh|].
      intros cl0 E []. assert (cl0 = cl) as -> by congruence. split; cbn; rewrite ?Hs in *; naive_solver. }
    apply hub_inv_upd; [by intros ??| |done]. intros cl0 E []. rewrite conns_upd, decide_True, Hc in E by done.
    injection E as <-. split; cbn; try done. by left. }
  assert (stage_of h2 c = Some SOpen) as Hst2.
  { unfold h2. rewrite stage_of_upd, decide_True, conns_upd, decide_True by done. by rewrite Hc. }
  destruct (deliver_ok h2 GClient c (mkMessage "welcome" "" now (DWelcome (default "" (clID <$> hConns h !! c))
    "Connected to trading engine WebSocket" ["orderbook_deltas"; "trades"; "orders"])) SOpen)
    as (? & h' & _ & E & ?); [done..|]. rewrite E. eauto.
Qed.

(** The handlers subscribe to valid topics only. *)
Lemma handleMessage_valid own msg t : ASubscribe t ∈ handleMessage own msg -> validTopic t = true.
Proof.
  unfold handleMessage, handleSubscribe, handleUnsubscribe, handleResync, sendError, sendPong.
  destruct msg as [msg|]; repeat case_bool_decide; try destruct (validTopic _) eqn:?; cbn; set_solver.
Qed.

Lemma step_todo h c cl l :
  hConns h !! c = Some cl -> clStage cl = SOpen -> (forall t, ASubscribe t ∈ l -> validTopic t = true) ->
  hub_inv h -> hub_inv (upd h c (set_todo l)).
Proof.
  intros Hc Hs Hl. apply hub_inv_upd; [by intros ??|]. intros cl' E []. assert (cl' = cl) as -> by congruence.
  split; cbn; try done. intros t [?|?]; auto.
Qed.

(** [h.subscriptions] and [c.subscriptions] change together. *)
Lemma step_own h h' c cl (f : gset string -> gset string) :
  hConns h !! c = Some cl -> clStage cl = SOpen ->
  (forall t, t ∈ f (clSubscriptions cl) -> validTopic t = true) ->
  hConns h' = hConns h -> hClients h' = hClients h -> hActivity h' = hActivity h -> hRun h' = hRun h ->
  hFlush h' = hFlush h -> batch_inv h' ->
  (forall t, subscribers h' t ∖ {[c]} = subscribers h t ∖ {[c]} /\
             (c ∈ subscribers h' t <-> t ∈ f (clSubscriptions cl))) ->
  hub_inv h -> hub_inv (upd h' c (set_own f)).
Proof.
  intros Hc Hs Hf Ec Ecl Ea Er Ef [? ? ? ? ?] Hsub [Hcl [] _]. set (h2 := upd h' c _).
  assert (forall c', stage_of h2 c' = stage_of h c') as Hst.
  { intros c'. unfold h2. rewrite stage_of_upd. unfold stage_of. rewrite Ec.
    case_decide as E; [subst c'; by rewrite Hc|done]. }
  assert (forall c', own_of h2 c' = if decide (c' = c) then f (clSubscriptions cl) else own_of h c') as Ho.
  { intros c'. unfold h2. rewrite own_of_upd. unfold own_of. rewrite Ec.
    case_decide as E; [subst c'; by rewrite Hc|done]. }
  assert (forall c', present h2 c' <-> present h c') as Hp by (intros c'; unfold present; by rewrite Hst).
  assert (forall c', reads h2 c' <-> reads h c') as Hr by (intros c'; unfold reads; by rewrite Hst).
  assert (forall g, cast_of h2 g = cast_of h g) as Hg by (by apply casts_same).
  assert (forall t c', c' <> c -> c' ∈ subscribers h' t <-> c' ∈ subscribers h t) as Hne.
  { intros t c' ?. destruct (Hsub t) as [E _]. set_solver. }
  split; [|split|done].
  - intros c' cl'. unfold h2. rewrite conns_upd, Ec. case_decide as E; [subst c'|by apply Hcl].
    rewrite Hc. intros [= <-]. destruct (Hcl _ _ Hc). split; cbn; try done; rewrite ?Hs; try done.
    intros t [?|?]; auto.
  - intros c'. rewrite Hp. change (hClients h2) with (hClients h'). rewrite Ecl. apply sh_clients0.
  - intros c'. rewrite Hp. change (hClients h2) with (hClients h'). change (hRun h2) with (hRun h').
    rewrite Ecl, Er. apply sh_live0.
  - intros c'. rewrite Hp. change (hRun h2) with (hRun h'). rewrite Er. apply sh_run0.
  - intros t c'. rewrite Hr, Ho. change (subscribers h2 t) with (subscribers h' t). case_decide as E.
    + subst c'. rewrite (proj2 (Hsub t)). intros ?. split; [|done]. exists SOpen. unfold stage_of. rewrite Hc. cbn. by rewrite Hs.
    + rewrite Hne by done. apply sh_subs0.
  - intros t c'. rewrite Hr, Ho. change (subscribers h2 t) with (subscribers h' t). case_decide as E.
    + subst c'. by rewrite (proj2 (Hsub t)).
    + rewrite Hne by done. apply sh_own0.
  - intros g todo m c'. rewrite Hr, Hg. apply sh_cast0.
  - intros c'. rewrite Hp. change (hActivity h2) with (hActivity h'). change (hRun h2) with (hRun h').
    rewrite Ea, Er. apply sh_activity0.
Qed.

Lemma subscribers_Subscribe h c t t' :
  subscribers (Subscribe h c t) t' = if decide (t' = t) then {[c]} ∪ subscribers h t else subscribers h t'.
Proof.
  unfold subscribers, Subscribe. cbn. case_decide as E; [subst t'; by rewrite lookup_insert_eq|].
  by rewrite lookup_insert_ne.
Qed.

Lemma subscribers_Unsubscribe h c t t' :
  subscribers (Unsubscribe h c t) t' = if decide (t' = t) then subscribers h t ∖ {[c]} else subscribers h t'.
Proof.
  unfold Unsubscribe. destruct (hSubs h !! t) as [s|] eqn:E.
  - unfold subscribers. cbn. case_decide as D; [subst t'; by rewrite lookup_insert_eq, E|]. by rewrite lookup_insert_ne.
  - case_decide as D; [subst t'|done]. unfold subscribers. rewrite E. cbn. set_solver.
Qed.

Lemma subscribed h c cl t :
  hub_inv h -> hConns h !! c = Some cl -> clStage cl = SOpen -> c ∈ subscribers h t <-> t ∈ clSubscriptions cl.
Proof.
  intros Hi Hc Hs. destruct (hi_shape _ Hi).
  assert (own_of h c = clSubscriptions cl) as E by (unfold own_of; by rewrite Hc).
  rewrite <- E. split; [apply sh_subs0|]. apply sh_own0. exists SOpen. unfold stage_of. rewrite Hc. cbn. by rewrite Hs.
Qed.

Lemma step_subscribe h c cl t :
  hConns h !! c = Some cl -> clStage cl = SOpen -> validTopic t = true ->
  hub_inv h -> hub_inv (upd (Subscribe h c t) c (set_own (union {[t]}))).
Proof.
  intros Hc Hs Ht Hi. destruct (hi_client _ Hi _ _ Hc). destruct (hi_batch _ Hi).
  eapply step_own; try done.
  - intros t' [Hx|?]%elem_of_union; [apply elem_of_singleton in Hx as ->|]; auto.
  - intros t'. rewrite subscribers_Subscribe. pose proof (subscribed h c cl t' Hi Hc Hs) as E.
    case_decide as D; [subst t'|]; split; set_solver.
Qed.

Lemma step_unsubscribe h c cl t :
  hConns h !! c = Some cl -> clStage cl = SOpen ->
  hub_inv h -> hub_inv (upd (Unsubscribe h c t) c (set_own (fun s => s ∖ {[t]}))).
Proof.
  intros Hc Hs Hi. destruct (hi_client _ Hi _ _ Hc). destruct (hi_batch _ Hi).
  eapply step_own; try done; try (by unfold Unsubscribe; destruct (hSubs h !! t)).
  - set_solver.
  - intros t'. rewrite subscribers_Unsubscribe. pose proof (subscribed h c cl t' Hi Hc Hs) as E.
    case_decide as D; [subst t'|]; split; set_solver.
Qed.

Lemma step_activity h c now :
  present h c -> hub_inv h -> hub_inv (UpdateActivity h c now).
Proof.
  intros Hp [Hcl [] [? ? ? ? ?]]. split; [done|split|done]; try done.
  intros c'. unfold UpdateActivity. cbn. rewrite dom_insert. intros [Hx|Hd]%elem_of_union; [|by apply sh_activity0].
  apply elem_of_singleton in Hx as ->. by left.
Qed.

Lemma snapshot_data_ok sp clientID topic now : exists d, snapshot_data sp clientID topic now = Some d.
Proof.
  unfold snapshot_data, GetOrderbookSnapshot, GetTopLevels. change (make_cap_ok 20) with true.
  cbn [mbind option_bind].
  repeat case_bool_decide; eauto.
Qed.

(** An action of a handler is performed without a panic. *)
Lemma step_perform h c cl a now now_ms p :
  hConns h !! c = Some cl -> clStage cl = SOpen -> (forall t, a = ASubscribe t -> validTopic t = true) -> hub_inv h ->
  exists l h', perform h c now now_ms p a = Some (l, h') /\ hub_inv h'.
Proof.
  intros Hc Hs Ha Hi.
  assert (stage_of h c = Some SOpen) as Hst by (unfold stage_of; rewrite Hc; cbn; by rewrite Hs).
  assert (forall m, exists l h', sendMessage h c m = Some (l, h') /\ hub_inv h') as Hsend.
  { intros m. destruct (deliver_ok h GClient c m SOpen) as (? & ? & _ & E & ?); [done..|]. unfold sendMessage. eauto. }
  destruct a as [|t|t|ty t d|t]; cbn [perform].
  - eexists _, _. split; [done|]. apply step_activity; [by exists SOpen|done].
  - eexists _, _. split; [done|]. eapply step_subscribe; eauto.
  - eexists _, _. split; [done|]. by eapply step_unsubscribe.
  - apply Hsend.
  - unfold sendSnapshot. destruct p as [sp|]; [|by eauto].
    destruct (snapshot_data_ok sp (default "" (clClientID <$> hConns h !! c)) t now_ms) as [d ->]. cbn.
    destruct d; [apply Hsend|eauto].
Qed.

Lemma unlocked_casts h g todo m : unlocked h = true -> cast_of h g = Some (BSend todo m) -> False.
Proof.
  unfold unlocked. intros [H1' H2']%andb_prop E. destruct g; [rewrite E in H1'| rewrite E in H2'|]; done.
Qed.

(** Unregistering closes the client's channel once and removes it everywhere. *)
Lemma step_unregister h c :
  hRun h = RIdle -> stage_of h c = Some SLeaving -> unlocked h = true -> hub_inv h ->
  exists h', run_unregister h c = Some h' /\ hub_inv h'.
Proof.
  intros Hrun Hst Hu Hi. destruct (stage_of_Some _ _ _ Hst) as (cl & Hc & Hs).
  pose proof (fun g todo m => unlocked_casts h g todo m Hu) as Hcast.
  destruct Hi as [Hcl [] [? ? ? ? ?]].
  assert (c ∈ hClients h) as Hin.
  { destruct (sh_live0 c) as [?|?]; [by exists SLeaving|done|congruence]. }
  assert (clClosed cl = false) as Hopen.
  { destruct (clClosed cl) eqn:E; [|done]. apply (ci_closed _ (Hcl _ _ Hc)) in E. congruence. }
  unfold run_unregister. rewrite bool_decide_eq_true_2 by done. rewrite Hc. cbn [fmap option_fmap option_map default].
  rewrite Hopen. eexists. split; [done|]. set (h' := upd (set_clients _ _) c close_send).
  assert (forall c', stage_of h' c' = if decide (c' = c) then Some SGone else stage_of h c') as Hst'.
  { intros c'. unfold h'. rewrite stage_of_upd. unfold stage_of. cbn. rewrite lookup_alter.
    case_decide as E; [subst c'; by rewrite decide_True, Hc by done|]. by rewrite decide_False by congruence. }
  assert (forall c', c' <> c -> own_of h' c' = own_of h c') as Ho.
  { intros c' ?. unfold h'. rewrite own_of_upd, decide_False by done. unfold own_of. cbn.
    by rewrite lookup_alter_ne. }
  assert (forall c', present h' c' <-> present h c' /\ c' <> c) as Hp.
  { intros c'. unfold present. rewrite Hst'. case_decide as E; [|naive_solver]. naive_solver. }
  assert (forall c', reads h' c' <-> reads h c' /\ c' <> c) as Hr.
  { intros c'. unfold reads. rewrite Hst'. case_decide as E; [|naive_solver]. naive_solver. }
  assert (forall t, subscribers h' t = subscribers h t ∖ {[c]}) as Hsub.
  { intros t. unfold subscribers, h'. cbn. rewrite lookup_fmap. destruct (hSubs h !! t); cbn; [done|]. set_solver. }
  split; [|split|done].
  - intros c' cl'. unfold h'. rewrite conns_upd. cbn. rewrite lookup_alter.
    case_decide as E; [subst c'|rewrite decide_False by congruence; by apply Hcl].
    rewrite decide_True, Hc by done. intros [= <-]. destruct (Hcl _ _ Hc). split; cbn; try done; rewrite ?Hs in *; naive_solver.
  - intros c'. rewrite Hp. unfold h'. cbn. intros [??]%elem_of_difference. set_solver.
  - intros c'. rewrite Hp. intros [Hp' ?]. unfold h'. cbn. destruct (sh_live0 c' Hp'); [|congruence]. set_solver.
  - intros c'. by intros [?|?].
  - intros t c'. rewrite Hsub, Hr. intros [Hx ?]%elem_of_difference. destruct (sh_subs0 t c' Hx).
    rewrite Ho by set_solver. set_solver.
  - intros t c'. rewrite Hsub, Hr. intros [? ?]. rewrite Ho by done. intros ?. apply elem_of_difference. split; [auto|set_solver].
  - intros [] todo m c' Hg; [done| |done]. by destruct (Hcast GTimer todo m).
  - intros c' Hd. rewrite Hp. destruct (sh_activity0 c' Hd) as [?|?]; [|congruence].
    destruct (decide (c' = c)) as [->|]; [by right|by left].
Qed.

(** ** Broadcasts and batches *)

Lemma casts_keep h h' :
  (forall g todo m, cast_of h' g = Some (BSend todo m) -> exists todo', cast_of h g = Some (BSend todo' m) /\ todo ⊆ todo') ->
  hub_inv h -> forall g todo m c, cast_of h' g = Some (BSend todo m) -> c ∈ todo -> reads h c.
Proof.
  intros Hc [_ [] _] g todo m c Hg Hin. destruct (Hc _ _ _ Hg) as (todo' & Hg' & Hsub). eapply sh_cast0; eauto.
Qed.

Lemma cast_of_GHub h b : cast_of h GHub = Some b -> hRun h = RCast b.
Proof. cbn. destruct (hRun h); congruence. Qed.

Lemma set_cast_inv h g b b' :
  cast_of h g = Some b -> (forall todo m c, b' = BSend todo m -> c ∈ todo -> reads h c) ->
  hub_inv h -> hub_inv (set_cast h g b').
Proof.
  intros Hg Hb' Hi. destruct (hi_shape _ Hi), (hi_batch _ Hi) as [? Hfl ? ? ?].
  destruct g; cbn in Hg |- *; [| |done]; apply (hub_inv_ext h); try done.
  - right. destruct (hRun h); by simplify_eq.
  - intros [] todo m c E Hin; cbn in E; simplify_eq; [by eapply Hb'|by eapply (sh_cast0 GTimer)].
  - by left.
  - intros [] todo m c E Hin; cbn in E; simplify_eq; [by eapply (sh_cast0 GHub)|by eapply Hb'].
  - split; cbn; try done. intros _. apply Hfl. congruence.
Qed.

Lemma cast_end_inv h g b : cast_of h g = Some b -> hub_inv h -> hub_inv (cast_end h g).2.
Proof.
  intros Hg Hi. destruct (hi_shape _ Hi), (hi_batch _ Hi).
  destruct g; cbn in Hg |- *; [| |done]; apply (hub_inv_ext h); try done.
  - right. destruct (hRun h); by simplify_eq.
  - intros [] todo m c E Hin; cbn in E; simplify_eq; by eapply (sh_cast0 GTimer).
  - by left.
  - intros [] todo m c E Hin; cbn in E; simplify_eq; by eapply (sh_cast0 GHub).
Qed.

Lemma step_cast_send h g todo c m :
  cast_of h g = Some (BSend todo m) -> c ∈ todo -> hub_inv h ->
  exists l h', cast_send h g todo c m = Some (l, h') /\ hub_inv h'.
Proof.
  intros Hg Hin Hi. destruct (sh_cast _ (hi_shape _ Hi) _ _ _ _ Hg Hin) as (st & Hst & Hrd). unfold cast_send.
  destruct (deliver_ok (set_cast h g (BSend (todo ∖ {[c]}) m)) g c m st) as (? & ? & _ & E & ?); [| | |by eauto].
  - eapply set_cast_inv; [done| |done]. intros todo' m' c' [= <- <-] [? _]%elem_of_difference.
    by eapply sh_cast; [by apply hi_shape|..].
  - by destruct g.
  - by destruct st.
Qed.

(** The channels of the producers. *)
Lemma step_channels h ds ts os pc :
  length ds <= channelSize -> length ts <= channelSize -> length os <= channelSize ->
  hRun h = pc \/ quiet (hRun h) = true /\ quiet pc = true ->
  (forall todo m, pc = RCast (BSend todo m) -> hRun h = pc) ->
  hub_inv h -> hub_inv (set_run (set_channels h ds ts os) pc).
Proof.
  intros ? ? ? Hpc Hb Hi. destruct (hi_shape _ Hi), (hi_batch _ Hi). apply (hub_inv_ext h); try done.
  - cbn. destruct Hpc as [?|[? ?]]; [by left|by right].
  - intros [] todo m c E Hin; cbn in E; [|by eapply (sh_cast0 GTimer)|done].
    destruct pc as [| | | |b]; simplify_eq. eapply (sh_cast0 GHub); [|done]. cbn. by rewrite (Hb _ _ eq_refl).
Qed.

Lemma step_delta h d ds :
  hDeltaCh h = d :: ds -> hFlush h = None -> hub_inv h -> hub_inv (run_delta h d ds).
Proof.
  intros E Hf Hi. destruct (hi_batch _ Hi) as [? ? Hd ? ?]. rewrite E in Hd. cbn in Hd.
  apply (hub_inv_ext h); try done; [by left| |].
  - eapply casts_keep; [|done]. intros [] todo m; cbn; eauto.
  - split; cbn; try done; lia.
Qed.

Lemma step_flush h now :
  hTimer h = true -> hFlush h = None -> hub_inv h -> hub_inv (flushOrderbookDeltas h now).
Proof.
  intros Ht Hf Hi. destruct (hi_batch _ Hi). unfold flushOrderbookDeltas.
  destruct (hPending h) as [|d ds] eqn:Hp; apply (hub_inv_ext h); try done; try (by left);
    try (by split; cbn; congruence); (eapply casts_keep; [|done]); intros [] todo m; cbn; eauto; done.
Qed.

(** ** The writer *)

Lemma step_write h c cl cl' :
  hConns h !! c = Some cl -> write_next cl = Some cl' -> hub_inv h -> hub_inv (upd h c (fun _ => cl')).
Proof.
  intros Hc Hw. assert (clStage cl' = clStage cl /\ clSubscriptions cl' = clSubscriptions cl) as [Es Eo].
  { revert Hw. unfold write_next. repeat split_match; intros; by simplify_eq. }
  apply hub_inv_upd; [intros cl0 ?; by simplify_eq|]. intros cl0 E []. assert (cl0 = cl) as -> by congruence.
  revert Hw. unfold write_next, writer_ok in *. repeat split_match; intros; simplify_eq; split; unfold writer_ok;
    cbn in *; try done; try lia; repeat match goal with E : clSend cl = _ |- _ => rewrite E in *; clear E end;
    cbn in *; first [lia | by intros _; apply ci_off0; congruence | tauto | done].
Qed.

Lemma step_write_fail h c : hub_inv h -> hub_inv (upd h c write_fail).
Proof.
  apply hub_inv_upd.
  - intros cl _. unfold write_fail. by destruct (clWriter cl).
  - intros cl _ []. unfold write_fail. destruct (clWriter cl) eqn:E; split; unfold writer_ok; cbn; rewrite ?E; try done;
      intros _; by apply ci_off0.
Qed.

(** ** Every step *)

Lemma hub_step_inv h r : hub_step h r -> hub_inv h -> exists l h', r = Some (l, h') /\ hub_inv h'.
Proof.
  intros Hs Hi. pose proof (hi_batch _ Hi) as [_ _ Bd Bt Bo]. destruct Hs.
  - eauto 6 using step_connect.
  - eauto 6 using step_register.
  - eauto 6 using step_insert.
  - eauto 6 using step_active.
  - by apply step_welcome.
  - eexists _, _. split; [done|]. eapply step_todo; eauto using handleMessage_valid.
  - destruct (hi_client _ Hi _ _ H2). eapply (step_perform _ c (set_todo rest cl)); [| |intros t ->|].
    + rewrite conns_upd, decide_True by done. by rewrite H2.
    + done.
    + apply ci_valid0. left. rewrite H4. by left.
    + eapply step_todo; eauto. intros t Ht. apply ci_valid0. left. rewrite H4. by right.
  - eexists _, _. split; [done|]. apply (step_restage h c SOpen SLeaving); try done; [|by left|].
    + unfold stage_of. rewrite H2. cbn. by rewrite H3.
    + intros cl0 E []. simplify_eq. split; cbn; rewrite ?H3 in *; try naive_solver.
  - destruct (step_unregister h c) as (h' & -> & ?); [done..|]. cbn. eauto.
  - eauto 6 using step_forget.
  - eauto 6 using step_delta.
  - eexists _, _. split; [done|]. rewrite H3 in Bt. cbn in Bt. apply step_channels; try done; [lia|right; by rewrite H2].
  - eexists _, _. split; [done|]. rewrite H3 in Bo. cbn in Bo. apply step_channels; try done; [lia|right; by rewrite H2].
  - eauto 6 using step_flush.
  - unfold cast_lookup. case_bool_decide.
    + destruct (cast_end h g) as [l h'] eqn:E. eexists _, _. split; [done|]. change h' with (l, h').2. rewrite <- E.
      by eapply cast_end_inv.
    + eexists _, _. split; [done|]. by eapply set_cast_inv.
  - eexists _, _. split; [done|]. eapply set_cast_inv; [done| |done]. intros todo m' c [= <- <-] Hin.
    by apply (sh_subs _ (hi_shape _ Hi)) in Hin as [? _].
  - by apply step_cast_send.
  - destruct (cast_end h g) as [l h'] eqn:E. eexists _, _. split; [done|]. change h' with (l, h').2. rewrite <- E.
    by eapply cast_end_inv.
  - eauto 6 using step_write.
  - eauto 6 using step_write_fail.
  - unfold BroadcastOrderbookDelta. case_bool_decide; eexists _, _; (split; [done|]); [|done].
    apply (step_channels h _ _ _ (hRun h)); try done; [rewrite length_app; cbn; lia|by left].
  - unfold BroadcastTrade. case_bool_decide; eexists _, _; (split; [done|]); [|done].
    apply (step_channels h _ _ _ (hRun h)); try done; [rewrite length_app; cbn; lia|by left].
  - unfold BroadcastOrder. case_bool_decide; eexists _, _; (split; [done|]); [|done].
    apply (step_channels h _ _ _ (hRun h)); try done; [rewrite length_app; cbn; lia|by left].
Qed.

Lemma hub_run_inv h0 tr h : hub_run h0 tr h -> hub_inv h0 -> hub_inv h.
Proof.
  induction 1 as [|tr l h1 h2 _ IH Hs]; [done|]. intros Hi.
  destruct (hub_step_inv _ _ Hs (IH Hi)) as (l' & h' & [= <- <-] & ?). done.
Qed.

(** C15: in no interleaving of the hub, the delta timer, the pumps of any
    number of clients and the producers does a goroutine send on a closed
    channel or close one twice; buffers and channels stay within their bounds; a
    client is subscribed to a topic at the hub exactly when its own map says so,
    and the topic is valid; a client that has left is in no map and its channel is
    closed; deltas that wait have a timer that will send them. *)
Theorem hub_never_panics tr h :
  hub_run NewHub tr h ->
  (forall r, hub_step h r -> r <> None) /\
  (forall c cl, hConns h !! c = Some cl ->
     length (clSend cl) <= sendBufferSize /\
     (reading (clStage cl) = true ->
        forall t, (c ∈ subscribers h t <-> t ∈ clSubscriptions cl) /\ (c ∈ subscribers h t -> validTopic t = true)) /\
     (clStage cl = SGone ->
        clClosed cl = true /\ c ∉ hClients h /\ (forall t, c ∉ subscribers h t) /\
        (hRun h = RForget c \/ hActivity h !! c = None))) /\
  (hPending h <> [] -> hTimer h = true) /\
  length (hDeltaCh h) <= channelSize /\ length (hTradeCh h) <= channelSize /\ length (hOrderCh h) <= channelSize.
Proof.
  intros Hrun. pose proof (hub_run_inv _ _ _ Hrun NewHub_inv) as Hi.
  pose proof Hi as [Hcl [] []]. split_and!; try done.
  { intros r Hs. destruct (hub_step_inv _ _ Hs Hi) as (? & ? & -> & _). done. }
  intros c cl Hc. destruct (Hcl _ _ Hc).
  assert (stage_of h c = Some (clStage cl)) as Hst by (unfold stage_of; by rewrite Hc).
  assert (own_of h c = clSubscriptions cl) as Ho by (unfold own_of; by rewrite Hc).
  split_and!; [done|..].
  - intros Hrd t. rewrite <- Ho. assert (reads h c) by by eexists.
    split; [split; [apply sh_subs0|by apply sh_own0]|].
    intros [_ ?]%sh_subs0. apply ci_valid0. right. by rewrite <- Ho.
  - intros Hg. rewrite Hg in *. assert (~ present h c /\ ~ reads h c) as [? ?].
    { split; intros (st & ? & ?); naive_solver. }
    split_and!; [by apply ci_closed0|naive_solver|naive_solver|].
    destruct (hActivity h !! c) eqn:E; [|by right]. apply elem_of_dom_2, sh_activity0 in E as [?|?]; [done|by left].
Qed.

(** ** What a client receives *)

(** The messages [writePump] has taken and not finished. *)
Definition in_hand (cl : Client) : list Message :=
  match clWriter cl with WFrame f | WQueued f _ | WDone f => f | WOff | WSelect => [] end.
Definition stream (cl : Client) : list Message := concat (clFrames cl) ++ in_hand cl ++ clSend cl.
Definition stream_of (h : Hub) (c : nat) : list Message := default [] (stream <$> hConns h !! c).

(** The messages the label says went into [c]'s buffer. *)
Definition sent (c : nat) (l : label) : list Message :=
  match l with LSend _ c' m true => if decide (c' = c) then [m] else [] | _ => [] end.

Lemma stream_of_upd h c f c' :
  (forall cl, hConns h !! c = Some cl -> stream (f cl) = stream cl) -> stream_of (upd h c f) c' = stream_of h c'.
Proof.
  intros Hf. unfold stream_of. rewrite conns_upd. case_decide as E; [subst c'|done].
  destruct (hConns h !! c) as [cl|] eqn:Hc; [|done]. cbn. by apply Hf.
Qed.

Lemma deliver_stream h g c m l h' c' :
  deliver h g c m = Some (l, h') -> stream_of h' c' = stream_of h c' ++ sent c' l.
Proof.
  unfold deliver. destruct (hConns h !! c) as [cl|] eqn:Hc; [|intros [= <- <-]; by rewrite app_nil_r].
  destruct (clClosed cl); [done|]. case_bool_decide; intros [= <- <-]; cbn; [|by rewrite app_nil_r].
  unfold stream_of. rewrite conns_upd. destruct (decide (c' = c)) as [->|Hne].
  - rewrite Hc, decide_True by done. cbn. unfold stream. cbn. by rewrite <- !app_assoc.
  - by rewrite decide_False, app_nil_r by congruence.
Qed.

Lemma write_next_stream cl cl' : write_next cl = Some cl' -> stream cl' = stream cl.
Proof.
  unfold write_next, stream, in_hand.
  destruct (clWriter cl) as [| |f|f [|n]|f] eqn:Ew; try done.
  - destruct (clSend cl) as [|m q] eqn:Es; [destruct (clClosed cl); [|done]|]; intros [= <-]; cbn; by rewrite ?Es.
  - intros [= <-]. done.
  - intros [= <-]. cbn. rewrite concat_app. cbn. by rewrite app_nil_r, <- app_assoc.
  - destruct (clSend cl) as [|m q] eqn:Es; [done|]. intros [= <-]. cbn. by rewrite <- app_assoc.
Qed.

Lemma write_fail_stream cl : stream (write_fail cl) = stream cl.
Proof. unfold write_fail, stream, in_hand. destruct (clWriter cl) eqn:E; cbn; by rewrite ?E. Qed.

Lemma perform_stream h c now now_ms p a l h' c' :
  perform h c now now_ms p a = Some (l, h') -> stream_of h' c' = stream_of h c' ++ sent c' l.
Proof.
  destruct a as [|t|t|ty t d|t]; cbn [perform]; unfold sendMessage, sendSnapshot.
  - intros [= <- <-]. by rewrite app_nil_r.
  - intros [= <- <-]. rewrite app_nil_r. by rewrite stream_of_upd.
  - intros [= <- <-]. rewrite app_nil_r. rewrite stream_of_upd by done. unfold stream_of, Unsubscribe.
    by destruct (hSubs h !! t).
  - apply deliver_stream.
  - destruct p as [sp|]; [|intros [= <- <-]; by rewrite app_nil_r].
    destruct (snapshot_data _ _ _ _) as [[d|]|]; [apply deliver_stream| |done].
    intros [= <- <-]. by rewrite app_nil_r.
Qed.

Lemma cast_end_conns h g : hConns (cast_end h g).2 = hConns h /\ forall c, sent c (cast_end h g).1 = [].
Proof. by destruct g. Qed.

(** A step appends to the stream of each client what its label says. *)
Lemma step_stream h l h' c : hub_inv h -> hub_step h (Some (l, h')) -> stream_of h' c = stream_of h c ++ sent c l.
Proof.
  intros Hi. remember (Some (l, h')) as r eqn:Er. destruct 1; simplify_eq/=;
    try (rewrite app_nil_r; first [done | by apply stream_of_upd]).
  - unfold stream_of. cbn. destruct (decide (c = c0)) as [->|]; [|by rewrite lookup_insert_ne, app_nil_r by congruence].
    by rewrite lookup_insert_eq, H2.
  - apply (deliver_stream _ _ _ _ _ _ c) in Er as ->. f_equal.
    destruct (stage_of_Some _ _ _ H2) as (cl & Hc & Hs). rewrite stream_of_upd; [by apply stream_of_upd|].
    rewrite conns_upd, decide_True, Hc by done. intros ? [= <-]. unfold stream, in_hand. cbn.
    destruct (clWriter cl) eqn:E; [done..| | |]; destruct (ci_off _ (hi_client _ Hi _ _ Hc)); rewrite ?E, ?Hs in *; done.
  - apply (perform_stream _ _ _ _ _ _ _ _ c) in Er as ->. by rewrite stream_of_upd.
  - revert Er. unfold run_unregister. repeat split_match; cbn; intros; simplify_eq; rewrite app_nil_r;
      [rewrite stream_of_upd by done|]; by apply (stream_of_upd h).
  - rewrite app_nil_r. unfold stream_of, flushOrderbookDeltas. by destruct (hPending h).
  - unfold cast_lookup in Er. case_bool_decide; simplify_eq; [|destruct g; cbn; by rewrite app_nil_r].
    destruct (cast_end_conns h g) as [E1 E2]. rewrite Er in *. cbn in *. unfold stream_of. by rewrite E1, E2, app_nil_r.
  - injection Er as <- <-. destruct g; cbn; by rewrite app_nil_r.
  - apply (deliver_stream _ _ _ _ _ _ c) in Er as ->. by destruct g.
  - destruct (cast_end_conns h g) as [E1 E2]. rewrite Er in *. cbn in *. unfold stream_of. by rewrite E1, E2, app_nil_r.
  - rewrite app_nil_r. apply stream_of_upd. intros cl0 ?. simplify_eq. by apply write_next_stream.
  - rewrite app_nil_r. apply stream_of_upd. intros cl0 ?. apply write_fail_stream.
  - revert Er. unfold BroadcastOrderbookDelta. case_bool_decide; intros; simplify_eq; by rewrite app_nil_r.
  - revert Er. unfold BroadcastTrade. case_bool_decide; intros; simplify_eq; by rewrite app_nil_r.
  - revert Er. unfold BroadcastOrder. case_bool_decide; intros; simplify_eq; by rewrite app_nil_r.
Qed.

(** In every interleaving, what a client's connection has been given in
    frames, followed by the frame in the writer's hand and the buffer, is exactly the
    sequence of messages its buffer took, in that order: once taken, a message
    is never lost inside the program, repeated or overtaken. *)
Theorem client_stream_in_order tr h c cl :
  hub_run NewHub tr h -> hConns h !! c = Some cl ->
  concat (clFrames cl) ++ in_hand cl ++ clSend cl = tr ≫= sent c.
Proof.
  intros Hrun Hc. assert (forall c, stream_of h c = tr ≫= sent c) as Hs.
  { clear Hc. induction Hrun as [|tr l h1 h2 Hr IH Hs]; intros c'; [done|].
    rewrite (step_stream _ _ _ _ (hub_run_inv _ _ _ Hr NewHub_inv) Hs), IH, bind_app. cbn. by rewrite app_nil_r. }
  specialize (Hs c). unfold stream_of in Hs. by rewrite Hc in Hs.
Qed.

(** ** Broadcasts *)

(** What the broadcast of goroutine [g] still owes, and what a label shows of it. *)
Definition due (g : sender) (h : Hub) : list (nat * Message) :=
  match cast_of h g with Some (BSend todo m) => (fun c => (c, m)) <$> elements todo | _ => [] end.












(** ** Batching *)

Definition accepted (l : label) : list OrderbookDeltaMessage := match l with LAccept d => [d] | _ => [] end.
Definition given (l : label) : list OrderbookDeltaMessage := match l with LBatch ds => ds | _ => [] end.

Definition message_of (b : bcast) : Message := match b with BLookup _ m | BLock _ m | BSend _ m => m end.

(** The flush in progress carries the pending deltas. *)
Definition flush_inv (h : Hub) : Prop := forall b, hFlush h = Some b -> mgData (message_of b) = DDeltas (hPending h).

Lemma deliver_batch h g c m l h' :
  deliver h g c m = Some (l, h') ->
  hPending h' = hPending h /\ hDeltaCh h' = hDeltaCh h /\ hFlush h' = hFlush h /\ accepted l = [] /\ given l = [].
Proof. unfold deliver. repeat split_match; intros; by simplify_eq. Qed.

Lemma perform_batch h c now now_ms p a l h' :
  perform h c now now_ms p a = Some (l, h') ->
  hPending h' = hPending h /\ hDeltaCh h' = hDeltaCh h /\ hFlush h' = hFlush h /\ accepted l = [] /\ given l = [].
Proof.
  destruct a as [|t|t|ty t d|t]; cbn [perform]; [by intros [= <- <-]..| | |].
  - intros [= <- <-]. unfold Unsubscribe. by destruct (hSubs h !! t).
  - apply deliver_batch.
  - unfold sendSnapshot. destruct p as [sp|]; [|by intros [= <- <-]].
    destruct (snapshot_data _ _ _ _) as [[d|]|]; [apply deliver_batch|by intros [= <- <-]|done].
Qed.

Lemma step_batch h l h' :
  hub_step h (Some (l, h')) -> flush_inv h ->
  flush_inv h' /\ given l ++ hPending h' ++ hDeltaCh h' = hPending h ++ hDeltaCh h ++ accepted l.
Proof.
  unfold flush_inv. remember (Some (l, h')) as r eqn:Er. destruct 1; simplify_eq/=; intros Hf;
    try (by rewrite app_nil_r).
  - destruct (deliver_batch _ _ _ _ _ _ Er) as (-> & -> & -> & -> & ->). cbn. by rewrite app_nil_r.
  - destruct (perform_batch _ _ _ _ _ _ _ _ Er) as (-> & -> & -> & -> & ->). cbn. by rewrite app_nil_r.
  - revert Er. unfold run_unregister. repeat split_match; cbn; intros; simplify_eq; cbn; by rewrite app_nil_r.
  - rewrite H3, <- app_assoc, app_nil_r. split; [by intros b; rewrite H4|done].
  - unfold flushOrderbookDeltas. destruct (hPending h) eqn:E; cbn; rewrite app_nil_r; [done|].
    split; [by intros ? [= <-]|done].
  - revert Er. unfold cast_lookup. case_bool_decide; destruct g; cbn; intros; simplify_eq; cbn in *;
      (split; [first [exact Hf | done | intros ? [= <-]; by apply (Hf _ H2)]|by rewrite ?app_nil_r]).
  - injection Er as <- <-. destruct g; cbn in *; rewrite ?app_nil_r; try done.
    split; [|done]. intros ? [= <-]. by apply (Hf _ H2).
  - destruct (deliver_batch _ _ _ _ _ _ Er) as (-> & -> & -> & -> & ->).
    destruct g; cbn in *; rewrite ?app_nil_r; try done. split; [|done]. intros ? [= <-]. by apply (Hf _ H2).
  - destruct g; cbn in *; simplify_eq; cbn; by rewrite ?app_nil_r.
  - revert Er. unfold BroadcastOrderbookDelta. case_bool_decide; intros; simplify_eq; cbn; rewrite ?app_nil_r; try done.
  - revert Er. unfold BroadcastTrade. case_bool_decide; intros; simplify_eq; cbn; by rewrite app_nil_r.
  - revert Er. unfold BroadcastOrder. case_bool_decide; intros; simplify_eq; cbn; by rewrite app_nil_r.
Qed.

(** C17: every delta the channel accepts is given out in exactly one batch, in
    the order of acceptance, unless it still waits in the batch or the channel; a
    flush in progress carries exactly the waiting batch. *)
Theorem delta_batches tr h :
  hub_run NewHub tr h ->
  tr ≫= accepted = (tr ≫= given) ++ hPending h ++ hDeltaCh h /\
  (forall b, hFlush h = Some b -> mgData (message_of b) = DDeltas (hPending h)).
Proof.
  induction 1 as [|tr l h1 h2 _ [IH Hf] Hs]; [done|]. destruct (step_batch _ _ _ Hs Hf) as [? E].
  split; [|done]. rewrite !bind_app. cbn. rewrite !app_nil_r, <- app_assoc, E, IH. by rewrite <- !app_assoc.
Qed.
End hub_theorems.

(** ** A run *)

Section demo.
Context `{DecimalPkg, UuidPkg, BTreePkg}.
Variable delta : OrderbookDeltaMessage.

Definition subscribe_deltas : ClientMessage := mkClientMessage "subscribe" TopicOrderbookDeltas.
Definition batch : Message := mkMessage "orderbook_delta_batch" TopicOrderbookDeltas 9 (DDeltas [delta]).

(** Runs from the front, each new state in normal form. *)
Lemma hub_run_cons (h : Hub) r l h1 tr h2 :
  hub_step h r -> r = Some (l, h1) -> hub_run h1 tr h2 -> hub_run h (l :: tr) h2.
Proof.
  intros Hs ->. induction 1 as [|tr l' h2 h3 _ IH Hs'].
  - apply (hr_snoc h [] l h); [constructor|done].
  - by apply (hr_snoc h (l :: tr) l' h2).
Qed.
Ltac walk s := eapply hub_run_cons; [apply s; vm_compute; reflexivity | vm_compute; reflexivity |].

(** A client connects, is registered and greeted and subscribes to the deltas;
    one delta is batched and its flush is about to send. *)
Lemma demo_prefix : exists tr h,
  hub_run NewHub tr h /\ due GTimer h = [(0, batch)] /\ hPending h = [delta] /\
  exists h', hub_run h [LSend GTimer 0 batch true] h'.
Proof.
  eexists _, _. split; [|split; [|split]].
  - walk (hs_connect NewHub 0 "a").
    walk (fun h => hs_register h 0).
    walk (fun h => hs_insert h 0).
    walk (fun h => hs_active h 0 1).
    walk (fun h => hs_welcome h 0 1).
    eapply hub_run_cons; [eapply (hs_message _ 0 _ (Some subscribe_deltas)); vm_compute; reflexivity|vm_compute; reflexivity|].
    do 2 (eapply hub_run_cons; [eapply (hs_perform _ 0 _ _ _ 2 2 None); [..|intros _]; vm_compute; reflexivity|vm_compute; reflexivity|]).
    eapply hub_run_cons; [apply (hs_broadcast_delta _ delta)|vm_compute; reflexivity|].
    eapply hub_run_cons; [eapply hs_delta; vm_compute; reflexivity|vm_compute; reflexivity|].
    walk (fun h => hs_flush h 9).
    eapply hub_run_cons; [eapply (hs_lookup _ GTimer); vm_compute; reflexivity|vm_compute; reflexivity|].
    eapply hub_run_cons; [eapply (hs_lock _ GTimer); vm_compute; reflexivity|vm_compute; reflexivity|].
    apply hr_nil.
  - vm_compute. reflexivity.
  - vm_compute. reflexivity.
  - eexists. eapply hub_run_cons; [eapply (hs_send _ GTimer _ 0); vm_compute; reflexivity|vm_compute; reflexivity|].
    apply hr_nil.
Qed.

(** A client has connected and been greeted. *)
Lemma demo_greeted : exists tr h,
  hub_run NewHub tr h /\ length (tr ≫= sent 0) = 1 /\ exists cl, hConns h !! 0 = Some cl.
Proof.
  eexists _, _. split; [|split].
  - walk (hs_connect NewHub 0 "a"). walk (fun h => hs_register h 0). walk (fun h => hs_welcome h 0 1). apply hr_nil.
  - vm_compute. reflexivity.
  - eexists. vm_compute. reflexivity.
Qed.
End demo.

Module HubInstances.
Import Concrete.

Definition delta0 : @OrderbookDeltaMessage q_decimal := mkOrderbookDeltaMessage "BTC-USD" "buy" (100 : Q) (5 : Q) 7.

Lemma hub_never_panics_witness : exists tr (h : @Hub q_decimal),
  hub_run NewHub tr h /\ hPending h = [delta0] /\ (forall r, hub_step h r -> r <> None) /\ hTimer h = true.
Proof.
  destruct (demo_prefix delta0) as (tr & h & Hr & _ & Hp & _). exists tr, h.
  destruct (hub_never_panics tr h Hr) as (Hs & _ & Ht & _). split_and!; [done..|]. apply Ht. by rewrite Hp.
Defined.

Lemma client_stream_in_order_witness : exists tr (h : @Hub q_decimal) cl,
  hub_run NewHub tr h /\ hConns h !! 0 = Some cl /\ length (concat (clFrames cl) ++ in_hand cl ++ clSend cl) = 1.
Proof.
  destruct demo_greeted as (tr & h & Hr & Hl & cl & Hc). exists tr, h, cl. split_and!; [done..|].
  by rewrite (client_stream_in_order tr h 0 cl Hr Hc).
Defined.


Lemma delta_batches_witness : exists tr (h : @Hub q_decimal),
  hub_run NewHub tr h /\ hPending h = [delta0] /\ tr ≫= accepted = (tr ≫= given) ++ [delta0] ++ hDeltaCh h.
Proof.
  destruct (demo_prefix delta0) as (tr & h & Hr & _ & Hp & _). exists tr, h. split_and!; [done..|].
  rewrite <- Hp. apply (delta_batches tr h Hr).
Defined.
End HubInstances.
