(* ===== verification/Engine.v ===== *)
(** * The engine's worker and its clients (src/engine/matching_engine.go)

    [processCommand] and the calls that reach it.  A client call is two atomic
    parts: posting the command on the buffered channel, and waiting for the
    response; the worker runs between them.  [world] adds to the engine what
    the runtime keeps: the worker goroutine, the context and the callers
    blocked in [Stop].  [step] is one atomic action of any goroutine; a client may
    also read the clock or draw an identifier. *)

From S2P Require Import Prelude.
From S2P Require Import External.
From S2P Require Import Models.
From S2P Require Import OrderBook.
From S2P Require Import Events.
From S2P Require Import Matching.

Section engine.
Context `{DecimalPkg, UuidPkg, !EnvPkg, BTreePkg}.

(** ** Settings *)

Definition EnableDebugMode (me : MatchingEngine) (enable : bool) : MatchingEngine := set_debugMode me enable.
Definition IsDebugMode (me : MatchingEngine) : bool := debugMode me.
Definition GetTradeDebugInfo (me : MatchingEngine) : list TradeDebugInfo := tradeDebugInfo me.
Definition ClearTradeDebugInfo (me : MatchingEngine) : MatchingEngine := set_tradeDebugInfo me [].
Definition SetTradeHandler (me : MatchingEngine) (handler : bool) : MatchingEngine := set_tradeHandler me handler.
Definition SetWebSocketHandlers (me : MatchingEngine) (trade orderbook orderUpdate : bool) : MatchingEngine :=
  set_wsOrderUpdateHandler (set_wsOrderbookHandler (set_wsTradeHandler me trade) orderbook) orderUpdate.
Definition SubscribeToEvents (me : MatchingEngine) (eventType : string) (listener : EventListener) : MatchingEngine :=
  set_eventBus me (Subscribe (eventBus me) eventType listener).
Definition IsRunning (me : MatchingEngine) : bool := isRunning me.

(** ** Processing a command *)

(** The counters are [uint64]: they wrap around. *)
Definition uint64 (z : Z) : Z := (z mod 2 ^ 64)%Z.

Definition send_response (me : MatchingEngine) (cmd : OrderCommand) (response : CommandResponse) : MatchingEngine :=
  match cmdResponse cmd with
  | None => me
  | Some ch => emit me [SendResponse ch response]
  end.

Definition process_cancel (me : MatchingEngine) (id : uuid) : CommandResponse * MatchingEngine :=
  let '(cancelledOrder, s, ob) := CancelOrder (heap me) (orderBook me) id in
  let me1 := set_book me s ob in
  match cancelledOrder with
  | None => (mkCommandResponse [] (Some (ErrOrderNotFound id)) None, me1)
  | Some r =>
      let o := order_at me1 r in
      let me2 := publishOrderbookChange me1 (event_side o) "remove" (oPrice o) decimal_Zero (RemainingQuantity o) in
      (mkCommandResponse [] None (Some r), me2)
  end.

Definition processCommand (fuel : nat) (me : MatchingEngine) (cmd : OrderCommand) : option MatchingEngine :=
  let me1 := set_commandsProcessed me (uint64 (commandsProcessed me + 1)) in
  '(response, me2) ←
    (if bool_decide (cmdType cmd = "NEW") then
       '(trades, me2) ← matchOrder fuel me1 (cmdOrder cmd);
       Some (mkCommandResponse trades None (Some (cmdOrder cmd)), me2)
     else if bool_decide (cmdType cmd = "CANCEL") then Some (process_cancel me1 (cmdOrderID cmd))
     else Some (mkCommandResponse [] (Some (ErrUnknownCommand (cmdType cmd))) None, me1));
  Some (send_response me2 cmd response).

(** ** Posting a command *)

Definition commandCap : nat := 1000.

(** The select with a default: the send happens exactly when the buffer has
    room. *)
Definition post (me : MatchingEngine) (cmd : OrderCommand) (ch : nat) : (EngineError + nat) * MatchingEngine :=
  if bool_decide (length (commandChan me) < commandCap)
  then (inr ch, set_commandChan me (commandChan me ++ [cmd]))
  else (inl ErrChannelFull, set_channelBlocks me (uint64 (channelBlocks me + 1))).

(** [make(chan *CommandResponse, 1)]. *)
Definition make_chan (me : MatchingEngine) : nat * MatchingEngine :=
  let '(ch, s) := alloc (heap me) in (ch, set_heap me s).

(** [SubmitOrder] up to the receive from the response channel. *)
Definition SubmitOrder (me : MatchingEngine) (order : oref) : (EngineError + nat) * MatchingEngine :=
  if negb (isRunning me) then (inl ErrNotRunning, me)
  else
    let '(ch, me1) := make_chan me in
    let cmd := mkOrderCommand "NEW" order uuid_Nil (Some ch) in
    let me2 := if bool_decide (commandCap - 10 <= length (commandChan me1))
               then set_channelBlocks me1 (uint64 (channelBlocks me1 + 1)) else me1 in
    post me2 cmd ch.

(** [CancelOrder] up to the receive; the [Order] field is nil. *)
Definition engine_CancelOrder (me : MatchingEngine) (orderID : uuid) : (EngineError + nat) * MatchingEngine :=
  if negb (isRunning me) then (inl ErrNotRunning, me)
  else
    let '(ch, me1) := make_chan me in
    post me1 (mkOrderCommand "CANCEL" 0 orderID (Some ch)) ch.

(** The value a caller waiting on [ch] receives, if it was sent. *)
Definition received (me : MatchingEngine) (ch : nat) : option CommandResponse :=
  head (omap (fun fx => match fx with
                        | SendResponse ch' r => if bool_decide (ch' = ch) then Some r else None
                        | _ => None
                        end) (output me)).

(** The result both calls return once the response has arrived:
    [return response, response.Error]. *)
Definition call_result (r : CommandResponse) : CommandResponse * option EngineError := (r, crError r).

(** ** Statistics *)

Record Stats := mkStats {
  st_is_running : bool;
  st_total_orders : nat;
  st_command_backlog : nat;
  st_command_capacity : nat;
  st_bid_levels : nat;
  st_ask_levels : nat;
  st_commands_processed : Z;
  st_channel_blocks : Z;
  st_debug_mode : bool;
}.

Definition GetStats (me : MatchingEngine) : Stats :=
  mkStats (isRunning me) (Size (orderBook me)) (length (commandChan me)) commandCap
    (side_Len (Bids (orderBook me))) (side_Len (Asks (orderBook me)))
    (commandsProcessed me) (channelBlocks me) (debugMode me).

Inductive Diagnostic := DiagCritical | DiagWarning | DiagOK.

Record ChannelStatus := mkChannelStatus {
  cs_length : nat;
  cs_capacity : nat;
  cs_free : nat;
  cs_is_full : bool;
  cs_is_near_full : bool;
  cs_worker_running : bool;
  cs_commands_processed : Z;
  cs_channel_blocks : Z;
  cs_diagnostic : Diagnostic;
}.

Definition InspectChannelStatus (me : MatchingEngine) : ChannelStatus :=
  let len := length (commandChan me) in
  mkChannelStatus len commandCap (commandCap - len)
    (bool_decide (commandCap <= len)) (bool_decide (commandCap - 10 <= len))
    (isRunning me) (commandsProcessed me) (channelBlocks me)
    (if bool_decide (commandCap <= len) then DiagCritical
     else if bool_decide (commandCap - 10 <= len) then DiagWarning else DiagOK).

(** ** The goroutines *)

Inductive Worker := WorkerNone | WorkerSelect | WorkerDraining.

Record world := mkWorld {
  eng : MatchingEngine;
  worker : Worker;
  ctxDone : bool;
  stopping : bool;     (** a caller of [Stop] is in [wg.Wait] *)
  panicked : bool;     (** [close] of a closed channel *)
  accepted : list nat; (** response channels of the commands posted so far *)
}.

Definition set_eng (w : world) (me : MatchingEngine) : world :=
  mkWorld me (worker w) (ctxDone w) (stopping w) (panicked w) (accepted w).
Definition set_worker (w : world) (k : Worker) : world :=
  mkWorld (eng w) k (ctxDone w) (stopping w) (panicked w) (accepted w).

(** [Start]: the flag is set and the worker goroutine is created. *)
Definition Start (w : world) : option EngineError * world :=
  if isRunning (eng w) then (Some ErrAlreadyRunning, w)
  else (None, mkWorld (set_isRunning (eng w) true) WorkerSelect (ctxDone w) (stopping w) (panicked w) (accepted w)).

(** [Stop] up to [wg.Wait]: closing a closed channel panics. *)
Definition Stop_begin (w : world) : option EngineError * world :=
  if negb (isRunning (eng w)) then (Some ErrNotRunning, w)
  else if stopChanClosed (eng w) then
    (None, mkWorld (eng w) (worker w) (ctxDone w) (stopping w) true (accepted w))
  else (None, mkWorld (set_stopChanClosed (eng w) true) (worker w) (ctxDone w) true (panicked w) (accepted w)).

(** [Stop] after [wg.Wait] returned. *)
Definition Stop_end (w : world) : world :=
  mkWorld (set_isRunning (eng w) false) (worker w) (ctxDone w) false (panicked w) (accepted w).

(** A posted command is remembered with its channel. *)
Definition posted (w : world) (r : (EngineError + nat) * MatchingEngine) : world :=
  match r with
  | (inl _, me) => set_eng w me
  | (inr ch, me) => mkWorld me (worker w) (ctxDone w) (stopping w) (panicked w) (accepted w ++ [ch])
  end.

(** The orders of the commands that wait in the channel. *)
Definition pending (me : MatchingEngine) : list oref :=
  omap (fun c => if bool_decide (cmdType c = "NEW") then Some (cmdOrder c) else None) (commandChan me).

(** A client submits a new order: it has just been allocated, with an
    identifier that no resting and no waiting order has ([uuid.New]). *)
Definition fresh_id (me : MatchingEngine) (id : uuid) : Prop :=
  obOrders (orderBook me) !! uuid_String id = None /\
  forall r, r ∈ pending me -> oID (order_at me r) <> id.

Definition submit_new (w : world) (o : Order) : world :=
  let '(r, s) := alloc_order (heap (eng w)) o in
  posted w (SubmitOrder (set_heap (eng w) s) r).

(** What the settings calls change. *)
Inductive Setting :=
  | SetDebug (enable : bool)
  | SetClearDebug
  | SetTrade (handler : bool)
  | SetWs (trade orderbook orderUpdate : bool)
  | SetSubscribe (eventType : string) (listener : EventListener).

Definition apply_setting (me : MatchingEngine) (c : Setting) : MatchingEngine :=
  match c with
  | SetDebug b => EnableDebugMode me b
  | SetClearDebug => ClearTradeDebugInfo me
  | SetTrade b => SetTradeHandler me b
  | SetWs t o u => SetWebSocketHandlers me t o u
  | SetSubscribe t l => SubscribeToEvents me t l
  end.

(** One command taken from the channel and processed. *)
Definition takes (me : MatchingEngine) (me' : MatchingEngine) : Prop :=
  exists cmd rest fuel, commandChan me = cmd :: rest /\
    processCommand fuel (set_commandChan me rest) cmd = Some me'.

Inductive step : world -> world -> Prop :=
  | step_start w : panicked w = false -> step w (Start w).2
  | step_stop w : panicked w = false -> step w (Stop_begin w).2
  | step_stopped w : panicked w = false -> stopping w = true -> worker w = WorkerNone -> step w (Stop_end w)
  | step_cancel_ctx w : panicked w = false ->
      step w (mkWorld (eng w) (worker w) true (stopping w) (panicked w) (accepted w))
  | step_submit w o : panicked w = false ->
      fresh_id (eng w) (oID o) -> oFilledQuantity o = decimal_Zero -> step w (submit_new w o)
  | step_cancel w id : panicked w = false -> step w (posted w (engine_CancelOrder (eng w) id))
  | step_setting w c : panicked w = false -> step w (set_eng w (apply_setting (eng w) c))
  | step_select_ctx w : panicked w = false -> worker w = WorkerSelect -> ctxDone w = true ->
      step w (set_worker w WorkerDraining)
  | step_select_stop w : panicked w = false -> worker w = WorkerSelect -> stopChanClosed (eng w) = true ->
      step w (set_worker w WorkerDraining)
  | step_select_command w me' : panicked w = false -> worker w = WorkerSelect -> takes (eng w) me' ->
      step w (set_eng w me')
  | step_drain w me' : panicked w = false -> worker w = WorkerDraining -> takes (eng w) me' ->
      step w (set_eng w me')
  | step_drained w : panicked w = false -> worker w = WorkerDraining -> commandChan (eng w) = [] ->
      step w (set_worker w WorkerNone)
  | step_clock w : panicked w = false ->
      step w (set_eng w (set_heap (eng w) (read_clock (heap (eng w))).2))
  | step_uuid w : panicked w = false ->
      step w (set_eng w (set_heap (eng w) (draw_uuid (heap (eng w))).2)).

Definition init_world (s : Store) (instrument : string) : world :=
  mkWorld (NewMatchingEngine s instrument) WorkerNone false false false [].

Inductive reachable (s : Store) (instrument : string) : world -> Prop :=
  | reach_init : reachable s instrument (init_world s instrument)
  | reach_step w w' : reachable s instrument w -> step w w' -> reachable s instrument w'.
End engine.
