(* ===== verification/EngineFacts.v ===== *)
(** * The engine keeps its invariant

    [world_inv] holds in every reachable world: the book is sound, the orders
    that wait in the channel can be submitted, and the responses sent so far
    and the commands that wait are, in this order, the commands accepted. *)

From S2P Require Import Prelude.
From S2P Require Import External.
From S2P Require Import Models.
From S2P Require Import OrderBook.
From S2P Require Import OrderBookFacts.
From S2P Require Import Events.
From S2P Require Import Matching.
From S2P Require Import MatchingFacts.
From S2P Require Import MatchingLoops.
From S2P Require Import MatchingSpec.
From S2P Require Import MatchingProps.
From S2P Require Import OrderBookTheorems.
From S2P Require Import Engine.

(** ** More fuel gives the same result *)

Section fuel.
Context `{DecimalPkg, UuidPkg, !EnvPkg, BTreePkg}.

Lemma level_loop_mono f : forall g me a pl el i ts x,
  level_loop f me a pl el i ts = Some x -> f <= g -> level_loop g me a pl el i ts = Some x.
Proof.
  induction f as [|f IH]; intros g me a pl el i ts x Hx Hfg; destruct el as [e|]; cbn in Hx.
  - destruct (decimal_GreaterThan _ _) eqn:Hg; [done|]. destruct g; cbn; by rewrite Hg.
  - by destruct g.
  - destruct (decimal_GreaterThan _ _) eqn:Hg; destruct g as [|g]; try lia; cbn; rewrite Hg; [|done].
    destruct (execute_fill _ _ _ _ _) as [t me1]. apply IH; [done|lia].
  - by destruct g.
Qed.

Lemma matchMarketOrder_mono f : forall g me a ts x,
  matchMarketOrder f me a ts = Some x -> f <= g -> matchMarketOrder g me a ts = Some x.
Proof.
  induction f as [|f IH]; intros g me a ts x Hx Hfg; cbn in Hx.
  - destruct (decimal_GreaterThan (RemainingQuantity _) _) eqn:Hg; [|by destruct g; cbn; rewrite Hg].
    destruct (best_opposing me a) eqn:Hb; [done|]. destruct g; cbn; by rewrite Hg, Hb.
  - destruct g as [|g]; [lia|]. cbn. destruct (decimal_GreaterThan (RemainingQuantity _) _); [|done].
    destruct (best_opposing me a) as [lp|]; [|done].
    destruct (matchAgainstPriceLevel f me a (lpRef lp)) as [[ts1 me1]|] eqn:Hm; [|done].
    assert (matchAgainstPriceLevel g me a (lpRef lp) = Some (ts1, me1)) as ->
      by (eapply level_loop_mono; [exact Hm|lia]).
    cbn in *. destruct (IsFilled _); [done|]. apply IH; [done|lia].
Qed.

Lemma matchLimitOrder_mono f : forall g me a ts x,
  matchLimitOrder f me a ts = Some x -> f <= g -> matchLimitOrder g me a ts = Some x.
Proof.
  induction f as [|f IH]; intros g me a ts x Hx Hfg; cbn in Hx.
  - destruct (decimal_GreaterThan (RemainingQuantity _) _) eqn:Hg; [|by destruct g; cbn; rewrite Hg].
    destruct (best_opposing me a) as [lp|] eqn:Hb; [|by destruct g; cbn; rewrite Hg, Hb].
    destruct (canMatch me a lp) eqn:Hc; [done|]. destruct g; cbn; by rewrite Hg, Hb, Hc.
  - destruct g as [|g]; [lia|]. cbn. destruct (decimal_GreaterThan (RemainingQuantity _) _); [|done].
    destruct (best_opposing me a) as [lp|]; [|done]. destruct (canMatch me a lp); [|done].
    destruct (matchAgainstPriceLevel f me a (lpRef lp)) as [[ts1 me1]|] eqn:Hm; [|done].
    assert (matchAgainstPriceLevel g me a (lpRef lp) = Some (ts1, me1)) as ->
      by (eapply level_loop_mono; [exact Hm|lia]).
    cbn in *. destruct (IsFilled _); [done|]. apply IH; [done|lia].
Qed.

Lemma matchOrder_mono f g me a x : matchOrder f me a = Some x -> f <= g -> matchOrder g me a = Some x.
Proof.
  unfold matchOrder. intros Hx Hfg. destruct (negb _); [done|]. destruct (bool_decide _).
  - destruct (matchMarketOrder f me a []) as [[ts me1]|] eqn:Hm; [|done].
    by rewrite (matchMarketOrder_mono _ g _ _ _ _ Hm Hfg).
  - destruct (matchLimitOrder f me a []) as [[ts me1]|] eqn:Hm; [|done].
    by rewrite (matchLimitOrder_mono _ g _ _ _ _ Hm Hfg).
Qed.

Lemma processCommand_mono f g me cmd x :
  processCommand f me cmd = Some x -> f <= g -> processCommand g me cmd = Some x.
Proof.
  unfold processCommand. intros Hx Hfg. destruct (bool_decide (cmdType cmd = "NEW")); [|done].
  destruct (matchOrder f _ _) as [[ts me1]|] eqn:Hm; [|done]. by rewrite (matchOrder_mono _ g _ _ _ Hm Hfg).
Qed.
End fuel.

(** ** What a command does to the orders that wait *)

Section facts.
Context `{DecimalSpec, UuidSpec, !EnvPkg, BTreeSpec}.
Implicit Types (me : MatchingEngine) (a r : oref) (e : Element).
Local Open Scope Q_scope.

(** The effect of a command on everything but the orders [P] it is about: the
    settings and the orders off the book are the same, and only an order of
    [P] may join the book. *)
Record absorbed me (P : oref -> Prop) me' : Prop := {
  ab_inv : book_inv (heap me') (orderBook me');
  ab_config : same_config me me';
  ab_next : (next (heap me) <= next (heap me'))%nat;
  ab_other r : ~ P r -> r ∉ elem_Value <$> all_elems (heap me) (orderBook me) ->
    order_at me' r = order_at me r;
  ab_ids r : oID (order_at me' r) = oID (order_at me r);
  ab_elems e : e ∈ all_elems (heap me') (orderBook me') ->
    P (elem_Value e) \/ e ∈ all_elems (heap me) (orderBook me);
}.

Lemma rest_order_config me a : ready me a -> same_config me (rest_order me a) /\
  (next (heap me) <= next (heap (rest_order me a)))%nat.
Proof.
  intros Hrd. destruct (rests (order_at me a)) eqn:Hr; [|by rewrite rest_order_skip].
  destruct (rest_order_add me a Hrd Hr) as (s1 & ob1 & l1 & l2 & e & Hadd & Hn). split.
  - etransitivity; [|apply (nt_config _ _ Hn)]. constructor; try done. exists []. by rewrite app_nil_r.
  - rewrite (sd_next _ _ (nt_data _ _ Hn)). apply (ad_next _ _ _ _ _ _ _ _ _ Hadd).
Qed.

Lemma closed_config me a : same_config me (closed me a) /\ next (heap (closed me a)) = next (heap me).
Proof.
  unfold closed. case_bool_decide; [|done]. unfold market_close. case_match; [|done].
  split; [|done]. constructor; try done. exists []. by rewrite app_nil_r.
Qed.

Lemma matched_elems me a ts me1 me' e :
  ready me a -> matched me a (order_at me a) ts me1 me' ->
  e ∈ all_elems (heap me') (orderBook me') -> elem_Value e = a \/ e ∈ all_elems (heap me) (orderBook me).
Proof.
  intros Hrd Hm. rewrite !elem_of_all_elems. intros [b He]. fold (queue me' b) in He.
  destruct (decide (b = opposing (order_at me a))) as [->|Hb].
  - right. exists (opposing (order_at me a)). rewrite (matched_queue _ _ _ _ _ Hrd Hm) in He.
    destruct (fills_suffix _ _ _ _ _ _ (mt_fills _ _ _ _ _ _ Hm) Hrd) as [es Hes].
    change (e ∈ queue me (opposing (order_at me a))). rewrite Hes. set_solver.
  - assert (b = is_buy (order_at me a)) as ->
      by (unfold opposing in Hb; destruct b, (is_buy (order_at me a)); done).
    pose proof (matched_own_side _ _ _ _ _ Hrd Hm) as Hown. cbn zeta in Hown. case_match.
    + destruct Hown as (l1 & l2 & e0 & Hold & Hnew & Hv & _). rewrite Hnew in He.
      assert (e = e0 \/ e ∈ l1 ++ l2) as [->|He'] by set_solver; [by left|].
      right. exists (is_buy (order_at me a)). fold (queue me (is_buy (order_at me a))). by rewrite Hold.
    + right. exists (is_buy (order_at me a)). rewrite Hown in He. done.
Qed.

Lemma matchOrder_absorbed fuel me a ts me' :
  book_inv (heap me) (orderBook me) -> submittable me a ->
  matchOrder fuel me a = Some (ts, me') -> absorbed me (fun r => r = a) me'.
Proof.
  intros Hinv Hsub Hrun.
  apply (matchOrder_mono _ (fuel + enough_fuel me)) in Hrun; [|lia].
  destruct (IsValid (order_at me a)) eqn:Hval.
  - assert (valid_order (order_at me a)) as Hv by (by destruct (IsValid_spec (order_at me a))).
    assert (ready me a) as Hrd by (by apply ready_intro).
    destruct (matchOrder_run (fuel + enough_fuel me) me a Hrd Hval) as (ts2 & me1 & me2 & Hrun2 & Hm); [lia|].
    rewrite Hrun in Hrun2. simplify_eq. pose proof (mt_fills _ _ _ _ _ _ Hm) as Hf.
    pose proof (closed_ready _ _ (fills_ready _ _ _ _ _ _ Hf Hrd)) as Hrd1.
    destruct (fills_config _ _ _ _ _ _ Hf) as (Hc1 & Hn1 & _). destruct (closed_config me1 a) as [Hc2 Hn2].
    destruct (rest_order_config _ _ Hrd1) as [Hc3 Hn3]. pose proof (mt_notified _ _ _ _ _ _ Hm) as Hn.
    split.
    + exact (matched_inv _ _ _ _ _ Hrd (bi_uncrossed _ _ Hinv) Hm).
    + do 3 (etransitivity; [eassumption|]). apply (nt_config _ _ Hn).
    + rewrite (sd_next _ _ (nt_data _ _ Hn)). lia.
    + intros r Hr Hnew. rewrite (matched_order _ _ _ _ _ _ Hrd Hm), closed_other by done.
      apply (fills_untouched _ _ _ _ _ _ _ Hf Hrd); [done|].
      intros (e & -> & He)%list_elem_of_fmap. apply Hnew, list_elem_of_fmap_2. by eapply queue_all.
    + intros r. rewrite (matched_order _ _ _ _ _ _ Hrd Hm).
      rewrite <- (st_ID _ _ (fills_terms _ _ _ _ _ _ r Hf)).
      destruct (decide (r = a)) as [->|Hr]; [apply (st_ID _ _ (closed_market_terms me1 a))|by rewrite closed_other].
    + intros e. by eapply matched_elems.
  - unfold matchOrder in Hrun. rewrite Hval in Hrun. cbn in Hrun. simplify_eq. split.
    + apply book_inv_set_other; [done|apply Hsub].
    + constructor; try done. exists []. by rewrite app_nil_r.
    + done.
    + intros r Hr _. rewrite order_at_assign. by rewrite decide_False.
    + intros r. rewrite order_at_assign. by case_decide; subst.
    + by right.
Qed.

Lemma process_cancel_absorbed me P id :
  book_inv (heap me) (orderBook me) -> absorbed me P (process_cancel me id).2.
Proof.
  intros Hinv. unfold process_cancel.
  destruct (obOrders (orderBook me) !! uuid_String id) as [loc|] eqn:Hloc.
  - destruct (bw_loc _ _ _ _ (bi_wf _ _ Hinv) Hloc) as (lp & _ & _ & _ & _ & He).
    destruct (CancelOrder_found _ _ id loc (bi_wf _ _ Hinv) Hloc) as (s1 & ob1 & Hc & Hrm). rewrite Hc.
    set (r := elem_Value (locElement loc)) in *. set (me1 := set_book me _ _).
    assert (book_inv (heap me1) (orderBook me1)) as Hinv1.
    { pose proof (CancelOrder_inv (heap me) (orderBook me) id Hinv) as Hi. by rewrite Hc in Hi. }
    assert (same_config me me1) as Hcfg by (constructor; try done; exists []; by rewrite app_nil_r).
    assert (forall r', order_at me1 r' = if decide (r = r') then set_oStatus (order_at me r) OrderStatusCancelled
              else order_at me r') as Hord.
    { intros r'. unfold order_at, me1. cbn [heap set_book set_orderBook set_heap]. rewrite get_order_set.
      case_decide; [done|]. unfold get_order. by rewrite (rm_orders _ _ _ _ _ Hrm). }
    assert (forall e, e ∈ all_elems (heap me1) (orderBook me1) -> e ∈ all_elems (heap me) (orderBook me)) as Hsub.
    { intros e. change (all_elems (heap me1) (orderBook me1)) with (all_elems s1 ob1).
      rewrite (removed_elems _ _ _ _ _ Hrm), list_elem_of_filter. tauto. }
    assert (next (heap me1) = next (heap me)) as Hnext by apply (rm_next _ _ _ _ _ Hrm).
    match goal with |- absorbed _ _ (_, ?m).2 => change (absorbed me P m) end.
    match goal with |- absorbed _ _ (publishOrderbookChange ?m ?x ?y ?z ?u ?v) =>
      pose proof (publishOrderbookChange_notified m x y z u v) as Hn; set (me2 := publishOrderbookChange m x y z u v) in * end.
    destruct (same_data_get _ _ (nt_data _ _ Hn)) as [Hgo _]. split.
    + rewrite (nt_book _ _ Hn). eapply book_inv_same_data; [apply (nt_data _ _ Hn)|done].
    + etransitivity; [done|apply (nt_config _ _ Hn)].
    + rewrite (sd_next _ _ (nt_data _ _ Hn)). lia.
    + intros r' _ Hnew. unfold order_at at 1. rewrite Hgo. change (get_order (heap me1) r') with (order_at me1 r').
      rewrite Hord, decide_False; [done|]. intros <-. apply Hnew. by apply list_elem_of_fmap_2.
    + intros r'. unfold order_at at 1. rewrite Hgo. change (get_order (heap me1) r') with (order_at me1 r').
      rewrite Hord. by case_decide; subst.
    + intros e. rewrite (nt_book _ _ Hn), (same_data_all _ _ _ (nt_data _ _ Hn)). intros He'. right. by apply Hsub.
  - unfold CancelOrder. rewrite Hloc. cbn [snd]. split; try done; [|by right].
    constructor; try done. exists []. by rewrite app_nil_r.
Qed.

(** ** A processed command *)

Definition response_chans (fx : list Effect) : list nat :=
  omap (fun x => match x with SendResponse ch _ => Some ch | _ => None end) fx.

Lemma response_chans_none fx : Forall (fun x => is_response x = false) fx -> response_chans fx = [].
Proof. induction 1 as [|x fx Hx _ IH]; [done|]. destruct x; done. Qed.

(** The order a command may add to the book. *)
Definition concerns (cmd : OrderCommand) (r : oref) : Prop := cmdType cmd = "NEW" /\ r = cmdOrder cmd.

Record processed me (cmd : OrderCommand) me' : Prop := {
  pc_inv : book_inv (heap me') (orderBook me');
  pc_chan : commandChan me' = commandChan me;
  pc_stop : stopChanClosed me' = stopChanClosed me;
  pc_running : isRunning me' = isRunning me;
  pc_next : (next (heap me) <= next (heap me'))%nat;
  pc_other r : ~ concerns cmd r -> r ∉ elem_Value <$> all_elems (heap me) (orderBook me) ->
    order_at me' r = order_at me r;
  pc_ids r : oID (order_at me' r) = oID (order_at me r);
  pc_elems e : e ∈ all_elems (heap me') (orderBook me') ->
    concerns cmd (elem_Value e) \/ e ∈ all_elems (heap me) (orderBook me);
  pc_responses : response_chans (output me') =
    response_chans (output me) ++ from_option (fun ch => [ch]) [] (cmdResponse cmd);
  pc_count : commandsProcessed me' = uint64 (commandsProcessed me + 1);
}.

Lemma absorbed_processed me cmd me2 resp :
  absorbed (set_commandsProcessed me (uint64 (commandsProcessed me + 1))) (concerns cmd) me2 ->
  processed me cmd (send_response me2 cmd resp).
Proof.
  intros [Hinv Hcfg Hnext Hother Hids Helems]. destruct (sc_output _ _ Hcfg) as (fx & Hfx & Hno).
  unfold send_response. destruct (cmdResponse cmd) as [ch|] eqn:Hch; split; try done.
  all: try apply Hcfg; cbn -[response_chans]; rewrite Hch, Hfx; cbn -[response_chans].
  all: unfold response_chans at 1; rewrite ?omap_app; fold (response_chans fx) (response_chans (output me));
    rewrite (response_chans_none fx Hno), ?app_nil_r; done.
Qed.

Lemma processCommand_processed fuel me cmd me' :
  book_inv (heap me) (orderBook me) ->
  (cmdType cmd = "NEW" -> submittable me (cmdOrder cmd)) ->
  processCommand fuel me cmd = Some me' -> processed me cmd me'.
Proof.
  intros Hinv Hsub. unfold processCommand. set (me1 := set_commandsProcessed me _).
  assert (absorbed me1 (concerns cmd) me1) as Hrefl by (split; try done; by right).
  case_bool_decide as Hnew; [|case_bool_decide as Hcan].
  - destruct (matchOrder fuel me1 (cmdOrder cmd)) as [[ts me2]|] eqn:Hm; [|done]. cbn. intros. simplify_eq.
    apply absorbed_processed.
    assert (absorbed me1 (fun r => r = cmdOrder cmd) me2) as [].
    { eapply matchOrder_absorbed; [exact Hinv| |exact Hm]. destruct (Hsub Hnew). by split. }
    split; try done; unfold concerns; naive_solver.
  - destruct (process_cancel me1 (cmdOrderID cmd)) as [resp me2] eqn:Hc. cbn. intros. simplify_eq.
    apply absorbed_processed. pose proof (process_cancel_absorbed me1 (concerns cmd) (cmdOrderID cmd) Hinv) as Hab.
    by rewrite Hc in Hab.
  - cbn. intros. simplify_eq. by apply absorbed_processed.
Qed.

(** Every command is processed: the loops end. *)
Lemma processCommand_total me cmd :
  book_inv (heap me) (orderBook me) ->
  (cmdType cmd = "NEW" -> submittable me (cmdOrder cmd)) ->
  exists fuel me', processCommand fuel me cmd = Some me'.
Proof.
  intros Hinv Hsub. exists (enough_fuel me). unfold processCommand. set (me1 := set_commandsProcessed me _).
  case_bool_decide as Hnew; [|case_bool_decide as Hcan].
  - destruct (matchOrder_inv (enough_fuel me) me1 (cmdOrder cmd)) as (ts & me2 & -> & _); [exact Hinv| |done|].
    + destruct (Hsub Hnew). by split.
    + cbn. eauto.
  - destruct (process_cancel me1 (cmdOrderID cmd)) as [resp me2]. cbn. eauto.
  - cbn. eauto.
Qed.

(** ** The invariant of the goroutines *)

Definition waiting_chans (cmds : list OrderCommand) : list nat := omap cmdResponse cmds.

Record engine_ok me (acc : list nat) : Prop := {
  eo_book : book_inv (heap me) (orderBook me);
  eo_pending r : r ∈ pending me -> submittable me r;
  eo_nodup : NoDup (pending me);
  eo_ids r r' : r ∈ pending me -> r' ∈ pending me -> oID (order_at me r) = oID (order_at me r') -> r = r';
  eo_chans : response_chans (output me) ++ waiting_chans (commandChan me) = acc;
  eo_distinct : NoDup acc;
  eo_old ch : ch ∈ acc -> (ch < next (heap me))%nat;
}.

Definition world_inv (w : world) : Prop := engine_ok (eng w) (accepted w).

(** The engine differs in its flags and settings only. *)
Lemma engine_ok_flags me me' acc :
  heap me' = heap me -> orderBook me' = orderBook me -> commandChan me' = commandChan me ->
  output me' = output me -> engine_ok me acc -> engine_ok me' acc.
Proof.
  intros Hh Hb Hc Ho [Hbook Hpend Hnd Hids Hch Hdist Hold].
  assert (pending me' = pending me) as Hp by (unfold pending; by rewrite Hc).
  assert (forall r, order_at me' r = order_at me r) as Hord by (intros; unfold order_at; by rewrite Hh).
  split.
  - by rewrite Hh, Hb.
  - rewrite Hp. intros r Hr. destruct (Hpend r Hr). split; rewrite ?Hh, ?Hb, ?Hord; done.
  - by rewrite Hp.
  - rewrite Hp. intros r r'. rewrite !Hord. apply Hids.
  - by rewrite Ho, Hc.
  - done.
  - by rewrite Hh.
Qed.

(** Growing the heap by references nobody holds. *)
Lemma book_inv_grow s s' ob :
  orders s' = orders s -> levels s' = levels s -> (next s <= next s')%nat -> book_inv s ob -> book_inv s' ob.
Proof.
  intros Ho Hl Hn [Hwf Hlive Hunc].
  assert (forall r, get_order s' r = get_order s r) as Hgo by (intros; unfold get_order; by rewrite Ho).
  assert (forall r, get_level s' r = get_level s r) as Hgl by (intros; unfold get_level; by rewrite Hl).
  assert (forall b, prio s' ob b = prio s ob b) as Hp
    by (intros; apply prio_ext; intros; unfold elems_of; by rewrite Hgl).
  split.
  - apply (book_wf_frame s); [done|done|done|]. intros e _. unfold erem, order_of. by rewrite Hgo.
  - intros e. unfold all_elems. rewrite !Hp. intros He. unfold order_of. rewrite Hgo. by apply Hlive.
  - intros e e'. rewrite !Hp. intros He He'. unfold order_of. rewrite !Hgo. by apply Hunc.
Qed.

Lemma submittable_grow me s' r :
  orders s' = orders (heap me) -> levels s' = levels (heap me) -> (next (heap me) <= next s')%nat ->
  submittable me r -> submittable (set_heap me s') r.
Proof.
  intros Ho Hl Hn [Hnew Hnext Hkey Hfil].
  assert (order_at (set_heap me s') r = order_at me r) as Hord
    by (unfold order_at, get_order; cbn; by rewrite Ho).
  assert (all_elems s' (orderBook me) = all_elems (heap me) (orderBook me)) as Hall.
  { unfold all_elems. rewrite !(prio_ext (heap me) s'); [done|..];
      intros; unfold elems_of, get_level; by rewrite Hl. }
  split; rewrite ?Hord; cbn [heap set_heap orderBook]; rewrite ?Hall; try done. lia.
Qed.

(** A reference nobody holds (a response channel) changes nothing. *)
Lemma engine_ok_chan me acc : engine_ok me acc -> engine_ok (make_chan me).2 acc.
Proof.
  intros [Hbook Hpend Hnd Hids Hch Hdist Hold]. split; try done.
  - apply (book_inv_grow (heap me)); try done. cbn. lia.
  - intros r Hr. apply submittable_grow; try done; [cbn; lia|]. by apply Hpend.
  - intros ch Hin. specialize (Hold ch Hin). cbn. lia.
Qed.

(** Neither does a reading of the clock or a drawn identifier. *)
Lemma engine_ok_env me s' acc :
  orders s' = orders (heap me) -> levels s' = levels (heap me) -> next s' = next (heap me) ->
  engine_ok me acc -> engine_ok (set_heap me s') acc.
Proof.
  intros Ho Hl Hn [Hbook Hpend Hnd Hids Hch Hdist Hold].
  assert (forall r, order_at (set_heap me s') r = order_at me r) as Hord
    by (intros; unfold order_at, get_order; cbn; by rewrite Ho).
  split; try done.
  - apply (book_inv_grow (heap me)); try done. cbn. lia.
  - intros r Hr. apply submittable_grow; try done; [lia|]. by apply Hpend.
  - intros r r'. rewrite !Hord. apply Hids.
  - intros ch Hin. specialize (Hold ch Hin). cbn. lia.
Qed.

(** Posting a command. *)
Lemma post_new me acc r ch :
  engine_ok me acc -> (ch < next (heap me))%nat -> ch ∉ acc -> submittable me r -> r ∉ pending me ->
  (forall r', r' ∈ pending me -> oID (order_at me r') <> oID (order_at me r)) ->
  engine_ok (set_commandChan me (commandChan me ++ [mkOrderCommand "NEW" r uuid_Nil (Some ch)])) (acc ++ [ch]).
Proof.
  intros [Hbook Hpend Hnd Hids Hch Hdist Hold] Hlt Hni Hsub Hnew Hid.
  set (me' := set_commandChan me _).
  assert (pending me' = pending me ++ [r]) as Hp by (unfold pending, me'; cbn [commandChan set_commandChan]; by rewrite omap_app).
  split; try done.
  - rewrite Hp. intros r' [Hr'|Hr']%elem_of_app; [by destruct (Hpend r' Hr')|].
    apply list_elem_of_singleton in Hr' as ->. by destruct Hsub.
  - rewrite Hp. apply NoDup_app. split_and!; [done|set_solver|repeat constructor; set_solver].
  - rewrite Hp. intros r1 r2 Hr1 Hr2. change (order_at me') with (order_at me). intros Heq.
    apply elem_of_app in Hr1 as [Hr1|Hr1]; apply elem_of_app in Hr2 as [Hr2|Hr2];
      try apply list_elem_of_singleton in Hr1 as ->; try apply list_elem_of_singleton in Hr2 as ->.
    + by apply Hids.
    + by destruct (Hid r1).
    + by destruct (Hid r2).
    + done.
  - change (response_chans (output me) ++ waiting_chans (commandChan me ++ [mkOrderCommand "NEW" r uuid_Nil (Some ch)]) = acc ++ [ch]).
    unfold waiting_chans. rewrite omap_app, app_assoc. by rewrite <- Hch.
  - apply NoDup_app. split_and!; [done|set_solver|repeat constructor; set_solver].
  - intros ch' [Hin|Hin]%elem_of_app; [by apply Hold|]. by apply list_elem_of_singleton in Hin as ->.
Qed.

Lemma post_cancel me acc id ch :
  engine_ok me acc -> (ch < next (heap me))%nat -> ch ∉ acc ->
  engine_ok (set_commandChan me (commandChan me ++ [mkOrderCommand "CANCEL" 0%nat id (Some ch)])) (acc ++ [ch]).
Proof.
  intros [Hbook Hpend Hnd Hids Hch Hdist Hold] Hlt Hni. set (me' := set_commandChan me _).
  assert (pending me' = pending me) as Hp
    by (unfold pending, me'; cbn [commandChan set_commandChan]; rewrite omap_app; cbn; by rewrite app_nil_r).
  split; try done; rewrite ?Hp; try done.
  - intros r Hr. by destruct (Hpend r Hr).
  - change (response_chans (output me) ++ waiting_chans (commandChan me ++ [mkOrderCommand "CANCEL" 0%nat id (Some ch)]) = acc ++ [ch]).
    unfold waiting_chans. rewrite omap_app, app_assoc. by rewrite <- Hch.
  - apply NoDup_app. split_and!; [done|set_solver|repeat constructor; set_solver].
  - intros ch' [Hin|Hin]%elem_of_app; [by apply Hold|]. by apply list_elem_of_singleton in Hin as ->.
Qed.

(** Taking a command off the channel and processing it. *)
Lemma processed_submittable me cmd me' r :
  book_inv (heap me) (orderBook me) -> processed me cmd me' -> submittable me r -> ~ concerns cmd r ->
  (forall r', concerns cmd r' -> oID (order_at me r') <> oID (order_at me r)) -> submittable me' r.
Proof.
  intros Hinv Hp [Hnew Hnext Hkey Hfil] Hnc Hid.
  pose proof (pc_other _ _ _ Hp r Hnc Hnew) as Hord. split.
  - intros (e & Hv & He)%list_elem_of_fmap. apply (pc_elems _ _ _ Hp) in He as [Hc|He].
    + rewrite <- Hv in Hc. done.
    + apply Hnew. rewrite Hv. by apply list_elem_of_fmap_2.
  - pose proof (pc_next _ _ _ Hp). lia.
  - rewrite Hord. destruct (obOrders (orderBook me') !! _) as [loc|] eqn:Hloc; [exfalso|done].
    destruct (bw_loc _ _ _ _ (bi_wf _ _ (pc_inv _ _ _ Hp)) Hloc) as (lp & _ & _ & _ & Hk & He).
    assert (oID (order_at me (elem_Value (locElement loc))) = oID (order_at me r)) as Hii.
    { apply (inj uuid_String). rewrite <- Hk. unfold ekey. f_equal. symmetry. apply (pc_ids _ _ _ Hp). }
    apply (pc_elems _ _ _ Hp) in He as [Hc|He]; [by eapply Hid|].
    destruct (bw_map_elem _ _ _ (bi_wf _ _ Hinv) He) as (lp' & _ & _ & Hm).
    unfold ekey, order_of in Hm. change (get_order (heap me)) with (order_at me) in Hm. rewrite Hii in Hm. congruence.
  - by rewrite Hord.
Qed.

Lemma takes_ok me me' acc : engine_ok me acc -> takes me me' -> engine_ok me' acc.
Proof.
  intros [Hbook Hpend Hnd Hids Hch Hdist Hold] (cmd & rest & fuel & Hchan & Hrun).
  set (me0 := set_commandChan me rest) in *.
  assert (pending me = (if bool_decide (cmdType cmd = "NEW") then [cmdOrder cmd] else []) ++ pending me0) as Hp.
  { unfold pending at 1. rewrite Hchan. cbn. by case_bool_decide. }
  assert (forall r, r ∈ pending me -> submittable me0 r) as Hsub0 by (intros r Hr; by destruct (Hpend r Hr)).
  assert (cmdType cmd = "NEW" -> cmdOrder cmd ∈ pending me /\ cmdOrder cmd ∉ pending me0) as Hnew.
  { intros Ht. rewrite bool_decide_eq_true_2 in Hp by done. rewrite Hp in Hnd |- *.
    apply NoDup_cons in Hnd as [Hni _]. set_solver. }
  assert (processed me0 cmd me') as Hpr.
  { eapply processCommand_processed; [exact Hbook| |exact Hrun]. intros Ht. by apply Hsub0, Hnew. }
  assert (pending me' = pending me0) as Hp' by (unfold pending; by rewrite (pc_chan _ _ _ Hpr)).
  assert (forall r, r ∈ pending me0 -> r ∈ pending me) as Hin by (intros; rewrite Hp; set_solver).
  assert (forall r, r ∈ pending me0 -> ~ concerns cmd r) as Hnc
    by (intros r Hr [Ht ->]; by destruct (Hnew Ht)).
  split.
  - apply (pc_inv _ _ _ Hpr).
  - rewrite Hp'. intros r Hr. apply (processed_submittable me0 cmd me' r); [exact Hbook|done|by apply Hsub0, Hin|by apply Hnc|].
    intros r' [Ht ->] Heq. destruct (Hnew Ht) as [Hin' Hni]. apply Hni.
    assert (cmdOrder cmd = r) as -> by (apply Hids; auto). done.
  - rewrite Hp'. rewrite Hp in Hnd. by apply NoDup_app in Hnd as (_ & _ & ?).
  - rewrite Hp'. intros r r' Hr Hr'. rewrite !(pc_ids _ _ _ Hpr). apply Hids; auto.
  - rewrite (pc_chan _ _ _ Hpr), (pc_responses _ _ _ Hpr). rewrite <- Hch, Hchan, <- app_assoc. f_equal.
    unfold me0. cbn [commandChan set_commandChan waiting_chans]. unfold waiting_chans. cbn [omap list_omap].
    by destruct (cmdResponse cmd).
  - done.
  - intros ch Hin'. specialize (Hold ch Hin'). pose proof (pc_next _ _ _ Hpr). cbn in *. lia.
Qed.

(** ** Every step keeps the invariant *)

Lemma make_chan_fresh me acc : engine_ok me acc -> (make_chan me).1 ∉ acc.
Proof. intros Hok Hin. pose proof (eo_old _ _ Hok _ Hin) as Hlt. cbn in Hlt. lia. Qed.

Lemma engine_ok_blocks me acc z : engine_ok me acc -> engine_ok (set_channelBlocks me z) acc.
Proof. by apply engine_ok_flags. Qed.

Lemma posted_cancel w id : world_inv w -> world_inv (posted w (engine_CancelOrder (eng w) id)).
Proof.
  intros Hok. unfold engine_CancelOrder. destruct (negb _); [done|].
  pose proof (engine_ok_chan _ _ Hok) as Hok1. pose proof (make_chan_fresh _ _ Hok) as Hfr.
  destruct (make_chan (eng w)) as [ch me1] eqn:Hmk. cbn in Hok1, Hfr. unfold post.
  case_bool_decide; [|by apply engine_ok_blocks].
  apply post_cancel; [done| |done]. unfold make_chan in Hmk. cbn in Hmk. simplify_eq. cbn. lia.
Qed.

(** Allocating an order keeps everything, and the order can be submitted. *)
Lemma engine_ok_alloc me acc o :
  engine_ok me acc -> engine_ok (set_heap me (alloc_order (heap me) o).2) acc.
Proof.
  intros [Hbook Hpend Hnd Hids Hch Hdist Hold].
  assert (forall r, r ∈ pending me ->
    order_at (set_heap me (alloc_order (heap me) o).2) r = order_at me r) as Hord.
  { intros r Hr. pose proof (sb_next _ _ (Hpend r Hr)). unfold order_at, alloc_order. cbn [alloc snd heap set_heap].
    rewrite get_order_set, decide_False; [done|]. lia. }
  split; try done.
  - by apply alloc_order_inv.
  - intros r Hr. change (r ∈ pending me) in Hr. destruct (Hpend r Hr) as [Hnew Hnext Hkey Hfil].
    split; rewrite ?Hord by done; try done. cbn. lia.
  - intros r r' Hr Hr'. change (r ∈ pending me) in Hr. change (r' ∈ pending me) in Hr'.
    rewrite !Hord by done. by apply Hids.
  - intros ch Hin. specialize (Hold ch Hin). cbn. lia.
Qed.

Lemma submit_new_ok w o :
  world_inv w -> fresh_id (eng w) (oID o) -> oFilledQuantity o = decimal_Zero -> world_inv (submit_new w o).
Proof.
  intros Hok [Hkey Hids] Hfil. unfold submit_new.
  destruct (alloc_order (heap (eng w)) o) as [r s] eqn:Hal.
  assert (s = (alloc_order (heap (eng w)) o).2 /\ r = (alloc_order (heap (eng w)) o).1) as [-> ->] by (by rewrite Hal).
  set (me0 := set_heap (eng w) _). set (r := (alloc_order (heap (eng w)) o).1) in *.
  assert (engine_ok me0 (accepted w)) as Hok0 by (by apply engine_ok_alloc).
  assert (order_at me0 r = o) as Hor
    by (unfold order_at, me0, r, alloc_order; cbn [alloc fst snd heap set_heap]; by rewrite get_order_set, decide_True).
  assert (submittable me0 r) as Hsub.
  { apply alloc_submittable; [apply Hok|done|]. rewrite Hfil, dval_Zero. lra. }
  unfold SubmitOrder. destruct (negb _); [done|].
  pose proof (engine_ok_chan _ _ Hok0) as Hok1. pose proof (make_chan_fresh _ _ Hok0) as Hfr.
  destruct (make_chan me0) as [ch me1] eqn:Hmk. cbn in Hok1, Hfr.
  assert (me1 = set_heap me0 (alloc (heap me0)).2 /\ ch = next (heap me0)) as [-> ->]
    by (unfold make_chan in Hmk; cbn in Hmk; by simplify_eq).
  set (me1 := set_heap me0 _) in *.
  assert (submittable me1 r) as Hsub1 by (apply submittable_grow; try done; cbn; lia).
  assert (r ∉ pending (eng w)) as Hnp.
  { intros Hin. pose proof (sb_next _ _ (eo_pending _ _ Hok r Hin)) as Hlt. unfold r in Hlt. cbn in Hlt. lia. }
  assert (forall me2, heap me2 = heap me1 -> orderBook me2 = orderBook me1 -> commandChan me2 = commandChan me1 ->
    engine_ok me2 (accepted w) ->
    world_inv (posted w (post me2 (mkOrderCommand "NEW" r uuid_Nil (Some (next (heap me0)))) (next (heap me0))))) as Hpost.
  { intros me2 Hh Hb Hc Hok2. unfold post. case_bool_decide; [|by apply engine_ok_blocks].
    assert (pending me2 = pending (eng w)) as Hp by (unfold pending; by rewrite Hc).
    assert (forall r', order_at me2 r' = order_at me0 r') as Ho2 by (intros; unfold order_at; by rewrite Hh).
    apply post_new; [done|rewrite Hh; cbn; lia|done| |by rewrite Hp|].
    - destruct Hsub1 as [Hn1 Hn2 Hn3 Hn4]. split; rewrite ?Hh, ?Hb, ?Ho2; done.
    - rewrite Hp. intros r' Hr'. rewrite !Ho2, Hor.
      assert (order_at me0 r' = order_at (eng w) r') as ->; [|by apply Hids].
      pose proof (sb_next _ _ (eo_pending _ _ Hok r' Hr')). unfold order_at, me0, alloc_order. cbn [alloc snd heap set_heap].
      rewrite get_order_set, decide_False; [done|]. lia. }
  apply Hpost; case_bool_decide; try done. by apply engine_ok_blocks.
Qed.

Lemma step_inv w w' : world_inv w -> step w w' -> world_inv w'.
Proof.
  intros Hok Hst. destruct Hst as [w _|w _|w _ _ _|w _|w o _ Hid Hfil|w id _|w c _|w _ _ _|w _ _ _|w me' _ _ Ht|w me' _ _ Ht|w _ _ _|w _|w _].
  - unfold Start. destruct (isRunning (eng w)); [done|]. eapply engine_ok_flags; [..|exact Hok]; done.
  - unfold Stop_begin. destruct (negb _); [done|]. destruct (stopChanClosed (eng w)); [done|].
    eapply engine_ok_flags; [..|exact Hok]; done.
  - eapply engine_ok_flags; [..|exact Hok]; done.
  - done.
  - by apply submit_new_ok.
  - by apply posted_cancel.
  - destruct c; (eapply engine_ok_flags; [..|exact Hok]; done).
  - done.
  - done.
  - exact (takes_ok _ _ _ Hok Ht).
  - exact (takes_ok _ _ _ Hok Ht).
  - done.
  - by apply engine_ok_env.
  - by apply engine_ok_env.
Qed.

Lemma init_inv s instrument : world_inv (init_world s instrument).
Proof.
  split.
  - apply book_inv_new.
  - intros r Hr. by apply elem_of_nil in Hr.
  - constructor.
  - intros r r' Hr. by apply elem_of_nil in Hr.
  - done.
  - constructor.
  - intros ch Hin. by apply elem_of_nil in Hin.
Qed.

Lemma reachable_inv s instrument w : reachable s instrument w -> world_inv w.
Proof. induction 1; [apply init_inv|by eapply step_inv]. Qed.
End facts.
