(* ===== verification/EngineTheorems.v ===== *)
(** * Theorems about the engine's goroutines

    Safety of every reachable world (sound book, first-in-first-out responses,
    exactly one per accepted command), progress of the worker, the drain on
    shutdown, and what happens to commands after a restart. *)

From S2P Require Import Prelude.
From S2P Require Import External.
From S2P Require Import Models.
From S2P Require Import OrderBook.
From S2P Require Import OrderBookFacts.
From S2P Require Import Events.
From S2P Require Import Matching.
From S2P Require Import MatchingFacts.
From S2P Require Import MatchingLoops.
From S2P Require Import MatchingSpec.
From S2P Require Import MatchingProps.
From S2P Require Import MatchingTheorems.
From S2P Require Import OrderBookTheorems.
From S2P Require Import Engine.
From S2P Require Import EngineFacts.

Section facts.
Context `{DecimalSpec, UuidSpec, !EnvPkg, BTreeSpec}.
Implicit Types (w : world) (me : MatchingEngine).

(** A command at the head of the channel can always be taken. *)
Lemma takes_total me acc cmd rest :
  engine_ok me acc -> commandChan me = cmd :: rest ->
  exists me', takes me me' /\ commandChan me' = rest.
Proof.
  intros Hok Hchan.
  assert (cmdType cmd = "NEW" -> submittable (set_commandChan me rest) (cmdOrder cmd)) as Hsub.
  { intros Ht. destruct (eo_pending _ _ Hok (cmdOrder cmd)); [|by split].
    unfold pending. rewrite Hchan. cbn. rewrite bool_decide_eq_true_2 by done. set_solver. }
  destruct (processCommand_total (set_commandChan me rest) cmd) as (fuel & me' & Hrun);
    [exact (eo_book _ _ Hok)|done|].
  exists me'. split; [by exists cmd, rest, fuel|].
  apply (pc_chan (set_commandChan me rest) cmd me').
  eapply processCommand_processed; [exact (eo_book _ _ Hok)|done|done].
Qed.


(** A world in which commands are accepted and no worker will ever run. *)
Record stalled w : Prop := {
  sl_running : isRunning (eng w) = true;
  sl_worker : worker w = WorkerNone;
  sl_stop : stopChanClosed (eng w) = true;
  sl_stopping : stopping w = false;
}.

Lemma posted_flags w r :
  isRunning (eng (posted w r)) = isRunning r.2 /\ worker (posted w r) = worker w /\
  stopChanClosed (eng (posted w r)) = stopChanClosed r.2 /\ stopping (posted w r) = stopping w /\
  output (eng (posted w r)) = output r.2.
Proof. by destruct r as [[] ]. Qed.

Lemma post_flags me cmd ch :
  isRunning (post me cmd ch).2 = isRunning me /\ stopChanClosed (post me cmd ch).2 = stopChanClosed me /\
  output (post me cmd ch).2 = output me.
Proof. unfold post. by case_bool_decide. Qed.

Lemma SubmitOrder_flags me r :
  isRunning (SubmitOrder me r).2 = isRunning me /\ stopChanClosed (SubmitOrder me r).2 = stopChanClosed me /\
  output (SubmitOrder me r).2 = output me.
Proof.
  unfold SubmitOrder. destruct (negb _); [done|]. cbn [make_chan alloc].
  match goal with |- context [post ?m ?c ?h] => destruct (post_flags m c h) as (-> & -> & ->) end.
  by case_bool_decide.
Qed.

Lemma engine_CancelOrder_flags me id :
  isRunning (engine_CancelOrder me id).2 = isRunning me /\
  stopChanClosed (engine_CancelOrder me id).2 = stopChanClosed me /\
  output (engine_CancelOrder me id).2 = output me.
Proof.
  unfold engine_CancelOrder. destruct (negb _); [done|]. cbn [make_chan alloc].
  match goal with |- context [post ?m ?c ?h] => by destruct (post_flags m c h) as (-> & -> & ->) end.
Qed.

Lemma stalled_step w w' : stalled w -> step w w' -> stalled w' /\ output (eng w') = output (eng w).
Proof.
  intros [Hr Hw Hs Hst] Hstep.
  destruct Hstep as [w _|w _|w _ Hst' _|w _|w o _ _ _|w id _|w c _|w _ Hw' _|w _ Hw' _|w me' _ Hw' _|w me' _ Hw' _|w _ Hw' _|w _|w _];
    try congruence.
  - unfold Start. rewrite Hr. done.
  - unfold Stop_begin. rewrite Hr, Hs. done.
  - done.
  - unfold submit_new. destruct (alloc_order _ _) as [r s].
    destruct (posted_flags w (SubmitOrder (set_heap (eng w) s) r)) as (H1' & H2' & H3' & H4' & H5').
    destruct (SubmitOrder_flags (set_heap (eng w) s) r) as (H6' & H7' & H8').
    split; [split|]; rewrite ?H1', ?H2', ?H3', ?H4', ?H5', ?H6', ?H7', ?H8'; done.
  - destruct (posted_flags w (engine_CancelOrder (eng w) id)) as (H1' & H2' & H3' & H4' & H5').
    destruct (engine_CancelOrder_flags (eng w) id) as (H6' & H7' & H8').
    split; [split|]; rewrite ?H1', ?H2', ?H3', ?H4', ?H5', ?H6', ?H7', ?H8'; done.
  - destruct c; done.
  - done.
  - done.
Qed.

Lemma stalled_steps w w' : rtc step w w' -> stalled w -> stalled w' /\ output (eng w') = output (eng w).
Proof.
  induction 1 as [w|w1 w2 w3 Hstep _ IH]; [done|]. intros Hs.
  destruct (stalled_step _ _ Hs Hstep) as [Hs2 Ho]. destruct (IH Hs2) as [Hs3 Ho3]. split; [done|congruence].
Qed.
End facts.

Section theorems.
Context `{DecimalSpec, UuidSpec, !EnvPkg, BTreeSpec}.
Implicit Types (w : world) (me : MatchingEngine).

(** C9: in every world the goroutines can reach, whatever the interleaving of
    submissions, cancellations, settings, starts and stops, the book is
    well-formed, live and uncrossed. *)
Theorem reachable_book_sound s instrument w :
  reachable s instrument w -> book_inv (heap (eng w)) (orderBook (eng w)).
Proof. intros Hr. apply (eo_book _ _ (reachable_inv _ _ _ Hr)). Qed.

(** C10: first in, first out, exactly once.  In every reachable world the
    responses sent so far followed by the commands that wait are the accepted
    commands in the order they were accepted, and no response channel is used
    twice. *)
Theorem responses_fifo_once s instrument w :
  reachable s instrument w ->
  response_chans (output (eng w)) ++ waiting_chans (commandChan (eng w)) = accepted w /\
  NoDup (response_chans (output (eng w))).
Proof.
  intros Hr%reachable_inv. split; [apply (eo_chans _ _ Hr)|].
  pose proof (eo_distinct _ _ Hr) as Hnd. rewrite <- (eo_chans _ _ Hr) in Hnd. by apply NoDup_app in Hnd as (? & _).
Qed.

(** Progress.  A worker that exists is never stuck on a command: whatever
    waits at the head of the channel is processed in finitely many loop
    iterations. *)
Theorem worker_progress s instrument w :
  reachable s instrument w -> panicked w = false -> worker w <> WorkerNone -> commandChan (eng w) <> [] ->
  exists me', takes (eng w) me' /\ step w (set_eng w me').
Proof.
  intros Hr%reachable_inv Hp Hw Hc. destruct (commandChan (eng w)) as [|cmd rest] eqn:Hl; [done|].
  destruct (takes_total _ _ _ _ Hr Hl) as (me' & Ht & _). exists me'. split; [done|].
  destruct (worker w) eqn:Hk; [done|by apply step_select_command|by apply step_drain].
Qed.


(** After a stop and a start, commands are accepted and never answered.
    The stop channel stays closed, so the new worker can leave at once while
    [isRunning] is true: there is a reachable world with a command accepted and
    waiting from which no run, however long, sends another response. *)
Theorem restart_never_answers s instrument o :
  oFilledQuantity o = decimal_Zero ->
  exists w, reachable s instrument w /\ isRunning (eng w) = true /\ waiting_chans (commandChan (eng w)) <> [] /\
    forall w', rtc step w w' -> output (eng w') = output (eng w).
Proof.
  intros Hfil.
  set (w0 := init_world s instrument). set (w1 := (Start w0).2). set (w2 := (Stop_begin w1).2).
  set (w3 := set_worker w2 WorkerDraining). set (w4 := set_worker w3 WorkerNone). set (w5 := Stop_end w4).
  set (w6 := (Start w5).2). set (w7 := set_worker w6 WorkerDraining). set (w8 := set_worker w7 WorkerNone).
  assert (reachable s instrument w8) as Hr8.
  { repeat first [apply reach_init|eapply reach_step; [|first [apply (step_drained w7)|apply (step_select_stop w6)
      |apply (step_start w5)|apply (step_stopped w4)|apply (step_drained w3)|apply (step_select_stop w2)
      |apply (step_stop w1)|apply (step_start w0)]; done]]. }
  assert (step w8 (submit_new w8 o)) as Hsub.
  { apply step_submit; [done| |done]. split; [done|]. intros r Hr. by apply elem_of_nil in Hr. }
  exists (submit_new w8 o). split_and!.
  - by eapply reach_step.
  - done.
  - done.
  - intros w' Hw'. apply (stalled_steps _ _ Hw'). by split.
Qed.

(** Submitting.  [SubmitOrder] refuses when the engine does not run,
    refuses when the channel holds its 1000 commands (counting that twice), and
    otherwise appends exactly one NEW command with a fresh response channel;
    the book and the orders are not touched. *)
Theorem SubmitOrder_result me r :
  orderBook (SubmitOrder me r).2 = orderBook me /\ orders (heap (SubmitOrder me r).2) = orders (heap me) /\
  levels (heap (SubmitOrder me r).2) = levels (heap me) /\
  match SubmitOrder me r with
  | (inl ErrNotRunning, me') => isRunning me = false /\ me' = me
  | (inl ErrChannelFull, me') =>
      isRunning me = true /\ commandCap <= length (commandChan me) /\ commandChan me' = commandChan me /\
      channelBlocks me' = uint64 (uint64 (channelBlocks me + 1) + 1)
  | (inl _, _) => False
  | (inr ch, me') =>
      isRunning me = true /\ length (commandChan me) < commandCap /\ ch = next (heap me) /\
      commandChan me' = commandChan me ++ [mkOrderCommand "NEW" r uuid_Nil (Some ch)]
  end.
Proof.
  unfold SubmitOrder, post. destruct (isRunning me); cbn [negb]; [|done].
  cbn [make_chan alloc]. case_bool_decide as Hnear; case_bool_decide as Hroom;
    cbn [commandChan set_heap set_channelBlocks] in Hnear, Hroom; split_and!; try done;
    unfold commandCap in *; lia.
Qed.
End theorems.

(** ** A run to evaluate *)

Module EngineInstances.
Import Concrete Demo.

Definition w0 : world := init_world emptyStore "BTC-USD".
Definition w1 : world := (Start w0).2.
Definition w2 : world := submit_new w1 (limit "s1" "sell" 101 5).
Definition w3 : world := submit_new w2 (limit "b1" "buy" 101 3).

(** The context is cancelled with both commands waiting. *)
Definition w4 : world := mkWorld (eng w3) (worker w3) true (stopping w3) (panicked w3) (accepted w3).
Definition w5 : world := set_worker w4 WorkerDraining.

Definition process_head (me : MatchingEngine) : MatchingEngine :=
  match commandChan me with
  | [] => me
  | cmd :: rest => default me (processCommand 10 (set_commandChan me rest) cmd)
  end.
Definition w6 : world := set_eng w5 (process_head (eng w5)).

Lemma w3_reachable : reachable emptyStore "BTC-USD" w3.
Proof.
  eapply reach_step; [eapply reach_step; [eapply reach_step; [apply reach_init|]|]|].
  - exact (step_start w0 eq_refl).
  - apply (step_submit w1 (limit "s1" "sell" 101 5)); [vm_compute; reflexivity| |reflexivity].
    split; [vm_compute; reflexivity|]. intros r Hr. by apply elem_of_nil in Hr.
  - apply (step_submit w2 (limit "b1" "buy" 101 3)); [vm_compute; reflexivity| |reflexivity].
    split; [vm_compute; reflexivity|]. intros r Hr.
    assert (pending (eng w2) = [0]) as Hp by (vm_compute; reflexivity).
    rewrite Hp in Hr. apply list_elem_of_singleton in Hr as ->. vm_compute. discriminate.
Qed.

Lemma w5_reachable : reachable emptyStore "BTC-USD" w5.
Proof.
  eapply reach_step; [eapply reach_step; [exact w3_reachable|]|].
  - apply (step_cancel_ctx w3). vm_compute. reflexivity.
  - apply (step_select_ctx w4); vm_compute; reflexivity.
Qed.

Lemma w6_reachable : reachable emptyStore "BTC-USD" w6.
Proof.
  eapply reach_step; [exact w5_reachable|].
  apply (step_drain w5); [vm_compute; reflexivity|vm_compute; reflexivity|].
  destruct (commandChan (eng w5)) as [|cmd rest] eqn:Hc; [vm_compute in Hc; discriminate|].
  exists cmd, rest, 10. split; [exact Hc|]. unfold process_head. rewrite Hc.
  destruct (processCommand 10 (set_commandChan (eng w5) rest) cmd) eqn:Hp; [reflexivity|].
  exfalso. assert (match commandChan (eng w5) with
    | [] => False | c :: l => processCommand 10 (set_commandChan (eng w5) l) c = None end) as Hn by (by rewrite Hc).
  vm_compute in Hn. discriminate.
Qed.

Lemma reachable_book_sound_witness : book_inv (heap (eng w6)) (orderBook (eng w6)).
Proof. exact (reachable_book_sound _ _ w6 w6_reachable). Defined.

Lemma responses_fifo_once_witness :
  (length (response_chans (output (eng w6))) = 1 /\ length (commandChan (eng w6)) = 1) /\
  response_chans (output (eng w6)) ++ waiting_chans (commandChan (eng w6)) = accepted w6 /\
  NoDup (response_chans (output (eng w6))).
Proof.
  split; [vm_compute; split; reflexivity|]. exact (responses_fifo_once _ _ w6 w6_reachable).
Defined.

Lemma worker_progress_witness : exists me', takes (eng w3) me' /\ step w3 (set_eng w3 me').
Proof.
  apply (worker_progress _ _ w3 w3_reachable); [vm_compute; reflexivity|vm_compute; discriminate..].
Defined.


Lemma restart_never_answers_witness :
  exists w, reachable emptyStore "BTC-USD" w /\ isRunning (eng w) = true /\
    waiting_chans (commandChan (eng w)) <> [] /\
    forall w', rtc step w w' -> output (eng w') = output (eng w).
Proof. apply (restart_never_answers emptyStore "BTC-USD" (limit "s1" "sell" 101 5)). reflexivity. Defined.
End EngineInstances.
