(* ===== verification/Api.v ===== *)
(** * The request handlers (src/api/handlers.go, src/api/router.go)

    A handler that talks to the engine is two functions: up to the point where
    it waits for the engine's response, and from the response to the HTTP
    answer; other goroutines run in between.  JSON, SHA-256, Redis, the tables
    of the database and the router's dispatch are parameters.  Bodies are the
    values that are encoded: [respBody] of an order is the order as it is when
    the handler encodes it.  Log lines and metrics are left out, and with them
    the readings of the clock that only they use. *)

From Stdlib Require Import Ascii.
From S2P Require Import Prelude.
From S2P Require Import External.
From S2P Require Import Models.
From S2P Require Import OrderBook.
From S2P Require Import Events.
From S2P Require Import Matching.
From S2P Require Import Engine.
From S2P Require Import Web.

Section api.
Context `{DecimalPkg, UuidPkg, !EnvPkg, BTreePkg, RedisPkg}.

(** ** Data *)

Record OrderRequest := mkOrderRequest {
  orClientID : string;
  orInstrument : string;
  orSide : string;
  orType : string;
  orPrice : decimal;
  orQuantity : decimal;
}.

Record OrderResponse := mkOrderResponse {
  respSuccess : bool;
  respOrderID : string;
  respOrder : option Order;
  respTrades : list Trade;
  respMessage : string;
  respError : string;
  respTimestamp : Z;
  respReplayed : bool;
}.

Record ValidationError := mkValidationError { veField : string; veMessage : string }.

Record OrderBookLevel := mkOrderBookLevel {
  oblPrice : decimal;
  oblSize : decimal;
  oblCumulativeDepth : decimal;
}.

Record FreshnessMetadata := mkFreshnessMetadata {
  fmLastUpdateTime : Z;
  fmAgeMs : Z;
  fmSnapshotAvailable : bool;
  fmIsStale : bool;
  fmStaleThresholdMs : Z;
}.

Record OrderBookResponse := mkOrderBookResponse {
  obrInstrument : string;
  obrBids : list OrderBookLevel;
  obrAsks : list OrderBookLevel;
  obrTotalBidVolume : decimal;
  obrTotalAskVolume : decimal;
  obrBidDepth : list decimal;
  obrAskDepth : list decimal;
  obrTimestamp : Z;
  obrFreshness : option FreshnessMetadata;
  obrSource : string;
}.

(** One row of the trades query, and the map built from it. *)
Record TradeRow := mkTradeRow {
  trTradeID : uuid;
  trBuyOrderID : uuid;
  trSellOrderID : uuid;
  trInstrument : string;
  trPrice : string;
  trQuantity : string;
  trTimestamp : Z;
}.

Record TradeView := mkTradeView {
  tvTradeID : string;
  tvBuyOrderID : string;
  tvSellOrderID : string;
  tvInstrument : string;
  tvPrice : decimal;
  tvQuantity : decimal;
  tvTimestamp : Z;
}.

Record TradesPage := mkTradesPage {
  tpInstrument : string;
  tpTrades : list TradeView;
  tpLimit : Z;
  tpOffset : Z;
  tpCount : Z;
  tpHasMore : bool;
}.

Inductive Body :=
  | BodyError (message : string) (timestamp : Z)
  | BodyText (message : string)
  | BodyValidation (errors : list ValidationError)
  | BodyOrderResponse (r : OrderResponse)
  | BodyCancelled (order : option Order)
  | BodyOrder (order : Order)
  | BodyOrderBook (r : OrderBookResponse)
  | BodyTrades (p : TradesPage)
  | BodyHealthy.

Definition unix_milli (ns : Z) : Z := (ns / 10 ^ 6)%Z.

(** [time.Time{}], the value of a field the code does not set. *)
Definition time_zero : Z := (- 62135596800 * 10 ^ 9)%Z.

(** [err.Error()] of the engine's errors. *)
Definition error_string (e : EngineError) : string :=
  match e with
  | ErrOrderNotFound id => "order not found: " +:+ uuid_String id
  | ErrUnknownCommand type => "unknown command type: " +:+ type
  | ErrNotRunning => "matching engine is not running"
  | ErrAlreadyRunning => "matching engine is already running"
  | ErrChannelFull => "command channel is full"
  end.

Definition getCurrentTimestamp (me : MatchingEngine) : Z * MatchingEngine :=
  let '(t, me1) := now me in (unix_milli t, me1).

Definition respondError (me : MatchingEngine) (statusCode : Z) (message : string)
    : Response Body * MatchingEngine :=
  let '(t, me1) := now me in
  (mkResponse statusCode json_header (BodyError message (unix_milli t)), me1).

Definition http_Error (statusCode : Z) (message : string) : Response Body :=
  mkResponse statusCode http_error_header (BodyText (message +:+ String "010"%char EmptyString)).

(** ** Validation *)

Definition maxQuantity : decimal := decimal_NewFromInt 1000.
Definition minQuantity : decimal := decimal_NewFromFloat 1 4.
Definition maxPrice : decimal := decimal_NewFromInt 1000000.
Definition minPrice : decimal := decimal_NewFromInt 1.

(** [if cond { errors = append(errors, ValidationError{...}) }]. *)
Definition check (cond : bool) (field message : string) : list ValidationError :=
  if cond then [mkValidationError field message] else [].

Definition validateOrderRequest (req : OrderRequest) : list ValidationError :=
  let limit := bool_decide (orType req = "limit") in
  check (bool_decide (orClientID req = "")) "client_id" "client_id is required" ++
  check (bool_decide (orInstrument req = "")) "instrument" "instrument is required" ++
  check (bool_decide (orSide req <> "buy") && bool_decide (orSide req <> "sell"))
    "side" "side must be 'buy' or 'sell'" ++
  check (bool_decide (orType req <> "limit") && bool_decide (orType req <> "market"))
    "type" "type must be 'limit' or 'market'" ++
  check (decimal_IsZero (orQuantity req) || decimal_IsNegative (orQuantity req))
    "quantity" "quantity must be positive" ++
  (if limit then
     check (decimal_IsZero (orPrice req) || decimal_IsNegative (orPrice req))
       "price" "price must be positive for limit orders"
   else []) ++
  check (decimal_GreaterThan (orQuantity req) maxQuantity)
    "quantity" ("quantity exceeds maximum allowed (" +:+ decimal_String maxQuantity +:+ ")") ++
  check (decimal_LessThan (orQuantity req) minQuantity)
    "quantity" ("quantity below minimum allowed (" +:+ decimal_String minQuantity +:+ ")") ++
  (if limit then
     check (decimal_GreaterThan (orPrice req) maxPrice)
       "price" ("price exceeds maximum allowed (" +:+ decimal_String maxPrice +:+ ")") ++
     check (decimal_LessThan (orPrice req) minPrice)
       "price" ("price below minimum allowed (" +:+ decimal_String minPrice +:+ ")")
   else []).

(** ** Idempotency *)

Context (sha256_Sum256 : string -> string).
Context (json_Marshal : OrderResponse -> option string).
Context (json_Unmarshal : string -> option OrderResponse).
Context (json_Decode : string -> string + OrderRequest).

Definition hashIdempotencyKey (key : string) : string := hex_EncodeToString (sha256_Sum256 key).

Definition redisKey (key : string) : string := "idempotency:" +:+ hashIdempotencyKey key.

(** [inr None]: not seen before. *)
Definition checkIdempotencyKey (client : redis) (key : string) : string + option OrderResponse :=
  match redis_Get client (redisKey key) with
  | RedisNil => inr None
  | RedisErr err => inl err
  | RedisValue cachedData =>
      match json_Unmarshal cachedData with
      | None => inl "json"
      | Some response => inr (Some response)
      end
  end.

Definition cacheIdempotencyResponse (client : redis) (key : string) (response : OrderResponse)
    : option string * redis :=
  match json_Marshal response with
  | None => (Some "failed to serialize response", client)
  | Some responseData =>
      match redis_Set client (redisKey key) responseData with
      | (Some err, client') => (Some ("failed to cache response: " +:+ err), client')
      | (None, client') => (None, client')
      end
  end.

Definition set_replayed (r : OrderResponse) : OrderResponse :=
  mkOrderResponse (respSuccess r) (respOrderID r) (respOrder r) (respTrades r) (respMessage r)
    (respError r) (respTimestamp r) true.

(** ** POST /orders *)

(** Where a handler stands: answered, or waiting on the engine. *)
Inductive Progress :=
  | Answered (r : Response Body)
  | AwaitOrder (key : string) (order : oref) (ch : nat)
  | AwaitCancel (ch : nat).

(** The answer from the cache, if there is one. *)
Definition replay (client : option redis) (key : string) : option (Response Body) :=
  match client with
  | Some c =>
      if bool_decide (key <> "") then
        match checkIdempotencyKey c key with
        | inr (Some cached) =>
            Some (mkResponse StatusAccepted
              (<["X-Idempotency-Key" := key]> (<["X-Idempotency-Replayed" := "true"]> json_header))
              (BodyOrderResponse (set_replayed cached)))
        | _ => None
        end
      else None
  | None => None
  end.

Definition build_order (id : uuid) (now : Z) (req : OrderRequest) (side type : string) : Order :=
  mkOrder id (orClientID req) (orInstrument req) side type (orPrice req) (orQuantity req)
    decimal_Zero OrderStatusOpen now time_zero.

Definition parse_side (s : string) : option string :=
  if bool_decide (s = "buy") then Some OrderSideBuy
  else if bool_decide (s = "sell") then Some OrderSideSell else None.
Definition parse_type (s : string) : option string :=
  if bool_decide (s = "limit") then Some OrderTypeLimit
  else if bool_decide (s = "market") then Some OrderTypeMarket else None.

(** [HandleSubmitOrder] up to the receive inside [me.SubmitOrder]. *)
Definition HandleSubmitOrder_begin (me : MatchingEngine) (client : option redis) (r : Request)
    : Progress * MatchingEngine :=
  let answer (a : Response Body * MatchingEngine) := (Answered a.1, a.2) in
  if bool_decide (reqMethod r <> "POST") then answer (respondError me StatusMethodNotAllowed "Method not allowed")
  else
    let idempotencyKey := header_Get r "Idempotency-Key" in
    match replay client idempotencyKey with
    | Some cached => (Answered cached, me)
    | None =>
        match json_Decode (reqBody r) with
        | inl err => answer (respondError me StatusBadRequest ("Invalid JSON: " +:+ err))
        | inr req =>
            match validateOrderRequest req with
            | e :: es => (Answered (mkResponse StatusBadRequest json_header (BodyValidation (e :: es))), me)
            | [] =>
                match parse_side (orSide req), parse_type (orType req) with
                | None, _ => answer (respondError me StatusBadRequest "Invalid side: must be 'buy' or 'sell'")
                | _, None => answer (respondError me StatusBadRequest "Invalid type: must be 'limit' or 'market'")
                | Some side, Some type =>
                    let '(id, s1) := draw_uuid (heap me) in
                    let '(now, s2) := read_clock s1 in
                    let '(order, s3) := alloc_order s2 (build_order id now req side type) in
                    match SubmitOrder (set_heap me s3) order with
                    | (inl err, me1) =>
                        answer (respondError me1 StatusInternalServerError
                          ("Failed to submit order: " +:+ error_string err))
                    | (inr ch, me1) => (AwaitOrder idempotencyKey order ch, me1)
                    end
                end
            end
        end
    end.

(** The rest of it, once the engine has answered.  [None]: the engine's
    response has no order, and reading its status panics. *)
Definition HandleSubmitOrder_end (me : MatchingEngine) (client : option redis) (idempotencyKey : string)
    (order : oref) (resp : CommandResponse) : option (Response Body * option redis * MatchingEngine) :=
  match call_result resp with
  | (_, Some err) =>
      let '(a, me1) := respondError me StatusInternalServerError ("Failed to submit order: " +:+ error_string err) in
      Some (a, client, me1)
  | (response, None) =>
      match crError response with
      | Some err =>
          let '(a, me1) := respondError me StatusBadRequest (error_string err) in Some (a, client, me1)
      | None =>
          ro ← crOrder response;
          let '(t, me1) := now me in
          let orderResponse :=
            mkOrderResponse true (uuid_String (oID (order_at me1 order))) (Some (order_at me1 ro))
              (crTrades response) "Order accepted and processed" "" (unix_milli t) false in
          let client' :=
            match client with
            | Some c => if bool_decide (idempotencyKey <> "")
                        then Some (cacheIdempotencyResponse c idempotencyKey orderResponse).2 else client
            | None => None
            end in
          let header := if bool_decide (idempotencyKey <> "")
                        then <["X-Idempotency-Key" := idempotencyKey]> json_header else json_header in
          Some (mkResponse StatusAccepted header (BodyOrderResponse orderResponse), client', me1)
      end
  end.

(** ** POST /orders/{order_id}/cancel *)

Definition parseUUID (s : string) : option uuid := uuid_Parse s.

Definition CancelOrder_begin (me : MatchingEngine) (r : Request) : Progress * MatchingEngine :=
  match parseUUID (mux_Var r "order_id") with
  | None => (Answered (http_Error StatusBadRequest "Invalid order_id"), me)
  | Some orderID =>
      match engine_CancelOrder me orderID with
      | (inl err, me1) => (Answered (http_Error StatusInternalServerError (error_string err)), me1)
      | (inr ch, me1) => (AwaitCancel ch, me1)
      end
  end.

Definition CancelOrder_end (me : MatchingEngine) (resp : CommandResponse) : Response Body :=
  match call_result resp with
  | (_, Some err) => http_Error StatusInternalServerError (error_string err)
  | (response, None) =>
      match crError response with
      | Some err => http_Error StatusNotFound (error_string err)
      | None => mkResponse StatusOK json_header (BodyCancelled (order_at me <$> crOrder response))
      end
  end.

(** ** GET /orders/{order_id} *)

(** [stored]: the [GetOrder] of the PostgreSQL store, if there is one. *)
Definition handle_GetOrder (me : MatchingEngine) (stored : option (uuid -> option Order)) (r : Request)
    : Response Body * MatchingEngine :=
  let orderIDStr := mux_Var r "order_id" in
  match uuid_Parse orderIDStr with
  | None => respondError me StatusBadRequest "Invalid order ID format"
  | Some orderID =>
      match (get ← stored; get orderID) with
      | Some order => (mkResponse StatusOK (<["X-Data-Source" := "database"]> json_header) (BodyOrder order), me)
      | None =>
          match GetOrder (orderBook me) orderIDStr with
          | None => respondError me StatusNotFound "Order not found"
          | Some order =>
              (mkResponse StatusOK (<["X-Data-Source" := "in-memory"]> json_header) (BodyOrder (order_at me order)), me)
          end
      end
  end.

(** ** GET /orderbook *)

Definition parse_levels (s : string) : Z :=
  if bool_decide (s <> "") then
    match Atoi s with Some parsed => if (0 <? parsed)%Z then parsed else 20%Z | None => 20%Z end
  else 20%Z.

Definition parse_stale_threshold (s : string) : Z :=
  if bool_decide (s <> "") then
    match Atoi s with Some parsed => if (0 <? parsed)%Z then parsed else 5000%Z | None => 5000%Z end
  else 5000%Z.

Definition default_instrument (s : string) : string := if bool_decide (s = "") then "BTC-USD" else s.

(** One side's loop: the levels, the depths, the running depth and the total. *)
Definition depth_step (s : Store) (st : list OrderBookLevel * list decimal * decimal * decimal) (level : lref)
    : list OrderBookLevel * list decimal * decimal * decimal :=
  let '(out, depths, cumulative, total) := st in
  let size := plVolume (get_level s level) in
  let cumulative' := decimal_Add cumulative size in
  (out ++ [mkOrderBookLevel (plPrice (get_level s level)) size cumulative'],
   depths ++ [cumulative'], cumulative', decimal_Add total size).
Definition depth_loop (s : Store) (levels : list lref) : list OrderBookLevel * list decimal * decimal * decimal :=
  foldl (depth_step s) ([], [], decimal_Zero, decimal_Zero) levels.

(** [None]: [GetTopLevels] panics. *)
Definition handle_GetOrderBook (me : MatchingEngine) (snapshotManager : bool) (r : Request)
    : option (Response Body * MatchingEngine) :=
  let instrument := default_instrument (query_Get r "instrument") in
  let n := parse_levels (query_Get r "levels") in
  let includeFreshness := bool_decide (query_Get r "freshness" = "true") in
  let staleThresholdMs := parse_stale_threshold (query_Get r "stale_threshold_ms") in
  '(bidLevels, askLevels) ← GetTopLevels (orderBook me) n;
  let '(currentTime, me1) := getCurrentTimestamp me in
  let '(bids, bidDepth, _, totalBid) := depth_loop (heap me1) bidLevels in
  let '(asks, askDepth, _, totalAsk) := depth_loop (heap me1) askLevels in
  let freshness :=
    if includeFreshness then Some (mkFreshnessMetadata currentTime 0 snapshotManager false staleThresholdMs)
    else None in
  let response := mkOrderBookResponse instrument bids asks totalBid totalAsk bidDepth askDepth currentTime
                    freshness "in-memory" in
  Some (mkResponse StatusOK
    (<["Cache-Control" := "no-cache, must-revalidate"]> (<["X-Data-Source" := "in-memory"]> json_header))
    (BodyOrderBook response), me1).

(** ** GET /trades *)

(** The query: an error, or the rows (each may fail to scan) and the error
    [rows.Err] reports after the last one. *)
Context (query_trades : string -> Z -> Z -> string + (list (string + TradeRow) * option string)).

Definition trade_view (row : TradeRow) : TradeView :=
  mkTradeView (uuid_String (trTradeID row)) (uuid_String (trBuyOrderID row)) (uuid_String (trSellOrderID row))
    (trInstrument row) (default decimal_Zero (decimal_NewFromString (trPrice row)))
    (default decimal_Zero (decimal_NewFromString (trQuantity row))) (unix_milli (trTimestamp row)).

Fixpoint scan_rows (rows : list (string + TradeRow)) (trades : list TradeView) : string + list TradeView :=
  match rows with
  | [] => inr trades
  | inl err :: _ => inl err
  | inr row :: rows' => scan_rows rows' (trades ++ [trade_view row])
  end.

Definition getTradesWithPagination (instrument : string) (limit offset : Z) : string + list TradeView :=
  match query_trades instrument limit offset with
  | inl err => inl err
  | inr (rows, rowsErr) =>
      match scan_rows rows [] with
      | inl err => inl err
      | inr trades => match rowsErr with Some err => inl err | None => inr trades end
      end
  end.

Definition parse_limit (s : string) : Z :=
  if bool_decide (s <> "") then
    match Atoi s with
    | Some parsedLimit =>
        let limit := if (1000 <? parsedLimit)%Z then 1000%Z else parsedLimit in
        if (limit <? 1)%Z then 1%Z else limit
    | None => 50%Z
    end
  else 50%Z.

Definition parse_offset (s : string) : Z :=
  if bool_decide (s <> "") then
    match Atoi s with Some parsedOffset => if (0 <=? parsedOffset)%Z then parsedOffset else 0%Z | None => 0%Z end
  else 0%Z.

(** The page for a limit and an offset. *)
Definition trades_page (instrument : string) (limit offset : Z) : string + TradesPage :=
  match getTradesWithPagination instrument limit offset with
  | inl err => inl err
  | inr trades =>
      let count := Z.of_nat (length trades) in
      inr (mkTradesPage instrument trades limit offset count (count =? limit)%Z)
  end.

Definition handle_GetTrades (me : MatchingEngine) (postgres : bool) (r : Request) : Response Body * MatchingEngine :=
  let instrument := default_instrument (query_Get r "instrument") in
  let limit := parse_limit (query_Get r "limit") in
  let offset := parse_offset (query_Get r "offset") in
  if negb postgres then respondError me StatusServiceUnavailable "Database not available"
  else
    match trades_page instrument limit offset with
    | inl err => respondError me StatusInternalServerError ("Failed to retrieve trades: " +:+ err)
    | inr page => (mkResponse StatusOK (<["X-Data-Source" := "database"]> json_header) (BodyTrades page), me)
    end.

(** ** The rest of the router *)

Definition HealthCheck : Response Body := mkResponse StatusOK json_header BodyHealthy.

(** [generated]: the identifier [logging.NewCorrelationID] would draw. *)
Definition correlationIDMiddleware (generated : string) (next : Request -> Response Body) (r : Request)
    : Response Body :=
  let given := header_Get r "X-Correlation-ID" in
  let correlationID := if bool_decide (given = "") then generated else given in
  let resp := next (with_correlation r correlationID) in
  mkResponse (respStatus resp) (<["X-Correlation-ID" := correlationID]> (respHeader resp)) (respBody resp).

Definition GetCorrelationID (r : Request) : string := default "" (reqCorrelation r).
End api.
