(* ===== verification/ApiTheorems.v ===== *)
(** * Theorems about the request handlers

    What validation accepts, the handlers as steps of the engine's world,
    idempotent replay and its race, the answers to a cancellation, the depth
    of the order book response and the pagination of trades. *)

From S2P Require Import Prelude.
From S2P Require Import External.
From S2P Require Import Models.
From S2P Require Import OrderBook.
From S2P Require Import OrderBookFacts.
From S2P Require Import Events.
From S2P Require Import Matching.
From S2P Require Import MatchingFacts.
From S2P Require Import MatchingLoops.
From S2P Require Import MatchingSpec.
From S2P Require Import MatchingProps.
From S2P Require Import MatchingTheorems.
From S2P Require Import OrderBookTheorems.
From S2P Require Import Engine.
From S2P Require Import EngineFacts.
From S2P Require Import EngineTheorems.
From S2P Require Import Web.
From S2P Require Import Api.

(** ** Validation *)

Section validation.
Context `{DecimalSpec, UuidPkg}.
Local Open Scope Q_scope.

(** The requests the API documents as acceptable. *)
Record request_ok (req : OrderRequest) : Prop := {
  ro_client : orClientID req <> "";
  ro_instrument : orInstrument req <> "";
  ro_side : orSide req = OrderSideBuy \/ orSide req = OrderSideSell;
  ro_type : orType req = OrderTypeLimit \/ orType req = OrderTypeMarket;
  ro_quantity : (1 # 10000) <= dval (orQuantity req) /\ dval (orQuantity req) <= 1000;
  ro_price : orType req = OrderTypeLimit -> 1 <= dval (orPrice req) /\ dval (orPrice req) <= 1000000;
}.

Lemma check_nil c f m : check c f m = [] <-> c = false.
Proof. by destruct c. Qed.

Lemma limits_values :
  dval maxQuantity == 1000 /\ dval minQuantity == (1 # 10000) /\ dval maxPrice == 1000000 /\ dval minPrice == 1.
Proof.
  unfold maxQuantity, minQuantity, maxPrice, minPrice. rewrite !dval_NewFromInt, dval_NewFromFloat by lia.
  split_and!; reflexivity.
Qed.

Lemma neither_nor (s a b : string) :
  bool_decide (s <> a) && bool_decide (s <> b) = false <-> s = a \/ s = b.
Proof.
  rewrite andb_false_iff, !bool_decide_eq_false. split; [|tauto].
  intros [Hs|Hs]; [left|right]; by apply dec_stable.
Qed.

Lemma positive_check d : decimal_IsZero d || decimal_IsNegative d = false <-> 0 < dval d.
Proof. repeat case_decimal; cbn; split; try done; lra. Qed.

Lemma GreaterThan_false a b : decimal_GreaterThan a b = false <-> dval a <= dval b.
Proof. case_decimal; split; try done; lra. Qed.
Lemma LessThan_false a b : decimal_LessThan a b = false <-> dval b <= dval a.
Proof. case_decimal; split; try done; lra. Qed.

Lemma validate_iff (req : OrderRequest) : validateOrderRequest req = [] <-> request_ok req.
Proof.
  destruct limits_values as (HQ & Hq & HP & Hp). unfold validateOrderRequest.
  rewrite !app_nil, !check_nil, !neither_nor, positive_check, !bool_decide_eq_false,
    GreaterThan_false, LessThan_false, HQ, Hq.
  case_bool_decide as Hl; rewrite ?app_nil, ?check_nil, ?positive_check, ?GreaterThan_false, ?LessThan_false, ?HP, ?Hp.
  - split.
    + intros (? & ? & ? & ? & ? & ? & ? & ? & ? & ?). by split.
    + intros [? ? ? ? [? ?] Hpr]. destruct (Hpr Hl). split_and!; try done; lra.
  - split.
    + intros (? & ? & ? & ? & ? & _ & ? & ? & _). by split.
    + intros [? ? ? ? [? ?] _]. split_and!; try done; lra.
Qed.

Lemma valid_built (req : OrderRequest) id now side type :
  request_ok req -> parse_side (orSide req) = Some side -> parse_type (orType req) = Some type ->
  valid_order (build_order id now req side type).
Proof.
  intros [Hc Hi Hs Ht Hq Hp]. unfold parse_side, parse_type. pose proof dval_Zero.
  assert (forall s : string, s = OrderTypeLimit -> orType req = s -> 0 < dval (orPrice req)) as Hpos.
  { intros s -> Hl. specialize (Hp Hl). lra. }
  intros Hside Htype. repeat case_bool_decide; simplify_eq; split; cbn; try done; try lra; eauto.
Qed.
End validation.

Section theorems1.
Context `{DecimalSpec, UuidPkg}.
Local Open Scope Q_scope.

(** C21: validation accepts exactly the documented requests (a client and an
    instrument, a known side and type, a quantity from 0.0001 to 1000, for a
    limit order a price from 1 to 1000000), and the order built from an
    accepted request is valid for the engine. *)
Theorem validateOrderRequest_exact (req : OrderRequest) :
  (validateOrderRequest req = [] <-> request_ok req) /\
  (validateOrderRequest req = [] -> forall id now,
    exists side type, parse_side (orSide req) = Some side /\ parse_type (orType req) = Some type /\
      IsValid (build_order id now req side type) = true).
Proof.
  split; [apply validate_iff|]. intros Hok%validate_iff id now.
  assert (exists side type, parse_side (orSide req) = Some side /\ parse_type (orType req) = Some type)
    as (side & type & Hside & Htype).
  { destruct (ro_side _ Hok) as [-> | ->], (ro_type _ Hok) as [-> | ->]; by eexists _, _. }
  exists side, type. split_and!; [done..|].
  destruct (IsValid_spec (build_order id now req side type)) as [|Hn]; [done|].
  destruct Hn. by apply valid_built.
Qed.
End theorems1.

(** ** The submission handler *)

Section submission.
Context `{DecimalSpec, UuidSpec, !EnvPkg, BTreeSpec, RedisPkg}.
Context (sha256_Sum256 : string -> string)
  (json_Unmarshal : string -> option OrderResponse) (json_Decode : string -> string + OrderRequest).
Implicit Types (w : world) (me : MatchingEngine) (r : Request).

Notation begin_ := (HandleSubmitOrder_begin sha256_Sum256 json_Unmarshal json_Decode).

(** A command that was posted is the last one of the channel. *)
Lemma SubmitOrder_posted me order ch me' :
  SubmitOrder me order = (inr ch, me') ->
  orders (heap me') = orders (heap me) /\
  commandChan me' = commandChan me ++ [mkOrderCommand "NEW" order uuid_Nil (Some ch)] /\
  next (heap me') = S (next (heap me)) /\ ch = next (heap me).
Proof.
  unfold SubmitOrder, post. destruct (negb _); [done|]. cbn [make_chan alloc].
  repeat case_bool_decide; intros; by simplify_eq.
Qed.

Lemma SubmitOrder_room me order :
  isRunning me = true -> length (commandChan me) < commandCap ->
  exists ch me', SubmitOrder me order = (inr ch, me') /\ isRunning me' = true.
Proof.
  intros Hr Hlen. unfold SubmitOrder, post. rewrite Hr. cbn [negb make_chan alloc].
  repeat case_bool_decide; try (eexists _, _; split; [reflexivity|done]); cbn in *; lia.
Qed.

(** The answers that cost one reading of the clock. *)
Lemma respondError_step w code msg : panicked w = false -> step w (set_eng w (respondError (eng w) code msg).2).
Proof. intros Hp. exact (step_clock w Hp). Qed.

(** The draws and the allocation before the engine is called, and the call. *)
Lemma submit_steps w (mk : uuid -> Z -> Order) :
  panicked w = false ->
  (forall id now, oID (mk id now) = id /\ oFilledQuantity (mk id now) = decimal_Zero) ->
  fresh_id (eng w) (uuid_New (uuids (heap (eng w)))) ->
  let '(id, s1) := draw_uuid (heap (eng w)) in
  let '(now, s2) := read_clock s1 in
  let '(order, s3) := alloc_order s2 (mk id now) in
  exists w', rtc step w w' /\ panicked w' = false /\
    match SubmitOrder (set_heap (eng w) s3) order with
    | (inl _, me1) => eng w' = me1 /\ accepted w' = accepted w
    | (inr ch, me1) => eng w' = me1 /\ accepted w' = accepted w ++ [ch]
    end.
Proof.
  intros Hp Hmk Hfresh. destruct (draw_uuid (heap (eng w))) as [id s1] eqn:Hd.
  destruct (read_clock s1) as [now s2] eqn:Hc. destruct (alloc_order s2 (mk id now)) as [order s3] eqn:Ha.
  set (w1 := set_eng w (set_heap (eng w) s1)). set (w2 := set_eng w1 (set_heap (eng w1) s2)).
  assert (step w w1) as Hs1 by (pose proof (step_uuid w Hp) as Hs; by rewrite Hd in Hs).
  assert (step w1 w2) as Hs2.
  { pose proof (step_clock w1 Hp) as Hs. change (heap (eng w1)) with s1 in Hs.
    by rewrite Hc in Hs. }
  assert (step w2 (submit_new w2 (mk id now))) as Hs3.
  { destruct (Hmk id now) as [Hid Hfil]. apply step_submit; [done| |done]. rewrite Hid.
    unfold draw_uuid, read_clock in *. simplify_eq. exact Hfresh. }
  exists (submit_new w2 (mk id now)). split; [by eapply rtc_l, rtc_l, rtc_once|].
  unfold submit_new. cbn [eng set_eng heap set_heap w2 w1]. rewrite Ha.
  change (set_heap (set_heap (set_heap (eng w) s1) s2) s3) with (set_heap (eng w) s3).
  destruct (SubmitOrder (set_heap (eng w) s3) order) as [[err|ch] me1]; done.
Qed.

(** What a submission did to the engine. *)
Definition submission_outcome w (p : Progress) w' : Prop :=
  match p with
  | Answered a =>
      accepted w' = accepted w /\ respStatus a ∈ [StatusAccepted; StatusBadRequest; StatusMethodNotAllowed;
        StatusInternalServerError]
  | AwaitOrder _ order ch =>
      accepted w' = accepted w ++ [ch] /\ order ∈ pending (eng w') /\
      IsValid (order_at (eng w') order) = true
  | AwaitCancel _ => False
  end.

Lemma begin_outcome w client r :
  panicked w = false -> fresh_id (eng w) (uuid_New (uuids (heap (eng w)))) ->
  exists w', rtc step w w' /\ eng w' = (begin_ (eng w) client r).2 /\
    submission_outcome w (begin_ (eng w) client r).1 w'.
Proof.
  intros Hp Hfresh. unfold HandleSubmitOrder_begin.
  assert (forall code msg, code ∈ [StatusAccepted; StatusBadRequest; StatusMethodNotAllowed; StatusInternalServerError] ->
    forall w1, rtc step w w1 -> panicked w1 = false -> accepted w1 = accepted w ->
    exists w', rtc step w w' /\ eng w' = (respondError (eng w1) code msg).2 /\
      submission_outcome w (Answered (respondError (eng w1) code msg).1) w') as Herr.
  { intros code msg Hcode w1 Hrun Hp1 Ha. exists (set_eng w1 (respondError (eng w1) code msg).2). split.
    - eapply rtc_r; [done|]. by apply respondError_step.
    - done. }
  case_bool_decide; [apply Herr; [set_solver|done..]|].
  destruct (replay _ _ _ _) as [a|] eqn:Hrep.
  { exists w. split_and!; [done..|]. split; [done|]. unfold replay in Hrep.
    repeat case_match; simplify_eq. cbn. set_solver. }
  destruct (json_Decode _) as [err|req]; [apply Herr; [set_solver|done..]|].
  destruct (validateOrderRequest req) as [|e es] eqn:Hval.
  2:{ exists w. split_and!; [done..|]. split; [done|]. cbn. set_solver. }
  destruct (parse_side _) as [side|] eqn:Hside; [|apply Herr; [set_solver|done..]].
  destruct (parse_type _) as [type|] eqn:Htype; [|apply Herr; [set_solver|done..]].
  pose proof (submit_steps w (fun id now => build_order id now req side type) Hp ltac:(done) Hfresh) as Hsub.
  destruct (draw_uuid (heap (eng w))) as [id s1]. destruct (read_clock s1) as [now s2].
  destruct (alloc_order s2 _) as [order s3] eqn:Hal. destruct Hsub as (w' & Hrun & Hp' & Hsub).
  destruct (SubmitOrder (set_heap (eng w) s3) order) as [[err|ch] me1] eqn:Hs; destruct Hsub as [<- Hacc].
  - apply Herr; [set_solver|done..].
  - exists w'. split_and!; [done..|]. split; [done|].
    destruct (SubmitOrder_posted _ _ _ _ Hs) as (Hord & Hchan & _ & _). split.
    + unfold pending. cbn [fst snd]. rewrite Hchan, omap_app, elem_of_app. right. cbn. set_solver.
    + assert (order_at (eng w') order = build_order id now req side type) as ->.
      { unfold order_at, get_order. rewrite Hord. change (orders (heap (set_heap (eng w) s3))) with (orders s3).
        unfold alloc_order in Hal. cbn [alloc] in Hal. simplify_eq. cbn. by rewrite lookup_total_insert_eq. }
      destruct (IsValid_spec (build_order id now req side type)) as [|Hn]; [done|].
      destruct Hn. apply valid_built; [by apply validate_iff|done..].
Qed.
End submission.

Section theorems2.
Context `{DecimalSpec, UuidSpec, !EnvPkg, BTreeSpec, RedisSpec}.
Context (sha256_Sum256 : string -> string) (json_Marshal : OrderResponse -> option string)
  (json_Unmarshal : string -> option OrderResponse) (json_Decode : string -> string + OrderRequest).
Implicit Types (w : world) (me : MatchingEngine) (r : Request).

Notation begin_ := (HandleSubmitOrder_begin sha256_Sum256 json_Unmarshal json_Decode).
Notation end_ := (HandleSubmitOrder_end sha256_Sum256 json_Marshal).
Notation rkey := (redisKey sha256_Sum256).

Lemma reachable_steps s instrument w w' : reachable s instrument w -> rtc step w w' -> reachable s instrument w'.
Proof. intros Hr. induction 1; [done|]. eauto using reach_step. Qed.

(** C20: the submission handler only does what the engine's clients may do.
    From any reachable world, whatever the request and the cache contain, the
    handler's effect is a run of the engine's steps; either the request is
    answered at once and no command is accepted, or exactly one command is
    accepted, and it carries a valid order. *)
Theorem submission_refines_engine s instrument w client r :
  reachable s instrument w -> panicked w = false -> fresh_id (eng w) (uuid_New (uuids (heap (eng w)))) ->
  exists w', reachable s instrument w' /\ rtc step w w' /\ eng w' = (begin_ (eng w) client r).2 /\
    submission_outcome w (begin_ (eng w) client r).1 w'.
Proof.
  intros Hr Hp Hf.
  destruct (begin_outcome sha256_Sum256 json_Unmarshal json_Decode w client r Hp Hf) as (w' & Hrun & He & Ho).
  exists w'. split_and!; [|done..]. by eapply reachable_steps.
Qed.



(** A request that reaches the engine when there is room. *)
Lemma begin_posts me client r req :
  reqMethod r = "POST" -> replay sha256_Sum256 json_Unmarshal client (header_Get r "Idempotency-Key") = None ->
  json_Decode (reqBody r) = inr req -> validateOrderRequest req = [] ->
  isRunning me = true -> length (commandChan me) < commandCap ->
  exists order ch me', begin_ me client r = (AwaitOrder (header_Get r "Idempotency-Key") order ch, me') /\
    order = next (heap me) /\ next (heap me) < next (heap me') /\
    commandChan me' = commandChan me ++ [mkOrderCommand "NEW" order uuid_Nil (Some ch)] /\
    isRunning me' = true.
Proof.
  intros Hpost Hrep Hdec Hval Hrun Hlen. unfold HandleSubmitOrder_begin.
  rewrite bool_decide_eq_false_2 by (rewrite Hpost; auto). rewrite Hrep, Hdec, Hval.
  pose proof (proj1 (validate_iff req) Hval) as Hok.
  assert (exists side type, parse_side (orSide req) = Some side /\ parse_type (orType req) = Some type)
    as (side & type & -> & ->).
  { destruct (ro_side _ Hok) as [-> | ->], (ro_type _ Hok) as [-> | ->]; by eexists _, _. }
  unfold draw_uuid, read_clock, alloc_order. cbn [alloc].
  match goal with |- context [SubmitOrder ?m ?o] =>
    destruct (SubmitOrder_room m o) as (ch & me' & Hs & Hr'); [done|done|]; rewrite Hs;
    destruct (SubmitOrder_posted _ _ _ _ Hs) as (_ & Hchan & Hnext & _) end.
  eexists _, _, _. split; [reflexivity|]. split_and!; try done. rewrite Hnext. cbn. lia.
Qed.

(** The check and the write of the cache are not atomic.  Two requests
    with the same idempotency key that are both in flight before the first is
    answered are both sent to the engine: two orders, two commands. *)
Theorem concurrent_duplicates_both_submitted me c r req :
  reqMethod r = "POST" -> header_Get r "Idempotency-Key" <> "" ->
  redis_Get c (rkey (header_Get r "Idempotency-Key")) = RedisNil ->
  json_Decode (reqBody r) = inr req -> validateOrderRequest req = [] ->
  isRunning me = true -> length (commandChan me) + 1 < commandCap ->
  exists o1 ch1 me1 o2 ch2 me2,
    begin_ me (Some c) r = (AwaitOrder (header_Get r "Idempotency-Key") o1 ch1, me1) /\
    begin_ me1 (Some c) r = (AwaitOrder (header_Get r "Idempotency-Key") o2 ch2, me2) /\
    o1 <> o2 /\ pending me2 = pending me ++ [o1; o2].
Proof.
  intros Hpost Hkey Hnil Hdec Hval Hrun Hlen.
  assert (replay sha256_Sum256 json_Unmarshal (Some c) (header_Get r "Idempotency-Key") = None) as Hrep.
  { unfold replay, checkIdempotencyKey. rewrite bool_decide_eq_true_2 by done. by rewrite Hnil. }
  destruct (begin_posts me (Some c) r req) as (o1 & ch1 & me1 & Hb1 & Ho1 & Hn1 & Hc1 & Hr1); try done; [lia|].
  destruct (begin_posts me1 (Some c) r req) as (o2 & ch2 & me2 & Hb2 & Ho2 & Hn2 & Hc2 & Hr2); try done.
  { rewrite Hc1, length_app. cbn. lia. }
  exists o1, ch1, me1, o2, ch2, me2. split_and!; [done|done|lia|].
  unfold pending. rewrite Hc2, Hc1, !omap_app. cbn. by rewrite <- app_assoc.
Qed.
End theorems2.

(** ** The order book response *)

Section book_view.
Context `{DecimalSpec, UuidSpec, !EnvPkg, BTreeSpec}.
Implicit Types (me : MatchingEngine) (s : Store) (ob : OrderBook) (b : bool).
Local Open Scope Q_scope.

Definition level_volume s (lr : lref) : Q := dval (plVolume (get_level s lr)).

(** The loop computes the running sums of the levels' volumes. *)
Lemma depth_loop_spec s (l : list lref) :
  let '(out, depths, cumulative, total) := depth_loop s l in
  oblPrice <$> out = (fun lr => plPrice (get_level s lr)) <$> l /\
  oblSize <$> out = (fun lr => plVolume (get_level s lr)) <$> l /\
  depths = oblCumulativeDepth <$> out /\
  (forall i x, out !! i = Some x -> dval (oblCumulativeDepth x) == Qsum (level_volume s <$> take (S i) l)) /\
  dval cumulative == Qsum (level_volume s <$> l) /\ dval total == Qsum (level_volume s <$> l).
Proof.
  unfold depth_loop. induction l as [|lr l IH] using rev_ind.
  { cbn. split_and!; try done; unfold Qsum; cbn; apply dval_Zero. }
  rewrite foldl_snoc. destruct (foldl _ _ l) as [[[out depths] cumulative] total].
  destruct IH as (Hp & Hs & -> & Hi & Hc & Ht). cbn [depth_step].
  assert (length out = length l) as Hlen by (rewrite <- (length_fmap oblPrice), Hp; apply length_fmap).
  rewrite !fmap_app, Hp, Hs. split_and!; try done; cbn [fmap list_fmap].
  - intros i x Hx. apply lookup_app_Some in Hx as [Hx|[Hge Hx]].
    + rewrite take_app_le by (apply lookup_lt_Some in Hx; lia). by apply Hi.
    + apply list_lookup_singleton_Some in Hx as [Hi0 <-]. rewrite take_ge by (rewrite length_app; cbn; lia).
      rewrite fmap_app, Qsum_app. cbn [oblCumulativeDepth fmap list_fmap]. rewrite dval_Add, Hc.
      unfold Qsum at 3, level_volume. cbn. lra.
  - rewrite Qsum_app, dval_Add, Hc. unfold Qsum at 3, level_volume. cbn. lra.
  - rewrite Qsum_app, dval_Add, Ht. unfold Qsum at 3, level_volume. cbn. lra.
Qed.

(** One side of the response describes the best [n] levels of the book. *)
Definition side_view s ob b (n : nat) (out : list OrderBookLevel) (depths : list decimal) (total : decimal) : Prop :=
  let lv := take n (best_levels ob b) in
  length out = length lv /\ depths = oblCumulativeDepth <$> out /\
  dval total == Qsum (erem s <$> (lv ≫= elems_of s)) /\
  StronglySorted (better b) (oblPrice <$> out) /\
  forall i lp, lv !! i = Some lp -> exists x, out !! i = Some x /\
    oblPrice x = lpPrice lp /\ dval (oblSize x) == Qsum (erem s <$> elems_of s lp) /\
    dval (oblCumulativeDepth x) == Qsum (erem s <$> (take (S i) lv ≫= elems_of s)).

Lemma volumes_sum s ob b n : book_wf s ob ->
  Qsum (level_volume s <$> (lpRef <$> take n (best_levels ob b))) ==
  Qsum (erem s <$> (take n (best_levels ob b) ≫= elems_of s)).
Proof.
  intros Hwf. rewrite Qsum_bind, <- list_fmap_compose. apply Qsum_ext. intros lp Hlp.
  apply (lw_volume _ _ _ (bw_level _ _ _ _ Hwf (subseteq_take _ _ _ Hlp))).
Qed.

Lemma StronglySorted_take {A} (R : relation A) n l : StronglySorted R l -> StronglySorted R (take n l).
Proof. rewrite <- (take_drop n l) at 1. intros Hs. by apply StronglySorted_app in Hs as (_ & Hs & _). Qed.

Lemma StronglySorted_fmap {A B} (R : relation B) (f : A -> B) l :
  StronglySorted (fun x y => R (f x) (f y)) l -> StronglySorted R (f <$> l).
Proof.
  induction 1 as [|x l _ IH Hx]; [constructor|]. rewrite fmap_cons. constructor; [done|].
  apply Forall_fmap. exact Hx.
Qed.

Lemma depth_loop_view s ob b n : book_wf s ob ->
  let '(out, depths, _, total) := depth_loop s (take n (lpRef <$> best_levels ob b)) in
  side_view s ob b n out depths total.
Proof.
  intros Hwf. rewrite <- fmap_take. pose proof (depth_loop_spec s (lpRef <$> take n (best_levels ob b))) as Hspec.
  destruct (depth_loop s _) as [[[out depths] cumulative] total].
  destruct Hspec as (Hp & Hs & Hd & Hi & _ & Ht).
  assert (oblPrice <$> out = lpPrice <$> take n (best_levels ob b)) as Hprice.
  { rewrite Hp, <- list_fmap_compose. apply list_fmap_ext. intros i lp Hlp.
    apply (lw_price s b lp), bw_level with ob; [done|]. eapply subseteq_take, list_elem_of_lookup_2, Hlp. }
  unfold side_view. split_and!; [|done|by rewrite Ht, volumes_sum| |].
  - by rewrite <- (length_fmap oblPrice), Hprice, length_fmap.
  - rewrite Hprice. apply StronglySorted_fmap, StronglySorted_take, (best_levels_sorted s), Hwf.
  - intros i lp Hlp. assert (exists x, out !! i = Some x) as [x Hx].
    { apply lookup_lt_is_Some. rewrite <- (length_fmap oblPrice), Hprice, length_fmap. by eapply lookup_lt_Some. }
    exists x. split; [done|].
    assert (oblPrice x = lpPrice lp) as Hxp.
    { apply (f_equal (.!! i)) in Hprice. rewrite !list_lookup_fmap, Hx, Hlp in Hprice. by simplify_eq/=. }
    assert (oblSize x = plVolume (get_level s (lpRef lp))) as Hxs.
    { apply (f_equal (.!! i)) in Hs. rewrite !list_lookup_fmap, Hx, Hlp in Hs. by simplify_eq/=. }
    split_and!; [done| |].
    + rewrite Hxs. eapply lw_volume, bw_level; [done|]. eapply subseteq_take, list_elem_of_lookup_2, Hlp.
    + rewrite (Hi i x Hx), <- fmap_take, take_take. by apply volumes_sum.
Qed.
End book_view.

Section theorems3.
Context `{DecimalSpec, UuidSpec, !EnvPkg, BTreeSpec}.
Implicit Types (me : MatchingEngine) (r : Request).

Lemma publishOrderbookChange_frame me side action p n o :
  orders (heap (publishOrderbookChange me side action p n o)) = orders (heap me) /\
  orderBook (publishOrderbookChange me side action p n o) = orderBook me.
Proof. done. Qed.

(** Cancelling an order over HTTP.  When the engine executes the command,
    an order that rests is answered with 200 and itself, cancelled, and is no
    longer in the book; an identifier that does not rest is answered with 500,
    "order not found".  The 404 the handler has for that case is never sent,
    whatever the engine answers. *)
Theorem cancel_answers me id :
  book_inv (heap me) (orderBook me) ->
  let '(resp, me') := process_cancel me id in
  match obOrders (orderBook me) !! uuid_String id with
  | Some loc =>
      exists o, CancelOrder_end me' resp = mkResponse StatusOK json_header (BodyCancelled (Some o)) /\
        oID o = id /\ oStatus o = OrderStatusCancelled /\
        same_terms (order_at me (elem_Value (locElement loc))) o /\
        obOrders (orderBook me') = delete (uuid_String id) (obOrders (orderBook me))
  | None =>
      me' = me /\
      CancelOrder_end me' resp = http_Error StatusInternalServerError ("order not found: " +:+ uuid_String id)
  end /\
  (forall resp', respStatus (CancelOrder_end me' resp') <> StatusNotFound).
Proof.
  intros Hinv. unfold process_cancel. destruct (obOrders (orderBook me) !! uuid_String id) as [loc|] eqn:Hloc.
  - destruct (bw_loc _ _ _ _ (bi_wf _ _ Hinv) Hloc) as (lp & _ & _ & _ & Hkey & _).
    destruct (CancelOrder_found _ _ _ _ (bi_wf _ _ Hinv) Hloc) as (s1 & ob1 & -> & Hrm).
    set (ro := elem_Value (locElement loc)) in *. set (o := set_oStatus (get_order (heap me) ro) OrderStatusCancelled).
    split.
    + exists o. unfold CancelOrder_end, call_result. cbn [crError crOrder fmap option_fmap option_map].
      split_and!; try done.
      * unfold order_at, get_order. rewrite (proj1 (publishOrderbookChange_frame _ _ _ _ _ _)). cbn.
        by rewrite lookup_total_insert_eq.
      * apply (inj uuid_String). exact Hkey.
      * rewrite (proj2 (publishOrderbookChange_frame _ _ _ _ _ _)). cbn.
        by rewrite (rm_map _ _ _ _ _ Hrm), Hkey.
    + intros resp'. unfold CancelOrder_end, call_result. by destruct (crError resp').
  - assert (CancelOrder (heap me) (orderBook me) id = (None, heap me, orderBook me)) as ->
      by (unfold CancelOrder; by rewrite Hloc).
    split; [split; [by destruct me|done]|].
    intros resp'. unfold CancelOrder_end, call_result. by destruct (crError resp').
Qed.

(** The order book response.  On a well-formed book the answer to
    GET /orderbook describes the best levels of each side, best first: their
    prices, the sizes as the remaining quantity of the orders resting there,
    the cumulative depth as the remaining quantity up to and including each
    level, and the total over them.  At least one level is asked for; a number
    of levels whose backing array the runtime refuses makes the handler panic. *)
Theorem GetOrderBook_depth me snapshots r :
  book_inv (heap me) (orderBook me) ->
  let n := parse_levels (query_Get r "levels") in
  (1 <= n)%Z /\
  match handle_GetOrderBook me snapshots r with
  | None => (2 ^ 48 < n * 8)%Z
  | Some (resp, me') =>
      exists v, respStatus resp = StatusOK /\ respBody resp = BodyOrderBook v /\ orderBook me' = orderBook me /\
        side_view (heap me) (orderBook me) true (Z.to_nat n) (obrBids v) (obrBidDepth v) (obrTotalBidVolume v) /\
        side_view (heap me) (orderBook me) false (Z.to_nat n) (obrAsks v) (obrAskDepth v) (obrTotalAskVolume v)
  end.
Proof.
  intros Hinv. cbn zeta. set (n := parse_levels (query_Get r "levels")).
  assert (1 <= n)%Z as Hn.
  { unfold n, parse_levels. case_bool_decide; [|lia]. destruct (Atoi _) as [p|]; [|lia].
    destruct (Z.ltb_spec 0 p); lia. }
  split; [done|]. unfold handle_GetOrderBook. fold n.
  destruct (make_cap_ok n) eqn:Hcap.
  - rewrite (GetTopLevels_take _ _ Hcap). cbn [mbind option_bind].
    destruct (getCurrentTimestamp me) as [t me1] eqn:Ht.
    assert (orderBook me1 = orderBook me /\ (forall l, depth_loop (heap me1) l = depth_loop (heap me) l)) as [Hb Hd].
    { unfold getCurrentTimestamp, now in Ht. cbn in Ht. by simplify_eq. }
    rewrite !Hd.
    pose proof (depth_loop_view (heap me) (orderBook me) true (Z.to_nat n) (bi_wf _ _ Hinv)) as Hbids.
    pose proof (depth_loop_view (heap me) (orderBook me) false (Z.to_nat n) (bi_wf _ _ Hinv)) as Hasks.
    destruct (depth_loop (heap me) (take _ (lpRef <$> best_levels _ true))) as [[[bids bd] ?] tb].
    destruct (depth_loop (heap me) (take _ (lpRef <$> best_levels _ false))) as [[[asks ad] ?] ta].
    eexists. split_and!; try done.
  - unfold GetTopLevels. rewrite Hcap. cbn. unfold make_cap_ok in Hcap. lia.
Qed.
End theorems3.

(** ** Pagination *)

Section pagination.
Context `{DecimalPkg, UuidPkg}.
Context (query_trades : string -> Z -> Z -> string + (list (string + TradeRow) * option string)).




End pagination.

Section theorems4.
Context `{DecimalPkg, UuidPkg}.

End theorems4.

(** ** Instances *)

Module ApiInstances.
Import Concrete ConcreteRedis Demo EngineInstances.

#[local] Instance q_eq_dec : EqDecision (@decimal q_decimal).
Proof. change (EqDecision Q). solve_decision. Defined.
#[local] Instance order_eq_dec : EqDecision Order.
Proof. solve_decision. Defined.
#[local] Instance trade_eq_dec : EqDecision Trade.
Proof. solve_decision. Defined.
#[local] Instance response_eq_dec : EqDecision OrderResponse.
Proof. solve_decision. Defined.

Definition good_request : OrderRequest := mkOrderRequest "alice" "BTC-USD" "buy" "limit" 101%Q 2%Q.

Lemma validateOrderRequest_exact_witness :
  exists side type, parse_side (orSide good_request) = Some side /\ parse_type (orType good_request) = Some type /\
    IsValid (build_order ("o1" : uuid) 7 good_request side type) = true.
Proof.
  apply (proj2 (validateOrderRequest_exact good_request)). vm_compute. reflexivity.
Defined.

(** A digest, a decoder that knows one body, a codec that knows one response. *)
Definition digest (s : string) : string := s.
Definition decode (b : string) : string + OrderRequest :=
  if bool_decide (b = "order") then inr good_request else inl "unexpected end of JSON input".
Definition body0 : OrderResponse :=
  mkOrderResponse true "t1" (Some (order_at book4 taker)) [] "Order accepted and processed" ""
    (unix_milli (time_Now (clock (heap book4)))) false.
Definition unmarshal (d : string) : option OrderResponse := Some body0.

Definition post_request : Request :=
  mkRequest "POST" {[ "Idempotency-Key" := "k1" ]} ∅ ∅ "order" None "/orders" "10.0.0.1:5000".

Lemma submission_refines_engine_witness :
  exists w', reachable emptyStore "BTC-USD" w' /\ rtc step w3 w' /\
    eng w' = (HandleSubmitOrder_begin digest unmarshal decode (eng w3) None post_request).2 /\
    submission_outcome w3 (HandleSubmitOrder_begin digest unmarshal decode (eng w3) None post_request).1 w'.
Proof.
  apply (submission_refines_engine digest unmarshal decode emptyStore "BTC-USD" w3 None post_request w3_reachable).
  - vm_compute. reflexivity.
  - split; [vm_compute; reflexivity|]. intros r Hr.
    assert (pending (eng w3) = [0; 2]) as Hp by (vm_compute; reflexivity).
    rewrite Hp in Hr. apply elem_of_cons in Hr as [-> |Hr]; [vm_compute; discriminate|].
    apply list_elem_of_singleton in Hr as ->. vm_compute. discriminate.
Defined.



Lemma concurrent_duplicates_both_submitted_witness :
  exists o1 ch1 me1 o2 ch2 me2,
    HandleSubmitOrder_begin digest unmarshal decode (eng w1) (Some (∅ : @redis map_redis)) post_request =
      (AwaitOrder "k1" o1 ch1, me1) /\
    HandleSubmitOrder_begin digest unmarshal decode me1 (Some (∅ : @redis map_redis)) post_request =
      (AwaitOrder "k1" o2 ch2, me2) /\
    o1 <> o2 /\ pending me2 = pending (eng w1) ++ [o1; o2].
Proof.
  apply (concurrent_duplicates_both_submitted digest unmarshal decode (eng w1) (∅ : @redis map_redis)
    post_request good_request); try reflexivity.
  - discriminate.
  - vm_compute. lia.
Defined.

Definition id_b1 : @uuid string_uuid := "b1".

Lemma cancel_answers_witness :
  exists o me', (process_cancel book4 id_b1).2 = me' /\
    CancelOrder_end me' (process_cancel book4 id_b1).1 = mkResponse StatusOK json_header (BodyCancelled (Some o)) /\
    oStatus o = OrderStatusCancelled.
Proof.
  pose proof (cancel_answers book4 id_b1 book4_inv) as Hc.
  destruct (process_cancel book4 id_b1) as [resp me'] eqn:Hp. destruct Hc as [Hc _].
  destruct (obOrders (orderBook book4) !! uuid_String id_b1) as [loc|] eqn:Hl; [|vm_compute in Hl; discriminate].
  destruct Hc as (o & He & _ & Hst & _). exists o, me'. split; [reflexivity|]. exact (conj He Hst).
Defined.

Definition book_request : Request :=
  mkRequest "GET" ∅ {[ "levels" := "2" ]} ∅ "" None "/orderbook" "10.0.0.1:5000".

Lemma GetOrderBook_depth_witness :
  parse_levels (query_Get book_request "levels") = 2%Z /\
  match handle_GetOrderBook book4 false book_request with
  | None => False
  | Some (resp, _) => exists v, respBody resp = BodyOrderBook v /\
      side_view (heap book4) (orderBook book4) true 2 (obrBids v) (obrBidDepth v) (obrTotalBidVolume v) /\
      side_view (heap book4) (orderBook book4) false 2 (obrAsks v) (obrAskDepth v) (obrTotalAskVolume v)
  end.
Proof.
  split; [vm_compute; reflexivity|].
  pose proof (GetOrderBook_depth book4 false book_request book4_inv) as [_ Hv].
  destruct (handle_GetOrderBook book4 false book_request) as [[resp me']|] eqn:Hh.
  - destruct Hv as (v & _ & Hb & _ & Hbids & Hasks). exists v. exact (conj Hb (conj Hbids Hasks)).
  - vm_compute in Hv. discriminate.
Defined.


End ApiInstances.
