(* ===== verification/Validation.v ===== *)
(** * Input validation (src/validation)

    The field validators of input_validator.go, the detector and the activity
    log of security_guards.go, the HTTP middleware of middleware.go.

    A float64 argument is a finite value of the model of [Float], an infinity
    or NaN.  An error that wraps one of the package's sentinels keeps it and the
    text that follows.  The activity log reads the clock through [clk], one
    reading per call of [time.Now]; what it writes is kept in [salLog]. *)

From Stdlib Require Import Ascii String.
From S2P Require Import Prelude.
From S2P Require Import Float.
From S2P Require Import Web.
From S2P Require Import Json.
From S2P Require Import Text.

Local Open Scope string_scope.

(** ** Numbers *)

Inductive number := Finite (x : float64) | NaN | Inf (negative : bool).

(** [math.Pow(10, n)]: square and multiply on the fraction and the exponent of
    10 = 0.625 * 2^4; 64 steps are enough for an exponent of 63 bits. *)
Fixpoint pow_loop (fuel : nat) (i : Z) (a1 : float64) (ae : Z) (x1 : float64) (xe : Z) : float64 * Z :=
  match fuel with
  | 0 => (a1, ae)
  | S fuel' =>
      if (i =? 0)%Z then (a1, ae)
      else
        let '(a1, ae) := if Z.odd i then (f_mul a1 x1, (ae + xe)%Z) else (a1, ae) in
        let x2 := f_mul x1 x1 in
        let '(x1, xe) := if f_lt x2 (1 # 2) then (f_add x2 x2, (2 * xe - 1)%Z) else (x2, (2 * xe)%Z) in
        pow_loop fuel' (i / 2) a1 ae x1 xe
  end.
Definition math_Pow10 (n : Z) : float64 :=
  let '(a1, ae) := pow_loop 64 (Z.abs n) 1%Q 0 (5 # 8) 4 in
  if (n <? 0)%Z then Qred (f_div 1 a1 * pow2 (- ae))%Q else Qred (a1 * pow2 ae)%Q.

(** ** Limits *)

Definition MaxPricePrecision : Z := 8.
Definition MinPrice : float64 := fround (1 # 100000000).
Definition MaxPrice : float64 := fround (1000000000 # 1).
Definition MinQuantity : float64 := fround (1 # 100000000).
Definition MaxQuantity : float64 := fround (1000000000 # 1).
Definition MaxClientIDLength : Z := 64.
Definition MaxSymbolLength : Z := 20.
Definition MaxOrderIDLength : Z := 64.
Definition MaxRequestBodySize : Z := 1024 * 1024.

(** ** Errors *)

Inductive sentinel :=
  | ErrInvalidPrice | ErrPricePrecisionExceeded | ErrPriceOutOfRange | ErrInvalidQuantity | ErrQuantityOutOfRange
  | ErrInvalidClientID | ErrInvalidSymbol | ErrInvalidOrderID | ErrInvalidSide | ErrRequestBodyTooLarge
  | ErrMalformedJSON | ErrInvalidContentType.

#[global] Instance sentinel_eq_dec : EqDecision sentinel.
Proof. solve_decision. Defined.

Definition sentinel_text (e : sentinel) : string :=
  match e with
  | ErrInvalidPrice => "invalid price"
  | ErrPricePrecisionExceeded => "price precision exceeds 8 decimals"
  | ErrPriceOutOfRange => "price out of valid range"
  | ErrInvalidQuantity => "invalid quantity"
  | ErrQuantityOutOfRange => "quantity out of valid range"
  | ErrInvalidClientID => "invalid client_id format or length"
  | ErrInvalidSymbol => "invalid symbol format or length"
  | ErrInvalidOrderID => "invalid order_id format or length"
  | ErrInvalidSide => "invalid order side"
  | ErrRequestBodyTooLarge => "request body too large"
  | ErrMalformedJSON => "malformed JSON"
  | ErrInvalidContentType => "invalid content type, expected application/json"
  end.

(** The sentinel itself, [fmt.Errorf("%w: detail", sentinel)], any other text. *)
Inductive verror := VBare (e : sentinel) | VIs (e : sentinel) (detail : string) | VText (msg : string).

#[global] Instance verror_eq_dec : EqDecision verror.
Proof. solve_decision. Defined.

Definition verror_text (e : verror) : string :=
  match e with
  | VBare e => sentinel_text e
  | VIs e detail => sentinel_text e ++ ": " ++ detail
  | VText msg => msg
  end.

(** ** Regular expressions

    [^[class]+$]: not empty, and every byte in the class (a class of ASCII
    characters matches no byte of a longer encoding). *)

Definition id_char (c : ascii) : bool :=
  ascii_letter (code c) || ascii_digit (code c) || (code c =? 95)%Z || (code c =? 45)%Z.
Definition symbol_char (c : ascii) : bool := between 65 (code c) 90 || ascii_digit (code c).

Definition all_bytes (p : ascii -> bool) (s : string) : bool := forallb p (list_ascii_of_string s).
Definition matches (p : ascii -> bool) (s : string) : bool := negb (bool_decide (s = "")) && all_bytes p s.

Definition clientIDRegex : string -> bool := matches id_char.
Definition symbolRegex : string -> bool := matches symbol_char.
Definition orderIDRegex : string -> bool := matches id_char.

(** ** The validator *)

Record ValidationConfig := mkValidationConfig {
  vcMaxPricePrecision : Z;
  vcMinPrice : float64;
  vcMaxPrice : float64;
  vcMinQuantity : float64;
  vcMaxQuantity : float64;
  vcMaxClientIDLength : Z;
  vcMaxSymbolLength : Z;
  vcMaxRequestBodySize : Z;
}.

Definition DefaultValidationConfig : ValidationConfig :=
  mkValidationConfig MaxPricePrecision MinPrice MaxPrice MinQuantity MaxQuantity MaxClientIDLength MaxSymbolLength
    MaxRequestBodySize.

Record InputValidator := mkInputValidator { config : ValidationConfig }.

Definition NewInputValidator (c : option ValidationConfig) : InputValidator :=
  mkInputValidator (default DefaultValidationConfig c).
Definition NewDefaultInputValidator : InputValidator := NewInputValidator (Some DefaultValidationConfig).

Section validators.
Context `{UnicodePkg}.

Definition len (s : string) : Z := Z.of_nat (String.length s).

Definition checkPrecision (value : float64) (maxDecimals : Z) : option string :=
  let shifted := f_mul value (math_Pow10 maxDecimals) in
  let truncated := inject_Z (f_trunc shifted) in
  let difference := Qabs.Qabs (f_sub shifted truncated) in
  if f_lt (fround (1 # 1000000000)) difference
  then Some ("value " ++ fmt_f 15 value ++ " has more than " ++ Itoa maxDecimals ++ " decimal places")
  else None.

Definition ValidatePrice (iv : InputValidator) (price : number) : option verror :=
  match price with
  | NaN | Inf _ => Some (VIs ErrInvalidPrice "not a valid number")
  | Finite x =>
      if f_lt x (vcMinPrice (config iv)) then
        Some (VIs ErrPriceOutOfRange ("price " ++ fmt_f 10 x ++ " is below minimum " ++ fmt_f 10 (vcMinPrice (config iv))))
      else if f_lt (vcMaxPrice (config iv)) x then
        Some (VIs ErrPriceOutOfRange ("price " ++ fmt_f 2 x ++ " exceeds maximum " ++ fmt_f 2 (vcMaxPrice (config iv))))
      else VIs ErrPricePrecisionExceeded <$> checkPrecision x (vcMaxPricePrecision (config iv))
  end.

Definition ValidateQuantity (iv : InputValidator) (quantity : number) : option verror :=
  match quantity with
  | NaN | Inf _ => Some (VIs ErrInvalidQuantity "not a valid number")
  | Finite x =>
      if f_lt x (vcMinQuantity (config iv)) then
        Some (VIs ErrQuantityOutOfRange
                ("quantity " ++ fmt_f 10 x ++ " is below minimum " ++ fmt_f 10 (vcMinQuantity (config iv))))
      else if f_lt (vcMaxQuantity (config iv)) x then
        Some (VIs ErrQuantityOutOfRange
                ("quantity " ++ fmt_f 2 x ++ " exceeds maximum " ++ fmt_f 2 (vcMaxQuantity (config iv))))
      else None
  end.

Definition ValidateClientID (iv : InputValidator) (clientID : string) : option verror :=
  if bool_decide (clientID = "") then Some (VIs ErrInvalidClientID "client_id cannot be empty")
  else if (vcMaxClientIDLength (config iv) <? len clientID)%Z then
    Some (VIs ErrInvalidClientID ("client_id length " ++ Itoa (len clientID) ++ " exceeds maximum "
                                  ++ Itoa (vcMaxClientIDLength (config iv))))
  else if negb (ValidString clientID) then Some (VIs ErrInvalidClientID "client_id contains invalid UTF-8")
  else if negb (clientIDRegex clientID) then
    Some (VIs ErrInvalidClientID "client_id must contain only alphanumeric characters, underscores, and hyphens")
  else None.

Definition ValidateSymbol (iv : InputValidator) (symbol : string) : option verror :=
  if bool_decide (symbol = "") then Some (VIs ErrInvalidSymbol "symbol cannot be empty")
  else if (vcMaxSymbolLength (config iv) <? len symbol)%Z then
    Some (VIs ErrInvalidSymbol ("symbol length " ++ Itoa (len symbol) ++ " exceeds maximum "
                                ++ Itoa (vcMaxSymbolLength (config iv))))
  else if negb (symbolRegex symbol) then
    Some (VIs ErrInvalidSymbol "symbol must contain only uppercase letters and numbers")
  else None.

Definition ValidateOrderID (orderID : string) : option verror :=
  if bool_decide (orderID = "") then Some (VIs ErrInvalidOrderID "order_id cannot be empty")
  else if (MaxOrderIDLength <? len orderID)%Z then
    Some (VIs ErrInvalidOrderID ("order_id length " ++ Itoa (len orderID) ++ " exceeds maximum " ++ Itoa MaxOrderIDLength))
  else if negb (ValidString orderID) then Some (VIs ErrInvalidOrderID "order_id contains invalid UTF-8")
  else if negb (orderIDRegex orderID) then
    Some (VIs ErrInvalidOrderID "order_id must contain only alphanumeric characters, underscores, and hyphens")
  else None.

Definition ValidateSide (side : string) : option verror :=
  let side := ToLower (strings_TrimSpace side) in
  if negb (bool_decide (side = "buy")) && negb (bool_decide (side = "sell")) then
    Some (VIs ErrInvalidSide ("side must be 'buy' or 'sell', got '" ++ side ++ "'"))
  else None.

(** ** Requests *)

Record OrderRequest := mkOrderRequest {
  vrClientID : string; vrSymbol : string; vrSide : string; vrPrice : number; vrQuantity : number;
}.

Record CancelOrderRequest := mkCancelOrderRequest { vcClientID : string; vcOrderID : string; vcSymbol : string }.

Definition combine_errors (checks : list (option verror)) : option verror :=
  match omap (M := list) id checks with
  | [] => None
  | errs => Some (VText ("validation failed: " ++ fmt_errors (verror_text <$> errs)))
  end.

Definition ValidateOrderRequest (iv : InputValidator) (req : OrderRequest) : option verror :=
  combine_errors [ValidateClientID iv (vrClientID req); ValidateSymbol iv (vrSymbol req); ValidateSide (vrSide req);
                  ValidatePrice iv (vrPrice req); ValidateQuantity iv (vrQuantity req)].

Definition ValidateCancelOrderRequest (iv : InputValidator) (req : CancelOrderRequest) : option verror :=
  combine_errors [ValidateClientID iv (vcClientID req); ValidateOrderID (vcOrderID req); ValidateSymbol iv (vcSymbol req)].

Definition SanitizeString (s : string) (maxLen : nat) : string :=
  let str := of_runes (filter (fun r => (32 <= r)%Z \/ r = 10%Z \/ r = 9%Z) (runes s)) in
  if bool_decide (maxLen < String.length str) then prefix_bytes maxLen str else str.

Definition ValidateNumericRange (value : number) (min max : float64) (fieldName : string) : option string :=
  match value with
  | NaN | Inf _ => Some (fieldName ++ " is not a valid number")
  | Finite x =>
      if f_lt x min || f_lt max x then
        Some (fieldName ++ " " ++ fmt_f 2 x ++ " is out of valid range [" ++ fmt_f 2 min ++ ", " ++ fmt_f 2 max ++ "]")
      else None
  end.

(** ** Bodies *)

(** What reading a request's body yields: its bytes, then end of file or an
    error. *)
Record Body := mkBody { bdBytes : string; bdError : option string }.

Definition EOF_body : Body := mkBody "" None.

(** [io.ReadAll(io.LimitReader(body, n))] with what is left of the body. *)
Definition read_limited (n : Z) (b : Body) : string * option string * Body :=
  if (n <=? len (bdBytes b))%Z then
    let '(a, rest) := split_at (Z.to_nat n) (bdBytes b) in (a, None, mkBody rest (bdError b))
  else (bdBytes b, bdError b, mkBody "" (bdError b)).

(** [http.MaxBytesReader]. *)
Definition MaxBytesReader (n : Z) (b : Body) : Body :=
  if (n <? len (bdBytes b))%Z
  then mkBody (split_at (Z.to_nat n) (bdBytes b)).1 (Some "http: request body too large") else b.

Definition ValidateRequestBody (iv : InputValidator) (r : Request) (b : Body) (maxSize : Z) : (verror + string) * Body :=
  let contentType := header_Get r "Content-Type" in
  if negb (bool_decide (contentType = "")) && negb (Contains contentType "application/json")
  then (inl (VBare ErrInvalidContentType), b)
  else
    let maxSize := if (maxSize <=? 0)%Z then vcMaxRequestBodySize (config iv) else maxSize in
    let '(body, err, b') := read_limited (maxSize + 1) b in
    match err with
    | Some e => (inl (VText ("failed to read request body: " ++ e)), b')
    | None =>
        if (maxSize <? len body)%Z then
          (inl (VIs ErrRequestBodyTooLarge
                  ("body size " ++ Itoa (len body) ++ " exceeds maximum " ++ Itoa maxSize ++ " bytes")), b')
        else (inr body, b')
    end.

(** ** Decoding *)

(** [strconv.ParseFloat(literal, 64)]; [None] is out of range. *)
Definition ParseFloat (literal : string) : option float64 :=
  q ← number_value literal;
  let x := fround q in
  if Qle_bool (pow2 1024) (Qabs.Qabs x) then None else Some x.

(** One member into the target; [null] leaves a field as it is. *)
Definition decode_member (req : OrderRequest) (kv : string * json) : option OrderRequest :=
  let '(mkOrderRequest c sy si p q) := req in
  let text x f := match x with JStr s => Some (f (decode_text s)) | JNull => Some req | _ => None end in
  let num x f := match x with JNum lit => (fun v => f (Finite v)) <$> ParseFloat lit | JNull => Some req | _ => None end in
  let '(k, x) := kv in
  if same_name k "client_id" then text x (fun v => mkOrderRequest v sy si p q)
  else if same_name k "symbol" then text x (fun v => mkOrderRequest c v si p q)
  else if same_name k "side" then text x (fun v => mkOrderRequest c sy v p q)
  else if same_name k "price" then num x (fun v => mkOrderRequest c sy si v q)
  else if same_name k "quantity" then num x (fun v => mkOrderRequest c sy si p v)
  else None.

Definition zero_request : OrderRequest := mkOrderRequest "" "" "" (Finite 0%Q) (Finite 0%Q).

Fixpoint decode_members (req : OrderRequest) (m : list (string * json)) : option OrderRequest :=
  match m with
  | [] => Some req
  | kv :: m' => req' ← decode_member req kv; decode_members req' m'
  end.

Definition decode_request (j : json) : option OrderRequest :=
  match j with
  | JObj m => decode_members zero_request m
  | JNull => Some zero_request
  | _ => None
  end.

(** [decoder.More]: a further byte that does not close an array or an object. *)
Definition More (rest : string) : bool :=
  match skip_space rest with
  | String c _ => negb (code c =? 93)%Z && negb (code c =? 125)%Z
  | "" => false
  end.

(** [why] is the decoder's message for a body it rejects. *)
Definition ValidateAndDecodeJSON (why : string -> string) (body : string) : verror + OrderRequest :=
  if bool_decide (body = "") then inl (VIs ErrMalformedJSON "empty request body")
  else
    match ('(j, rest) ← parse_value (2 * String.length body + 1) body; req ← decode_request j; Some (req, rest)) with
    | None => inl (VIs ErrMalformedJSON (why body))
    | Some (req, rest) =>
        if More rest then inl (VIs ErrMalformedJSON "trailing data after JSON") else inr req
    end.
End validators.

(** ** The activity log *)

Record ActivityStats := mkActivityStats {
  asCount : Z;
  asFirstSeen : Z;
  asLastSeen : Z;
  asPatterns : list string;
  asSuspicionLevel : string;
}.

Record SecurityConfig := mkSecurityConfig {
  scEnableLogging : bool;
  scLogSuspiciousPayloads : bool;
  scMaxSuspicionCount : Z;
  scBlockAfterAttempts : Z;
  scSuspicionResetDuration : Z;
}.

Definition DefaultSecurityConfig : SecurityConfig := mkSecurityConfig true true 10 5 (3600 * 10 ^ 9).

(** [salTick] counts the readings of the clock. *)
Record SuspiciousActivityLogger := mkSal {
  salAttempts : gmap string ActivityStats;
  salConfig : SecurityConfig;
  salTick : nat;
  salLog : list string;
}.

Definition NewSuspiciousActivityLogger (c : option SecurityConfig) : SuspiciousActivityLogger :=
  mkSal ∅ (default DefaultSecurityConfig c) 0 [].

Definition set_attempts (sal : SuspiciousActivityLogger) (m : gmap string ActivityStats) : SuspiciousActivityLogger :=
  mkSal m (salConfig sal) (salTick sal) (salLog sal).
Definition tick (sal : SuspiciousActivityLogger) : SuspiciousActivityLogger :=
  mkSal (salAttempts sal) (salConfig sal) (S (salTick sal)) (salLog sal).
Definition println (sal : SuspiciousActivityLogger) (line : string) : SuspiciousActivityLogger :=
  mkSal (salAttempts sal) (salConfig sal) (salTick sal) (app (salLog sal) [line]).

(** ** Detection *)

Section detection.
Context `{UnicodePkg}.

Definition dquote : string := str1 cquote.

Definition sqlPatterns : list string :=
  ["'"; dquote; "--"; "/*"; "*/"; ";"; "DROP"; "DELETE"; "INSERT"; "UPDATE"; "SELECT";
   "UNION"; "OR 1=1"; "OR '1'='1"; "' OR ''='"; "exec("; "execute("; "xp_"].
Definition xssPatterns : list string :=
  ["<script"; "</script>"; "javascript:"; "onerror="; "onload=";
   "<iframe"; "onclick="; "onmouseover="; "alert("; "eval("].
Definition pathPatterns : list string := ["../"; "..\"; ".."; "%2e%2e"; "..;"; "..%00"].
Definition newline : string := str1 (chr 10).
Definition return_ : string := str1 (chr 13).
Definition cmdPatterns : list string := ["|"; "&"; ";"; "`"; "$("; "$("; "||"; "&&"; newline; return_].
Definition ldapPatterns : list string := ["*)"; "*("; "*|"; "*&"; "*(|"].
Definition nosqlPatterns : list string := ["$where"; "$ne"; "$gt"; "$lt"; "$regex"; "{$"; "[$"; "||"; "&&"].

Definition found (prefix : string) (text : string) (key : string -> string) (patterns : list string) : list string :=
  (fun p => prefix ++ p) <$> filter (fun p => Contains text (key p) = true) patterns.

Definition special (r : rune) : bool :=
  negb (unicode_IsLetter r) && negb (unicode_IsDigit r) && negb (r =? 95)%Z && negb (r =? 45)%Z.
Definition bad_control (r : rune) : bool :=
  unicode_IsControl r && negb (r =? 10)%Z && negb (r =? 9)%Z && negb (r =? 13)%Z.

Definition DetectSuspiciousPatterns (input : string) : list string :=
  mjoin [
    found "SQL_INJECTION:" (ToUpper input) ToUpper sqlPatterns;
    found "XSS:" (ToLower input) id xssPatterns;
    found "PATH_TRAVERSAL:" input id pathPatterns;
    found "CMD_INJECTION:" input id cmdPatterns;
    found "LDAP_INJECTION:" input id ldapPatterns;
    found "NOSQL_INJECTION:" input id nosqlPatterns;
    (if bool_decide (String.length input / 3 < length (filter (fun r => special r = true) (runes input)))
     then ["EXCESSIVE_SPECIAL_CHARS"] else []);
    (if existsb bad_control (runes input) then ["CONTROL_CHARACTERS"] else []);
    (if Contains input (str1 (chr 0)) then ["NULL_BYTE_INJECTION"] else []);
    (if Contains input "%" && bool_decide (10 < String.length input) && bool_decide (5 < Count1 input "%")
     then ["URL_ENCODING_ABUSE"] else [])].

Definition sanitizeForLogging (payload : string) (maxLen : nat) : string :=
  let cleaned :=
    strings_Map (fun r => if unicode_IsControl r && negb (r =? 10)%Z && negb (r =? 9)%Z then (-1)%Z else r) payload in
  let cleaned :=
    if bool_decide (maxLen < String.length cleaned) then prefix_bytes maxLen cleaned ++ "...[truncated]" else cleaned in
  ReplaceAll1 cleaned cquote (String cbackslash dquote).

(** ** Recording and blocking *)

Context (clk : nat -> Z).

Definition escalated (b count : Z) (level : string) : string :=
  if (b <=? count)%Z then "critical" else if (3 <=? count)%Z then "high"
  else if (2 <=? count)%Z then "medium" else level.

Definition LogSuspiciousInput (sal : SuspiciousActivityLogger)
    (source inputType pattern payload suspicionLevel : string) : SuspiciousActivityLogger :=
  let c := salConfig sal in
  if negb (scEnableLogging c) then sal
  else
    let '(stats, sal1) :=
      match salAttempts sal !! source with
      | Some stats => (stats, sal)
      | None => (mkActivityStats 0 (clk (salTick sal)) 0 [] "low", tick sal)
      end in
    let count := (asCount stats + 1)%Z in
    let stats' :=
      mkActivityStats count (asFirstSeen stats) (clk (salTick sal1)) (app (asPatterns stats) [pattern])
        (escalated (scBlockAfterAttempts c) count (asSuspicionLevel stats)) in
    let sal2 := set_attempts (tick sal1) (<[source := stats']> (salAttempts sal1)) in
    let logEntry :=
      "[SECURITY] Suspicious " ++ inputType ++ " detected | Source: " ++ source ++ " | Pattern: " ++ pattern
      ++ " | Level: " ++ asSuspicionLevel stats' ++ " | Count: " ++ Itoa count ++ "/" ++ Itoa (scBlockAfterAttempts c)
      ++ (if scLogSuspiciousPayloads c
             && (bool_decide (suspicionLevel = "high") || bool_decide (suspicionLevel = "critical"))
          then " | Payload: " ++ sanitizeForLogging payload 200 else "") in
    let sal3 := println sal2 logEntry in
    if bool_decide (asSuspicionLevel stats' = "critical") then
      println sal3 ("[CRITICAL] Source " ++ source
                    ++ " has exceeded suspicious activity threshold. Consider blocking.")
    else sal3.

Definition ShouldBlock (sal : SuspiciousActivityLogger) (source : string) : bool * SuspiciousActivityLogger :=
  match salAttempts sal !! source with
  | None => (false, sal)
  | Some stats =>
      if (scBlockAfterAttempts (salConfig sal) <=? asCount stats)%Z then
        ((clk (salTick sal) - asFirstSeen stats <? scSuspicionResetDuration (salConfig sal))%Z, tick sal)
      else (false, sal)
  end.

Definition GetActivityStats (sal : SuspiciousActivityLogger) (source : string) : option ActivityStats :=
  salAttempts sal !! source.

Definition ResetStats (sal : SuspiciousActivityLogger) (source : string) : SuspiciousActivityLogger :=
  println (set_attempts sal (delete source (salAttempts sal)))
    ("[SECURITY] Reset activity stats for source: " ++ source).

Definition GetAllStats (sal : SuspiciousActivityLogger) : gmap string ActivityStats := salAttempts sal.

(** ** The enhanced validator *)

Record EnhancedInputValidator := mkEnhanced { eivValidator : InputValidator; activityLogger : SuspiciousActivityLogger }.

Definition NewEnhancedInputValidator (c : option ValidationConfig) (sc : option SecurityConfig)
    : EnhancedInputValidator :=
  mkEnhanced (NewInputValidator c) (NewSuspiciousActivityLogger sc).

Definition set_logger (eiv : EnhancedInputValidator) (sal : SuspiciousActivityLogger) : EnhancedInputValidator :=
  mkEnhanced (eivValidator eiv) sal.

Definition blocked_error (source : string) : verror :=
  VText ("source " ++ source ++ " is blocked due to excessive suspicious activity").

Definition suspicion_level (n : nat) : string :=
  if bool_decide (5 <= n) then "critical" else if bool_decide (3 <= n) then "high"
  else if bool_decide (2 <= n) then "medium" else "low".

Definition ValidateWithSecurityChecks (eiv : EnhancedInputValidator) (input inputType source : string)
    : option verror * EnhancedInputValidator :=
  let '(block, sal1) := ShouldBlock (activityLogger eiv) source in
  if block then (Some (blocked_error source), set_logger eiv sal1)
  else
    match DetectSuspiciousPatterns input with
    | [] => (None, set_logger eiv sal1)
    | patterns =>
        let level := suspicion_level (length patterns) in
        let patternStr := Join patterns ", " in
        let sal2 := LogSuspiciousInput sal1 source inputType patternStr input level in
        let '(block2, sal3) := ShouldBlock sal2 source in
        if block2 then (Some (blocked_error source), set_logger eiv sal3)
        else if bool_decide (level = "critical") then
          (Some (VText ("input contains multiple suspicious patterns: " ++ patternStr)), set_logger eiv sal3)
        else (None, set_logger eiv sal3)
    end.

Definition ValidateClientIDWithSecurity (eiv : EnhancedInputValidator) (clientID source : string)
    : option verror * EnhancedInputValidator :=
  let '(err, eiv1) := ValidateWithSecurityChecks eiv clientID "CLIENT_ID" source in
  match err with
  | Some e => (Some e, eiv1)
  | None => (ValidateClientID (eivValidator eiv1) clientID, eiv1)
  end.

Definition ValidateSymbolWithSecurity (eiv : EnhancedInputValidator) (symbol source : string)
    : option verror * EnhancedInputValidator :=
  let '(err, eiv1) := ValidateWithSecurityChecks eiv symbol "SYMBOL" source in
  match err with
  | Some e => (Some e, eiv1)
  | None => (ValidateSymbol (eivValidator eiv1) symbol, eiv1)
  end.

Definition ValidateOrderRequestWithSecurity (eiv : EnhancedInputValidator) (req : OrderRequest) (source : string)
    : option verror * EnhancedInputValidator :=
  let '(err, eiv1) := ValidateClientIDWithSecurity eiv (vrClientID req) source in
  match err with
  | Some e => (Some e, eiv1)
  | None =>
      let '(err, eiv2) := ValidateSymbolWithSecurity eiv1 (vrSymbol req) source in
      match err with
      | Some e => (Some e, eiv2)
      | None =>
          let '(err, eiv3) := ValidateWithSecurityChecks eiv2 (vrSide req) "SIDE" source in
          match err with
          | Some e => (Some e, eiv3)
          | None => (ValidateOrderRequest (eivValidator eiv3) req, eiv3)
          end
      end
  end.

(** ** Reports *)

Record SecurityReport := mkSecurityReport {
  srTimestamp : Z;
  srTotalSources : nat;
  srCriticalSources : nat;
  srHighRiskSources : nat;
  srBlockedSources : nat;
  srTopPatterns : gmap string nat;
  srSourceDetails : gmap string ActivityStats;
}.

Definition count_pattern (m : gmap string nat) (p : string) : gmap string nat := <[p := S (default 0 (m !! p))]> m.

(** One iteration of the loop over the sources. *)
Definition report_source (kv : string * ActivityStats) (st : SecurityReport * SuspiciousActivityLogger)
    : SecurityReport * SuspiciousActivityLogger :=
  let '(r, sal) := st in
  let '(source, stats) := kv in
  let critical := bool_decide (asSuspicionLevel stats = "critical") in
  let high := bool_decide (asSuspicionLevel stats = "high") in
  let '(block, sal') := ShouldBlock sal source in
  (mkSecurityReport (srTimestamp r) (srTotalSources r)
     (if critical then S (srCriticalSources r) else srCriticalSources r)
     (if high then S (srHighRiskSources r) else srHighRiskSources r)
     (if block then S (srBlockedSources r) else srBlockedSources r)
     (foldl count_pattern (srTopPatterns r) (asPatterns stats)) (srSourceDetails r), sal').

Definition GenerateSecurityReport (eiv : EnhancedInputValidator) : SecurityReport * EnhancedInputValidator :=
  let sal := activityLogger eiv in
  let allStats := GetAllStats sal in
  let report := mkSecurityReport (clk (salTick sal)) (size allStats) 0 0 0 ∅ allStats in
  let '(r, sal') := foldr report_source (report, tick sal) (map_to_list allStats) in
  (r, set_logger eiv sal').
End detection.

(** ** The middleware

    A middleware answers itself or calls the next handler, with the request and
    the body as they are then. *)

Record ErrorResponse := mkErrorResponse { erError : string; erCode : string; erDetails : string; erTime : Z }.

Definition StatusUnsupportedMediaType : Z := 415.

Definition send_error (e : verror) (c : string) (status now : Z) : Response ErrorResponse :=
  mkResponse status json_header (mkErrorResponse (verror_text e) c "" now).

Definition outcome : Type := Response ErrorResponse + (Request * Body).

Definition ValidateContentType (now : Z) (r : Request) (b : Body) : outcome :=
  let m := reqMethod r in
  if bool_decide (m = "POST") || bool_decide (m = "PUT") || bool_decide (m = "PATCH") then
    let contentType := header_Get r "Content-Type" in
    if negb (bool_decide (contentType = "")) && negb (bool_decide (contentType = "application/json"))
    then inl (send_error (VBare ErrInvalidContentType) "INVALID_CONTENT_TYPE" StatusUnsupportedMediaType now)
    else inr (r, b)
  else inr (r, b).

Definition LimitRequestBody (maxSize : Z) (r : Request) (b : Body) : outcome := inr (r, MaxBytesReader maxSize b).

Definition ValidateOrderRequestMiddleware `{UnicodePkg} (why : string -> string) (iv : InputValidator) (now : Z)
    (r : Request) (b : Body) : outcome :=
  if negb (bool_decide (reqMethod r = "POST")) then inr (r, b)
  else
    let '(res, b') := ValidateRequestBody iv r b MaxRequestBodySize in
    match res with
    | inl e => inl (send_error e "INVALID_REQUEST_BODY" StatusBadRequest now)
    | inr body =>
        match ValidateAndDecodeJSON why body with
        | inl e => inl (send_error e "INVALID_JSON" StatusBadRequest now)
        | inr req =>
            match ValidateOrderRequest iv req with
            | Some e => inl (send_error e "VALIDATION_FAILED" StatusBadRequest now)
            | None => inr (r, b')
            end
        end
    end.

(** The headers set before the next handler runs. *)
Definition SecureHeaders : gmap string string :=
  {[ "X-Content-Type-Options" := "nosniff";
     "X-Frame-Options" := "DENY";
     "X-XSS-Protection" := "1; mode=block";
     "Content-Security-Policy" := "default-src 'self'";
     "Strict-Transport-Security" := "max-age=31536000; includeSubDomains" ]}.

(** The next handler's response [resp] keeps these headers unless it sets them itself. *)
Definition SecureHeadersMiddleware {B} (resp : Response B) : Response B :=
  mkResponse (respStatus resp) (respHeader resp ∪ SecureHeaders) (respBody resp).
