(* ===== verification/ValidationTheorems.v ===== *)
(** * Theorems about input validation

    The validators accept exactly what their patterns and limits describe; how
    far the precision check on float64 prices can be trusted; what the
    detector finds in well-formed identifiers; how long and how often a source is
    blocked; what the middleware passes on. *)

From Stdlib Require Import Ascii String Qround.
From S2P Require Import Prelude.
From S2P Require Import Float.
From S2P Require Import Web.
From S2P Require Import Json.
From S2P Require Import Text.
From S2P Require Import Validation.

(** ** Bytes *)

Lemma all_bytes_spec p s : all_bytes p s = true <-> forall c, c ∈ list_ascii_of_string s -> p c = true.
Proof.
  unfold all_bytes. rewrite forallb_forall. split; intros Hp c Hc; apply Hp; by apply list_elem_of_In.
Qed.

Lemma id_char_ascii s : all_bytes id_char s = true -> is_ascii s = true.
Proof.
  rewrite all_bytes_spec. intros Hs. apply forallb_forall. intros c Hc%list_elem_of_In.
  specialize (Hs c Hc). unfold id_char, ascii_letter, ascii_digit, between in Hs. lia.
Qed.

Lemma symbol_id_char c : symbol_char c = true -> id_char c = true.
Proof. unfold symbol_char, id_char, ascii_letter, ascii_digit, between. lia. Qed.

(** ** The validators *)

Section validators.
Context `{UnicodePkg}.
Implicit Types (iv : InputValidator) (s : string).

(** The identifiers the patterns describe. *)
Definition good_id (max : Z) (p : ascii -> bool) (s : string) : Prop :=
  s <> ""%string /\ (len s <= max)%Z /\ all_bytes p s = true.

Lemma matches_good p s : s <> ""%string -> matches p s = all_bytes p s.
Proof. intros Hs. unfold matches. by rewrite bool_decide_eq_false_2. Qed.

Lemma ValidateClientID_exact iv s :
  ValidateClientID iv s = None <-> good_id (vcMaxClientIDLength (config iv)) id_char s.
Proof.
  unfold ValidateClientID, good_id, clientIDRegex. case_bool_decide as He; [naive_solver|].
  rewrite matches_good by done. destruct (Z.ltb_spec (vcMaxClientIDLength (config iv)) (len s)); [naive_solver lia|].
  destruct (all_bytes id_char s) eqn:Hid.
  - rewrite ValidString_ascii by (by apply id_char_ascii). naive_solver lia.
  - destruct (ValidString s); naive_solver.
Qed.

Lemma ValidateSymbol_exact iv s :
  ValidateSymbol iv s = None <-> good_id (vcMaxSymbolLength (config iv)) symbol_char s.
Proof.
  unfold ValidateSymbol, good_id, symbolRegex. case_bool_decide as He; [naive_solver|].
  rewrite matches_good by done. destruct (Z.ltb_spec (vcMaxSymbolLength (config iv)) (len s)); [naive_solver lia|].
  destruct (all_bytes symbol_char s); naive_solver lia.
Qed.

Lemma ValidateOrderID_exact s : ValidateOrderID s = None <-> good_id MaxOrderIDLength id_char s.
Proof.
  unfold ValidateOrderID, good_id, orderIDRegex. case_bool_decide as He; [naive_solver|].
  rewrite matches_good by done. destruct (Z.ltb_spec MaxOrderIDLength (len s)); [naive_solver lia|].
  destruct (all_bytes id_char s) eqn:Hid.
  - rewrite ValidString_ascii by (by apply id_char_ascii). naive_solver lia.
  - destruct (ValidString s); naive_solver.
Qed.

Definition good_side (s : string) : Prop :=
  ToLower (strings_TrimSpace s) = "buy"%string \/ ToLower (strings_TrimSpace s) = "sell"%string.

Lemma ValidateSide_exact s : ValidateSide s = None <-> good_side s.
Proof. unfold ValidateSide, good_side. repeat case_bool_decide; naive_solver. Qed.

(** A finite number within limits, both included. *)
Definition in_range (lo hi : float64) (n : number) (x : float64) : Prop := n = Finite x /\ (lo <= x <= hi)%Q.

Lemma ValidatePrice_exact iv n :
  ValidatePrice iv n = None <->
  exists x, in_range (vcMinPrice (config iv)) (vcMaxPrice (config iv)) n x /\
            checkPrecision x (vcMaxPricePrecision (config iv)) = None.
Proof.
  unfold ValidatePrice, in_range. destruct n as [x| |]; [|naive_solver..].
  destruct (f_lt_spec x (vcMinPrice (config iv))) as [Hl|Hl];
    [split; [done|intros (? & ([= <-] & ?) & _); lra]|].
  destruct (f_lt_spec (vcMaxPrice (config iv)) x) as [Hu|Hu];
    [split; [done|intros (? & ([= <-] & ?) & _); lra]|].
  rewrite fmap_None. split; [intros Hc; exists x; split_and!; [done|lra..|done]|naive_solver].
Qed.

Lemma ValidateQuantity_exact iv n :
  ValidateQuantity iv n = None <-> exists x, in_range (vcMinQuantity (config iv)) (vcMaxQuantity (config iv)) n x.
Proof.
  unfold ValidateQuantity, in_range. destruct n as [x| |]; [|naive_solver..].
  destruct (f_lt_spec x (vcMinQuantity (config iv))) as [Hl|Hl]; [split; [done|intros (? & [= <-] & ?); lra]|].
  destruct (f_lt_spec (vcMaxQuantity (config iv)) x) as [Hu|Hu]; [split; [done|intros (? & [= <-] & ?); lra]|].
  split; [intros _; exists x; split; [done|lra]|done].
Qed.

Lemma combine_errors_None l : combine_errors l = None <-> Forall (fun e => e = None) l.
Proof.
  unfold combine_errors. induction l as [|[e|] l IH]; cbn; [naive_solver|..].
  - split; [done|]. by intros [? _]%Forall_cons.
  - rewrite Forall_cons, <- IH. naive_solver.
Qed.

(** An order request passes exactly when its client and its symbol match
    their patterns within their lengths, its side is buy or sell up to case and
    surrounding white space, and its price and quantity are numbers within their
    limits, the price with an acceptable precision.  A cancellation passes
    exactly when its three identifiers match. *)
Theorem request_validation_exact iv req creq :
  (ValidateOrderRequest iv req = None <->
   good_id (vcMaxClientIDLength (config iv)) id_char (vrClientID req) /\
   good_id (vcMaxSymbolLength (config iv)) symbol_char (vrSymbol req) /\
   good_side (vrSide req) /\
   (exists x, in_range (vcMinPrice (config iv)) (vcMaxPrice (config iv)) (vrPrice req) x /\
              checkPrecision x (vcMaxPricePrecision (config iv)) = None) /\
   (exists x, in_range (vcMinQuantity (config iv)) (vcMaxQuantity (config iv)) (vrQuantity req) x)) /\
  (ValidateCancelOrderRequest iv creq = None <->
   good_id (vcMaxClientIDLength (config iv)) id_char (vcClientID creq) /\
   good_id MaxOrderIDLength id_char (vcOrderID creq) /\
   good_id (vcMaxSymbolLength (config iv)) symbol_char (vcSymbol creq)).
Proof.
  unfold ValidateOrderRequest, ValidateCancelOrderRequest. rewrite !combine_errors_None, !Forall_cons, !Forall_nil.
  rewrite !ValidateClientID_exact, !ValidateSymbol_exact, ValidateOrderID_exact, ValidateSide_exact,
    ValidatePrice_exact, ValidateQuantity_exact. tauto.
Qed.
End validators.

(** ** The precision of a price *)

Section precision.
Local Open Scope Q_scope.

(** Rounding keeps whole numbers whole. *)
Lemma fround_whole n : exists k, fround (inject_Z n) == inject_Z k.
Proof.
  destruct (Z_le_gt_dec (Z.abs n) (2 ^ 53)) as [Hn|Hn]; [exists n; by apply fround_int|].
  assert (forall m, (2 ^ 53 < m)%Z -> exists k, fround_pos (inject_Z m) == inject_Z k) as Hpos.
  { intros m Hm. assert (0 < inject_Z m) as Hm0 by (change 0 with (inject_Z 0); rewrite <- Zlt_Qlt; lia).
    destruct (ilog2_spec _ Hm0) as [_ Hup]. set (l := ilog2 (inject_Z m)) in *.
    assert (52 <= l)%Z as Hl.
    { apply Z.nlt_ge. intros Hlt. assert (pow2 (l + 1) <= pow2 53) as Hp by (apply pow2_le; lia).
      rewrite (pow2_Z 53) in Hp by lia. assert (inject_Z (2 ^ 53) < inject_Z m) by (by rewrite <- Zlt_Qlt). lra. }
    unfold fround_pos. fold l. cbn zeta. exists (rne (inject_Z m * pow2 (52 - l)) * 2 ^ (- (52 - l)))%Z.
    rewrite inject_Z_mult, <- pow2_Z by lia. reflexivity. }
  destruct (fround_cases (inject_Z n)) as [[Hx E]|[[Hx E]|[Hx E]]].
  - change 0 with (inject_Z 0) in Hx. rewrite <- Zlt_Qlt in Hx. destruct (Hpos n) as [k Hk]; [lia|].
    exists k. by rewrite E.
  - by exists 0%Z.
  - change 0 with (inject_Z 0) in Hx. rewrite <- Zlt_Qlt in Hx. destruct (Hpos (- n)%Z) as [k Hk]; [lia|].
    exists (- k)%Z. by rewrite E, <- inject_Z_opp, Hk, inject_Z_opp.
Qed.

Lemma f_trunc_whole x k : x == inject_Z k -> f_trunc x = k.
Proof.
  intros Hx. assert (Qfloor x = k) as H1 by (rewrite Hx; apply Qfloor_Z).
  assert (Qfloor (- x) = - k)%Z as H2 by (rewrite Hx, <- inject_Z_opp; apply Qfloor_Z).
  unfold f_trunc. rewrite H1, H2. destruct (Qle_bool 0 x); lia.
Qed.

Lemma Pow10_8 : math_Pow10 8 = inject_Z (10 ^ 8).
Proof. vm_compute. reflexivity. Qed.

(** What the check compares. *)
Definition fraction (x : float64) : Q :=
  Qabs.Qabs (f_sub (f_mul x (inject_Z (10 ^ 8))) (inject_Z (f_trunc (f_mul x (inject_Z (10 ^ 8)))))).

Lemma checkPrecision_fraction x :
  checkPrecision x 8 = None <-> fraction x <= fround (1 # 1000000000).
Proof.
  unfold checkPrecision. rewrite Pow10_8. fold (fraction x).
  generalize (fround (1 # 1000000000)), (fraction x). intros e d.
  destruct (f_lt_spec e d) as [?|?]; split; try done; intros; lra.
Qed.

Lemma epsilon_bound : fround (1 # 1000000000) <= 3 # 2000000000.
Proof. apply Qle_bool_iff. vm_compute. reflexivity. Qed.

(** What the precision check is worth.  A price it accepts is within two
    thousand-millionths of a step of 10^-8, plus the rounding of the
    multiplication, of a price with eight decimals; whole prices up to a
    thousand million are accepted.  But prices with one or two decimals are
    rejected: 1.1 and 0.29 do not multiply to a whole float64. *)
Theorem price_precision :
  (forall x, 0 <= x -> checkPrecision x 8 = None ->
     exists k, Qabs.Qabs (x * inject_Z (10 ^ 8) - inject_Z k) <= (2 # 1000000000) + x * inject_Z (10 ^ 8) * ulp) /\
  (forall n, checkPrecision (inject_Z n) 8 = None) /\
  checkPrecision (fround (11 # 10)) 8 <> None /\ checkPrecision (fround (29 # 100)) 8 <> None.
Proof.
  split_and!.
  - intros x Hx Hc%checkPrecision_fraction. unfold fraction in Hc. set (y := x * inject_Z (10 ^ 8)).
    set (s := f_mul x _) in Hc. set (k := f_trunc s) in Hc. exists k.
    assert (0 <= y) as Hy by (unfold y; assert (0 <= inject_Z (10 ^ 8)) by discriminate; nra).
    pose proof (fround_error y) as He. rewrite (Qabs_pos y) in He by done. change (fround y) with s in He.
    pose proof (fround_error (s - inject_Z k)) as Hd. change (fround (s - inject_Z k)) with (f_sub s (inject_Z k)) in Hd.
    pose proof epsilon_bound as Heps. set (d := s - inject_Z k) in *. set (e := fround (1 # 1000000000)) in *.
    assert (Qabs.Qabs d <= 2 # 1000000000) as Hdd.
    { pose proof (Qabs_triangle (f_sub s (inject_Z k)) (- (f_sub s (inject_Z k) - d))) as Ht.
      rewrite Qabs_opp in Ht. assert (f_sub s (inject_Z k) + - (f_sub s (inject_Z k) - d) == d) as E by ring.
      rewrite E in Ht. pose proof (Qabs_nonneg d). assert (ulp <= 1 # 100) by (apply Qle_bool_iff; vm_compute; reflexivity).
      assert (Qabs.Qabs d * ulp <= Qabs.Qabs d * (1 # 100)) by (rewrite !(Qmult_comm (Qabs.Qabs d)); by apply Qmult_le_compat_r).
      lra. }
    pose proof (Qabs_triangle (- (s - y)) d) as Ht. rewrite Qabs_opp in Ht.
    assert (- (s - y) + d == y - inject_Z k) as E by (unfold d; ring). rewrite E in Ht. lra.
  - intros n. apply checkPrecision_fraction. unfold fraction.
    destruct (fround_whole (n * 10 ^ 8)) as [k Hk].
    assert (f_mul (inject_Z n) (inject_Z (10 ^ 8)) == inject_Z k) as Hs
      by (unfold f_mul; rewrite <- inject_Z_mult; exact Hk).
    rewrite (f_trunc_whole _ k Hs). unfold f_sub. rewrite Hs.
    assert (inject_Z k - inject_Z k == 0) as -> by ring. rewrite fround_0. apply Qle_bool_iff. vm_compute. reflexivity.
  - vm_compute. discriminate.
  - vm_compute. discriminate.
Qed.
End precision.

(** ** Detection *)

Lemma prefix_chars p s c : String.prefix p s = true -> c ∈ list_ascii_of_string p -> c ∈ list_ascii_of_string s.
Proof.
  revert s. induction p as [|d p IH]; intros [|e s]; cbn; intros Hp Hc; try done; [set_solver|].
  destruct (ascii_dec d e) as [->|]; [|done].
  apply elem_of_cons in Hc as [->|Hc]; [by left|right; by apply IH].
Qed.

Lemma Contains_chars s p c : Contains s p = true -> c ∈ list_ascii_of_string p -> c ∈ list_ascii_of_string s.
Proof.
  induction s as [|d s IH]; intros Hs Hc.
  - apply (prefix_chars p); [|done]. cbn in Hs. by rewrite orb_false_r in Hs.
  - cbn [Contains] in Hs. apply orb_prop in Hs as [Hs|Hs]; [by apply (prefix_chars p)|].
    right. by apply IH.
Qed.

(** A pattern with a character outside [q] is not found in a text inside [q]. *)
Lemma not_contained q s p :
  all_bytes q s = true -> all_bytes q p = false -> Contains s p = false.
Proof.
  intros Hs Hp. apply not_true_iff_false. intros Hc. apply not_true_iff_false in Hp. apply Hp.
  apply all_bytes_spec. intros c Hin. eapply all_bytes_spec; [exact Hs|]. by eapply Contains_chars.
Qed.

Lemma found_none pre q s key l :
  all_bytes q s = true -> Forall (fun p => all_bytes q (key p) = false) l -> found pre s key l = [].
Proof.
  intros Hs Hl. unfold found. induction Hl as [|p l Hp _ IH]; [done|].
  rewrite filter_cons_False; [done|]. by rewrite (not_contained q).
Qed.

Lemma all_bytes_map q q' f s :
  (forall c, q c = true -> q' (byte (f (code c))) = true) -> all_bytes q s = true -> all_bytes q' (map_bytes f s) = true.
Proof.
  intros Hf Hs. apply all_bytes_spec. unfold map_bytes. rewrite list_ascii_of_string_of_list_ascii.
  intros c (d & -> & Hd)%list_elem_of_fmap. apply Hf. by eapply all_bytes_spec.
Qed.

Section detection.
Context `{UnicodePkg} `{!UnicodeSpec}.

Lemma id_char_code c : id_char c = true -> (0 <= code c < 128)%Z.
Proof. unfold id_char, ascii_letter, ascii_digit, between. pose proof (code_bounds c). lia. Qed.

Lemma id_char_upper c : id_char c = true -> id_char (byte (ascii_upper (code c))) = true.
Proof.
  intros Hc. pose proof (id_char_code c Hc). unfold id_char. rewrite code_byte.
  - revert Hc. unfold id_char, ascii_upper, ascii_letter, ascii_digit, between.
    destruct ((97 <=? code c) && (code c <=? 122))%Z eqn:E; lia.
  - unfold ascii_upper, between. destruct ((97 <=? code c) && (code c <=? 122))%Z eqn:E; lia.
Qed.

Lemma id_char_lower c : id_char c = true -> id_char (byte (ascii_lower (code c))) = true.
Proof.
  intros Hc. pose proof (id_char_code c Hc). unfold id_char. rewrite code_byte.
  - revert Hc. unfold id_char, ascii_lower, ascii_letter, ascii_digit, between.
    destruct ((65 <=? code c) && (code c <=? 90))%Z eqn:E; lia.
  - unfold ascii_lower, between. destruct ((65 <=? code c) && (code c <=? 90))%Z eqn:E; lia.
Qed.

Lemma id_not_special c : id_char c = true -> special (code c) = false /\ bad_control (code c) = false.
Proof.
  intros Hc. pose proof (id_char_code c Hc) as Hb. unfold special, bad_control, unicode_IsControl.
  rewrite IsLetter_ascii, IsDigit_ascii by done. revert Hc. unfold id_char.
  unfold ascii_letter, ascii_digit, between. split; lia.
Qed.

(** The words of the SQL patterns made of identifier characters. *)
Definition sql_words : list string :=
  ["--"; "DROP"; "DELETE"; "INSERT"; "UPDATE"; "SELECT"; "UNION"; "xp_"]%string.

(** In a text of letters, digits, underscores and hyphens the detector
    finds exactly the SQL words it contains, in any case: a valid client
    identifier is suspicious if and only if it contains one of them. *)
Theorem identifiers_detected s :
  all_bytes id_char s = true ->
  DetectSuspiciousPatterns s =
    (fun p => "SQL_INJECTION:" +:+ p) <$> filter (fun p => Contains (ToUpper s) (ToUpper p) = true) sql_words.
Proof.
  intros Hs. pose proof (id_char_ascii s Hs) as Ha. unfold DetectSuspiciousPatterns.
  assert (all_bytes id_char (ToUpper s) = true) as Hup.
  { unfold ToUpper. rewrite Ha. eapply all_bytes_map; [apply id_char_upper|done]. }
  assert (all_bytes id_char (ToLower s) = true) as Hlo.
  { unfold ToLower. rewrite Ha. eapply all_bytes_map; [apply id_char_lower|done]. }
  assert (filter (fun r => special r = true) (runes s) = [] /\ existsb bad_control (runes s) = false) as [Hsp Hbc].
  { rewrite runes_ascii by done. rewrite all_bytes_spec in Hs. revert Hs.
    induction (list_ascii_of_string s) as [|c l IH]; intros Hs; [done|].
    destruct (id_not_special c) as [E1 E2]; [apply Hs; by left|].
    destruct IH as [IH1 IH2]; [intros d Hd; apply Hs; by right|].
    rewrite fmap_cons. split; [rewrite filter_cons_False by (by rewrite E1); done|]. cbn. by rewrite E2, IH2. }
  let quiet pre := rewrite (found_none pre id_char) by (try done; by repeat constructor) in
    (quiet "XSS:"%string; quiet "PATH_TRAVERSAL:"%string; quiet "CMD_INJECTION:"%string;
     quiet "LDAP_INJECTION:"%string; quiet "NOSQL_INJECTION:"%string).
  rewrite Hsp, Hbc. rewrite (not_contained id_char s (str1 (chr 0))) by done.
  rewrite (not_contained id_char s "%") by done. rewrite bool_decide_eq_false_2 by (cbn; lia).
  cbn [mjoin list_join app andb]. rewrite !app_nil_r. unfold found. f_equal.
  assert (forall p, all_bytes id_char (ToUpper p) = false -> Contains (ToUpper s) (ToUpper p) = false) as Hno
    by (intros p Hp; by eapply not_contained).
  assert (sql_words = filter (fun p => all_bytes id_char (ToUpper p) = true) sqlPatterns) as -> by (vm_compute; reflexivity).
  rewrite list_filter_filter. apply filter_ext_in. intros p _. specialize (Hno p).
  destruct (all_bytes id_char (ToUpper p)); [tauto|]. rewrite Hno by done. naive_solver.
Qed.
End detection.

(** ** Blocking *)

Section blocking.
Context `{UnicodePkg} (clk : nat -> Z) (Hclk : forall m n, m <= n -> (clk m <= clk n)%Z).
Implicit Types (sal : SuspiciousActivityLogger) (eiv : EnhancedInputValidator).

(** The calls that change the log; the validators with security are checks
    followed by plain validation. *)
Inductive guard_call := GCheck (input inputType source : string) | GReset (source : string).

Definition guard_step eiv (c : guard_call) : option verror * EnhancedInputValidator :=
  match c with
  | GCheck input inputType source => ValidateWithSecurityChecks clk eiv input inputType source
  | GReset source => (None, set_logger eiv (ResetStats (activityLogger eiv) source))
  end.

Definition guard_run eiv (cs : list guard_call) : EnhancedInputValidator :=
  foldl (fun e c => (guard_step e c).2) eiv cs.

(** The statistics of a source after one more attempt. *)
Definition recorded sal (source pattern : string) : ActivityStats :=
  let b := scBlockAfterAttempts (salConfig sal) in
  match salAttempts sal !! source with
  | None => mkActivityStats 1 (clk (salTick sal)) (clk (S (salTick sal))) [pattern] (escalated b 1 "low")
  | Some st => mkActivityStats (asCount st + 1) (asFirstSeen st) (clk (salTick sal)) (asPatterns st ++ [pattern])
                 (escalated b (asCount st + 1) (asSuspicionLevel st))
  end.

Lemma LogSuspiciousInput_spec sal source ty p payload level :
  scEnableLogging (salConfig sal) = true ->
  let sal' := LogSuspiciousInput clk sal source ty p payload level in
  salAttempts sal' = <[source := recorded sal source p]> (salAttempts sal) /\
  salConfig sal' = salConfig sal /\
  salTick sal' = S (salTick sal) + (if salAttempts sal !! source then 0 else 1).
Proof.
  intros He. unfold LogSuspiciousInput, recorded. rewrite He. cbn [negb].
  destruct (salAttempts sal !! source) as [st|]; cbn; case_bool_decide; cbn; split_and!; (done || lia).
Qed.

(** ** One check *)

Record same_log sal sal' : Prop := {
  sl_attempts : salAttempts sal' = salAttempts sal;
  sl_config : salConfig sal' = salConfig sal;
  sl_tick : salTick sal <= salTick sal';
}.

(** The source's count is below the limit, or its window is over. *)
Definition let_pass sal (source : string) : Prop := forall st,
  salAttempts sal !! source = Some st ->
  (asCount st < scBlockAfterAttempts (salConfig sal))%Z \/
  (scSuspicionResetDuration (salConfig sal) <= clk (salTick sal) - asFirstSeen st)%Z.

(** What a check does: it finds the source blocked, or nothing suspicious, or
    records the source. *)
Inductive check_effect sal (input source : string) : option verror -> SuspiciousActivityLogger -> Prop :=
  | ce_blocked sal' : same_log sal sal' -> ~ let_pass sal source ->
      check_effect sal input source (Some (blocked_error source)) sal'
  | ce_clean sal' : same_log sal sal' -> DetectSuspiciousPatterns input = [] -> check_effect sal input source None sal'
  | ce_recorded r sal1 sal' :
      same_log sal sal1 -> DetectSuspiciousPatterns input <> [] ->
      salConfig sal' = salConfig sal -> salTick sal1 < salTick sal' ->
      salAttempts sal' =
        <[source := recorded sal1 source (Join (DetectSuspiciousPatterns input) ", ")]> (salAttempts sal) ->
      (r <> Some (blocked_error source) -> let_pass sal' source) ->
      (r = Some (blocked_error source) -> exists sal2,
         salAttempts sal2 = salAttempts sal' /\ salConfig sal2 = salConfig sal /\ salTick sal <= salTick sal2 /\
         ~ let_pass sal2 source) ->
      check_effect sal input source r sal'.

Lemma ShouldBlock_same sal source : same_log sal (ShouldBlock clk sal source).2.
Proof.
  unfold ShouldBlock. destruct (salAttempts sal !! source) as [st|]; [|by split].
  destruct (_ <=? _)%Z; split; cbn; (done || lia).
Qed.

(** A source that is let pass now was let pass at the reading before. *)
Lemma ShouldBlock_pass sal source : (ShouldBlock clk sal source).1 = false -> let_pass (ShouldBlock clk sal source).2 source.
Proof.
  unfold ShouldBlock, let_pass. destruct (salAttempts sal !! source) as [st|] eqn:E; cbn; [|naive_solver].
  destruct (Z.leb_spec (scBlockAfterAttempts (salConfig sal)) (asCount st)); cbn; intros Hb st' Hst'; simplify_eq.
  - apply Z.ltb_ge in Hb. right. pose proof (Hclk (salTick sal) (S (salTick sal))). lia.
  - by left.
Qed.

Lemma ShouldBlock_block sal source : (ShouldBlock clk sal source).1 = true -> ~ let_pass sal source.
Proof.
  unfold ShouldBlock, let_pass. destruct (salAttempts sal !! source) as [st|] eqn:E; cbn; [|done].
  destruct (Z.leb_spec (scBlockAfterAttempts (salConfig sal)) (asCount st)); cbn; [|done].
  intros Hb%Z.ltb_lt Hp. destruct (Hp st eq_refl); lia.
Qed.

Lemma check_effects eiv input ty source :
  scEnableLogging (salConfig (activityLogger eiv)) = true ->
  check_effect (activityLogger eiv) input source (ValidateWithSecurityChecks clk eiv input ty source).1
    (activityLogger (ValidateWithSecurityChecks clk eiv input ty source).2).
Proof.
  intros He. unfold ValidateWithSecurityChecks. set (sal := activityLogger eiv) in *.
  pose proof (ShouldBlock_same sal source) as S1. pose proof (ShouldBlock_block sal source) as B1.
  destruct (ShouldBlock clk sal source) as [b sal1]. cbn [fst snd] in *.
  destruct b; [apply ce_blocked; auto|].
  destruct (DetectSuspiciousPatterns input) as [|p ps] eqn:Hd; [by apply ce_clean|].
  rewrite <- Hd. set (ps' := DetectSuspiciousPatterns input). set (level := suspicion_level _).
  set (pat := Join ps' ", ").
  destruct S1 as [Ea Ec Et].
  pose proof (LogSuspiciousInput_spec sal1 source ty pat input level) as L. cbn zeta in L.
  destruct L as (La & Lc & Lt); [by rewrite Ec|].
  set (sal2 := LogSuspiciousInput clk sal1 _ _ _ _ _) in *. clearbody sal2 level.
  pose proof (ShouldBlock_same sal2 source) as [Fa Fc Ft]. pose proof (ShouldBlock_pass sal2 source) as P2.
  pose proof (ShouldBlock_block sal2 source) as B2.
  destruct (ShouldBlock clk sal2 source) as [b2 sal3]. cbn [fst snd] in *.
  assert (forall r, (b2 = true <-> r = Some (blocked_error source)) -> check_effect sal input source r sal3) as Hend.
  { intros r Hr. apply (ce_recorded _ _ _ _ sal1); [by split|by rewrite Hd|congruence|lia|by rewrite Fa, La, Ea|..].
    - intros Hne. apply P2. destruct b2; tauto.
    - intros Hb. exists sal2. split_and!; [done|congruence|lia|]. apply B2. by apply Hr. }
  destruct b2; [by apply Hend|]. case_bool_decide; by apply Hend.
Qed.

(** ** Sequences of checks *)

Definition enabled eiv : Prop := scEnableLogging (salConfig (activityLogger eiv)) = true.
Definition limit eiv : Z := scBlockAfterAttempts (salConfig (activityLogger eiv)).
Definition window eiv : Z := scSuspicionResetDuration (salConfig (activityLogger eiv)).
Definition stats_of eiv (source : string) : option ActivityStats := salAttempts (activityLogger eiv) !! source.
Definition now eiv : Z := clk (salTick (activityLogger eiv)).

(** The statistics of a source are kept by every other source's calls, and its
    own only add to them. *)
Definition kept (o o' : option ActivityStats) : Prop :=
  match o with
  | None => True
  | Some st => exists st', o' = Some st' /\ asFirstSeen st' = asFirstSeen st /\ (asCount st <= asCount st')%Z
  end.

Lemma kept_refl o : kept o o.
Proof. destruct o as [st|]; [|done]. exists st. split_and!; [done..|lia]. Qed.

Lemma kept_trans o1 o2 o3 : kept o1 o2 -> kept o2 o3 -> kept o1 o3.
Proof.
  destruct o1 as [st|]; [|done]. intros (st2 & -> & ? & ?) (st3 & -> & ? & ?). exists st3. split_and!; [done|congruence|lia].
Qed.

Lemma recorded_kept sal source p : kept (salAttempts sal !! source) (Some (recorded sal source p)).
Proof.
  unfold recorded. destruct (salAttempts sal !! source) as [st|]; [|done]. cbn. eexists. split_and!; [done..|cbn; lia].
Qed.

Definition resets (source : string) (c : guard_call) : bool :=
  match c with GReset s => bool_decide (s = source) | GCheck _ _ _ => false end.

Lemma guard_step_kept eiv c source :
  enabled eiv -> resets source c = false ->
  let eiv' := (guard_step eiv c).2 in
  salConfig (activityLogger eiv') = salConfig (activityLogger eiv) /\
  salTick (activityLogger eiv) <= salTick (activityLogger eiv') /\ kept (stats_of eiv source) (stats_of eiv' source).
Proof.
  intros He Hr. destruct c as [input ty s|s]; cbn [guard_step].
  - unfold stats_of. destruct (check_effects eiv input ty s He) as [sal' [-> -> ?] _|sal' [-> -> ?] _|r sal1 sal' [Ea Ec ?] _ -> ? -> _ _];
      (split_and!; [done|lia|]); [apply kept_refl..|].
    destruct (decide (s = source)) as [->|]; [|rewrite lookup_insert_ne by done; apply kept_refl].
    rewrite lookup_insert_eq, <- Ea. apply recorded_kept.
  - cbn in *. split_and!; [done..|]. unfold stats_of. cbn. case_bool_decide; [done|].
    rewrite lookup_delete_ne by done. apply kept_refl.
Qed.

Lemma guard_run_kept cs eiv source :
  enabled eiv -> Forall (fun c => resets source c = false) cs ->
  let eiv' := guard_run eiv cs in
  salConfig (activityLogger eiv') = salConfig (activityLogger eiv) /\
  salTick (activityLogger eiv) <= salTick (activityLogger eiv') /\ kept (stats_of eiv source) (stats_of eiv' source).
Proof.
  revert eiv. induction cs as [|c cs IH]; intros eiv He Hcs; cbn; [split_and!; [done..|apply kept_refl]|].
  apply Forall_cons in Hcs as [Hc Hcs]. destruct (guard_step_kept eiv c source He Hc) as (Ec & Et & K).
  set (eiv1 := (guard_step eiv c).2) in *. destruct (IH eiv1) as (Ec' & Et' & K'); [by unfold enabled; rewrite Ec|done|].
  split_and!; [by transitivity (salConfig (activityLogger eiv1))|by transitivity (salTick (activityLogger eiv1))|by eapply kept_trans].
Qed.

(** A suspicious input of the source that a call lets through. *)
Definition lets_pass (source : string) eiv (c : guard_call) : bool :=
  match c with
  | GCheck input ty s =>
      bool_decide (s = source) && negb (bool_decide (DetectSuspiciousPatterns input = []))
      && bool_decide ((guard_step eiv c).1 = None)
  | GReset _ => false
  end.
Fixpoint passed (source : string) eiv (cs : list guard_call) : nat :=
  match cs with
  | [] => 0
  | c :: cs' => (if lets_pass source eiv c then 1 else 0) + passed source (guard_step eiv c).2 cs'
  end.

Definition count_of eiv (source : string) : Z := default 0%Z (asCount <$> stats_of eiv source).

Lemma pass_step eiv input ty source :
  enabled eiv -> DetectSuspiciousPatterns input <> [] -> (guard_step eiv (GCheck input ty source)).1 = None ->
  let eiv' := (guard_step eiv (GCheck input ty source)).2 in
  exists st, stats_of eiv' source = Some st /\ asCount st = (count_of eiv source + 1)%Z /\
    (asCount st < limit eiv \/ window eiv <= now eiv' - asFirstSeen st)%Z.
Proof.
  intros He Hd. cbn [guard_step]. unfold stats_of, now, count_of, stats_of, limit, window.
  destruct (check_effects eiv input ty source He) as [sal' _ _|sal' _ E|r sal1 sal' [Ea Ec _] _ Ecs _ E Hpass _];
    [discriminate|contradiction|]. intros ->. cbn zeta.
  assert (salAttempts sal' !! source = Some (recorded sal1 source (Join (DetectSuspiciousPatterns input) ", "))) as Hst
    by (rewrite E; apply lookup_insert_eq).
  eexists. split; [exact Hst|]. split.
  - unfold recorded. rewrite Ea. by destruct (salAttempts (activityLogger eiv) !! source).
  - rewrite <- Ecs. apply Hpass; [discriminate|exact Hst].
Qed.

(** In its window a source that has [n] attempts recorded gets fewer than
    [limit - n] more suspicious inputs through. *)
Lemma passed_bound cs eiv source st' :
  enabled eiv -> (0 <= count_of eiv source)%Z -> Forall (fun c => resets source c = false) cs ->
  stats_of (guard_run eiv cs) source = Some st' ->
  (now (guard_run eiv cs) - asFirstSeen st' < window eiv)%Z ->
  (Z.of_nat (passed source eiv cs) <= Z.max 0 (limit eiv - 1 - count_of eiv source))%Z.
Proof.
  revert eiv. induction cs as [|c cs IH]; intros eiv He Hn Hcs Hst Hw; [cbn; lia|].
  apply Forall_cons in Hcs as [Hc Hcs]. cbn [passed]. cbn [guard_run foldl] in Hst, Hw.
  destruct (guard_step_kept eiv c source He Hc) as (Ec & Et & K).
  set (eiv1 := (guard_step eiv c).2) in *. change (foldl _ eiv1 cs) with (guard_run eiv1 cs) in *.
  assert (enabled eiv1) as He1 by (unfold enabled; by rewrite Ec).
  assert (limit eiv1 = limit eiv /\ window eiv1 = window eiv) as [El Ew] by (unfold limit, window; by rewrite Ec).
  assert (count_of eiv source <= count_of eiv1 source)%Z as Hmono.
  { unfold count_of. destruct (stats_of eiv source) as [st|] eqn:E; cbn in K |- *.
    - destruct K as (st1 & -> & _ & ?). done.
    - destruct (stats_of eiv1 source) as [st1|] eqn:E1; cbn; [|lia].
      revert E1. unfold eiv1, stats_of in *. destruct c as [input ty s|s]; cbn [guard_step].
      + destruct (check_effects eiv input ty s He) as [sal' [-> _ _] _|sal' [-> _ _] _|r sal1 sal' [Ea _ _] _ _ _ -> _ _];
          [congruence..|]. destruct (decide (s = source)) as [->|]; [|rewrite lookup_insert_ne by done; congruence].
        rewrite lookup_insert_eq. intros [= <-]. unfold recorded. rewrite Ea, E. cbn. lia.
      + cbn. destruct (decide (s = source)) as [->|]; [by rewrite lookup_delete_eq|rewrite lookup_delete_ne by done; congruence]. }
  specialize (IH eiv1 He1 ltac:(lia) Hcs Hst). rewrite El, Ew in IH. specialize (IH Hw).
  destruct (lets_pass source eiv c) eqn:Hp; [|lia].
  enough (count_of eiv1 source = count_of eiv source + 1 /\ count_of eiv1 source < limit eiv)%Z by lia.
  destruct c as [input ty s|]; [|done]. cbn [lets_pass] in Hp.
  apply andb_prop in Hp as [[Hs Hd]%andb_prop Hr]. apply bool_decide_eq_true_1 in Hs, Hr. subst s.
  rewrite negb_true_iff in Hd. apply bool_decide_eq_false_1 in Hd.
  destruct (guard_run_kept cs eiv1 source He1 Hcs) as (_ & Et1 & K1). rewrite Hst in K1.
  destruct (pass_step eiv input ty source He Hd Hr) as (st & Hst1 & Hcount & Hpass). fold eiv1 in Hst1, Hpass.
  rewrite Hst1 in K1. destruct K1 as (? & [= <-] & Hf & _). unfold count_of in *. rewrite Hst1. cbn. split; [done|].
  destruct Hpass as [?|Hover]; [done|]. unfold now in *. pose proof (Hclk _ _ Et1). lia.
Qed.

(** What the log says of a source is true of its attempts. *)
Definition stats_ok (b : Z) (st : ActivityStats) : Prop :=
  (1 <= asCount st)%Z /\ asCount st = Z.of_nat (length (asPatterns st)) /\
  asSuspicionLevel st = escalated b (asCount st) "low".

Lemma recorded_ok sal source p :
  (forall st, salAttempts sal !! source = Some st -> stats_ok (scBlockAfterAttempts (salConfig sal)) st) ->
  stats_ok (scBlockAfterAttempts (salConfig sal)) (recorded sal source p).
Proof.
  intros Hok. unfold recorded. destruct (salAttempts sal !! source) as [st|]; [|split_and!; cbn; (done || lia)].
  destruct (Hok st eq_refl) as (H1 & H2 & H3). split_and!; cbn; [lia|rewrite length_app; cbn; lia|].
  unfold escalated. rewrite (proj2 (Z.leb_le 2 (asCount st + 1))) by lia. done.
Qed.

Lemma guard_step_ok eiv c source st :
  enabled eiv -> (forall s st, stats_of eiv s = Some st -> stats_ok (limit eiv) st) ->
  stats_of (guard_step eiv c).2 source = Some st -> stats_ok (limit eiv) st.
Proof.
  intros He Hok. destruct c as [input ty s|s]; cbn [guard_step]; unfold stats_of, limit in *.
  - destruct (check_effects eiv input ty s He) as [sal' [-> _ _] _|sal' [-> _ _] _|r sal1 sal' [Ea Ec _] _ _ _ -> _ _];
      [apply Hok..|].
    destruct (decide (s = source)) as [->|]; [|rewrite lookup_insert_ne by done; apply Hok].
    rewrite lookup_insert_eq. intros [= <-]. rewrite <- Ec. apply recorded_ok. rewrite Ea, Ec. apply Hok.
  - cbn. intros [_ ?]%lookup_delete_Some. by eapply Hok.
Qed.

Lemma guard_step_config eiv c : enabled eiv -> salConfig (activityLogger (guard_step eiv c).2) = salConfig (activityLogger eiv).
Proof.
  intros He. destruct c as [input ty s|s]; cbn [guard_step]; [|done].
  by destruct (check_effects eiv input ty s He) as [sal' [_ -> _] _|sal' [_ -> _] _|].
Qed.

Lemma guard_run_ok cs eiv source st :
  enabled eiv -> (forall s st, stats_of eiv s = Some st -> stats_ok (limit eiv) st) ->
  stats_of (guard_run eiv cs) source = Some st -> stats_ok (limit eiv) st.
Proof.
  revert eiv. induction cs as [|c cs IH]; intros eiv He Hok; [apply Hok|]. cbn.
  pose proof (guard_step_config eiv c He) as Ec. set (eiv1 := (guard_step eiv c).2) in *.
  assert (limit eiv1 = limit eiv) as <- by (unfold limit; by rewrite Ec). apply IH.
  - unfold enabled. by rewrite Ec.
  - intros s st1 Hst. assert (limit eiv1 = limit eiv) as -> by (unfold limit; by rewrite Ec).
    by eapply guard_step_ok.
Qed.

(** C40: a source gets fewer suspicious inputs through than the configured
    attempts while its window lasts, whatever the other sources do; and
    after any sequence of calls the log counts every recorded attempt of a
    source once, with the level its number calls for. *)
Theorem suspicious_inputs_bounded vc sc cs source st :
  scEnableLogging sc = true -> (1 <= scBlockAfterAttempts sc)%Z ->
  let eiv := NewEnhancedInputValidator vc (Some sc) in
  stats_of (guard_run eiv cs) source = Some st ->
  stats_ok (scBlockAfterAttempts sc) st /\
  (Forall (fun c => resets source c = false) cs ->
   (now (guard_run eiv cs) - asFirstSeen st < scSuspicionResetDuration sc)%Z ->
   (Z.of_nat (passed source eiv cs) < scBlockAfterAttempts sc)%Z).
Proof.
  intros He Hb eiv Hst. split.
  - apply (guard_run_ok cs eiv source); [done| |done]. intros s st'. unfold stats_of. cbn. by rewrite lookup_empty.
  - intros Hcs Hw. assert (stats_of eiv source = None) as E0 by (unfold stats_of; apply lookup_empty).
    pose proof (passed_bound cs eiv source st He) as Hp. unfold count_of in Hp. rewrite E0 in Hp.
    specialize (Hp (Z.le_refl 0) Hcs Hst Hw). change (limit eiv) with (scBlockAfterAttempts sc) in Hp. cbn in Hp. lia.
Qed.

(** Blocking lapses for good.  Once the window that began with a source's
    first suspicious input is over, no check ever blocks the source again,
    however many suspicious inputs it sends, until its statistics are reset. *)
Theorem blocking_lapses eiv source st cs input ty :
  enabled eiv -> stats_of eiv source = Some st -> (window eiv <= now eiv - asFirstSeen st)%Z ->
  Forall (fun c => resets source c = false) cs ->
  (guard_step (guard_run eiv cs) (GCheck input ty source)).1 <> Some (blocked_error source).
Proof.
  intros He Hst Hw Hcs. destruct (guard_run_kept cs eiv source He Hcs) as (Ec & Et & K). rewrite Hst in K.
  set (eiv1 := guard_run eiv cs) in *. destruct K as (st1 & Hst1 & Hf & _).
  assert (enabled eiv1) as He1 by (unfold enabled; by rewrite Ec).
  assert (forall sal, salConfig sal = salConfig (activityLogger eiv1) -> salTick (activityLogger eiv1) <= salTick sal ->
            (forall st, salAttempts sal !! source = Some st -> asFirstSeen st = asFirstSeen st1) ->
            let_pass sal source) as Hpass.
  { intros sal Es Hs Hfirst st' Hst'. right. rewrite (Hfirst _ Hst'), Es, Ec, Hf. unfold window, now in *.
    pose proof (Hclk _ _ (Nat.le_trans _ _ _ Et Hs)). lia. }
  cbn [guard_step]. unfold stats_of in Hst1.
  destruct (check_effects eiv1 input ty source He1) as [sal' _ Hn| |r sal1 sal' [Ea Ec1 _] _ _ _ E _ Hbl].
  - intros _. apply Hn, Hpass; [done..|]. intros st' ?. congruence.
  - discriminate.
  - intros ->. destruct (Hbl eq_refl) as (sal2 & E2 & Ec2 & Et2 & Hn). apply Hn, Hpass; [done..|].
    rewrite E2, E, lookup_insert_eq. intros st' [= <-]. unfold recorded. by rewrite Ea, Hst1.
Qed.
End blocking.

(** ** The middleware *)

Lemma len_split_at n s : (0 <= n <= len s)%Z -> len (split_at (Z.to_nat n) s).1 = n.
Proof.
  intros Hn. rewrite <- (Z2Nat.id n) at 2 by lia. unfold len in *.
  assert (Z.to_nat n <= String.length s) as Hle by lia. clear Hn. f_equal.
  revert s Hle. induction (Z.to_nat n) as [|k IH]; intros [|c s] Hle; cbn in *; try lia.
  specialize (IH s ltac:(lia)). destruct (split_at k s). cbn in *. lia.
Qed.

Section middleware.
Context `{UnicodePkg} (why : string -> string).

(** The order middleware passes a POST on exactly when its content type
    mentions JSON or is empty and its body can be read, is at most a megabyte
    long and decodes to a valid request; and the handler it is passed on to
    finds the body empty, because the middleware has read it. *)
Theorem middleware_consumes_body iv now r b :
  reqMethod r = "POST"%string ->
  (forall r' b', ValidateOrderRequestMiddleware why iv now r b = inr (r', b') -> r' = r /\ b' = EOF_body) /\
  ((exists next, ValidateOrderRequestMiddleware why iv now r b = inr next) <->
   (header_Get r "Content-Type" = ""%string \/ Contains (header_Get r "Content-Type") "application/json" = true) /\
   bdError b = None /\ (len (bdBytes b) <= MaxRequestBodySize)%Z /\
   exists req, ValidateAndDecodeJSON why (bdBytes b) = inr req /\ ValidateOrderRequest iv req = None).
Proof.
  intros Hm. unfold ValidateOrderRequestMiddleware, ValidateRequestBody. rewrite Hm. cbn [bool_decide negb].
  rewrite bool_decide_eq_true_2 by done. cbn [negb]. change (MaxRequestBodySize <=? 0)%Z with false. cbn iota.
  set (ct := header_Get r "Content-Type").
  destruct (negb (bool_decide (ct = ""%string)) && negb (Contains ct "application/json")) eqn:Hct.
  { cbn. split; [done|]. split; [naive_solver|]. intros [Hc _]. destruct Hc as [Hc|Hc].
    - by rewrite bool_decide_eq_true_2 in Hct.
    - by rewrite Hc, andb_false_r in Hct. }
  assert (ct = ""%string \/ Contains ct "application/json" = true) as Hok.
  { apply andb_false_iff in Hct as [Hc|Hc]; rewrite negb_false_iff in Hc; [left; by apply bool_decide_eq_true_1 in Hc|by right]. }
  unfold read_limited. destruct (Z.leb_spec (MaxRequestBodySize + 1) (len (bdBytes b))) as [Hl|Hl].
  { assert (len (split_at (Z.to_nat (MaxRequestBodySize + 1)) (bdBytes b)).1 = MaxRequestBodySize + 1)%Z as Hlen
      by (by apply len_split_at).
    destruct (split_at _ (bdBytes b)) as [a rest]. cbn [fst] in Hlen. rewrite Hlen.
    rewrite (proj2 (Z.ltb_lt _ _)) by lia. split; [done|]. split; [naive_solver|]. intros (_ & _ & ? & _). lia. }
  destruct (bdError b) as [e|]; [split; [done|]; naive_solver|].
  rewrite (proj2 (Z.ltb_ge MaxRequestBodySize _)) by lia.
  destruct (ValidateAndDecodeJSON why (bdBytes b)) as [e|req] eqn:Hd; [split; [done|]; naive_solver|].
  destruct (ValidateOrderRequest iv req) eqn:Hv; [split; [done|]; naive_solver|].
  split; [by intros r' b' [= <- <-]|]. split; [|eauto]. intros _. split_and!; [done..|lia|eauto].
Qed.
End middleware.

(** ** Instances *)

Module ValidationInstances.

#[local] Instance ascii_unicode : UnicodePkg := {|
  unicode_ToUpper := ascii_upper; unicode_ToLower := ascii_lower;
  unicode_IsLetter := ascii_letter; unicode_IsDigit := ascii_digit;
|}.
#[local] Instance ascii_unicode_spec : UnicodeSpec.
Proof. by split. Qed.

Lemma identifiers_detected_witness :
  all_bytes id_char "last_updated-1" = true /\
  DetectSuspiciousPatterns "last_updated-1" = ["SQL_INJECTION:UPDATE"%string].
Proof.
  split; [reflexivity|]. rewrite (identifiers_detected "last_updated-1" eq_refl). vm_compute. reflexivity.
Defined.

Definition guards : EnhancedInputValidator := NewEnhancedInputValidator None (Some DefaultSecurityConfig).
Definition attack : guard_call := GCheck "DROP TABLE x" "SYMBOL" "ip".
Definition attacks : list guard_call := replicate 7 attack.

Lemma Z_of_nat_mono m n : m <= n -> (Z.of_nat m <= Z.of_nat n)%Z.
Proof. lia. Qed.

Lemma suspicious_inputs_bounded_witness : exists st,
  stats_of (guard_run Z.of_nat guards attacks) "ip" = Some st /\ asCount st = 5%Z /\
  (Z.of_nat (passed Z.of_nat "ip" guards attacks) < 5)%Z.
Proof.
  destruct (stats_of (guard_run Z.of_nat guards attacks) "ip") as [st|] eqn:E; [|vm_compute in E; discriminate].
  exists st. split; [reflexivity|].
  assert (asCount st = 5 /\ Z.of_nat (salTick (activityLogger (guard_run Z.of_nat guards attacks))) - asFirstSeen st < 100)%Z
    as [Hc Hw] by (vm_compute in E; injection E as <-; vm_compute; split; reflexivity).
  split; [exact Hc|].
  apply (suspicious_inputs_bounded Z.of_nat Z_of_nat_mono None DefaultSecurityConfig attacks "ip" st eq_refl);
    [discriminate|exact E|repeat constructor|].
  eapply Z.lt_trans; [exact Hw|reflexivity].
Defined.

(** A clock that has moved by more than an hour between two readings. *)
Definition slow (n : nat) : Z := (Z.of_nat n * 4000 * 10 ^ 9)%Z.

Lemma slow_mono m n : m <= n -> (slow m <= slow n)%Z.
Proof. unfold slow. nia. Qed.

Lemma blocking_lapses_witness : exists st,
  stats_of (guard_run slow guards attacks) "ip" = Some st /\ (5 <= asCount st)%Z /\
  (guard_step slow (guard_run slow (guard_run slow guards attacks) attacks) attack).1 <> Some (blocked_error "ip").
Proof.
  destruct (stats_of (guard_run slow guards attacks) "ip") as [st|] eqn:E; [|vm_compute in E; discriminate].
  exists st. split; [reflexivity|].
  assert (5 <= asCount st /\ window (guard_run slow guards attacks) <= now slow (guard_run slow guards attacks) - asFirstSeen st)%Z
    as [Hc Hw] by (vm_compute in E; injection E as <-; vm_compute; split; discriminate).
  split; [exact Hc|].
  apply (blocking_lapses slow slow_mono (guard_run slow guards attacks) "ip" st attacks "DROP TABLE x" "SYMBOL");
    [reflexivity|exact E|exact Hw|repeat constructor].
Defined.

Definition quote (s : string) : string := String cquote (s +:+ str1 cquote).
Definition order_body : string :=
  "{" +:+ quote "client_id" +:+ ":" +:+ quote "alice" +:+ "," +:+ quote "symbol" +:+ ":" +:+ quote "BTCUSD" +:+ ","
  +:+ quote "side" +:+ ":" +:+ quote "buy" +:+ "," +:+ quote "price" +:+ ":100," +:+ quote "quantity" +:+ ":2}".
Definition order_post : Request := mkRequest "POST" ∅ ∅ ∅ order_body None "/orders" "".
Definition no_reason (body : string) : string := "".

Lemma middleware_consumes_body_witness :
  reqMethod order_post = "POST"%string /\
  exists r' b', ValidateOrderRequestMiddleware no_reason NewDefaultInputValidator 0 order_post (mkBody order_body None)
                = inr (r', b') /\ b' = EOF_body.
Proof.
  split; [reflexivity|].
  destruct (middleware_consumes_body no_reason NewDefaultInputValidator 0 order_post (mkBody order_body None) eq_refl)
    as [Hnext [_ Hpass]].
  destruct Hpass as [[r' b'] E].
  { split; [left; reflexivity|]. split; [reflexivity|]. split; [vm_compute; discriminate|].
    eexists. split; [vm_compute; reflexivity|vm_compute; reflexivity]. }
  exists r', b'. split; [exact E|]. exact (proj2 (Hnext r' b' E)).
Defined.

(** The instrument the exchange trades is not a valid symbol. *)
Example instrument_is_rejected : ValidateSymbol NewDefaultInputValidator "BTC-USD" <> None.
Proof. vm_compute. discriminate. Qed.

(** Trailing data is found unless it begins with a closing bracket. *)
Example trailing_bracket_accepted :
  ValidateAndDecodeJSON no_reason (order_body +:+ "}garbage") = ValidateAndDecodeJSON no_reason order_body.
Proof. vm_compute. reflexivity. Qed.

(** Truncation counts bytes and can cut a character in two. *)
Example sanitized_text_is_cut :
  ValidString (SanitizeString "é" 1) = false.
Proof. vm_compute. reflexivity. Qed.
End ValidationInstances.
