(* ===== verification/RateLimiter.v ===== *)
(** * The rate limiter (src/ratelimit/ratelimiter.go, src/ratelimit/middleware.go)

    A token bucket per client, kept in memory or in a Redis hash that a Lua
    script updates.  Times are nanoseconds; the readings of [time.Now] are
    arguments.  Token counts are float64 ([Float]).  The Redis server is a
    parameter of each call: whether the call reaches it.  The script is the
    program's own code and is modelled on the hash it updates, [lRedis]; that a
    hash expires after an hour without use is left out.  Redis replies to a
    script with the integer part of a Lua number. *)

From S2P Require Import Prelude.
From S2P Require Import Float.
From S2P Require Import Web.

(** ** Data *)

Record Config := mkConfig {
  cfMaxTokens : Z;
  cfRefillRate : Z;
  cfRefillInterval : Z;
  cfKeyPrefix : string;
  cfWhitelistedKeys : list string;
  cfConservativeFallback : bool;
}.

Record Bucket := mkBucket {
  bkTokens : float64;
  bkLastRefill : Z;
  bkMaxTokens : Z;
  bkRefillRate : float64;   (** tokens per second *)
}.

Record RateLimitResult := mkRateLimitResult {
  rlAllowed : bool;
  rlRemaining : Z;
  rlRetryAfter : Z;
  rlResetAt : option Z;
  rlCurrentTokens : float64;
}.

Record TokenBucketLimiter := mkTokenBucketLimiter {
  lUseRedis : bool;
  lStore : option (gmap string Bucket);
  lMaxTokens : Z;
  lRefillRate : Z;
  lRefillInterval : Z;
  lKeyPrefix : string;
  lWhitelisted : gset string;
  lOriginalMaxTokens : Z;
  lRedis : gmap string (float64 * Z);   (** tokens and last_refill of the hashes *)
}.

Definition set_lStore (tbl : TokenBucketLimiter) (useRedis : bool) (st : option (gmap string Bucket)) : TokenBucketLimiter :=
  mkTokenBucketLimiter useRedis st (lMaxTokens tbl) (lRefillRate tbl) (lRefillInterval tbl) (lKeyPrefix tbl)
    (lWhitelisted tbl) (lOriginalMaxTokens tbl) (lRedis tbl).
Definition set_lRedis (tbl : TokenBucketLimiter) (h : gmap string (float64 * Z)) : TokenBucketLimiter :=
  mkTokenBucketLimiter (lUseRedis tbl) (lStore tbl) (lMaxTokens tbl) (lRefillRate tbl) (lRefillInterval tbl)
    (lKeyPrefix tbl) (lWhitelisted tbl) (lOriginalMaxTokens tbl) h.
Definition set_lWhitelisted (tbl : TokenBucketLimiter) (w : gset string) : TokenBucketLimiter :=
  mkTokenBucketLimiter (lUseRedis tbl) (lStore tbl) (lMaxTokens tbl) (lRefillRate tbl) (lRefillInterval tbl)
    (lKeyPrefix tbl) w (lOriginalMaxTokens tbl) (lRedis tbl).

Definition second : Z := 10 ^ 9.

Definition DefaultConfig : Config := mkConfig 100 10 second "ratelimit:" [] false.

Definition or_default (z d : Z) : Z := if (z =? 0)%Z then d else z.

Definition NewInMemoryStore : gmap string Bucket := ∅.

(** [redisUp]: there is a client and it answers the ping; [hashes]: what the
    server holds. *)
Definition NewTokenBucketLimiter (redisUp : bool) (hashes : gmap string (float64 * Z)) (config : Config)
    : TokenBucketLimiter :=
  let maxTokens := or_default (cfMaxTokens config) 100 in
  let refillRate := or_default (cfRefillRate config) 10 in
  let refillInterval := or_default (cfRefillInterval config) second in
  let keyPrefix := if bool_decide (cfKeyPrefix config = "") then "ratelimit:" else cfKeyPrefix config in
  let whitelisted := list_to_set (cfWhitelistedKeys config) in
  if redisUp then
    mkTokenBucketLimiter true None maxTokens refillRate refillInterval keyPrefix whitelisted maxTokens hashes
  else
    let '(m, r) :=
      if cfConservativeFallback config then
        let conservativeMaxTokens := Z.quot maxTokens 2 in
        let conservativeRefillRate := Z.quot refillRate 2 in
        (if (conservativeMaxTokens <? 10)%Z then 10%Z else conservativeMaxTokens,
         if (conservativeRefillRate <? 1)%Z then 1%Z else conservativeRefillRate)
      else (maxTokens, refillRate) in
    mkTokenBucketLimiter false (Some NewInMemoryStore) m r refillInterval keyPrefix whitelisted maxTokens hashes.

(** ** The in-memory store *)

Definition tokens_per_second (refillRate refillInterval : Z) : float64 :=
  f_div (f_of_int refillRate) (duration_Seconds refillInterval).

Definition GetOrCreate (now : Z) (buckets : gmap string Bucket) (clientKey : string) (maxTokens refillRate refillInterval : Z)
    : Bucket * gmap string Bucket :=
  match buckets !! clientKey with
  | Some bucket => (bucket, buckets)
  | None =>
      let bucket := mkBucket (f_of_int maxTokens) now maxTokens (tokens_per_second refillRate refillInterval) in
      (bucket, <[clientKey := bucket]> buckets)
  end.

Definition store_Get (buckets : gmap string Bucket) (clientKey : string) : option Bucket := buckets !! clientKey.

(** One tick of [cleanupRoutine]. *)
Definition cleanup (now : Z) (buckets : gmap string Bucket) : gmap string Bucket :=
  filter (fun kb => ~ (now - bkLastRefill kb.2 > 3600 * second)%Z) buckets.

Definition min_float (a b : float64) : float64 := if f_lt a b then a else b.

(** The statements of [allowInMemory] on the bucket: the refill, the test and
    the payment. *)
Definition refill (now : Z) (b : Bucket) : Bucket :=
  let elapsed := (now - bkLastRefill b)%Z in
  let tokensToAdd := f_mul (duration_Seconds elapsed) (bkRefillRate b) in
  mkBucket (min_float (f_of_int (bkMaxTokens b)) (f_add (bkTokens b) tokensToAdd)) now
    (bkMaxTokens b) (bkRefillRate b).
Definition has_token (b : Bucket) : bool := f_le 1%Q (bkTokens b).
Definition pay (b : Bucket) : Bucket :=
  mkBucket (f_sub (bkTokens b) 1%Q) (bkLastRefill b) (bkMaxTokens b) (bkRefillRate b).

(** [time.Duration(seconds * float64(time.Second))]. *)
Definition wait_duration (needed perSecond : float64) : Z :=
  f_trunc (f_mul (f_div needed perSecond) (f_of_int second)).

Definition take_token (now : Z) (b : Bucket) : RateLimitResult * Bucket :=
  let b1 := refill now b in
  if has_token b1 then
    let b2 := pay b1 in
    (mkRateLimitResult true (f_trunc (bkTokens b2)) 0 None (bkTokens b1), b2)
  else
    let retryAfter := wait_duration (f_sub 1%Q (bkTokens b1)) (bkRefillRate b1) in
    (mkRateLimitResult false (f_trunc (bkTokens b1)) retryAfter (Some (now + retryAfter)%Z) (bkTokens b1), b1).

(** The clock is read when a bucket is created and again for the refill.
    [None]: the store is nil. *)
Definition allowInMemory (created now : Z) (tbl : TokenBucketLimiter) (clientKey : string)
    : option (RateLimitResult * TokenBucketLimiter) :=
  buckets ← lStore tbl;
  let '(b, buckets1) := GetOrCreate created buckets clientKey (lMaxTokens tbl) (lRefillRate tbl) (lRefillInterval tbl) in
  let '(result, b') := take_token now b in
  Some (result, set_lStore tbl (lUseRedis tbl) (Some (<[clientKey := b']> buckets1))).

(** ** The Redis bucket *)

(** The script: what it returns and what it leaves in the hash. *)
Definition token_script (max_tokens refill_rate refill_interval_ms now_ms : Z) (cost : float64)
    (bucket : option (float64 * Z)) : (bool * Z * float64) * (float64 * Z) :=
  let '(tokens, last_refill_ms) := default (f_of_int max_tokens, now_ms) bucket in
  let elapsed_ms := (now_ms - last_refill_ms)%Z in
  let intervals_passed := f_div (f_of_int elapsed_ms) (f_of_int refill_interval_ms) in
  let tokens_to_add := f_mul intervals_passed (f_of_int refill_rate) in
  let tokens1 := min_float (f_of_int max_tokens) (f_add tokens tokens_to_add) in
  let allowed := f_le cost tokens1 in
  let tokens2 := if allowed then f_sub tokens1 cost else tokens1 in
  ((allowed, Qround.Qfloor tokens2, tokens2), (tokens2, now_ms)).

Definition allowRedis (redisUp : bool) (created now : Z) (tbl : TokenBucketLimiter) (clientKey : string)
    : option (RateLimitResult * TokenBucketLimiter) :=
  let key := String.append (lKeyPrefix tbl) clientKey in
  if redisUp then
    let '((allowed, remaining, tokens), hash) :=
      token_script (lMaxTokens tbl) (lRefillRate tbl) (Z.quot (lRefillInterval tbl) (10 ^ 6)) (now / 10 ^ 6)
        1%Q (lRedis tbl !! key) in
    let tbl1 := set_lRedis tbl (<[key := hash]> (lRedis tbl)) in
    let currentTokens := f_of_int (f_trunc tokens) in
    if allowed then Some (mkRateLimitResult true remaining 0 None currentTokens, tbl1)
    else
      let retryAfter := wait_duration (f_sub 1%Q currentTokens)
        (f_div (f_of_int (lRefillRate tbl)) (duration_Seconds (lRefillInterval tbl))) in
      Some (mkRateLimitResult false remaining retryAfter (Some (now + retryAfter)%Z) currentTokens, tbl1)
  else
    let tbl1 := set_lStore tbl false (Some (default NewInMemoryStore (lStore tbl))) in
    allowInMemory created now tbl1 clientKey.

(** ** The limiter *)

Definition AddWhitelistedKey (tbl : TokenBucketLimiter) (k : string) : TokenBucketLimiter :=
  set_lWhitelisted tbl ({[k]} ∪ lWhitelisted tbl).
Definition RemoveWhitelistedKey (tbl : TokenBucketLimiter) (k : string) : TokenBucketLimiter :=
  set_lWhitelisted tbl (lWhitelisted tbl ∖ {[k]}).
Definition IsWhitelisted (tbl : TokenBucketLimiter) (k : string) : bool := bool_decide (k ∈ lWhitelisted tbl).

Definition Allow (redisUp : bool) (created now : Z) (tbl : TokenBucketLimiter) (clientKey : string)
    : option (RateLimitResult * TokenBucketLimiter) :=
  if IsWhitelisted tbl clientKey then
    Some (mkRateLimitResult true (lOriginalMaxTokens tbl) 0 None (f_of_int (lOriginalMaxTokens tbl)), tbl)
  else if lUseRedis tbl then allowRedis redisUp created now tbl clientKey
  else allowInMemory created now tbl clientKey.

(** The error of [HGet] (no hash, or no server) is not reported. *)
Definition limiter_GetStats (redisUp : bool) (tbl : TokenBucketLimiter) (clientKey : string) : option float64 :=
  if lUseRedis tbl then
    match (if redisUp then lRedis tbl !! String.append (lKeyPrefix tbl) clientKey else None) with
    | Some (tokens, _) => Some tokens
    | None => Some (f_of_int (lMaxTokens tbl))
    end
  else
    buckets ← lStore tbl;
    match store_Get buckets clientKey with
    | None => Some (f_of_int (lMaxTokens tbl))
    | Some b => Some (bkTokens b)
    end.

(** ** The middleware *)

(** [strings.Split(s, ",")[0]]: up to the first comma. *)
Fixpoint before_comma (s : string) : string :=
  match s with
  | EmptyString => EmptyString
  | String c s' => if bool_decide (Ascii.nat_of_ascii c = 44) then EmptyString else String c (before_comma s')
  end.

(** The white space [strings.TrimSpace] removes from an ASCII string. *)
Definition is_space (c : Ascii.ascii) : bool :=
  let n := Ascii.nat_of_ascii c in bool_decide (n = 32) || bool_decide (9 <= n <= 13).
Fixpoint trim_left (s : string) : string :=
  match s with
  | String c s' => if is_space c then trim_left s' else s
  | EmptyString => EmptyString
  end.
Fixpoint trim_right (s : string) : string :=
  match s with
  | EmptyString => EmptyString
  | String c s' =>
      match trim_right s' with
      | EmptyString => if is_space c then EmptyString else String c EmptyString
      | t => String c t
      end
  end.
Definition TrimSpace (s : string) : string := trim_right (trim_left s).

Section middleware.
Context (SplitHostPort : string -> option (string * string)).

Definition GetClientIP (r : Request) : string :=
  let forwarded := header_Get r "X-Forwarded-For" in
  if bool_decide (forwarded <> "") then TrimSpace (before_comma forwarded)
  else
    let realIP := header_Get r "X-Real-IP" in
    if bool_decide (realIP <> "") then realIP
    else match SplitHostPort (reqRemoteAddr r) with None => reqRemoteAddr r | Some (ip, _) => ip end.

Definition ClientIDAndIPKeyExtractor (r : Request) : string :=
  let q := query_Get r "client_id" in
  if bool_decide (q <> "") then String.append "client:" q
  else
    let h := header_Get r "X-Client-ID" in
    if bool_decide (h <> "") then String.append "client:" h
    else String.append "ip:" (GetClientIP r).

Definition IPKeyExtractor (r : Request) : string := String.append "ip:" (GetClientIP r).

Definition ClientIDKeyExtractor (r : Request) : string :=
  let clientID := header_Get r "X-Client-ID" in
  if bool_decide (clientID = "") then String.append "ip:" (GetClientIP r) else String.append "client:" clientID.

Definition retry_after_seconds (result : RateLimitResult) : Z :=
  (f_trunc (duration_Seconds (rlRetryAfter result)) + 1)%Z.

(** The body of a refusal: the message and the two numbers printed in it. *)
Inductive LimitBody {B : Type} :=
  | Passed (b : B)
  | Exceeded (message : string) (retryAfterSeconds : Z) (resetAt : option Z).
Arguments LimitBody : clear implicits.

Definition refusal_header (result : RateLimitResult) : gmap string string :=
  <["Retry-After" := pretty (retry_after_seconds result)]>
  (<["X-RateLimit-Reset" := match rlResetAt result with Some t => pretty (t / second)%Z | None => "-62135596800" end]>
   json_header).

Definition DefaultErrorHandler {B} (result : RateLimitResult) : Response (LimitBody B) :=
  mkResponse StatusTooManyRequests (refusal_header result)
    (Exceeded "Rate limit exceeded" (retry_after_seconds result) (rlResetAt result)).

Definition CustomErrorHandler {B} (message : string) (statusCode : Z) (result : RateLimitResult) : Response (LimitBody B) :=
  mkResponse statusCode (refusal_header result) (Exceeded message (retry_after_seconds result) (rlResetAt result)).

Record Middleware {B : Type} := mkMiddleware {
  mwKeyExtractor : Request -> string;
  mwErrorHandler : RateLimitResult -> Response (LimitBody B);
  mwSkipPaths : gset string;
}.
Arguments Middleware : clear implicits.

Definition NewMiddleware {B} (extractor : option (Request -> string))
    (handler : option (RateLimitResult -> Response (LimitBody B))) (skip : list string) : Middleware B :=
  mkMiddleware B (default ClientIDAndIPKeyExtractor extractor) (default DefaultErrorHandler handler) (list_to_set skip).

Definition pass {B} (h : gmap string string) (r : Response B) : Response (LimitBody B) :=
  mkResponse (respStatus r) (respHeader r ∪ h) (Passed (respBody r)).

(** Whether the wrapped handler ran, the answer and the limiter afterwards.
    [Allow] never returns an error, so the branch that fails open is not taken. *)
Definition Handler {B} (m : Middleware B) (redisUp : bool) (created now : Z) (tbl : TokenBucketLimiter)
    (next : Request -> Response B) (r : Request) : option (bool * Response (LimitBody B) * TokenBucketLimiter) :=
  if bool_decide (reqPath r ∈ mwSkipPaths m) then Some (true, pass ∅ (next r), tbl)
  else
    '(result, tbl1) ← Allow redisUp created now tbl (mwKeyExtractor m r);
    let h := <["X-RateLimit-Limit" := pretty (lMaxTokens tbl1)]>
             (<["X-RateLimit-Remaining" := pretty (rlRemaining result)]> ∅) in
    if negb (rlAllowed result) then
      let refusal := mwErrorHandler m result in
      Some (false, mkResponse (respStatus refusal) (respHeader refusal ∪ h) (respBody refusal), tbl1)
    else Some (true, pass h (next r), tbl1).
End middleware.

(** ** The router's limiter (src/api/router.go) *)

Definition rateLimitConfig : Config :=
  mkConfig 100 10 second "ratelimit:"
    ["client:admin"; "client:market-maker-1"; "client:monitoring"; "ip:127.0.0.1"] true.

Definition rateLimitSkipPaths : list string := ["/healthz"; "/metrics"; "/stream"].
