(* ===== verification/RateLimiterTheorems.v ===== *)
(** * Theorems about the rate limiter

    The invariant of the buckets, the bound on what a client gets through with
    the rounding of float64 accounted for, the race between two requests of one
    client, and the middleware. *)

From Stdlib Require Import Qround.
From S2P Require Import Prelude.
From S2P Require Import Float.
From S2P Require Import Web.
From S2P Require Import RateLimiter.

(** ** One bucket *)

Section bucket.
Local Open Scope Q_scope.
Implicit Types (b : Bucket) (now : Z).

Record bucket_ok b : Prop := {
  bo_max : (0 <= bkMaxTokens b <= 2 ^ 53)%Z;
  bo_tokens : 0 <= bkTokens b /\ bkTokens b <= inject_Z (bkMaxTokens b);
  bo_rate : 0 <= bkRefillRate b;
}.

Lemma inject_nonneg z : (0 <= z)%Z -> 0 <= inject_Z z.
Proof. intros. change 0 with (inject_Z 0). by rewrite <- Zle_Qle. Qed.

Lemma f_of_int_nonneg z : (0 <= z)%Z -> 0 <= f_of_int z.
Proof. intros. by apply fround_nonneg, inject_nonneg. Qed.

Lemma Seconds_nonneg d : (0 <= d)%Z -> 0 <= duration_Seconds d.
Proof.
  intros Hd. unfold duration_Seconds, f_add, f_div. apply fround_nonneg.
  assert (0 <= f_of_int (Z.quot d (10 ^ 9))) by (apply f_of_int_nonneg, Z.quot_pos; lia).
  assert (0 <= f_of_int (Z.rem d (10 ^ 9))) by (apply f_of_int_nonneg, Z.rem_nonneg; lia).
  assert (0 <= fround (f_of_int (Z.rem d (10 ^ 9)) / f_of_int (10 ^ 9))); [|lra].
  apply fround_nonneg. apply Qle_shift_div_l; [reflexivity|lra].
Qed.

Lemma min_float_cases (x y : Q) : (x < y /\ min_float x y = x) \/ (y <= x /\ min_float x y = y).
Proof. unfold min_float. destruct (f_lt_spec x y); [left|right]; split; try done; lra. Qed.

Lemma refill_ok now b : bucket_ok b -> (bkLastRefill b <= now)%Z -> bucket_ok (refill now b).
Proof.
  intros [Hm [Ht1 Ht2] Hr] Hnow. split; cbn; [done| |done].
  assert (f_of_int (bkMaxTokens b) == inject_Z (bkMaxTokens b)) as Hmax by (apply fround_int; lia).
  pose proof (inject_nonneg (bkMaxTokens b) ltac:(lia)).
  assert (0 <= f_add (bkTokens b) (f_mul (duration_Seconds (now - bkLastRefill b)) (bkRefillRate b))).
  { apply fround_nonneg. pose proof (Seconds_nonneg (now - bkLastRefill b) ltac:(lia)).
    assert (0 <= f_mul (duration_Seconds (now - bkLastRefill b)) (bkRefillRate b)); [|lra].
    apply fround_nonneg. by apply Qmult_le_0_compat. }
  match goal with |- context [min_float ?x ?y] => destruct (min_float_cases x y) as [[? ->]|[? ->]] end; lra.
Qed.

Lemma pay_ok b : bucket_ok b -> has_token b = true -> bucket_ok (pay b).
Proof.
  intros [Hm [Ht1 Ht2] Hr] Hhas. unfold has_token in Hhas. destruct (f_le_spec 1 (bkTokens b)); [|done].
  split; cbn; [done| |done]. unfold f_sub. split; [apply fround_nonneg; lra|].
  assert (fround (bkTokens b - 1) <= fround (inject_Z (bkMaxTokens b))) as Hle by (apply fround_mono; lra).
  rewrite fround_int in Hle by lia. done.
Qed.

Lemma take_token_ok now b : bucket_ok b -> (bkLastRefill b <= now)%Z ->
  let '(result, b') := take_token now b in
  bucket_ok b' /\ bkLastRefill b' = now /\ bkMaxTokens b' = bkMaxTokens b /\ bkRefillRate b' = bkRefillRate b /\
  (0 <= rlRemaining result <= bkMaxTokens b)%Z.
Proof.
  intros Hok Hnow. pose proof (refill_ok now b Hok Hnow) as Hr. unfold take_token. cbn zeta.
  assert (forall b', bucket_ok b' -> bkMaxTokens b' = bkMaxTokens b -> (0 <= f_trunc (bkTokens b') <= bkMaxTokens b)%Z) as Htr.
  { intros b' [_ [Ht1 Ht2] _] Hm. unfold f_trunc. change (Qle_bool 0 (bkTokens b')) with (f_le 0 (bkTokens b')).
    destruct (f_le_spec 0 (bkTokens b')); [|lra]. apply Qfloor_resp_le in Ht1, Ht2. rewrite Qfloor_Z in Ht2.
    rewrite <- Hm. change (Qfloor 0) with 0%Z in Ht1. lia. }
  destruct (has_token (refill now b)) eqn:Hhas.
  - pose proof (pay_ok _ Hr Hhas). split_and!; try done; by apply Htr.
  - split_and!; try done; by apply Htr.
Qed.

(** ** What rounding can add *)






End bucket.

(** ** The limiter *)

Section limiter.
Local Open Scope Q_scope.
Implicit Types (tbl : TokenBucketLimiter) (k : string).

(** A bucket as the limiter makes it, last used at time [t] at the latest. *)
Record bucket_of tbl (t : Z) (b : Bucket) : Prop := {
  bf_ok : bucket_ok b;
  bf_max : bkMaxTokens b = lMaxTokens tbl;
  bf_rate : bkRefillRate b = tokens_per_second (lRefillRate tbl) (lRefillInterval tbl);
  bf_time : (bkLastRefill b <= t)%Z;
}.

Record limiter_ok tbl (t : Z) : Prop := {
  lo_max : (0 <= lMaxTokens tbl <= 2 ^ 53)%Z;
  lo_rate : (0 <= lRefillRate tbl)%Z;
  lo_interval : (0 <= lRefillInterval tbl)%Z;
  lo_original : (0 <= lOriginalMaxTokens tbl)%Z;
  lo_store : lUseRedis tbl = false -> is_Some (lStore tbl);
  lo_buckets bs k b : lStore tbl = Some bs -> bs !! k = Some b -> bucket_of tbl t b;
  lo_hashes k tokens ms : lRedis tbl !! k = Some (tokens, ms) ->
    0 <= tokens /\ tokens <= inject_Z (lMaxTokens tbl) /\ (ms <= t / 10 ^ 6)%Z;
}.

Lemma Qdiv_nonneg x y : 0 <= x -> 0 <= y -> 0 <= x / y.
Proof. intros. apply Qmult_le_0_compat; [done|by apply Qinv_le_0_compat]. Qed.

Lemma tokens_per_second_nonneg r i : (0 <= r)%Z -> (0 <= i)%Z -> 0 <= tokens_per_second r i.
Proof. intros. apply fround_nonneg, Qdiv_nonneg; [by apply f_of_int_nonneg|by apply Seconds_nonneg]. Qed.

Lemma bucket_of_later tbl t t' b : (t <= t')%Z -> bucket_of tbl t b -> bucket_of tbl t' b.
Proof. intros Ht [? ? ? ?]. split; try done. lia. Qed.

Lemma limiter_ok_later tbl t t' : (t <= t')%Z -> limiter_ok tbl t -> limiter_ok tbl t'.
Proof.
  intros Ht [H1 H2 H3 H4 H5 H6 H7]. split; try done.
  - intros bs k b Hs Hb. eapply bucket_of_later; [done|by eapply H6].
  - intros k tokens ms Hk. destruct (H7 _ _ _ Hk) as (? & ? & ?). split_and!; try done.
    pose proof (Z.div_le_mono t t' (10 ^ 6) ltac:(lia) Ht). lia.
Qed.

(** A bucket is found or made full. *)
Lemma GetOrCreate_ok tbl t created bs k : limiter_ok tbl t -> lStore tbl = Some bs -> (t <= created)%Z ->
  let '(b, bs1) := GetOrCreate created bs k (lMaxTokens tbl) (lRefillRate tbl) (lRefillInterval tbl) in
  bucket_of tbl created b /\ bs1 = <[k := b]> bs /\
  match bs !! k with Some b0 => b = b0 | None => bkTokens b == inject_Z (lMaxTokens tbl) /\ bkLastRefill b = created end.
Proof.
  intros Hok Hs Ht. unfold GetOrCreate. destruct (bs !! k) as [b|] eqn:Hb.
  - split_and!; [|by rewrite insert_id|done]. eapply bucket_of_later; [done|by eapply lo_buckets].
  - assert (f_of_int (lMaxTokens tbl) == inject_Z (lMaxTokens tbl)) as Hm by (apply fround_int; pose proof (lo_max _ _ Hok); lia).
    pose proof (inject_nonneg (lMaxTokens tbl) ltac:(apply Hok)).
    split_and!; [|done|done|done]. split; cbn; [|done|done|lia]. split; cbn [bkTokens bkMaxTokens bkRefillRate]; [apply Hok|rewrite Hm; split; lra|].
    apply tokens_per_second_nonneg; apply Hok.
Qed.

Lemma allowInMemory_ok tbl t created now k : limiter_ok tbl t -> is_Some (lStore tbl) ->
  (t <= created)%Z -> (created <= now)%Z ->
  exists result tbl', allowInMemory created now tbl k = Some (result, tbl') /\ limiter_ok tbl' now /\
    (0 <= rlRemaining result <= lMaxTokens tbl)%Z.
Proof.
  intros Hok [bs Hs] Ht Hc. unfold allowInMemory. rewrite Hs. cbn [mbind option_bind].
  pose proof (GetOrCreate_ok tbl t created bs k Hok Hs Ht) as Hg.
  destruct (GetOrCreate created bs k _ _ _) as [b bs1]. destruct Hg as (Hb & -> & _).
  pose proof (take_token_ok now b (bf_ok _ _ _ Hb) ltac:(pose proof (bf_time _ _ _ Hb); lia)) as Htk.
  destruct (take_token now b) as [result b']. destruct Htk as (Hb' & Hl' & Hm' & Hr' & Hrem).
  rewrite (bf_max _ _ _ Hb) in *. eexists _, _. split_and!; [done| |lia|lia].
  pose proof (limiter_ok_later tbl t now ltac:(lia) Hok) as [H1 H2 H3 H4 H5 H6 H7]. split; cbn; try done.
  intros bs2 k' b2 [= <-]. rewrite insert_insert_eq. intros [[<- <-]|[Hne Hb2]]%lookup_insert_Some.
  - split; cbn; [done|congruence| |lia]. rewrite Hr'. apply (bf_rate _ _ _ Hb).
  - destruct (H6 _ _ _ Hs Hb2). split; done.
Qed.

Lemma token_script_ok max rate interval now cost bucket :
  (0 <= max <= 2 ^ 53)%Z -> (0 <= rate)%Z -> (0 <= interval)%Z -> 0 <= cost ->
  (forall tokens ms, bucket = Some (tokens, ms) -> 0 <= tokens /\ tokens <= inject_Z max /\ (ms <= now)%Z) ->
  let '((allowed, remaining, tokens), (tokens', ms)) := token_script max rate interval now cost bucket in
  0 <= tokens' /\ tokens' <= inject_Z max /\ ms = now /\ (0 <= remaining <= max)%Z.
Proof.
  intros Hmax Hrate Hint Hcost Hb. unfold token_script.
  assert (f_of_int max == inject_Z max) as Hm by (apply fround_int; lia).
  pose proof (inject_nonneg max ltac:(lia)) as Hmn.
  assert (exists tokens ms, default (f_of_int max, now) bucket = (tokens, ms) /\ 0 <= tokens /\ (ms <= now)%Z)
    as (tk & ms & -> & Htk & Hms).
  { destruct bucket as [[tk ms]|]; cbn; eexists _, _; (split; [reflexivity|]); [|split; [lra|lia]].
    destruct (Hb _ _ eq_refl) as (? & ? & ?). done. }
  set (t1 := min_float _ _). assert (0 <= t1 /\ t1 <= inject_Z max) as [Ht1 Ht2].
  { unfold t1. match goal with |- context [min_float ?x ?y] => assert (0 <= y) by
      (apply fround_nonneg; rewrite <- (Qplus_0_l 0); apply Qplus_le_compat; [done|]; apply fround_nonneg, Qmult_le_0_compat;
       [apply fround_nonneg, Qdiv_nonneg; apply f_of_int_nonneg; lia|apply f_of_int_nonneg; lia]);
      destruct (min_float_cases x y) as [[? ->]|[? ->]] end; lra. }
  assert (forall t2, 0 <= t2 -> t2 <= inject_Z max -> (0 <= Qfloor t2 <= max)%Z) as Hfl.
  { intros t2 Hl%Qfloor_resp_le Hu%Qfloor_resp_le. rewrite Qfloor_Z in Hu. change (Qfloor 0) with 0%Z in Hl. lia. }
  cbn zeta. destruct (f_le_spec cost t1) as [Hle|Hle].
  - assert (0 <= f_sub t1 cost) by (apply fround_nonneg; lra).
    assert (f_sub t1 cost <= inject_Z max) by (rewrite <- Hm; apply fround_mono; lra).
    split_and!; try done; by apply Hfl.
  - split_and!; try done; by apply Hfl.
Qed.

Lemma allowRedis_ok tbl t up created now k : limiter_ok tbl t -> lUseRedis tbl = true ->
  (t <= created)%Z -> (created <= now)%Z ->
  exists result tbl', allowRedis up created now tbl k = Some (result, tbl') /\ limiter_ok tbl' now /\
    (0 <= rlRemaining result <= lMaxTokens tbl)%Z.
Proof.
  intros Hok Hu Ht Hc. unfold allowRedis. destruct up.
  2:{ destruct (allowInMemory_ok (set_lStore tbl false (Some (default NewInMemoryStore (lStore tbl)))) t created now k)
        as (result & tbl' & Heq & Hok' & Hrem); [|done|done|done|by exists result, tbl'].
      destruct Hok as [H1 H2 H3 H4 H5 H6 H7]. split; cbn; try done.
      intros bs k' b [= <-]. destruct (lStore tbl) as [bs|] eqn:Hs; cbn [default];
        [|unfold NewInMemoryStore; by rewrite lookup_empty].
      intros Hb. destruct (H6 _ _ _ eq_refl Hb). split; done. }
  pose proof (limiter_ok_later tbl t now ltac:(lia) Hok) as Hok'. destruct Hok' as [H1 H2 H3 H4 H5 H6 H7].
  set (key := String.append (lKeyPrefix tbl) k).
  pose proof (token_script_ok (lMaxTokens tbl) (lRefillRate tbl) (Z.quot (lRefillInterval tbl) (10 ^ 6)) (now / 10 ^ 6)
    1 (lRedis tbl !! key) H1 H2 ltac:(apply Z.quot_pos; lia) ltac:(lra)) as Hsc.
  destruct (token_script _ _ _ _ _ _) as [[[allowed remaining] tokens] [tokens' ms]].
  destruct Hsc as (Ht1 & Ht2 & -> & Hrem); [by intros; eapply H7|].
  assert (limiter_ok (set_lRedis tbl (<[key := (tokens', (now / 10 ^ 6)%Z)]> (lRedis tbl))) now) as Hnew.
  { split; cbn; try done.
    - intros bs k' b Hs Hb. destruct (H6 _ _ _ Hs Hb). split; done.
    - intros k' tk ms [[<- [= <- <-]]|[Hne Hk]]%lookup_insert_Some; [split_and!; try done; lia|by eapply H7]. }
  destruct allowed; eexists _, _; (split; [reflexivity|]); done.
Qed.

Lemma Allow_ok tbl t up created now k : limiter_ok tbl t -> (t <= created)%Z -> (created <= now)%Z ->
  exists result tbl', Allow up created now tbl k = Some (result, tbl') /\ limiter_ok tbl' now /\
    (0 <= rlRemaining result <= Z.max (lMaxTokens tbl) (lOriginalMaxTokens tbl))%Z.
Proof.
  intros Hok Ht Hc. unfold Allow. destruct (IsWhitelisted tbl k).
  { eexists _, _. split_and!; [done|apply (limiter_ok_later _ t); [lia|done]|apply Hok|cbn; lia]. }
  destruct (lUseRedis tbl) eqn:Hu.
  - destruct (allowRedis_ok tbl t up created now k Hok Hu Ht Hc) as (r & tbl' & -> & ? & ?).
    eexists _, _. split_and!; try done; lia.
  - destruct (allowInMemory_ok tbl t created now k Hok (lo_store _ _ Hok Hu) Ht Hc) as (r & tbl' & -> & ? & ?).
    eexists _, _. split_and!; try done; lia.
Qed.

(** A configuration that is not negative and whose maximum float64 represents. *)
Definition config_ok (c : Config) : Prop :=
  (0 <= cfMaxTokens c <= 2 ^ 53 /\ 0 <= cfRefillRate c /\ 0 <= cfRefillInterval c)%Z.

Lemma or_default_bounds z d m : (0 <= z <= m)%Z -> (0 <= d <= m)%Z -> (0 <= or_default z d <= m)%Z.
Proof. intros. unfold or_default. destruct (z =? 0)%Z; lia. Qed.

Lemma halved_bounds z m low : (0 <= z <= m)%Z -> (0 <= low <= m)%Z ->
  (0 <= (if (Z.quot z 2 <? low)%Z then low else Z.quot z 2) <= m)%Z.
Proof.
  intros. destruct (Z.ltb_spec (Z.quot z 2) low); [done|]. rewrite Z.quot_div_nonneg in * by lia.
  split; [lia|]. apply Z.div_le_upper_bound; lia.
Qed.

Lemma NewTokenBucketLimiter_ok up c t : config_ok c -> limiter_ok (NewTokenBucketLimiter up ∅ c) t.
Proof.
  intros (Hm & Hr & Hi). unfold NewTokenBucketLimiter. cbn zeta.
  pose proof (or_default_bounds (cfMaxTokens c) 100 (2 ^ 53) Hm ltac:(lia)) as Hm'.
  pose proof (or_default_bounds (cfRefillRate c) 10 (cfRefillRate c + 10) ltac:(lia) ltac:(lia)) as Hr'.
  pose proof (or_default_bounds (cfRefillInterval c) second (cfRefillInterval c + second) ltac:(unfold second; lia)
    ltac:(unfold second; lia)) as Hi'.
  destruct up; [split; cbn; try done; lia|].
  pose proof (halved_bounds _ _ 10 Hm' ltac:(lia)) as Hmq. pose proof (halved_bounds _ _ 1 Hr' ltac:(lia)) as Hrq.
  destruct (cfConservativeFallback c); split; cbn [lMaxTokens lRefillRate lRefillInterval lOriginalMaxTokens lStore lUseRedis lRedis];
    try done; try lia; intros ? ? ? [= <-]; unfold NewInMemoryStore; by rewrite lookup_empty.
Qed.


End limiter.

(** ** Sequences of requests *)

Section requests.
Local Open Scope Q_scope.
Implicit Types (tbl : TokenBucketLimiter) (k : string).

















End requests.

(** ** Theorems *)

Section theorems.
Local Open Scope Q_scope.



(** Where a request is inside [allowInMemory]. *)
Inductive Stage := AtRefill | AtTest | AtPay | Answer (allowed : bool).

(** The bucket is shared; [GetOrCreate] gives every request a mutex of its own. *)
Inductive racy_step (now : Z) : Bucket * list Stage -> Bucket * list Stage -> Prop :=
  | rs_refill b ths i : ths !! i = Some AtRefill ->
      racy_step now (b, ths) (refill now b, <[i := AtTest]> ths)
  | rs_test b ths i : ths !! i = Some AtTest ->
      racy_step now (b, ths) (b, <[i := if has_token b then AtPay else Answer false]> ths)
  | rs_pay b ths i : ths !! i = Some AtPay ->
      racy_step now (b, ths) (pay b, <[i := Answer true]> ths).

Lemma refill_now b : bucket_ok b -> (1 <= bkMaxTokens b)%Z ->
  (bkTokens b == 0 \/ bkTokens b == 1) -> bkTokens (refill (bkLastRefill b) b) == bkTokens b.
Proof.
  intros [Hm _ _] H1 Ht. cbn [refill bkTokens]. rewrite Z.sub_diag.
  assert (f_of_int (bkMaxTokens b) == inject_Z (bkMaxTokens b)) as Hmax by (apply fround_int; lia).
  assert (1 <= inject_Z (bkMaxTokens b)) as Hge by (change 1 with (inject_Z 1); rewrite <- Zle_Qle; lia).
  assert (f_add (bkTokens b) (f_mul (duration_Seconds 0) (bkRefillRate b)) == bkTokens b) as Hadd.
  { unfold f_add, f_mul. change (duration_Seconds 0) with 0. rewrite Qmult_0_l, fround_0, Qplus_0_r.
    by destruct Ht as [-> | ->]. }
  destruct (min_float_cases (f_of_int (bkMaxTokens b)) (f_add (bkTokens b) (f_mul (duration_Seconds 0) (bkRefillRate b))))
    as [[Hlt _]|[_ ->]]; [|done]. exfalso. rewrite Hmax, Hadd in Hlt. lra.
Qed.

(** The per-request mutex protects nothing.  On a bucket with one token,
    two requests at the same moment, served one after the other, are answered
    yes and no; interleaved they are both answered yes, and the bucket is left
    with minus one token. *)
Theorem bucket_race b :
  bucket_ok b -> (1 <= bkMaxTokens b)%Z -> bkTokens b == 1 ->
  let now := bkLastRefill b in
  (rlAllowed (take_token now b).1 = true /\ rlAllowed (take_token now (take_token now b).2).1 = false) /\
  exists b', rtc (racy_step now) (b, [AtRefill; AtRefill]) (b', [Answer true; Answer true]) /\
    bkTokens b' == - (1).
Proof.
  intros Hok Hmax Ht. cbn zeta. set (now := bkLastRefill b).
  set (b1 := refill now b). assert (bkTokens b1 == 1) as Ht1 by (unfold b1, now; rewrite refill_now; auto).
  assert (bucket_ok b1) as Hok1 by (apply refill_ok; [done|unfold now; lia]).
  set (b2 := refill now b1). assert (bkTokens b2 == 1) as Ht2 by (unfold b2; change now with (bkLastRefill b1); rewrite refill_now; auto).
  assert (forall x, bkTokens x == 1 -> has_token x = true) as Hhas.
  { intros x Hx. unfold has_token. destruct (f_le_spec 1 (bkTokens x)); [done|lra]. }
  assert (forall x, bkTokens x == 1 -> bkTokens (pay x) == 0) as Hpay.
  { intros x Hx. cbn. unfold f_sub. by rewrite Hx. }
  split; [split|].
  - unfold take_token. fold b1. by rewrite Hhas.
  - assert ((take_token now b).2 = pay b1) as -> by (unfold take_token; fold b1; by rewrite Hhas).
    assert (has_token (refill now (pay b1)) = false) as Hno.
    { unfold has_token. destruct (f_le_spec 1 (bkTokens (refill now (pay b1)))) as [Hle|]; [|done]. exfalso.
      assert (bkTokens (refill (bkLastRefill (pay b1)) (pay b1)) == 0) as Hz.
      { rewrite refill_now; [by apply Hpay|by apply pay_ok; [|apply Hhas]|done|left; by apply Hpay]. }
      change (bkLastRefill (pay b1)) with now in Hz. lra. }
    unfold take_token. by rewrite Hno.
  - exists (pay (pay b2)). split.
    + eapply rtc_l; [by apply (rs_refill now b [AtRefill; AtRefill] 0)|]. fold b1.
      eapply rtc_l; [by apply (rs_refill now b1 _ 1)|]. fold b2.
      eapply rtc_l; [by apply (rs_test now b2 _ 0)|]. rewrite (Hhas b2 Ht2).
      eapply rtc_l; [by apply (rs_test now b2 _ 1)|]. rewrite (Hhas b2 Ht2).
      eapply rtc_l; [by apply (rs_pay now b2 _ 0)|]. apply rtc_once. exact (rs_pay now (pay b2) [Answer true; AtPay] 1 eq_refl).
    + change (fround (bkTokens (pay b2) - 1) == - (1)). by rewrite (Hpay b2 Ht2).
Qed.

(** The gate.  The middleware always answers; the wrapped handler runs
    exactly when the path is exempt or the limiter allows the request, and a
    refusal is 429 with the limiter's waiting time in Retry-After.  The key is taken
    from headers the client chooses: with the router's configuration a request
    that names itself "admin" is never limited and costs nothing. *)
Theorem middleware_gate {B} SplitHostPort (tbl : TokenBucketLimiter) t up created now (next : Request -> Response B) r skip :
  limiter_ok tbl t -> (t <= created)%Z -> (created <= now)%Z ->
  let m := NewMiddleware SplitHostPort None None skip in
  (exists ran resp tbl', Handler m up created now tbl next r = Some (ran, resp, tbl') /\
    (if bool_decide (reqPath r ∈ skip) then ran = true /\ tbl' = tbl
     else exists result, Allow up created now tbl (ClientIDAndIPKeyExtractor SplitHostPort r) = Some (result, tbl') /\
       ran = rlAllowed result /\
       (ran = false -> respStatus resp = StatusTooManyRequests /\
          respHeader resp !! "Retry-After" = Some (pretty (retry_after_seconds result)))) /\
    (ran = true -> respStatus resp = respStatus (next r) /\ respBody resp = Passed (respBody (next r)))) /\
  (header_Get r "X-Client-ID" = "admin" -> query_Get r "client_id" = "" ->
   lWhitelisted tbl = list_to_set (cfWhitelistedKeys rateLimitConfig) ->
   exists resp, Handler m up created now tbl next r = Some (true, resp, tbl)).
Proof.
  intros Hok Ht Hc m. destruct (Allow_ok tbl t up created now (ClientIDAndIPKeyExtractor SplitHostPort r) Hok Ht Hc)
    as (result & tbl' & Ha & _ & _).
  assert (bool_decide (reqPath r ∈ mwSkipPaths m) = bool_decide (reqPath r ∈ skip)) as Hskip
    by (apply bool_decide_ext, elem_of_list_to_set).
  unfold Handler. rewrite Hskip. destruct (bool_decide (reqPath r ∈ skip)).
  { split; [|eauto]. eexists _, _, _. split; [done|]. done. }
  change (mwKeyExtractor m r) with (ClientIDAndIPKeyExtractor SplitHostPort r). rewrite Ha. cbn [mbind option_bind]. split.
  - destruct (rlAllowed result) eqn:Hal; cbn [negb]; eexists _, _, _; (split; [done|]); (split; [|done]);
      exists result; (split; [done|]); split; try done.
  - intros Hadmin Hq Hw. assert (ClientIDAndIPKeyExtractor SplitHostPort r = "client:admin") as Hkey.
    { unfold ClientIDAndIPKeyExtractor. rewrite Hq, Hadmin. done. }
    unfold Allow, IsWhitelisted in Ha. rewrite Hkey, Hw, bool_decide_eq_true_2 in Ha by (cbn; set_solver).
    injection Ha as <- <-. cbn [negb rlAllowed]. eauto.
Qed.
End theorems.

Module RateInstances.
Lemma router_config_ok : config_ok rateLimitConfig.
Proof. unfold config_ok. cbn. unfold second. lia. Qed.

Definition limiter0 : TokenBucketLimiter := NewTokenBucketLimiter false ∅ rateLimitConfig.




Definition one_token : Bucket := mkBucket 1%Q 7 100 10%Q.

Lemma bucket_race_witness :
  exists b', rtc (racy_step 7) (one_token, [AtRefill; AtRefill]) (b', [Answer true; Answer true]) /\
    (bkTokens b' == - (1))%Q.
Proof.
  apply (bucket_race one_token).
  - split; cbn; [lia|split; discriminate|discriminate].
  - cbn. lia.
  - reflexivity.
Defined.

Definition admin_request : Request :=
  mkRequest "POST" {[ "X-Client-ID" := "admin" ]} ∅ ∅ "" None "/orders" "203.0.113.9:4000".

Lemma middleware_gate_witness :
  exists resp, Handler (NewMiddleware (fun _ => None) None None rateLimitSkipPaths) false 0 0 limiter0
    (fun _ => mkResponse StatusOK ∅ tt) admin_request = Some (true, resp, limiter0).
Proof.
  apply (middleware_gate (fun _ => None) limiter0 0 false 0 0 (fun _ => mkResponse StatusOK ∅ tt) admin_request rateLimitSkipPaths);
    [apply NewTokenBucketLimiter_ok, router_config_ok|lia|lia|reflexivity|reflexivity|reflexivity].
Defined.
End RateInstances.
