(* ===== verification/Routes.v ===== *)
(** * Routing (src/api/router.go: NewRouter, setupRoutes, ServeHTTP)

    The routes the service registers, in order, and the way of a request: the
    router selects a route, the two middlewares run around its handler.  The
    selection is that of gorilla/mux, a class with the documented behaviour; the
    handlers are those of Api.v and Admin.v, here a parameter.

    The theorems: no two routes compete for a request, and what happens to every
    request, on every branch. *)

From Stdlib Require Import Ascii String.
From S2P Require Import Prelude.
From S2P Require Import Web.
From S2P Require Import RateLimiter.
From S2P Require Import RateLimiterTheorems.

Local Open Scope string_scope.

(** ** Templates *)

Inductive segment := Lit (s : string) | Var (name : string).

#[global] Instance segment_eq_dec : EqDecision segment.
Proof. solve_decision. Defined.

(** The parts of a path between its slashes. *)
Fixpoint split_slash (s : string) : list string :=
  match s with
  | EmptyString => [""]
  | String c s' =>
      if Ascii.eqb c "/" then "" :: split_slash s'
      else match split_slash s' with
           | [] => [String c ""]
           | p :: ps => String c p :: ps
           end
  end.
Definition segments_of (path : string) : list string := tl (split_slash path).

(** [{name}] matches anything until the next slash. *)
Fixpoint matches (t : list segment) (ps : list string) : option (gmap string string) :=
  match t, ps with
  | [], [] => Some ∅
  | Lit s :: t', p :: ps' => if bool_decide (s = p) then matches t' ps' else None
  | Var x :: t', p :: ps' => if bool_decide (p = "") then None else <[x := p]> <$> matches t' ps'
  | _, _ => None
  end.

Inductive Endpoint :=
  | EpSubmitOrder | EpCancelOrder | EpGetOrder | EpGetOrderBook | EpGetTrades | EpStream
  | EpTriggerSnapshot | EpLatestSnapshot | EpSnapshotHistory | EpTriggerRecovery | EpRecoveryStatus
  | EpHealth | EpMetrics.

#[global] Instance Endpoint_eq_dec : EqDecision Endpoint.
Proof. solve_decision. Defined.

Record Route := mkRoute { rtMethod : string; rtTemplate : list segment; rtEndpoint : Endpoint }.

#[global] Instance Route_eq_dec : EqDecision Route.
Proof. solve_decision. Defined.

(** The routes, given which managers there are. *)
Definition setupRoutes (snapshots recovery : bool) : list Route :=
  [mkRoute "POST" [Lit "orders"] EpSubmitOrder;
   mkRoute "POST" [Lit "orders"; Var "order_id"; Lit "cancel"] EpCancelOrder;
   mkRoute "GET" [Lit "orders"; Var "order_id"] EpGetOrder;
   mkRoute "GET" [Lit "orderbook"] EpGetOrderBook;
   mkRoute "GET" [Lit "trades"] EpGetTrades;
   mkRoute "GET" [Lit "stream"] EpStream] ++
  (if snapshots then
     [mkRoute "POST" [Lit "snapshots"; Lit "trigger"] EpTriggerSnapshot;
      mkRoute "GET" [Lit "snapshots"; Lit "latest"] EpLatestSnapshot;
      mkRoute "GET" [Lit "snapshots"; Lit "history"] EpSnapshotHistory]
   else []) ++
  (if recovery then
     [mkRoute "POST" [Lit "recovery"; Lit "trigger"] EpTriggerRecovery;
      mkRoute "GET" [Lit "recovery"; Lit "status"] EpRecoveryStatus]
   else []) ++
  [mkRoute "GET" [Lit "healthz"] EpHealth; mkRoute "GET" [Lit "metrics"] EpMetrics].

(** ** github.com/gorilla/mux *)

Inductive RouteMatch := MatchRoute (r : Route) (vars : gmap string string) | MatchMethodMismatch | MatchNone.

Class MuxPkg := { mux_Match : list Route -> string -> string -> RouteMatch }.

(** "Routes are tested in the order they were added"; a path that only matches
    routes of other methods is a method mismatch.  A path that is not clean is
    redirected before it is matched. *)
Definition clean (path : string) : Prop :=
  String.prefix "/" path = true /\ Forall (fun p => p ∉ [""; "."; ".."]) (segments_of path).

Class MuxSpec `{MuxPkg} : Prop := {
  mux_first rs1 r rs2 method path vars : clean path ->
    rtMethod r = method -> matches (rtTemplate r) (segments_of path) = Some vars ->
    Forall (fun r' => rtMethod r' = method -> matches (rtTemplate r') (segments_of path) = None) rs1 ->
    mux_Match (rs1 ++ r :: rs2)%list method path = MatchRoute r vars;
  mux_method rs method path : clean path ->
    Exists (fun r => is_Some (matches (rtTemplate r) (segments_of path))) rs ->
    Forall (fun r => rtMethod r = method -> matches (rtTemplate r) (segments_of path) = None) rs ->
    mux_Match rs method path = MatchMethodMismatch;
  mux_none rs method path : clean path ->
    Forall (fun r => matches (rtTemplate r) (segments_of path) = None) rs -> mux_Match rs method path = MatchNone;
}.

(** ** Serving *)

Section serving.
Context `{MuxPkg} (SplitHostPort : string -> option (string * string)) {B : Type}.

(** [not_found] and [not_allowed] are the router's own answers. *)
Context (not_found not_allowed : Response B) (handle : Endpoint -> Request -> Response B).

Definition with_vars (r : Request) (vars : gmap string string) : Request :=
  mkRequest (reqMethod r) (reqHeader r) (reqQuery r) vars (reqBody r) (reqCorrelation r) (reqPath r) (reqRemoteAddr r).

(** The first middleware: the request the second one sees, and the header. *)
Definition correlation_of (generated : string) (r : Request) : string :=
  if bool_decide (header_Get r "X-Correlation-ID" = "") then generated else header_Get r "X-Correlation-ID".

(** Which endpoint ran, the answer, and the limiter afterwards.  The middlewares
    only run around a route that was found. *)
Definition ServeHTTP (snapshots recovery up : bool) (created now : Z) (generated : string) (tbl : TokenBucketLimiter)
    (r : Request) : option (option Endpoint * Response (@LimitBody B) * TokenBucketLimiter) :=
  match mux_Match (setupRoutes snapshots recovery) (reqMethod r) (reqPath r) with
  | MatchNone => Some (None, pass ∅ not_found, tbl)
  | MatchMethodMismatch => Some (None, pass ∅ not_allowed, tbl)
  | MatchRoute route vars =>
      let id := correlation_of generated r in
      let r1 := with_correlation (with_vars r vars) id in
      '(ran, resp, tbl1) ← Handler (NewMiddleware SplitHostPort None None rateLimitSkipPaths) up created now tbl
                             (handle (rtEndpoint route)) r1;
      Some ((if ran : bool then Some (rtEndpoint route) else None),
            mkResponse (respStatus resp) (<["X-Correlation-ID" := id]> (respHeader resp)) (respBody resp), tbl1)
  end.
End serving.

(** ** Theorems *)

(** Two templates that no path matches both. *)
Fixpoint disjoint_templates (t u : list segment) : bool :=
  match t, u with
  | [], [] => false
  | Lit a :: t', Lit b :: u' => negb (bool_decide (a = b)) || disjoint_templates t' u'
  | _ :: t', _ :: u' => disjoint_templates t' u'
  | _, _ => true
  end.

Lemma disjoint_templates_sound t u ps :
  disjoint_templates t u = true -> is_Some (matches t ps) -> is_Some (matches u ps) -> False.
Proof.
  revert u ps. induction t as [|[a|x] t IH]; intros [|[b|y] u] [|p ps] Hd [v Ht] [w Hu]; cbn in *;
    try discriminate; repeat case_bool_decide; subst; cbn in *; try discriminate;
    try (destruct (matches t ps) eqn:?; [|discriminate]); try (destruct (matches u ps) eqn:?; [|discriminate]);
    solve [congruence | eapply (IH u ps); eauto].
Qed.

Definition separate (r r' : Route) : bool :=
  bool_decide (r = r') || negb (bool_decide (rtMethod r = rtMethod r')) || disjoint_templates (rtTemplate r) (rtTemplate r').

Lemma routes_separate snapshots recovery :
  forallb (fun r => forallb (separate r) (setupRoutes snapshots recovery)) (setupRoutes snapshots recovery) = true.
Proof. destruct snapshots, recovery; vm_compute; reflexivity. Qed.

(** No two routes compete: whatever the method and the path, at most one of the
    registered routes matches, so that their order does not matter. *)
Theorem routes_unambiguous snapshots recovery r r' ps :
  r ∈ setupRoutes snapshots recovery -> r' ∈ setupRoutes snapshots recovery -> rtMethod r = rtMethod r' ->
  is_Some (matches (rtTemplate r) ps) -> is_Some (matches (rtTemplate r') ps) -> r = r'.
Proof.
  intros Hr Hr' Hm Hmr Hmr'. pose proof (routes_separate snapshots recovery) as Hs.
  rewrite forallb_forall in Hs. specialize (Hs r ltac:(by apply list_elem_of_In)).
  rewrite forallb_forall in Hs. specialize (Hs r' ltac:(by apply list_elem_of_In)). unfold separate in Hs.
  rewrite (bool_decide_eq_true_2 (rtMethod r = rtMethod r')), orb_false_r in Hs by done.
  apply orb_true_iff in Hs as [Hs|Hs]; [by apply bool_decide_eq_true in Hs|].
  exfalso. by eapply disjoint_templates_sound.
Qed.

Section serve.
Context `{MuxSpec} (SplitHostPort : string -> option (string * string)) {B : Type}.
Context (not_found not_allowed : Response B) (handle : Endpoint -> Request -> Response B).

Lemma mux_selects snapshots recovery r method path vars :
  clean path -> r ∈ setupRoutes snapshots recovery -> rtMethod r = method ->
  matches (rtTemplate r) (segments_of path) = Some vars ->
  mux_Match (setupRoutes snapshots recovery) method path = MatchRoute r vars.
Proof.
  intros Hclean Hr Hm Hv. apply list_elem_of_split_l in Hr as Hsplit. destruct Hsplit as (rs1 & rs2 & Heq & Hnot).
  rewrite Heq. apply mux_first; [done..|]. apply Forall_forall. intros r' Hr' Hm'.
  destruct (matches (rtTemplate r') (segments_of path)) eqn:Hv'; [|done]. exfalso. apply Hnot.
  assert (r = r') as ->; [|done].
  apply (routes_unambiguous snapshots recovery r r' (segments_of path)); [done| |congruence|by rewrite Hv|by rewrite Hv'].
  rewrite Heq. apply elem_of_app. by left.
Qed.

(** C26: what happens to a request.  On a registered path with the right method, its
    endpoint runs, with the variables of the path and a correlation identifier,
    exactly when the path is exempt or the limiter allows the client; the answer
    carries the identifier, and a refusal is 429.  Other requests are answered
    by the router and cost the client nothing. *)
Theorem requests_served snapshots recovery up created now generated tbl t req :
  clean (reqPath req) -> limiter_ok tbl t -> (t <= created)%Z -> (created <= now)%Z ->
  let routes := setupRoutes snapshots recovery in
  let answer := ServeHTTP SplitHostPort not_found not_allowed handle snapshots recovery up created now generated tbl req in
  let id := correlation_of generated req in
  (forall r vars, r ∈ routes -> rtMethod r = reqMethod req -> matches (rtTemplate r) (segments_of (reqPath req)) = Some vars ->
     exists ran resp tbl', answer = Some (ran, resp, tbl') /\
       respHeader resp !! "X-Correlation-ID" = Some id /\
       (if bool_decide (reqPath req ∈ rateLimitSkipPaths) then ran = Some (rtEndpoint r) /\ tbl' = tbl
        else exists result,
          Allow up created now tbl (ClientIDAndIPKeyExtractor SplitHostPort (with_correlation (with_vars req vars) id))
            = Some (result, tbl') /\
          ran = (if rlAllowed result then Some (rtEndpoint r) else None)) /\
       (ran = None -> respStatus resp = StatusTooManyRequests) /\
       (ran <> None -> respBody resp =
          Passed (respBody (handle (rtEndpoint r) (with_correlation (with_vars req vars) id))))) /\
  (Forall (fun r => rtMethod r = reqMethod req -> matches (rtTemplate r) (segments_of (reqPath req)) = None) routes ->
     answer = Some (None, pass ∅ (if existsb (fun r => bool_decide (is_Some (matches (rtTemplate r) (segments_of (reqPath req))))) routes
                                  then not_allowed else not_found), tbl)).
Proof.
  intros Hclean Hok Ht Hc routes answer id. split.
  - intros r vars Hr Hm Hv. subst answer. unfold ServeHTTP.
    rewrite (mux_selects snapshots recovery r (reqMethod req) (reqPath req) vars) by done.
    destruct (middleware_gate SplitHostPort tbl t up created now (handle (rtEndpoint r))
      (with_correlation (with_vars req vars) id) rateLimitSkipPaths Hok Ht Hc) as [(ran & resp & tbl' & Hh & Hgate & Hpass) _].
    fold id. rewrite Hh. cbn [mbind option_bind]. eexists _, _, _. split; [done|]. cbn [respHeader respStatus respBody].
    split; [by rewrite lookup_insert_eq|]. change (reqPath (with_correlation (with_vars req vars) id)) with (reqPath req) in Hgate.
    destruct (bool_decide (reqPath req ∈ rateLimitSkipPaths)).
    + destruct Hgate as [-> ->]. split_and!; try done. intros _. by apply Hpass.
    + destruct Hgate as (result & Ha & -> & Hrefuse). split; [by exists result|].
      destruct (rlAllowed result) eqn:Hal; split; try done; intros _; [by apply Hpass|by apply Hrefuse].
  - intros Hnone. subst answer. unfold ServeHTTP. fold routes.
    destruct (existsb _ routes) eqn:Hex.
    + rewrite mux_method; [done..| |done]. apply existsb_exists in Hex as (r & Hr & Hm).
      apply Exists_exists. exists r. split; [by apply list_elem_of_In|]. by apply bool_decide_eq_true in Hm.
    + rewrite mux_none; [done..|]. apply Forall_forall. intros r Hr. apply eq_None_not_Some. intros Hm.
      apply not_true_iff_false in Hex. apply Hex, existsb_exists. exists r. split; [by apply list_elem_of_In|].
      by apply bool_decide_eq_true.
Qed.
End serve.

Module RoutesInstances.
Import RateInstances.

(** A router that tests the routes in order. *)
Fixpoint first_match (rs : list Route) (method : string) (ps : list string) (seen : bool) : RouteMatch :=
  match rs with
  | [] => if seen then MatchMethodMismatch else MatchNone
  | r :: rs' =>
      match matches (rtTemplate r) ps with
      | Some vars => if bool_decide (rtMethod r = method) then MatchRoute r vars else first_match rs' method ps true
      | None => first_match rs' method ps seen
      end
  end.
#[export] Instance list_mux : MuxPkg := {| mux_Match rs method path := first_match rs method (segments_of path) false |}.

#[export] Instance list_mux_spec : MuxSpec.
Proof.
  split; cbn [mux_Match list_mux].
  - intros rs1 r rs2 method path vars _ Hm Hv Hall. generalize false as seen.
    induction Hall as [|r' rs1 Hr' _ IH]; intros seen; cbn [app first_match].
    + rewrite Hv. by rewrite bool_decide_eq_true_2.
    + destruct (matches (rtTemplate r') _) eqn:Hm'; [|apply IH].
      rewrite bool_decide_eq_false_2; [apply IH|]. intros He. specialize (Hr' He). congruence.
  - intros rs method path _ Hex Hall.
    enough (forall seen, (seen = true \/ Exists (fun r => is_Some (matches (rtTemplate r) (segments_of path))) rs) ->
      first_match rs method (segments_of path) seen = MatchMethodMismatch) as He by (apply He; by right).
    clear Hex. induction Hall as [|r rs Hr _ IH]; intros seen Hseen; cbn [first_match].
    + destruct Hseen as [->|Hn]; [done|]. by apply Exists_nil in Hn.
    + destruct (matches (rtTemplate r) _) eqn:Hm.
      * rewrite bool_decide_eq_false_2; [apply IH; by left|]. intros He. specialize (Hr He). congruence.
      * apply IH. destruct Hseen as [|[[? Hs]|]%Exists_cons]; [by left|congruence|by right].
  - intros rs method path _ Hall. induction Hall as [|r rs Hr _ IH]; [done|]. cbn [first_match]. by rewrite Hr.
Qed.

Definition cancel_request : Request :=
  mkRequest "POST" {[ "X-Client-ID" := "alice" ]} ∅ ∅ "" None "/orders/o1/cancel" "203.0.113.9:4000".
Definition ok_handler (e : Endpoint) (r : Request) : Response string := mkResponse StatusOK ∅ (mux_Var r "order_id").
Definition plain (status : Z) : Response string := mkResponse status ∅ "".

Lemma requests_served_witness :
  exists ran resp tbl',
    ServeHTTP (fun _ => None) (plain 404) (plain 405) ok_handler true true false 0 0 "c1" limiter0 cancel_request =
      Some (ran, resp, tbl') /\
    respHeader resp !! "X-Correlation-ID" = Some "c1" /\ ran = Some EpCancelOrder /\ respBody resp = Passed "o1".
Proof.
  destruct (requests_served (fun _ => None) (plain 404) (plain 405) ok_handler true true false 0 0 "c1" limiter0 0 cancel_request)
    as [Hserved _].
  - split; [reflexivity|]. repeat constructor; vm_compute; intros Hin; repeat (inversion Hin as [|? ? ? Hin']; subst; clear Hin; rename Hin' into Hin).
  - apply NewTokenBucketLimiter_ok, router_config_ok.
  - lia.
  - lia.
  - destruct (Hserved (mkRoute "POST" [Lit "orders"; Var "order_id"; Lit "cancel"] EpCancelOrder) {[ "order_id" := "o1" ]})
      as (ran & resp & tbl' & Ha & Hid & Hgate & _ & Hbody); [by right; left|reflexivity|reflexivity|].
    change (bool_decide (reqPath cancel_request ∈ rateLimitSkipPaths)) with false in Hgate. cbn iota in Hgate.
    destruct Hgate as (result & Hallow & ->).
    assert (rlAllowed result = true) as Hal.
    { vm_compute in Hallow. injection Hallow as <- _. reflexivity. }
    rewrite Hal in Ha, Hbody. eexists _, _, _. split; [exact Ha|]. split; [exact Hid|]. split; [reflexivity|].
    by rewrite Hbody by done.
Defined.
End RoutesInstances.
