(* ===== verification/EventSourcing.v ===== *)
(** * Event sourcing (src/eventsourcing/events.go, store.go, replay.go)

    The events of an order, the state rebuilt from them, the replay engine over
    the [Store] interface (a class with its laws) and the PostgreSQL store that
    implements it over a database given as a parameter.  Prices and quantities
    are float64 ([Float]); a metadata map is [None] when it is nil. *)

From S2P Require Import Prelude.
From S2P Require Import External.
From S2P Require Import Float.
From S2P Require Import Sql.

Section eventsourcing.
Context `{UuidPkg}.

(** ** Events *)

Record BaseEvent := mkBaseEvent {
  beEventID : uuid;
  beEventType : string;
  beAggregateID : string;
  beAggregateType : string;
  beVersion : Z;
  beTimestamp : Z;
  beMetadata : option (gmap string string);
  beCausationID : option uuid;
  beCorrelationID : option uuid;
}.

Record OrderPlacedEvent := mkOrderPlacedEvent {
  opBase : BaseEvent;
  opOrderID : uuid;
  opClientID : string;
  opInstrument : string;
  opSide : string;
  opType : string;
  opPrice : float64;
  opQuantity : float64;
  opTimeInForce : string;
}.

Record OrderCancelledEvent := mkOrderCancelledEvent {
  ocBase : BaseEvent;
  ocOrderID : uuid;
  ocReason : string;
}.

Record OrderPartiallyFilledEvent := mkOrderPartiallyFilledEvent {
  pfBase : BaseEvent;
  pfOrderID : uuid;
  pfFilledQuantity : float64;
  pfRemainingQuantity : float64;
  pfFillPrice : float64;
  pfTradeID : uuid;
}.

Record OrderFilledEvent := mkOrderFilledEvent {
  ofBase : BaseEvent;
  ofOrderID : uuid;
  ofTotalFilled : float64;
  ofAveragePrice : float64;
  ofLastTradeID : uuid;
}.

Record TradeExecutedEvent := mkTradeExecutedEvent {
  teBase : BaseEvent;
  teTradeID : uuid;
  teInstrument : string;
  teBuyerOrderID : uuid;
  teSellerOrderID : uuid;
  tePrice : float64;
  teQuantity : float64;
  teBuyerClientID : string;
  teSellerClientID : string;
}.

(** The [Event] interface: the types that implement it. *)
Inductive SourcedEvent :=
  | EvPlaced (e : OrderPlacedEvent)
  | EvCancelled (e : OrderCancelledEvent)
  | EvPartiallyFilled (e : OrderPartiallyFilledEvent)
  | EvFilled (e : OrderFilledEvent)
  | EvTrade (e : TradeExecutedEvent).

Definition base (e : SourcedEvent) : BaseEvent :=
  match e with
  | EvPlaced e => opBase e
  | EvCancelled e => ocBase e
  | EvPartiallyFilled e => pfBase e
  | EvFilled e => ofBase e
  | EvTrade e => teBase e
  end.

Definition GetEventID (e : SourcedEvent) : uuid := beEventID (base e).
Definition GetEventType (e : SourcedEvent) : string := beEventType (base e).
Definition GetAggregateID (e : SourcedEvent) : string := beAggregateID (base e).
Definition GetAggregateType (e : SourcedEvent) : string := beAggregateType (base e).
Definition GetVersion (e : SourcedEvent) : Z := beVersion (base e).
Definition GetTimestamp (e : SourcedEvent) : Z := beTimestamp (base e).

(** The builders; [id] and [now] are the draws they make. *)
Definition new_base (id : uuid) (now : Z) (type aggregateID aggregateType : string) (version : Z) : BaseEvent :=
  mkBaseEvent id type aggregateID aggregateType version now (Some ∅) None None.

Definition NewOrderPlacedEvent (id : uuid) (now : Z) (orderID : uuid) (clientID instrument side orderType : string)
    (price qty : float64) (tif : string) (version : Z) : OrderPlacedEvent :=
  mkOrderPlacedEvent (new_base id now "OrderPlaced" (uuid_String orderID) "Order" version)
    orderID clientID instrument side orderType price qty tif.

Definition NewOrderCancelledEvent (id : uuid) (now : Z) (orderID : uuid) (reason : string) (version : Z)
    : OrderCancelledEvent :=
  mkOrderCancelledEvent (new_base id now "OrderCancelled" (uuid_String orderID) "Order" version) orderID reason.

Definition NewTradeExecutedEvent (id : uuid) (now : Z) (tradeID : uuid) (instrument : string)
    (buyerOrderID sellerOrderID : uuid) (buyerClientID sellerClientID : string) (price qty : float64) (version : Z)
    : TradeExecutedEvent :=
  mkTradeExecutedEvent (new_base id now "TradeExecuted" instrument "Orderbook" version)
    tradeID instrument buyerOrderID sellerOrderID price qty buyerClientID sellerClientID.

(** The [With...] helpers know three of the five types and leave the others
    alone. *)
Definition map_base (f : BaseEvent -> BaseEvent) (e : SourcedEvent) : SourcedEvent :=
  match e with
  | EvPlaced e => EvPlaced (mkOrderPlacedEvent (f (opBase e)) (opOrderID e) (opClientID e) (opInstrument e)
                    (opSide e) (opType e) (opPrice e) (opQuantity e) (opTimeInForce e))
  | EvCancelled e => EvCancelled (mkOrderCancelledEvent (f (ocBase e)) (ocOrderID e) (ocReason e))
  | EvTrade e => EvTrade (mkTradeExecutedEvent (f (teBase e)) (teTradeID e) (teInstrument e) (teBuyerOrderID e)
                   (teSellerOrderID e) (tePrice e) (teQuantity e) (teBuyerClientID e) (teSellerClientID e))
  | _ => e
  end.

(** [None]: assignment to an entry of a nil map panics. *)
Definition WithMetadata (e : SourcedEvent) (key value : string) : option SourcedEvent :=
  let assign (b : BaseEvent) (m : gmap string string) :=
    mkBaseEvent (beEventID b) (beEventType b) (beAggregateID b) (beAggregateType b) (beVersion b) (beTimestamp b)
      (Some (<[key := value]> m)) (beCausationID b) (beCorrelationID b) in
  match e with
  | EvPartiallyFilled _ | EvFilled _ => Some e
  | _ => m ← beMetadata (base e); Some (map_base (fun b => assign b m) e)
  end.

Definition WithCorrelationID (e : SourcedEvent) (id : uuid) : SourcedEvent :=
  map_base (fun b => mkBaseEvent (beEventID b) (beEventType b) (beAggregateID b) (beAggregateType b) (beVersion b)
    (beTimestamp b) (beMetadata b) (beCausationID b) (Some id)) e.
Definition WithCausationID (e : SourcedEvent) (id : uuid) : SourcedEvent :=
  map_base (fun b => mkBaseEvent (beEventID b) (beEventType b) (beAggregateID b) (beAggregateType b) (beVersion b)
    (beTimestamp b) (beMetadata b) (Some id) (beCorrelationID b)) e.

(** ** The state of an order *)

Record OrderState := mkOrderState {
  osOrderID : uuid;
  osClientID : string;
  osInstrument : string;
  osSide : string;
  osType : string;
  osPrice : float64;
  osOriginalQty : float64;
  osRemainingQty : float64;
  osFilledQty : float64;
  osAverageFillPrice : float64;
  osStatus : string;
  osTimeInForce : string;
  osCreatedAt : option Z;   (** [None]: the zero time *)
  osUpdatedAt : option Z;
  osVersion : Z;
}.

(** [&OrderState{}]. *)
Definition zero_state : OrderState :=
  mkOrderState uuid_Nil "" "" "" "" 0%Q 0%Q 0%Q 0%Q 0%Q "" "" None None 0.

Definition Apply (s : OrderState) (event : SourcedEvent) : OrderState :=
  match event with
  | EvPlaced e =>
      mkOrderState (opOrderID e) (opClientID e) (opInstrument e) (opSide e) (opType e) (opPrice e)
        (opQuantity e) (opQuantity e) 0%Q (osAverageFillPrice s) "open" (opTimeInForce e)
        (Some (beTimestamp (opBase e))) (Some (beTimestamp (opBase e))) (beVersion (opBase e))
  | EvCancelled e =>
      mkOrderState (osOrderID s) (osClientID s) (osInstrument s) (osSide s) (osType s) (osPrice s)
        (osOriginalQty s) (osRemainingQty s) (osFilledQty s) (osAverageFillPrice s) "cancelled" (osTimeInForce s)
        (osCreatedAt s) (Some (beTimestamp (ocBase e))) (beVersion (ocBase e))
  | EvPartiallyFilled e =>
      let filled := f_add (osFilledQty s) (pfFilledQuantity e) in
      let average :=
        if f_lt 0%Q filled then
          f_div (f_add (f_mul (osAverageFillPrice s) (f_sub filled (pfFilledQuantity e)))
                       (f_mul (pfFillPrice e) (pfFilledQuantity e))) filled
        else osAverageFillPrice s in
      mkOrderState (osOrderID s) (osClientID s) (osInstrument s) (osSide s) (osType s) (osPrice s)
        (osOriginalQty s) (pfRemainingQuantity e) filled average "partial" (osTimeInForce s)
        (osCreatedAt s) (Some (beTimestamp (pfBase e))) (beVersion (pfBase e))
  | EvFilled e =>
      mkOrderState (osOrderID s) (osClientID s) (osInstrument s) (osSide s) (osType s) (osPrice s)
        (osOriginalQty s) 0%Q (ofTotalFilled e) (ofAveragePrice e) "filled" (osTimeInForce s)
        (osCreatedAt s) (Some (beTimestamp (ofBase e))) (beVersion (ofBase e))
  | EvTrade _ => s
  end.

(** ** The store interface *)

Class Store (S : Type) := {
  st_Append : S -> SourcedEvent -> string + S;
  st_LoadEvents : S -> string -> string -> string + list SourcedEvent;
  st_LoadEventsSince : S -> string -> string -> Z -> string + list SourcedEvent;
}.

(** What the interface's comments promise: "retrieves all events for an
    aggregate" in version order, "retrieves events after a specific version". *)
Class StoreSpec (S : Type) `{Store S} : Prop := {
  st_sorted s id type events : st_LoadEvents s id type = inr events ->
    StronglySorted (fun e e' => GetVersion e < GetVersion e')%Z events;
  st_since s id type v events tail : st_LoadEvents s id type = inr events ->
    st_LoadEventsSince s id type v = inr tail -> tail = filter (fun e => v < GetVersion e)%Z events;
}.

(** ** Replay *)

Section replay.
Context {S : Type} `{Store S}.

Inductive ReplayError := ReplayLoad (cause : string) | ReplayNotFound (orderID : uuid).


(** The loop that stops at the first event the condition holds of. *)
Fixpoint apply_until (stop : SourcedEvent -> bool) (state : OrderState) (events : list SourcedEvent) : OrderState :=
  match events with
  | [] => state
  | e :: events' => if stop e then state else apply_until stop (Apply state e) events'
  end.


Definition ReplayOrderToTimestamp (s : S) (orderID : uuid) (targetTime : Z) : ReplayError + OrderState :=
  match st_LoadEvents s (uuid_String orderID) "Order" with
  | inl err => inl (ReplayLoad err)
  | inr events => inr (apply_until (fun e => targetTime <? GetTimestamp e)%Z zero_state events)
  end.
End replay.
End eventsourcing.

(** ** The PostgreSQL store *)

Section postgres.
Context `{UuidPkg}.

Record EventRow := mkEventRow {
  rowEventID : uuid;
  rowEventType : string;
  rowAggregateID : string;
  rowAggregateType : string;
  rowPayload : string;
  rowVersion : Z;
  rowTimestamp : Z;
  rowMetadata : option (gmap string string);
  rowCausationID : option uuid;
  rowCorrelationID : option uuid;
}.

(** The JSON decoder of each event type, and the encoder. *)
Class EventJson := {
  json_marshal : SourcedEvent -> option string;
  json_placed : string -> option OrderPlacedEvent;
  json_cancelled : string -> option OrderCancelledEvent;
  json_partially : string -> option OrderPartiallyFilledEvent;
  json_filled : string -> option OrderFilledEvent;
  json_trade : string -> option TradeExecutedEvent;
}.

(** The database: an INSERT into events, and the SELECT of an aggregate's type
    and payload columns, after a version if one is given, ordered by version. *)
Class EventDb := {
  event_db : Type;
  db_insert : event_db -> EventRow -> option string * event_db;
  db_select : event_db -> string -> string -> option Z -> string + list (string * string);
}.

Context `{EventJson, EventDb}.

Definition deserializeEvent (eventType payload : string) : option SourcedEvent :=
  if bool_decide (eventType = "OrderPlaced") then EvPlaced <$> json_placed payload
  else if bool_decide (eventType = "OrderCancelled") then EvCancelled <$> json_cancelled payload
  else if bool_decide (eventType = "OrderPartiallyFilled") then EvPartiallyFilled <$> json_partially payload
  else if bool_decide (eventType = "OrderFilled") then EvFilled <$> json_filled payload
  else if bool_decide (eventType = "TradeExecuted") then EvTrade <$> json_trade payload
  else None.

Definition extractEventMetadata (e : SourcedEvent) : option (gmap string string) * option uuid * option uuid :=
  match e with
  | EvPlaced _ | EvCancelled _ | EvTrade _ => (beMetadata (base e), beCausationID (base e), beCorrelationID (base e))
  | _ => (None, None, None)
  end.

(** An empty map is stored as NULL. *)
Definition toJSONB (m : option (gmap string string)) : option (gmap string string) :=
  m ← m; if bool_decide (m = ∅) then None else Some m.

Definition event_row (e : SourcedEvent) (payload : string) : EventRow :=
  let '(metadata, causationID, correlationID) := extractEventMetadata e in
  mkEventRow (GetEventID e) (GetEventType e) (GetAggregateID e) (GetAggregateType e) payload (GetVersion e)
    (GetTimestamp e) (toJSONB metadata) causationID correlationID.

Definition Append (s : event_db) (e : SourcedEvent) : string + event_db :=
  match json_marshal e with
  | None => inl "failed to marshal event"
  | Some payload =>
      match db_insert s (event_row e payload) with
      | (Some err, _) => inl (String.append "failed to insert event: " err)
      | (None, s') => inr s'
      end
  end.

(** The loop over the rows that both queries share. *)
Fixpoint deserialize_rows (rows : list (string * string)) (events : list SourcedEvent) : string + list SourcedEvent :=
  match rows with
  | [] => inr events
  | (eventType, payload) :: rows' =>
      match deserializeEvent eventType payload with
      | None => inl "failed to deserialize event"
      | Some e => deserialize_rows rows' (events ++ [e])
      end
  end.

Definition LoadEvents (s : event_db) (aggregateID aggregateType : string) : string + list SourcedEvent :=
  match db_select s aggregateID aggregateType None with
  | inl err => inl (String.append "failed to query events: " err)
  | inr rows => deserialize_rows rows []
  end.

Definition LoadEventsSince (s : event_db) (aggregateID aggregateType : string) (version : Z) : string + list SourcedEvent :=
  match db_select s aggregateID aggregateType (Some version) with
  | inl err => inl (String.append "failed to query events: " err)
  | inr rows => deserialize_rows rows []
  end.

#[global] Instance PostgresEventStore : Store event_db := {|
  st_Append := Append;
  st_LoadEvents := LoadEvents;
  st_LoadEventsSince := LoadEventsSince;
|}.

(** What the schema and the queries guarantee: a query that does not fail
    delivers the rows of an aggregate in the order of their versions, which the
    table's constraint keeps distinct, and the version filter selects among them.  The table is written
    by [Append] alone, and a payload decodes to the event it was made from. *)
Class EventDbSpec : Prop := {
  db_rows_of s id type : exists events payloads,
    length payloads = length events /\
    Forall2 (fun e p => deserializeEvent (GetEventType e) p = Some e) events payloads /\
    StronglySorted (fun e e' => GetVersion e < GetVersion e')%Z events /\
    (forall rows, db_select s id type None = inr rows -> rows = zip (GetEventType <$> events) payloads) /\
    (forall v rows, db_select s id type (Some v) = inr rows ->
      rows = (filter (fun ep => v < ep.1)%Z (zip (GetVersion <$> events) (zip (GetEventType <$> events) payloads))).*2);
}.
End postgres.

(** ** Snapshots of aggregates

    The table has one row per aggregate and version.  [fault] is the error of the
    call; the state is marshalled by the caller's type ([None]: it cannot be), and
    [jsonb] is what the column makes of the text, an error for text that is not
    JSON. *)
Section snapshots.
Context (jsonb : string -> option string).

Record SnapshotsTable := mkSnapshotsTable { snapRows : gmap (string * string * Z) (string * Z) }.

(** An INTEGER column. *)
Definition int32_ok (n : Z) : bool := ((- 2 ^ 31 <=? n) && (n <? 2 ^ 31))%Z.

Definition SaveSnapshot (fault : option string) (now : Z) (t : SnapshotsTable) (aggregateID aggregateType : string)
    (version : Z) (state : option string) : option string * SnapshotsTable :=
  match state with
  | None => (Some "failed to marshal state", t)
  | Some stateJSON =>
      match fault with
      | Some err => (Some (String.append "failed to save snapshot: " err), t)
      | None =>
          match jsonb stateJSON with
          | Some column =>
              if int32_ok version && varchar_ok 255 aggregateID && varchar_ok 50 aggregateType
              then (None, mkSnapshotsTable (<[(aggregateID, aggregateType, version) := (column, now)]> (snapRows t)))
              else (Some "failed to save snapshot: value out of range", t)
          | None => (Some "failed to save snapshot: invalid input syntax for type json", t)
          end
      end
  end.

(** The versions of an aggregate, and the row ORDER BY version DESC LIMIT 1
    selects. *)
Definition versions_of (t : SnapshotsTable) (aggregateID aggregateType : string) : list (Z * string) :=
  omap (fun kv => let '(id, type, v) := kv.1 in
    if bool_decide (id = aggregateID /\ type = aggregateType) then Some (v, kv.2.1) else None) (map_to_list (snapRows t)).
Definition newest (l : list (Z * string)) : option (Z * string) :=
  foldr (fun row best => match best with
                         | Some b => if (b.1 <? row.1)%Z then Some row else Some b
                         | None => Some row
                         end) None l.

(** No snapshot is version 0 and no state. *)
Definition LoadSnapshot (fault : option string) (t : SnapshotsTable) (aggregateID aggregateType : string)
    : string + (Z * option string) :=
  match fault with
  | Some err => inl (String.append "failed to load snapshot: " err)
  | None =>
      match newest (versions_of t aggregateID aggregateType) with
      | None => inr (0%Z, None)
      | Some (version, state) => inr (version, Some state)
      end
  end.

Lemma newest_spec l : match newest l with
  | None => l = []
  | Some b => b ∈ l /\ forall row, row ∈ l -> (row.1 <= b.1)%Z
  end.
Proof.
  induction l as [|row l IH]; [done|]. cbn [newest foldr]. fold (newest l). destruct (newest l) as [b|].
  - destruct IH as [Hb Hmax]. destruct (Z.ltb_spec b.1 row.1).
    + split; [left|]. intros r [->|Hr]%elem_of_cons; [lia|]. specialize (Hmax r Hr). lia.
    + split; [by right|]. intros r [->|Hr]%elem_of_cons; [lia|by apply Hmax].
  - subst l. split; [left|]. intros r [->|Hr]%elem_of_cons; [lia|]. by apply not_elem_of_nil in Hr.
Qed.

Lemma versions_of_spec t id type v state :
  (v, state) ∈ versions_of t id type <-> exists at_, snapRows t !! (id, type, v) = Some (state, at_).
Proof.
  unfold versions_of. rewrite list_elem_of_omap. split.
  - intros ([[[id' type'] v'] [s at_]] & Hk & Hv). cbn in Hv. case_bool_decide as Hid; [|done]. destruct Hid as [-> ->].
    simplify_eq. apply elem_of_map_to_list in Hk. eauto.
  - intros [at_ Hk]. exists (id, type, v, (state, at_)). split; [by apply elem_of_map_to_list|]. cbn.
    by rewrite bool_decide_eq_true_2.
Qed.

(** A snapshot that was saved is the one that is loaded, unless a later version
    was; saving the same version again replaces it, and other aggregates are
    not affected. *)
Theorem snapshot_saved_is_loaded now t id type version stateJSON t' :
  SaveSnapshot None now t id type version (Some stateJSON) = (None, t') ->
  (forall v state, LoadSnapshot None t id type = inr (v, Some state) -> v <= version)%Z ->
  exists column, jsonb stateJSON = Some column /\ LoadSnapshot None t' id type = inr (version, Some column) /\
    (forall id' type', (id', type') <> (id, type) -> forall row v, (v, row) ∈ versions_of t' id' type' <-> (v, row) ∈ versions_of t id' type').
Proof.
  unfold SaveSnapshot. destruct (jsonb stateJSON) as [column|]; [|done]. case_match; [|done]. intros [= <-] Hbefore.
  exists column. split; [done|]. split.
  - unfold LoadSnapshot in *. pose proof (newest_spec (versions_of t id type)) as Hold.
    match goal with |- context [newest (versions_of ?t1 id type)] => set (t1' := t1); pose proof (newest_spec (versions_of t1' id type)) as Hnew end.
    assert ((version, column) ∈ versions_of t1' id type) as Hin.
    { apply versions_of_spec. exists now. cbn. by rewrite lookup_insert_eq. }
    destruct (newest (versions_of t1' id type)) as [[v state]|]; [|by rewrite Hnew in Hin; apply not_elem_of_nil in Hin].
    destruct Hnew as [Hv Hmax]. specialize (Hmax _ Hin). cbn in Hmax.
    apply versions_of_spec in Hv as [at_ Hv]. cbn in Hv. rewrite lookup_insert_Some in Hv.
    destruct Hv as [[Heq Hs]|[Hne Hv]]; [by simplify_eq|].
    assert ((v, state) ∈ versions_of t id type) as Hvt by (apply versions_of_spec; eauto).
    destruct (newest (versions_of t id type)) as [[v0 s0]|]; [|by rewrite Hold in Hvt; apply not_elem_of_nil in Hvt].
    destruct Hold as [_ Hmax0]. specialize (Hmax0 _ Hvt). specialize (Hbefore v0 s0 eq_refl). cbn in *.
    assert (v = version) as -> by lia. by destruct Hne.
  - intros id' type' Hne row v. rewrite !versions_of_spec. cbn. rewrite lookup_insert_ne; [done|]. naive_solver.
Qed.
End snapshots.

Section postgres_facts.
Context `{UuidPkg, !EventJson, !EventDb}.

Lemma deserialize_rows_all (events : list SourcedEvent) (payloads : list string) : forall acc,
  Forall2 (fun e p => deserializeEvent (GetEventType e) p = Some e) events payloads ->
  deserialize_rows (zip (GetEventType <$> events) payloads) acc = inr (acc ++ events).
Proof.
  intros acc Hf. revert acc. induction Hf as [|e p events payloads He _ IH]; intros acc; cbn; [by rewrite app_nil_r|].
  rewrite He, IH. by rewrite <- app_assoc.
Qed.

Lemma deserialize_rows_since (v : Z) (events : list SourcedEvent) (payloads : list string) : forall acc,
  Forall2 (fun e p => deserializeEvent (GetEventType e) p = Some e) events payloads ->
  deserialize_rows (filter (fun ep => v < ep.1)%Z (zip (GetVersion <$> events) (zip (GetEventType <$> events) payloads))).*2 acc =
    inr (acc ++ filter (fun e => v < GetVersion e)%Z events).
Proof.
  intros acc Hf. revert acc. induction Hf as [|e p events payloads He _ IH]; intros acc.
  { cbn. by rewrite app_nil_r. }
  cbn [fmap list_fmap zip zip_with]. rewrite !filter_cons. cbn [fst]. destruct (decide (v < GetVersion e)%Z); [|apply IH].
  cbn [fmap list_fmap snd deserialize_rows]. rewrite He, IH. by rewrite <- app_assoc.
Qed.

(** The PostgreSQL store keeps the promises of the interface. *)
#[global] Instance PostgresEventStore_spec `{!EventDbSpec} : StoreSpec event_db.
Proof.
  split; cbn [st_LoadEvents st_LoadEventsSince PostgresEventStore]; unfold LoadEvents, LoadEventsSince.
  - intros s id type events. destruct (db_rows_of s id type) as (evs & ps & _ & Hf & Hs & Hall & _).
    destruct (db_select s id type None) as [err|rows]; [done|]. rewrite (Hall rows eq_refl).
    rewrite (deserialize_rows_all evs ps [] Hf). by intros [= <-].
  - intros s id type v events tail. destruct (db_rows_of s id type) as (evs & ps & _ & Hf & Hs & Hall & Hsince).
    destruct (db_select s id type None) as [err|rows]; [done|]. rewrite (Hall rows eq_refl).
    rewrite (deserialize_rows_all evs ps [] Hf). intros [= <-].
    destruct (db_select s id type (Some v)) as [err|rows'] eqn:Hv; [done|]. rewrite (Hsince v rows' Hv).
    rewrite (deserialize_rows_since v evs ps [] Hf). by intros [= <-].
Qed.
End postgres_facts.

(** ** Theorems *)

Section replay_facts.
Context `{UuidPkg}.
Implicit Types (events : list SourcedEvent) (v : Z).


End replay_facts.

Section theorems.
Context `{UuidPkg} {S : Type} `{!Store S, !StoreSpec S}.

End theorems.

Module SourcingInstances.
Import Concrete.

(** A database with the history of one order. *)
Definition o1 : @uuid string_uuid := "o1".
Definition placed1 : OrderPlacedEvent :=
  NewOrderPlacedEvent ("e1" : @uuid string_uuid) 10 o1 "alice" "BTC-USD" "buy" "limit" 100%Q 3%Q "GTC" 1.
Definition partial2 : OrderPartiallyFilledEvent :=
  mkOrderPartiallyFilledEvent (new_base ("e2" : @uuid string_uuid) 20 "OrderPartiallyFilled" "o1" "Order" 2) o1 1%Q 2%Q 100%Q
    ("t1" : @uuid string_uuid).
Definition cancelled3 : OrderCancelledEvent :=
  NewOrderCancelledEvent ("e3" : @uuid string_uuid) 30 o1 "user_requested" 3.
Definition history : list SourcedEvent := [EvPlaced placed1; EvPartiallyFilled partial2; EvCancelled cancelled3].

#[export] Instance one_json : EventJson := {|
  json_marshal e := None;
  json_placed _ := Some placed1;
  json_cancelled _ := Some cancelled3;
  json_partially _ := Some partial2;
  json_filled _ := None;
  json_trade _ := None;
|}.

Definition select (events : list SourcedEvent) (since : option Z) : list (string * string) :=
  let keep := match since with None => events | Some v => filter (fun e => v < GetVersion e)%Z events end in
  (fun e => (GetEventType e, "{}")) <$> keep.

#[export] Instance one_db : EventDb := {|
  event_db := unit;
  db_insert db _ := (Some "read only", db);
  db_select _ id type since :=
    inr (if bool_decide (id = "o1") && bool_decide (type = "Order") then select history since else []);
|}.

Lemma select_since events v :
  select events (Some v) =
  (filter (fun ep => v < ep.1)%Z (zip (GetVersion <$> events) (zip (GetEventType <$> events) ((fun _ => "{}") <$> events)))).*2.
Proof.
  unfold select. induction events as [|e l IH]; [done|]. cbn [fmap list_fmap zip zip_with].
  rewrite !filter_cons. cbn [fst]. destruct (decide (v < GetVersion e)%Z); cbn; by rewrite IH.
Qed.

#[export] Instance one_db_spec : EventDbSpec.
Proof.
  split. intros s id type. cbn [db_select one_db].
  destruct (bool_decide (id = "o1") && bool_decide (type = "Order")).
  - exists history, ((fun _ => "{}") <$> history). split_and!; [done|repeat constructor|repeat constructor| |].
    + by intros rows [= <-].
    + intros v rows [= <-]. by rewrite (select_since history v).
  - exists [], []. split_and!; [done|constructor|constructor|by intros ? [= <-]|by intros ? ? [= <-]].
Qed.



Definition snaps0 : SnapshotsTable := mkSnapshotsTable ∅.
Definition snaps1 : SnapshotsTable := (SaveSnapshot Some None 5 snaps0 "o1" "Order" 2 (Some "{}")).2.

Lemma snapshot_saved_is_loaded_witness :
  exists column, Some "{}" = Some column /\
    LoadSnapshot None (SaveSnapshot Some None 7 snaps1 "o1" "Order" 3 (Some "{}")).2 "o1" "Order" = inr (3%Z, Some column) /\
    (forall id' type', (id', type') <> ("o1", "Order") -> forall row v,
      (v, row) ∈ versions_of (SaveSnapshot Some None 7 snaps1 "o1" "Order" 3 (Some "{}")).2 id' type' <->
      (v, row) ∈ versions_of snaps1 id' type').
Proof.
  apply (snapshot_saved_is_loaded Some 7 snaps1 "o1" "Order" 3 "{}"); [reflexivity|].
  intros v state Hl. vm_compute in Hl. injection Hl as <- _. lia.
Defined.
End SourcingInstances.
