(* ===== verification/BatchProcessor.v ===== *)
(** * The batch processor (src/engine/batch_processor.go)

    Three lanes (events, trades, order updates) that differ in the item type
    only: a [lane] is one of them.  A flush copies the batch, releases the
    lane's mutex while the handler runs on the copy, takes it again and clears
    the batch: between the two halves other goroutines may add to the lane or
    flush it, so a flush is two atomic steps. *)

From S2P Require Import Prelude.
From S2P Require Import External.
From S2P Require Import Models.
From S2P Require Import OrderBook.
From S2P Require Import Events.
From S2P Require Import Matching.
From S2P Require Import Engine.
From S2P Require Import Float.

(** ** One lane *)

Section lane.
Context {A : Type}.

Record lane := mkLane {
  batch : list A;
  batchSize : nat;
  handlerSet : bool;
  handled : list (list A);   (** the batches the handler was called with *)
  inHandler : nat;           (** flushes whose handler has not returned *)
  laneCount : Z;             (** uint64 *)
  batchesProcessed : Z;      (** uint64 *)
}.

Definition new_lane (size : nat) : lane := mkLane [] size false [] 0 0 0.

Definition set_handler (l : lane) (h : bool) : lane :=
  mkLane (batch l) (batchSize l) h (handled l) (inHandler l) (laneCount l) (batchesProcessed l).

(** [batch = batch[:0]] and the counter. *)
Definition clear_batch (l : lane) (inHandler' : nat) : lane :=
  mkLane [] (batchSize l) (handlerSet l) (handled l) inHandler' (laneCount l)
    (uint64 (batchesProcessed l + 1)).

(** The flush up to the handler call; without a handler it is complete. *)
Definition flush_begin (l : lane) : lane :=
  match batch l with
  | [] => l
  | _ =>
      if handlerSet l
      then mkLane (batch l) (batchSize l) (handlerSet l) (handled l ++ [batch l]) (S (inHandler l))
             (laneCount l) (batchesProcessed l)
      else clear_batch l (inHandler l)
  end.

(** The flush after the handler returned. *)
Definition flush_end (l : lane) : lane := clear_batch l (Nat.pred (inHandler l)).

(** A flush nobody interferes with. *)
Definition flush_locked (l : lane) : lane :=
  match batch l with
  | [] => l
  | _ => if handlerSet l then flush_end (flush_begin l) else flush_begin l
  end.

Definition append_item (l : lane) (x : A) : lane :=
  mkLane (batch l ++ [x]) (batchSize l) (handlerSet l) (handled l) (inHandler l)
    (uint64 (laneCount l + 1)) (batchesProcessed l).

(** An addition up to the handler call, and one nobody interferes with. *)
Definition add_begin (l : lane) (x : A) : lane :=
  let l1 := append_item l x in
  if bool_decide (batchSize l1 <= length (batch l1)) then flush_begin l1 else l1.
Definition add_item (l : lane) (x : A) : lane :=
  let l1 := append_item l x in
  if bool_decide (batchSize l1 <= length (batch l1)) then flush_locked l1 else l1.

(** The interleavings: additions, flushes and returning handlers. *)
Inductive lane_step : lane -> lane -> Prop :=
  | ls_add l x : lane_step l (add_begin l x)
  | ls_flush l : lane_step l (flush_begin l)
  | ls_return l : 0 < inHandler l -> lane_step l (flush_end l).

(** Without interference: a sequence of additions and flushes. *)
Inductive lane_op := OpAdd (x : A) | OpFlush.

Definition run_op (l : lane) (op : lane_op) : lane :=
  match op with OpAdd x => add_item l x | OpFlush => flush_locked l end.

Definition added_items (ops : list lane_op) : list A :=
  omap (fun op => match op with OpAdd x => Some x | OpFlush => None end) ops.
End lane.
Arguments lane : clear implicits.
Arguments lane_op : clear implicits.

(** ** The processor *)

Section processor.
Context `{DecimalPkg, UuidPkg}.

Record BatchProcessor := mkBatchProcessor {
  bpEvents : lane Event;
  bpTrades : lane Trade;
  bpOrders : lane oref;
  bpCancelled : bool;
  bpFlusher : bool;      (** the periodic goroutine exists *)
}.

Record BatchConfig := mkBatchConfig { EventBatchSize : nat; TradeBatchSize : nat; OrderBatchSize : nat }.

Definition DefaultBatchConfig : BatchConfig := mkBatchConfig 100 50 100.

Definition NewBatchProcessor (config : option BatchConfig) : BatchProcessor :=
  let c := default DefaultBatchConfig config in
  mkBatchProcessor (new_lane (EventBatchSize c)) (new_lane (TradeBatchSize c))
    (new_lane (OrderBatchSize c)) false false.

Definition with_events (bp : BatchProcessor) (l : lane Event) : BatchProcessor :=
  mkBatchProcessor l (bpTrades bp) (bpOrders bp) (bpCancelled bp) (bpFlusher bp).
Definition with_trades (bp : BatchProcessor) (l : lane Trade) : BatchProcessor :=
  mkBatchProcessor (bpEvents bp) l (bpOrders bp) (bpCancelled bp) (bpFlusher bp).
Definition with_orders (bp : BatchProcessor) (l : lane oref) : BatchProcessor :=
  mkBatchProcessor (bpEvents bp) (bpTrades bp) l (bpCancelled bp) (bpFlusher bp).

Definition bp_Start (bp : BatchProcessor) : BatchProcessor :=
  mkBatchProcessor (bpEvents bp) (bpTrades bp) (bpOrders bp) (bpCancelled bp) true.

Definition SetEventHandler (bp : BatchProcessor) (h : bool) := with_events bp (set_handler (bpEvents bp) h).
Definition bp_SetTradeHandler (bp : BatchProcessor) (h : bool) := with_trades bp (set_handler (bpTrades bp) h).
Definition SetOrderHandler (bp : BatchProcessor) (h : bool) := with_orders bp (set_handler (bpOrders bp) h).

Definition AddEvent (bp : BatchProcessor) (e : Event) := with_events bp (add_item (bpEvents bp) e).
Definition AddTrade (bp : BatchProcessor) (t : Trade) := with_trades bp (add_item (bpTrades bp) t).
Definition bp_AddOrder (bp : BatchProcessor) (o : oref) := with_orders bp (add_item (bpOrders bp) o).

Definition FlushEvents (bp : BatchProcessor) := with_events bp (flush_locked (bpEvents bp)).
Definition FlushTrades (bp : BatchProcessor) := with_trades bp (flush_locked (bpTrades bp)).
Definition FlushOrders (bp : BatchProcessor) := with_orders bp (flush_locked (bpOrders bp)).

(** One tick of [periodicFlush]; the goroutine is gone once cancelled. *)
Definition periodicFlush (bp : BatchProcessor) : BatchProcessor :=
  if bpFlusher bp && negb (bpCancelled bp) then FlushOrders (FlushTrades (FlushEvents bp)) else bp.

Definition bp_Stop (bp : BatchProcessor) : BatchProcessor :=
  let bp1 := mkBatchProcessor (bpEvents bp) (bpTrades bp) (bpOrders bp) true false in
  FlushOrders (FlushTrades (FlushEvents bp1)).

Record BatchStats := mkBatchStats {
  bsBatches : Z * Z * Z;
  bsCounts : Z * Z * Z;
  bsAverages : float64 * float64 * float64;
}.

(** [float64(count) / float64(batches)], zero before the first batch. *)
Definition average (count batches : Z) : float64 :=
  if (0 <? batches)%Z then f_div (f_of_int count) (f_of_int batches) else 0%Q.

Definition bp_GetStats (bp : BatchProcessor) : BatchStats :=
  let e := bpEvents bp in let t := bpTrades bp in let o := bpOrders bp in
  mkBatchStats (batchesProcessed e, batchesProcessed t, batchesProcessed o)
    (laneCount e, laneCount t, laneCount o)
    (average (laneCount e) (batchesProcessed e), average (laneCount t) (batchesProcessed t),
     average (laneCount o) (batchesProcessed o)).

Definition reset_lane {A} (l : lane A) : lane A :=
  mkLane (batch l) (batchSize l) (handlerSet l) (handled l) (inHandler l) 0 0.

Definition ResetStats (bp : BatchProcessor) : BatchProcessor :=
  mkBatchProcessor (reset_lane (bpEvents bp)) (reset_lane (bpTrades bp)) (reset_lane (bpOrders bp))
    (bpCancelled bp) (bpFlusher bp).
End processor.

(** ** Theorems *)

Section facts.
Context {A : Type}.
Implicit Types (l : lane A).

Lemma flush_locked_delivers l : handlerSet l = true ->
  concat (handled (flush_locked l)) = concat (handled l) ++ batch l /\ batch (flush_locked l) = [] /\
  handlerSet (flush_locked l) = true /\ batchSize (flush_locked l) = batchSize l.
Proof.
  intros Hh. unfold flush_locked, flush_end, flush_begin. destruct (batch l) as [|x b] eqn:Hb.
  - by rewrite app_nil_r.
  - rewrite Hh. cbn. rewrite concat_app. cbn. by rewrite app_nil_r.
Qed.

Lemma run_op_delivers l op : handlerSet l = true ->
  concat (handled (run_op l op)) ++ batch (run_op l op) =
    (concat (handled l) ++ batch l) ++ added_items [op] /\
  handlerSet (run_op l op) = true /\ batchSize (run_op l op) = batchSize l.
Proof.
  intros Hh. destruct op as [x|]; cbn [run_op].
  - unfold add_item. set (l1 := append_item l x).
    assert (handlerSet l1 = true) as Hh1 by done. case_bool_decide.
    + destruct (flush_locked_delivers l1 Hh1) as (-> & -> & -> & ->).
      rewrite app_nil_r. unfold l1. cbn. by rewrite app_assoc.
    + unfold l1. cbn. by rewrite app_assoc.
  - destruct (flush_locked_delivers l Hh) as (-> & -> & -> & ->). cbn. by rewrite !app_nil_r.
Qed.

Lemma run_ops_delivers ops : forall l, handlerSet l = true ->
  concat (handled (foldl run_op l ops)) ++ batch (foldl run_op l ops) =
    (concat (handled l) ++ batch l) ++ added_items ops.
Proof.
  induction ops as [|op ops IH]; intros l Hh; cbn [foldl]; [cbn; by rewrite app_nil_r|].
  destruct (run_op_delivers l op Hh) as (Hd & Hh' & _). rewrite IH, Hd by done.
  rewrite <- app_assoc. f_equal. unfold added_items. cbn. by destruct op.
Qed.

(** Without interference nothing is lost, repeated or reordered: after any
    sequence of additions and flushes, the batches handed to the handler
    followed by the pending batch are the items added, and a batch never
    reaches its size. *)
Theorem batches_exactly_once (size : nat) (ops : list (lane_op A)) :
  0 < size ->
  let l := foldl run_op (set_handler (new_lane size) true) ops in
  concat (handled l) ++ batch l = added_items ops /\ length (batch l) < size.
Proof.
  intros Hsize. cbn zeta. split.
  - by rewrite run_ops_delivers.
  - assert (forall l, handlerSet l = true -> batchSize l = size -> length (batch l) < size ->
      length (batch (foldl run_op l ops)) < size) as Hrun; [|apply Hrun; cbn; lia || done].
    induction ops as [|op ops IH]; intros l Hh Hs Hlen; cbn [foldl]; [done|].
    destruct (run_op_delivers l op Hh) as (_ & Hh' & Hs'). apply IH; [done|congruence|].
    destruct op as [x|]; cbn [run_op].
    + unfold add_item. case_bool_decide as Hfull.
      * by destruct (flush_locked_delivers (append_item l x) Hh) as (_ & -> & _).
      * unfold append_item in *. cbn in *. lia.
    + by destruct (flush_locked_delivers l Hh) as (_ & -> & _).
Qed.

(** With interference items are lost.  An item added while the handler of
    a flush runs is dropped when that flush ends: there is a run of the lane
    after which an added item is neither pending nor was ever handled. *)
Theorem concurrent_add_is_lost (x y : A) (size : nat) :
  x <> y -> 2 < size ->
  exists l, rtc lane_step (set_handler (new_lane size) true) l /\
    laneCount l = 2%Z /\ inHandler l = 0 /\ batch l = [] /\ y ∉ concat (handled l).
Proof.
  intros Hne Hsize. set (l0 := set_handler (new_lane size) true).
  set (l1 := add_begin l0 x). set (l2 := flush_begin l1). set (l3 := add_begin l2 y).
  exists (flush_end l3).
  assert (l1 = append_item l0 x) as H1.
  { unfold l1, add_begin. rewrite bool_decide_eq_false_2; [done|cbn; lia]. }
  assert (l3 = append_item (flush_begin (append_item l0 x)) y) as H3.
  { unfold l3, l2, add_begin. rewrite H1, bool_decide_eq_false_2; [done|cbn; lia]. }
  split.
  - eapply rtc_l; [apply (ls_add l0 x)|]. eapply rtc_l; [apply ls_flush|]. eapply rtc_l; [apply (ls_add l2 y)|].
    apply rtc_once, ls_return. change (0 < inHandler l3). rewrite H3. cbn. lia.
  - rewrite H3. cbn. set_solver.
Qed.
End facts.

Module BatchInstances.
Lemma batches_exactly_once_witness :
  let l := foldl run_op (set_handler (new_lane 2) true) [OpAdd 1; OpAdd 2; OpAdd 3; OpFlush; OpAdd 4] in
  concat (handled l) ++ batch l = added_items [OpAdd 1; OpAdd 2; OpAdd 3; OpFlush; OpAdd 4] /\
  length (batch l) < 2.
Proof. apply (batches_exactly_once 2 [OpAdd 1; OpAdd 2; OpAdd 3; OpFlush; OpAdd 4]). lia. Defined.

Lemma concurrent_add_is_lost_witness :
  exists l, rtc lane_step (set_handler (new_lane 100) true) l /\
    laneCount l = 2%Z /\ inHandler l = 0 /\ batch l = [] /\ 8 ∉ concat (handled l).
Proof. apply (concurrent_add_is_lost 7 8 100); lia. Defined.
End BatchInstances.
