(* ===== verification/RetryQueue.v ===== *)
(** * The event store and its retry queue
      (src/persistence/order_event_store.go, src/persistence/retry_queue.go)

    The database is a parameter: [db sent call] is the outcome of a statement
    after those that were sent before it, an event number or an error.  An event that
    could not be written is queued; a goroutine retries it and, after
    [maxRetries] attempts or when the channel is full, puts it on the list of
    failed events, which a ticker feeds back into the channel. *)

From S2P Require Import Prelude.
From S2P Require Import External.
From S2P Require Import Models.
From S2P Require Import OrderBook.

Section store.
Context `{DecimalPkg, UuidPkg}.

Definition OrderEventCreated : string := "ORDER_CREATED".
Definition OrderEventFilled : string := "ORDER_FILLED".
Definition OrderEventPartiallyFilled : string := "ORDER_PARTIALLY_FILLED".
Definition OrderEventCancelled : string := "ORDER_CANCELLED".
Definition OrderEventRejected : string := "ORDER_REJECTED".
Definition OrderEventUpdated : string := "ORDER_UPDATED".

(** The statements: a stored function and its arguments. *)
Inductive Statement :=
  | StCreated (id : uuid) (client instrument side type : string) (price quantity : decimal) (createdAt : Z)
  | StFill (id : uuid) (fill filled : decimal) (status : string) (trade : option uuid) (at_ : Z)
  | StCancelled (id : uuid) (reason : option string) (at_ : Z)
  | StRejected (id : uuid) (reason : string) (at_ : Z).

(** [fmt.Errorf("failed to record ...: %w", err)]. *)
Inductive StoreError := StoreFailed (what : string) (cause : string).

Context (db : list Statement -> Statement -> string + Z).

(** The store and the statements it sent. *)
Record OrderEventStore := mkOrderEventStore { sent : list Statement }.

Definition exec (st : OrderEventStore) (what : string) (q : Statement)
    : (StoreError + Z) * OrderEventStore :=
  let st' := mkOrderEventStore (sent st ++ [q]) in
  match db (sent st) q with
  | inl err => (inl (StoreFailed what err), st')
  | inr eventID => (inr eventID, st')
  end.

Definition RecordOrderCreated (st : OrderEventStore) (o : Order) :=
  exec st "failed to record order created event"
    (StCreated (oID o) (oClientID o) (oInstrument o) (oSide o) (oType o) (oPrice o) (oQuantity o) (oCreatedAt o)).

Definition RecordOrderFill (st : OrderEventStore) (id : uuid) (fill filled : decimal) (status : string)
    (trade : option uuid) (at_ : Z) :=
  exec st "failed to record order fill event" (StFill id fill filled status trade at_).

Definition RecordOrderCancelled (st : OrderEventStore) (id : uuid) (reason : option string) (at_ : Z) :=
  exec st "failed to record order cancelled event" (StCancelled id reason at_).

Definition RecordOrderRejected (st : OrderEventStore) (id : uuid) (reason : string) (at_ : Z) :=
  exec st "failed to record order rejected event" (StRejected id reason at_).

(** ** Queued events *)

Record QueuedEvent := mkQueuedEvent {
  qeEventType : string;
  qeOrder : option oref;
  qeOrderID : uuid;
  qeFillQuantity : decimal;
  qeFilledQuantity : decimal;
  qeStatus : string;
  qeTradeID : option uuid;
  qeReason : option string;
  qeTimestamp : Z;
  qeAttempts : Z;
  qeLastError : option StoreError;
  qeCreatedAt : Z;
}.

Definition set_attempts (e : QueuedEvent) (n : Z) : QueuedEvent :=
  mkQueuedEvent (qeEventType e) (qeOrder e) (qeOrderID e) (qeFillQuantity e) (qeFilledQuantity e)
    (qeStatus e) (qeTradeID e) (qeReason e) (qeTimestamp e) n (qeLastError e) (qeCreatedAt e).
Definition set_lastError (e : QueuedEvent) (err : option StoreError) : QueuedEvent :=
  mkQueuedEvent (qeEventType e) (qeOrder e) (qeOrderID e) (qeFillQuantity e) (qeFilledQuantity e)
    (qeStatus e) (qeTradeID e) (qeReason e) (qeTimestamp e) (qeAttempts e) err (qeCreatedAt e).

(** What a goroutine running [processQueue] is in the middle of. *)
Inductive work :=
  | WRetry (e : QueuedEvent)              (** inside [retryEvent] *)
  | WRequeue (toRetry : list QueuedEvent) (** inside the loop of [retryFailedEvents] *).

Record EventRetryQueue := mkEventRetryQueue {
  rqStore : OrderEventStore;
  rqQueue : list QueuedEvent;
  rqCap : nat;
  rqFailed : list QueuedEvent;
  rqMaxRetries : Z;
  rqRunning : bool;
  rqStopClosed : bool;
  rqIdle : nat;                   (** goroutines waiting in the select *)
  rqBusy : list work;             (** the other ones *)
  rqWritten : list QueuedEvent;   (** the events a retry wrote *)
}.

Definition NewEventRetryQueue (st : OrderEventStore) (queueSize : nat) (maxRetries : Z) : EventRetryQueue :=
  mkEventRetryQueue st [] queueSize [] maxRetries false false 0 [] [].

Definition set_rqStore (eq : EventRetryQueue) (st : OrderEventStore) : EventRetryQueue :=
  mkEventRetryQueue st (rqQueue eq) (rqCap eq) (rqFailed eq) (rqMaxRetries eq) (rqRunning eq) (rqStopClosed eq)
    (rqIdle eq) (rqBusy eq) (rqWritten eq).
Definition set_rqQueue (eq : EventRetryQueue) (q : list QueuedEvent) : EventRetryQueue :=
  mkEventRetryQueue (rqStore eq) q (rqCap eq) (rqFailed eq) (rqMaxRetries eq) (rqRunning eq) (rqStopClosed eq)
    (rqIdle eq) (rqBusy eq) (rqWritten eq).
Definition set_rqFailed (eq : EventRetryQueue) (l : list QueuedEvent) : EventRetryQueue :=
  mkEventRetryQueue (rqStore eq) (rqQueue eq) (rqCap eq) l (rqMaxRetries eq) (rqRunning eq) (rqStopClosed eq)
    (rqIdle eq) (rqBusy eq) (rqWritten eq).
Definition set_rqWritten (eq : EventRetryQueue) (l : list QueuedEvent) : EventRetryQueue :=
  mkEventRetryQueue (rqStore eq) (rqQueue eq) (rqCap eq) (rqFailed eq) (rqMaxRetries eq) (rqRunning eq) (rqStopClosed eq)
    (rqIdle eq) (rqBusy eq) l.
Definition set_workers (eq : EventRetryQueue) (idle : nat) (busy : list work) : EventRetryQueue :=
  mkEventRetryQueue (rqStore eq) (rqQueue eq) (rqCap eq) (rqFailed eq) (rqMaxRetries eq) (rqRunning eq) (rqStopClosed eq)
    idle busy (rqWritten eq).
Definition set_running (eq : EventRetryQueue) (running closed : bool) : EventRetryQueue :=
  mkEventRetryQueue (rqStore eq) (rqQueue eq) (rqCap eq) (rqFailed eq) (rqMaxRetries eq) running closed
    (rqIdle eq) (rqBusy eq) (rqWritten eq).

Definition rq_Start (eq : EventRetryQueue) : EventRetryQueue :=
  if rqRunning eq then eq
  else set_workers (set_running eq true (rqStopClosed eq)) (S (rqIdle eq)) (rqBusy eq).

(** [Stop] up to [wg.Wait]; [None]: closing the closed channel panics. *)
Definition rq_Stop (eq : EventRetryQueue) : option EventRetryQueue :=
  if negb (rqRunning eq) then Some eq
  else if rqStopClosed eq then None
  else Some (set_running eq false true).

Definition recordFailedEvent (eq : EventRetryQueue) (e : QueuedEvent) : EventRetryQueue :=
  set_rqFailed eq (rqFailed eq ++ [e]).

(** The select with a default the queueing functions share. *)
Definition enqueue (eq : EventRetryQueue) (e : QueuedEvent) : EventRetryQueue :=
  if bool_decide (length (rqQueue eq) < rqCap eq) then set_rqQueue eq (rqQueue eq ++ [e])
  else recordFailedEvent eq e.

Definition QueueOrderCreated (s : Store) (now : Z) (eq : EventRetryQueue) (order : oref) (err : StoreError) : EventRetryQueue :=
  enqueue eq (mkQueuedEvent OrderEventCreated (Some order) uuid_Nil decimal_Zero decimal_Zero "" None None
    (oCreatedAt (get_order s order)) 1 (Some err) now).

Definition QueueOrderFill (now : Z) (eq : EventRetryQueue) (id : uuid) (fill filled : decimal) (status : string)
    (trade : option uuid) (at_ : Z) (err : StoreError) : EventRetryQueue :=
  enqueue eq (mkQueuedEvent
    (if bool_decide (status = OrderStatusPartiallyFilled) then OrderEventPartiallyFilled else OrderEventFilled)
    None id fill filled status trade None at_ 1 (Some err) now).

Definition QueueOrderCancelled (now : Z) (eq : EventRetryQueue) (id : uuid) (reason : option string) (at_ : Z)
    (err : StoreError) : EventRetryQueue :=
  enqueue eq (mkQueuedEvent OrderEventCancelled None id decimal_Zero decimal_Zero "" None reason at_ 1 (Some err) now).

Definition QueueOrderRejected (now : Z) (eq : EventRetryQueue) (id : uuid) (reason : string) (at_ : Z)
    (err : StoreError) : EventRetryQueue :=
  enqueue eq (mkQueuedEvent OrderEventRejected None id decimal_Zero decimal_Zero "" None (Some reason) at_ 1 (Some err) now).

(** The write a retry makes; other event types write nothing.  An event of type
    [ORDER_CREATED] always has an order: only [QueueOrderCreated] makes one. *)
Definition write_event (s : Store) (st : OrderEventStore) (e : QueuedEvent) : option StoreError * OrderEventStore :=
  let outcome (r : (StoreError + Z) * OrderEventStore) :=
    match r with (inl err, st') => (Some err, st') | (inr _, st') => (None, st') end in
  if bool_decide (qeEventType e = OrderEventCreated) then
    outcome (RecordOrderCreated st (get_order s (default 0 (qeOrder e))))
  else if bool_decide (qeEventType e = OrderEventFilled) || bool_decide (qeEventType e = OrderEventPartiallyFilled) then
    outcome (RecordOrderFill st (qeOrderID e) (qeFillQuantity e) (qeFilledQuantity e) (qeStatus e) (qeTradeID e) (qeTimestamp e))
  else if bool_decide (qeEventType e = OrderEventCancelled) then
    outcome (RecordOrderCancelled st (qeOrderID e) (qeReason e) (qeTimestamp e))
  else if bool_decide (qeEventType e = OrderEventRejected) then
    outcome (RecordOrderRejected st (qeOrderID e) (default "" (qeReason e)) (qeTimestamp e))
  else (None, st).

Definition retryEvent (s : Store) (eq : EventRetryQueue) (e : QueuedEvent) : EventRetryQueue :=
  let '(err, st') := write_event s (rqStore eq) e in
  let eq1 := set_rqStore eq st' in
  match err with
  | Some _ =>
      let e1 := set_lastError (set_attempts e (qeAttempts e + 1)) err in
      if (rqMaxRetries eq1 <=? qeAttempts e1)%Z then recordFailedEvent eq1 e1
      else enqueue eq1 e1
  | None => set_rqWritten eq1 (rqWritten eq1 ++ [e])
  end.

(** Without interference. *)
Definition retryFailedEvents (eq : EventRetryQueue) : EventRetryQueue :=
  match rqFailed eq with
  | [] => eq
  | toRetry => foldl (fun eq e => enqueue eq (set_attempts e 0)) (set_rqFailed eq []) toRetry
  end.

Definition GetFailedEvents (eq : EventRetryQueue) : list QueuedEvent := rqFailed eq.
Definition GetQueueSize (eq : EventRetryQueue) : nat := length (rqQueue eq).
Definition GetFailedEventCount (eq : EventRetryQueue) : nat := length (rqFailed eq).

Definition getOrderID (s : Store) (e : QueuedEvent) : uuid :=
  match qeOrder e with Some r => oID (get_order s r) | None => qeOrderID e end.

(** The goroutines of [processQueue].  A select takes an event, a tick or the
    closed stop channel; a retry is one step from the answer of the database to
    the requeueing; the periodic loop sends one event per step. *)
Inductive worker_step (s : Store) : EventRetryQueue -> EventRetryQueue -> Prop :=
  | ws_take eq n e rest : rqIdle eq = S n -> rqQueue eq = e :: rest ->
      worker_step s eq (set_workers (set_rqQueue eq rest) n (rqBusy eq ++ [WRetry e]))
  | ws_retry eq b1 e b2 : rqBusy eq = b1 ++ WRetry e :: b2 ->
      worker_step s eq (retryEvent s (set_workers eq (S (rqIdle eq)) (b1 ++ b2)) e)
  | ws_requeue eq b1 e l b2 : rqBusy eq = b1 ++ WRequeue (e :: l) :: b2 ->
      worker_step s eq (enqueue (set_workers eq (rqIdle eq) (b1 ++ WRequeue l :: b2)) (set_attempts e 0))
  | ws_requeued eq b1 b2 : rqBusy eq = b1 ++ WRequeue [] :: b2 ->
      worker_step s eq (set_workers eq (S (rqIdle eq)) (b1 ++ b2)).

(** Everything that can happen to the queue, with the events that enter it. *)
Inductive queue_step (s : Store) : EventRetryQueue -> list QueuedEvent -> EventRetryQueue -> Prop :=
  | qs_work eq eq' : worker_step s eq eq' -> queue_step s eq [] eq'
  | qs_tick eq n : rqIdle eq = S n -> rqFailed eq <> [] ->
      queue_step s eq [] (set_workers (set_rqFailed eq []) n (rqBusy eq ++ [WRequeue (rqFailed eq)]))
  | qs_exit eq n : rqIdle eq = S n -> rqStopClosed eq = true ->
      queue_step s eq [] (set_workers eq n (rqBusy eq))
  | qs_start eq : queue_step s eq [] (rq_Start eq)
  | qs_stop eq eq' : rq_Stop eq = Some eq' -> queue_step s eq [] eq'
  | qs_queue eq e : queue_step s eq [e] (enqueue eq e)
  | qs_write eq what q : queue_step s eq [] (set_rqStore eq (exec (rqStore eq) what q).2).

Inductive queue_run (s : Store) : EventRetryQueue -> list QueuedEvent -> EventRetryQueue -> Prop :=
  | qr_nil eq : queue_run s eq [] eq
  | qr_step eq l1 eq1 l2 eq2 :
      queue_step s eq l1 eq1 -> queue_run s eq1 l2 eq2 -> queue_run s eq (l1 ++ l2) eq2.

(** ** The safe store: write now, queue on failure

    [SafeOrderEventStore] is the queue with its store. *)

Definition NewSafeOrderEventStore (st : OrderEventStore) (queueSize : nat) (maxRetries : Z) : EventRetryQueue :=
  rq_Start (NewEventRetryQueue st queueSize maxRetries).

Definition safe_Stop (eq : EventRetryQueue) : option EventRetryQueue := rq_Stop eq.

(** The counters [Stats] reports; the interval is a constant of the queue. *)
Definition safe_Stats (eq : EventRetryQueue) : nat * nat * Z :=
  (GetQueueSize eq, GetFailedEventCount eq, rqMaxRetries eq).

Definition safe_RecordOrderCreated (s : Store) (now : Z) (eq : EventRetryQueue) (order : oref)
    : (StoreError + Z) * EventRetryQueue :=
  match RecordOrderCreated (rqStore eq) (get_order s order) with
  | (inl err, st') => (inl err, QueueOrderCreated s now (set_rqStore eq st') order err)
  | (inr id, st') => (inr id, set_rqStore eq st')
  end.

Definition safe_RecordOrderFill (now : Z) (eq : EventRetryQueue) (id : uuid) (fill filled : decimal)
    (status : string) (trade : option uuid) (at_ : Z) : (StoreError + Z) * EventRetryQueue :=
  match RecordOrderFill (rqStore eq) id fill filled status trade at_ with
  | (inl err, st') => (inl err, QueueOrderFill now (set_rqStore eq st') id fill filled status trade at_ err)
  | (inr ev, st') => (inr ev, set_rqStore eq st')
  end.

Definition safe_RecordOrderCancelled (now : Z) (eq : EventRetryQueue) (id : uuid) (reason : option string)
    (at_ : Z) : (StoreError + Z) * EventRetryQueue :=
  match RecordOrderCancelled (rqStore eq) id reason at_ with
  | (inl err, st') => (inl err, QueueOrderCancelled now (set_rqStore eq st') id reason at_ err)
  | (inr ev, st') => (inr ev, set_rqStore eq st')
  end.

Definition safe_RecordOrderRejected (now : Z) (eq : EventRetryQueue) (id : uuid) (reason : string)
    (at_ : Z) : (StoreError + Z) * EventRetryQueue :=
  match RecordOrderRejected (rqStore eq) id reason at_ with
  | (inl err, st') => (inl err, QueueOrderRejected now (set_rqStore eq st') id reason at_ err)
  | (inr ev, st') => (inr ev, set_rqStore eq st')
  end.
End store.

(** ** Theorems *)

Section facts.
Context `{DecimalPkg, UuidPkg} (db : list Statement -> Statement -> string + Z).
Implicit Types (eq : EventRetryQueue) (e : QueuedEvent).

(** The event without its retry bookkeeping. *)
Definition payload (e : QueuedEvent) : QueuedEvent := set_lastError (set_attempts e 0) None.

(** Everything the queue is responsible for. *)
Definition work_events (w : work) : list QueuedEvent :=
  match w with WRetry e => [e] | WRequeue l => l end.
Definition held (eq : EventRetryQueue) : list QueuedEvent :=
  payload <$> rqQueue eq ++ (rqBusy eq ≫= work_events) ++ rqFailed eq ++ rqWritten eq.

Ltac solve_held :=
  unfold held; cbn [rqQueue rqBusy rqFailed rqWritten set_rqQueue set_rqFailed set_workers set_rqWritten
    set_rqStore set_running];
  rewrite ?bind_app; cbn [mbind list_bind work_events app]; rewrite ?fmap_app; cbn [fmap list_fmap app];
  rewrite ?fmap_app; solve_Permutation.

Lemma held_enqueue eq e : held (enqueue eq e) ≡ₚ payload e :: held eq.
Proof. unfold enqueue, recordFailedEvent. case_bool_decide; solve_held. Qed.

Lemma held_failed eq e : held (recordFailedEvent eq e) ≡ₚ payload e :: held eq.
Proof. unfold recordFailedEvent. solve_held. Qed.

Lemma held_store eq st : held (set_rqStore eq st) = held eq.
Proof. done. Qed.

Lemma held_retryEvent s eq e : held (retryEvent db s eq e) ≡ₚ payload e :: held eq.
Proof.
  unfold retryEvent. destruct (write_event db s (rqStore eq) e) as [[err|] st'].
  - cbn zeta. case_match.
    + by rewrite held_failed, held_store.
    + by rewrite held_enqueue, held_store.
  - solve_held.
Qed.

Lemma worker_step_held s eq eq' : worker_step db s eq eq' -> held eq' ≡ₚ held eq.
Proof.
  destruct 1 as [eq n e rest _ Hq|eq b1 e b2 Hb|eq b1 e l b2 Hb|eq b1 b2 Hb].
  - unfold held at 2. rewrite Hq. solve_held.
  - rewrite held_retryEvent. unfold held at 2. rewrite Hb. solve_held.
  - rewrite held_enqueue. change (payload (set_attempts e 0)) with (payload e).
    unfold held at 2. rewrite Hb. solve_held.
  - unfold held at 2. rewrite Hb. solve_held.
Qed.

Lemma queue_step_held s eq l eq' : queue_step db s eq l eq' -> held eq' ≡ₚ (payload <$> l) ++ held eq.
Proof.
  destruct 1 as [eq eq' Hw|eq n _ Hf|eq n _ _|eq|eq eq' Hs|eq e|eq what q]; cbn [fmap list_fmap app].
  - by eapply worker_step_held.
  - solve_held.
  - done.
  - unfold rq_Start. by destruct (rqRunning eq).
  - unfold rq_Stop in Hs. repeat case_match; by simplify_eq.
  - apply held_enqueue.
  - done.
Qed.

Lemma enqueue_cap eq e : length (rqQueue eq) <= rqCap eq ->
  length (rqQueue (enqueue eq e)) <= rqCap (enqueue eq e).
Proof.
  unfold enqueue. case_bool_decide; cbn; [|done]. rewrite length_app. cbn. lia.
Qed.

Lemma retryEvent_cap s eq e : length (rqQueue eq) <= rqCap eq ->
  length (rqQueue (retryEvent db s eq e)) <= rqCap (retryEvent db s eq e).
Proof.
  intros Hcap. unfold retryEvent. destruct (write_event db s _ e) as [[err|] st']; [|done].
  cbn zeta. case_match; [done|]. by apply enqueue_cap.
Qed.

Lemma queue_step_cap s eq l eq' : queue_step db s eq l eq' ->
  length (rqQueue eq) <= rqCap eq -> length (rqQueue eq') <= rqCap eq'.
Proof.
  destruct 1 as [eq eq' Hw|eq n _ Hf|eq n _ _|eq|eq eq' Hs|eq e|eq what q]; intros Hcap; try done.
  - destruct Hw as [eq n e rest _ Hq|eq b1 e b2 Hb|eq b1 e l b2 Hb|eq b1 b2 Hb]; [|by apply retryEvent_cap|by apply enqueue_cap|done].
    rewrite Hq in Hcap. cbn in *. lia.
  - unfold rq_Start. by destruct (rqRunning eq).
  - unfold rq_Stop in Hs. repeat case_match; by simplify_eq.
  - by apply enqueue_cap.
Qed.

(** C37: the retry queue loses and repeats nothing.  In every interleaving of
    the goroutines that queue events, of the retry goroutines, the ticker,
    [Start] and [Stop], and whatever the database answers, the events that wait,
    are being retried, have failed or were written are exactly those it had and
    those that entered it, and the channel never exceeds its capacity. *)
Theorem retry_conserves_events s eq l eq' :
  length (rqQueue eq) <= rqCap eq -> queue_run db s eq l eq' ->
  held eq' ≡ₚ (payload <$> l) ++ held eq /\ length (rqQueue eq') <= rqCap eq'.
Proof.
  intros Hcap Hrun. induction Hrun as [|eq l1 eq1 l2 eq2 Hstep Hrun IH]; [done|].
  destruct IH as [IH1 IH2]; [by eapply queue_step_cap|]. split; [|done].
  rewrite IH1, (queue_step_held s eq l1 eq1 Hstep), fmap_app. solve_Permutation.
Qed.








(** A failed write is kept.  Each recording call of the safe store returns
    the store's answer; when the write fails, exactly that event is added to
    what the queue holds, and when it succeeds nothing is. *)
Theorem safe_store_keeps_failures s now eq order id reason why at_ fill filled status trade :
  let kept (r : (StoreError + Z) * EventRetryQueue) (type : string) :=
    match r.1 with
    | inl err => exists e, held r.2 ≡ₚ payload e :: held eq /\ qeEventType e = type /\ qeLastError e = Some err
    | inr _ => held r.2 = held eq
    end in
  kept (safe_RecordOrderCreated db s now eq order) OrderEventCreated /\
  kept (safe_RecordOrderFill db now eq id fill filled status trade at_)
    (if bool_decide (status = OrderStatusPartiallyFilled) then OrderEventPartiallyFilled else OrderEventFilled) /\
  kept (safe_RecordOrderCancelled db now eq id reason at_) OrderEventCancelled /\
  kept (safe_RecordOrderRejected db now eq id why at_) OrderEventRejected.
Proof.
  cbn zeta.
  unfold safe_RecordOrderCreated, safe_RecordOrderFill, safe_RecordOrderCancelled, safe_RecordOrderRejected.
  split_and!.
  - destruct (RecordOrderCreated db _ _) as [[err|n] st']; [|done].
    eexists. cbn [fst snd]. rewrite <- (held_store eq st'). split; [apply held_enqueue|done].
  - destruct (RecordOrderFill db _ _ _ _ _ _ _) as [[err|n] st']; [|done].
    eexists. cbn [fst snd]. rewrite <- (held_store eq st'). split; [apply held_enqueue|done].
  - destruct (RecordOrderCancelled db _ _ _ _) as [[err|n] st']; [|done].
    eexists. cbn [fst snd]. rewrite <- (held_store eq st'). split; [apply held_enqueue|done].
  - destruct (RecordOrderRejected db _ _ _ _) as [[err|n] st']; [|done].
    eexists. cbn [fst snd]. rewrite <- (held_store eq st'). split; [apply held_enqueue|done].
Qed.
End facts.

Module RetryInstances.
Import Concrete.

(** A database that fails every second statement. *)
Definition flaky (before : list Statement) (_ : Statement) : string + Z :=
  if Nat.even (length before) then inl "timeout" else inr (Z.of_nat (length before)).

Definition queue1 : EventRetryQueue := rq_Start (NewEventRetryQueue (mkOrderEventStore []) 1 3).
Definition queue2 : EventRetryQueue :=
  (safe_RecordOrderCancelled flaky 0 queue1 ("o1" : @uuid string_uuid) None 5).2.

(** One retry goroutine takes the event and retries it while a second event is
    queued. *)
Definition queue3 : EventRetryQueue := set_workers (set_rqQueue queue2 []) 0 (WRetry <$> rqQueue queue2).
Definition event2 : QueuedEvent :=
  mkQueuedEvent OrderEventRejected None ("o2" : @uuid string_uuid) 0%Q 0%Q "" None (Some "late") 6 1 None 6.
Definition queue4 : EventRetryQueue := enqueue queue3 event2.

Lemma retry_conserves_events_witness :
  held queue4 ≡ₚ (payload <$> [event2]) ++ held queue2 /\ length (rqQueue queue4) <= rqCap queue4.
Proof.
  apply (retry_conserves_events flaky emptyStore queue2 [event2] queue4).
  - vm_compute. lia.
  - apply (qr_step flaky emptyStore queue2 [] queue3 [event2]).
    + apply qs_work. eapply (ws_take flaky emptyStore queue2); reflexivity.
    + apply (qr_step flaky emptyStore queue3 [event2] queue4 []); [apply qs_queue|apply qr_nil].
Defined.



End RetryInstances.
