(* ===== verification/EventStore.v ===== *)
(** * The order event store: tables, stored functions, queries
      (src/db/order_events_schema.sql, src/persistence/order_event_store.go)

    The stored functions run on two tables, the append-only log of events and
    the snapshot of the current state of every order.  A call is one
    transaction: an error leaves the tables as they were, except that the
    number drawn for the event is spent.  A call may also fail on the way to
    the server or back, before or after it took effect ([Net]).

    The text of a NUMERIC is [numeric_out], and the column type NUMERIC(20, 8)
    makes of a number what it makes of its text ([numeric_in]); [numeric_arg]
    reads an argument of a function, whose precision is not limited. *)

From Stdlib Require Import Ascii String.
From S2P Require Import Prelude.
From S2P Require Import Json.
From S2P Require Import Text.
From S2P Require Import External.
From S2P Require Import Models.
From S2P Require Import Sql.
From S2P Require Import Snapshot.
From S2P Require Import Postgres.
From S2P Require Import RetryQueue.

Local Open Scope string_scope.

Class PgArg `{DecimalPkg} := {
  numeric_arg : string -> option decimal;
}.

(** An argument keeps its value, and so does a number written to a column that
    can hold it. *)
Class PgArgSpec `{DecimalSpec, !PgPkg, !PgArg} : Prop := {
  numeric_arg_String d : exists d', numeric_arg (decimal_String d) = Some d' /\ (dval d' == dval d)%Q;
  numeric_in_out d : numeric_fits (dval d) ->
    exists d', numeric_in (numeric_out d) = Some d' /\ (dval d' == dval d)%Q;
}.

Section schema.
Context `{DecimalPkg, UuidPkg, !PgPkg, !PgArg}.

(** ** Tables *)

Record EventRow := mkEventRow {
  evID : Z;
  evOrderID : uuid;
  evType : string;
  evData : json;
  evTimestamp : Z;
  evSequence : Z;
  evTriggeredBy : string;
}.

Record SnapRow := mkSnapRow {
  snOrderID : uuid;
  snClientID : string;
  snInstrument : string;
  snSide : string;
  snType : string;
  snPrice : decimal;
  snQuantity : decimal;
  snFilled : decimal;
  snStatus : string;
  snCreatedAt : Z;
  snUpdatedAt : Z;
  snLastSequence : Z;
}.

Record EventTables := mkEventTables {
  etEvents : list EventRow;
  etNext : Z;                     (** the sequence of event_id *)
  etSnapshot : list SnapRow;
}.

Definition empty_tables : EventTables := mkEventTables [] 1 [].

(** Text the server accepts. *)
Definition text_ok (s : string) : bool := nul_free_text s && ValidString s.

Definition event_types : list string :=
  [OrderEventCreated; OrderEventFilled; OrderEventPartiallyFilled; OrderEventCancelled; OrderEventRejected; OrderEventUpdated].

(** The constraints of orders_snapshot. *)
Definition snap_ok (r : SnapRow) : bool :=
  varchar_ok 255 (snClientID r) && varchar_ok 50 (snInstrument r) && varchar_ok 10 (snSide r)
  && varchar_ok 10 (snType r) && varchar_ok 20 (snStatus r)
  && bool_decide (snSide r ∈ ["buy"; "sell"]) && bool_decide (snType r ∈ ["limit"; "market"])
  && bool_decide (snStatus r ∈ ["open"; "partially_filled"; "filled"; "cancelled"; "rejected"])
  && decimal_GreaterThanOrEqual (snFilled r) decimal_Zero && decimal_LessThanOrEqual (snFilled r) (snQuantity r)
  && decimal_GreaterThan (snQuantity r) decimal_Zero && decimal_GreaterThanOrEqual (snPrice r) decimal_Zero.

(** A number into a column. *)
Definition column (d : decimal) : option decimal := numeric_in (numeric_out d).

(** ** Recording *)

Definition events_of (t : EventTables) (id : uuid) : list EventRow := filter (fun e => evOrderID e = id) (etEvents t).

Definition get_next_sequence_number (t : EventTables) (id : uuid) : Z :=
  (foldr (fun e m => Z.max (evSequence e) m) 0 (events_of t id) + 1)%Z.

(** The error of a call: the number of the event is spent. *)
Definition spend (t : EventTables) : EventTables := mkEventTables (etEvents t) (etNext t + 1) (etSnapshot t).

(** INSERT INTO order_events; a JSONB value has no character U+0000. *)
Definition insert_event (t : EventTables) (id : uuid) (ty : string) (data : json) (ts seq : Z) (by_ : string)
    : option EventTables :=
  if varchar_ok 50 ty && bool_decide (ty ∈ event_types) && varchar_ok 255 by_ && nul_free data
     && negb (bool_decide (seq ∈ (evSequence <$> events_of t id)))
  then Some (mkEventTables (etEvents t ++ [mkEventRow (etNext t) id ty data ts seq by_]) (etNext t + 1) (etSnapshot t))%list
  else None.

Definition constraint_violated : string := "violates a constraint".

Definition record_order_created (t : EventTables) (id : uuid) (client instrument side ty price quantity : string) (ts : Z)
    : (string + Z) * EventTables :=
  match numeric_arg price, numeric_arg quantity with
  | Some p, Some q =>
      if negb (forallb text_ok [client; instrument; side; ty]) then (inl "invalid byte sequence", t) else
      let seq := get_next_sequence_number t id in
      let data := JObj [("client_id", JStr client); ("instrument", JStr instrument); ("side", JStr side);
                        ("type", JStr ty); ("price", JStr (numeric_out p)); ("quantity", JStr (numeric_out q));
                        ("status", JStr "open")] in
      match insert_event t id OrderEventCreated data ts seq "system" with
      | None => (inl constraint_violated, spend t)
      | Some t1 =>
          match column p, column q, column decimal_Zero with
          | Some p', Some q', Some z =>
              let row := mkSnapRow id client instrument side ty p' q' z "open" ts ts seq in
              if snap_ok row then
                (inr (etNext t),
                 if bool_decide (id ∈ (snOrderID <$> etSnapshot t1)) then t1
                 else mkEventTables (etEvents t1) (etNext t1) (etSnapshot t1 ++ [row]))%list
              else (inl constraint_violated, spend t)
          | _, _, _ => (inl "numeric field overflow", spend t)
          end
      end
  | _, _ => (inl "invalid input syntax for type numeric", t)
  end.

(** UPDATE orders_snapshot SET ... WHERE order_id = id; [None] when the new row
    violates a constraint. *)
Definition update_snapshot (t : EventTables) (id : uuid) (f : SnapRow -> SnapRow) : option EventTables :=
  if forallb (fun r => negb (bool_decide (snOrderID r = id)) || snap_ok (f r)) (etSnapshot t) then
    Some (mkEventTables (etEvents t) (etNext t) ((fun r => if bool_decide (snOrderID r = id) then f r else r) <$> etSnapshot t))
  else None.

(** The rest of the three functions below: insert, then update. *)
Definition record_update (t : EventTables) (id : uuid) (ty : string) (data : json) (ts : Z) (by_ : string)
    (f : Z -> SnapRow -> SnapRow) : (string + Z) * EventTables :=
  let seq := get_next_sequence_number t id in
  match insert_event t id ty data ts seq by_ with
  | None => (inl constraint_violated, spend t)
  | Some t1 =>
      match update_snapshot t1 id (f seq) with
      | None => (inl constraint_violated, spend t)
      | Some t2 => (inr (etNext t), t2)
      end
  end.

Definition snap_fill (filled : decimal) (status : string) (ts seq : Z) (r : SnapRow) : SnapRow :=
  mkSnapRow (snOrderID r) (snClientID r) (snInstrument r) (snSide r) (snType r) (snPrice r) (snQuantity r)
    filled status (snCreatedAt r) ts seq.
Definition snap_status (status : string) (ts seq : Z) (r : SnapRow) : SnapRow :=
  mkSnapRow (snOrderID r) (snClientID r) (snInstrument r) (snSide r) (snType r) (snPrice r) (snQuantity r)
    (snFilled r) status (snCreatedAt r) ts seq.

Definition fill_type (status : string) : string :=
  if bool_decide (status = "filled") then OrderEventFilled else OrderEventPartiallyFilled.

Definition record_order_fill (t : EventTables) (id : uuid) (fill filled status : string) (trade : option uuid) (ts : Z)
    : (string + Z) * EventTables :=
  match numeric_arg fill, numeric_arg filled with
  | Some f, Some q =>
      if negb (text_ok status) then (inl "invalid byte sequence", t) else
      match column q with
      | Some q' =>
          record_update t id (fill_type status)
            (JObj [("fill_quantity", JStr (numeric_out f)); ("filled_quantity", JStr (numeric_out q));
                   ("status", JStr status);
                   ("trade_id", match trade with Some u => JStr (uuid_String u) | None => JNull end)])
            ts (match trade with Some u => uuid_String u | None => "system" end) (snap_fill q' status ts)
      | None =>
          (* the column overflows only when there is a row to update *)
          if bool_decide (id ∈ (snOrderID <$> etSnapshot t)) then (inl "numeric field overflow", spend t)
          else record_update t id (fill_type status)
                 (JObj [("fill_quantity", JStr (numeric_out f)); ("filled_quantity", JStr (numeric_out q));
                        ("status", JStr status);
                        ("trade_id", match trade with Some u => JStr (uuid_String u) | None => JNull end)])
                 ts (match trade with Some u => uuid_String u | None => "system" end) (fun _ r => r)
      end
  | _, _ => (inl "invalid input syntax for type numeric", t)
  end.

Definition record_order_cancelled (t : EventTables) (id : uuid) (reason : option string) (ts : Z)
    : (string + Z) * EventTables :=
  if negb (text_ok (default "" reason)) then (inl "invalid byte sequence", t) else
  record_update t id OrderEventCancelled
    (JObj [("status", JStr "cancelled"); ("reason", match reason with Some s => JStr s | None => JNull end)])
    ts "user" (snap_status "cancelled" ts).

Definition record_order_rejected (t : EventTables) (id : uuid) (reason : string) (ts : Z) : (string + Z) * EventTables :=
  if negb (text_ok reason) then (inl "invalid byte sequence", t) else
  record_update t id OrderEventRejected (JObj [("status", JStr "rejected"); ("reason", JStr reason)])
    ts "system" (snap_status "rejected" ts).

(** The statements of the store, with the arguments as the driver sends them. *)
Definition sql_run (t : EventTables) (q : Statement) : (string + Z) * EventTables :=
  match q with
  | StCreated id client instrument side ty price quantity at_ =>
      record_order_created t id client instrument side ty (decimal_String price) (decimal_String quantity) at_
  | StFill id fill filled status trade at_ =>
      record_order_fill t id (decimal_String fill) (decimal_String filled) status trade at_
  | StCancelled id reason at_ => record_order_cancelled t id reason at_
  | StRejected id reason at_ => record_order_rejected t id reason at_
  end.

(** ** Replay *)

(** The record variable of the function: its fields, NULL or a value. *)
Record ReplayState := mkReplayState {
  rsOrderID : uuid;
  rsClientID : option string;
  rsInstrument : option string;
  rsSide : option string;
  rsType : option string;
  rsPrice : option decimal;
  rsQuantity : option decimal;
  rsFilled : option decimal;
  rsStatus : option string;
  rsCreatedAt : option Z;
  rsUpdatedAt : option Z;
}.

(** [data ->> key]. *)
Definition json_text (data : json) (key : string) : option string :=
  match json_get data key with
  | Some (JStr s) => Some s
  | Some JNull | None => None
  | Some x => Some (json_Marshal x)
  end.

(** NULL::NUMERIC is NULL; text that is no number is an error. *)
Definition cast_numeric (s : option string) : error + option decimal :=
  match s with
  | None => inr None
  | Some s => match numeric_in s with Some d => inr (Some d) | None => inl (ErrPq "22P02" "invalid input syntax") end
  end.

(** The body of the loop; a type the CASE does not list raises an error. *)
Definition replay_event (e : EventRow) (s : ReplayState) : error + ReplayState :=
  let data := evData e in
  if bool_decide (evType e = OrderEventCreated) then
    match cast_numeric (json_text data "price"), cast_numeric (json_text data "quantity") with
    | inr p, inr q =>
        inr (mkReplayState (rsOrderID s) (json_text data "client_id") (json_text data "instrument") (json_text data "side")
               (json_text data "type") p q (rsFilled s) (Some "open") (Some (evTimestamp e)) (Some (evTimestamp e)))
    | inl err, _ | _, inl err => inl err
    end
  else if bool_decide (evType e = OrderEventFilled) || bool_decide (evType e = OrderEventPartiallyFilled) then
    match cast_numeric (json_text data "filled_quantity") with
    | inr q =>
        inr (mkReplayState (rsOrderID s) (rsClientID s) (rsInstrument s) (rsSide s) (rsType s) (rsPrice s) (rsQuantity s)
               q (json_text data "status") (rsCreatedAt s) (Some (evTimestamp e)))
    | inl err => inl err
    end
  else if bool_decide (evType e = OrderEventCancelled) then
    inr (mkReplayState (rsOrderID s) (rsClientID s) (rsInstrument s) (rsSide s) (rsType s) (rsPrice s) (rsQuantity s)
           (rsFilled s) (Some "cancelled") (rsCreatedAt s) (Some (evTimestamp e)))
  else if bool_decide (evType e = OrderEventRejected) then
    inr (mkReplayState (rsOrderID s) (rsClientID s) (rsInstrument s) (rsSide s) (rsType s) (rsPrice s) (rsQuantity s)
           (rsFilled s) (Some "rejected") (rsCreatedAt s) (Some (evTimestamp e)))
  else inl (ErrPq "20000" "case not found").

Fixpoint replay_loop (l : list EventRow) (s : ReplayState) : error + ReplayState :=
  match l with
  | [] => inr s
  | e :: l' => match replay_event e s with inl err => inl err | inr s' => replay_loop l' s' end
  end.

Definition by_sequence (a b : EventRow) : Prop := (evSequence a <= evSequence b)%Z.
#[global] Instance by_sequence_dec a b : Decision (by_sequence a b).
Proof. unfold by_sequence. apply _. Defined.

Definition ordered_events (t : EventTables) (id : uuid) : list EventRow := merge_sort by_sequence (events_of t id).

(** A variable of type RECORD has no fields until a row is assigned to it:
    "any attempt to access a field in it will draw a run-time error". *)
Inductive record_var := Unassigned | Assigned (s : ReplayState).
Definition assign_field (v : record_var) (f : ReplayState -> ReplayState) : error + record_var :=
  match v with
  | Unassigned => inl (ErrPq "55000" "record v_state is not assigned yet")
  | Assigned s => inr (Assigned (f s))
  end.

(** The three assignments that initialise the state. *)
Definition replay_init (id : uuid) (v : record_var) : error + record_var :=
  match assign_field v (fun s => mkReplayState id (rsClientID s) (rsInstrument s) (rsSide s) (rsType s) (rsPrice s)
                           (rsQuantity s) (rsFilled s) (rsStatus s) (rsCreatedAt s) (rsUpdatedAt s)) with
  | inl err => inl err
  | inr v1 =>
      match assign_field v1 (fun s => mkReplayState (rsOrderID s) (rsClientID s) (rsInstrument s) (rsSide s) (rsType s)
                               (rsPrice s) (rsQuantity s) (Some decimal_Zero) (rsStatus s) (rsCreatedAt s) (rsUpdatedAt s)) with
      | inl err => inl err
      | inr v2 =>
          assign_field v2 (fun s => mkReplayState (rsOrderID s) (rsClientID s) (rsInstrument s) (rsSide s) (rsType s)
                             (rsPrice s) (rsQuantity s) (rsFilled s) (Some "open") (rsCreatedAt s) (rsUpdatedAt s))
      end
  end.

Definition replay_order_state (t : EventTables) (id : uuid) : error + (ReplayState * Z) :=
  match replay_init id Unassigned with
  | inl err => inl err
  | inr Unassigned => inl (ErrPq "55000" "record v_state is not assigned yet")
  | inr (Assigned s) =>
      match replay_loop (ordered_events t id) s with
      | inl err => inl err
      | inr s' => inr (s', Z.of_nat (length (ordered_events t id)))
      end
  end.

(** The orders of the log, each once. *)
Definition distinct_orders (t : EventTables) : list uuid := remove_dups (evOrderID <$> etEvents t).

(** A row of the rebuilt table: a NULL in a column that does not allow it is an
    error. *)
Definition snap_of_replay (s : ReplayState) (count : Z) : option SnapRow :=
  client ← rsClientID s; instrument ← rsInstrument s; side ← rsSide s; ty ← rsType s;
  price ← rsPrice s; quantity ← rsQuantity s; filled ← rsFilled s ≫= column; status ← rsStatus s;
  created ← rsCreatedAt s; updated ← rsUpdatedAt s;
  let row := mkSnapRow (rsOrderID s) client instrument side ty price quantity filled status created updated count in
  if snap_ok row then Some row else None.

Fixpoint rebuild_rows (t : EventTables) (ids : list uuid) : error + list SnapRow :=
  match ids with
  | [] => inr []
  | id :: ids' =>
      match replay_order_state t id with
      | inl err => inl err
      | inr (s, count) =>
          match snap_of_replay s count with
          | None => inl (ErrPq "23502" "violates not-null constraint")
          | Some row => match rebuild_rows t ids' with inl err => inl err | inr rows => inr (row :: rows) end
          end
      end
  end.

(** TRUNCATE and the loop; an error rolls both back. *)
Definition rebuild_orders_snapshot (t : EventTables) : (error + Z) * EventTables :=
  match rebuild_rows t (distinct_orders t) with
  | inl err => (inl err, t)
  | inr rows => (inr (Z.of_nat (length rows)), mkEventTables (etEvents t) (etNext t) rows)
  end.

(** A row of verify_snapshot_consistency; a comparison with NULL is NULL, which
    WHERE does not accept. *)
Record ConsistencyRow := mkConsistencyRow {
  crOrderID : uuid; crSnapshotStatus : string; crReplayedStatus : option string;
  crSnapshotFilled : decimal; crReplayedFilled : option decimal; crConsistent : bool;
}.
Definition differs (r : SnapRow) (s : ReplayState) : bool :=
  match rsStatus s with Some st => negb (bool_decide (snStatus r = st)) | None => false end
  || match rsFilled s with Some q => negb (decimal_Equal (snFilled r) q) | None => false end.

Fixpoint verify_rows (t : EventTables) (rows : list SnapRow) : error + list ConsistencyRow :=
  match rows with
  | [] => inr []
  | r :: rows' =>
      match replay_order_state t (snOrderID r) with
      | inl err => inl err
      | inr (s, _) =>
          match verify_rows t rows' with
          | inl err => inl err
          | inr l =>
              inr (if differs r s
                   then mkConsistencyRow (snOrderID r) (snStatus r) (rsStatus s) (snFilled r) (rsFilled s) false :: l else l)
          end
      end
  end.
Definition verify_snapshot_consistency (t : EventTables) : error + list ConsistencyRow := verify_rows t (etSnapshot t).

(** ** The connection

    A statement reaches the server and its answer comes back, or the call fails
    on the way there, or on the way back. *)
Inductive Net := NetOk | NetBefore (err : string) | NetAfter (err : string).

Definition net_run (o : Net) (t : EventTables) (q : Statement) : (string + Z) * EventTables :=
  match o with
  | NetOk => sql_run t q
  | NetBefore err => (inl err, t)
  | NetAfter err => (inl err, (sql_run t q).2)
  end.

(** The tables after the statements sent, the [n]-th with the fate [net n]. *)
Definition tables_after (net : nat -> Net) (qs : list Statement) : EventTables :=
  foldl (fun t nq => (net_run (net nq.1) t nq.2).2) empty_tables (zip (seq 0 (length qs)) qs).

(** The database the recording functions of RetryQueue.v talk to. *)
Definition db_of (net : nat -> Net) (before : list Statement) (q : Statement) : string + Z :=
  (net_run (net (length before)) (tables_after net before) q).1.

(** ** Queries of the store

    [fault] is the error of the call, [cut] the error that ends the iteration
    after some of the rows. *)
Definition received {A} (cut : option (nat * error)) (rows : list A) : list A * option error :=
  match cut with
  | None => (rows, None)
  | Some (n, err) => (take n rows, Some err)
  end.

Record OrderEvent := mkOrderEvent {
  oeEventID : Z;
  oeOrderID : uuid;
  oeEventType : string;
  oeEventData : list (string * json);
  oeEventTimestamp : Z;
  oeSequenceNumber : Z;
  oeTriggeredBy : string;
  oeCreatedAt : Z;
}.

Definition get_order_history (t : EventTables) (id : uuid) : list EventRow := ordered_events t id.

(** The text the driver returns for a JSONB value. *)
Definition jsonb_text (j : json) : string := default "" (jsonb_in (json_Marshal j)).

(** [json.Unmarshal] into a nil [map[string]interface{}]. *)
Definition into_map (text : string) : error + list (string * json) :=
  match json_Unmarshal text with
  | Some (JObj m) => inr m
  | Some JNull => inr []
  | Some _ => inl (ErrText "json: cannot unmarshal into Go value of type map[string]interface {}")
  | None => inl (ErrText "invalid JSON")
  end.

(** The columns that are not selected keep their zero value. *)
Definition scan_event (e : EventRow) : result OrderEvent :=
  match into_map (jsonb_text (evData e)) with
  | inl err => inl (ErrWrap "failed to unmarshal event data" err)
  | inr m => inr (mkOrderEvent (evID e) uuid_Nil (evType e) m (evTimestamp e) (evSequence e) (evTriggeredBy e) zero_time)
  end.

Fixpoint scan_events (rows : list EventRow) (events : list OrderEvent) : result (list OrderEvent) :=
  match rows with
  | [] => inr events
  | e :: rows' =>
      match scan_event e with
      | inl err => inl err
      | inr event => scan_events rows' (events ++ [event])%list
      end
  end.

Definition GetOrderHistory (fault : option error) (cut : option (nat * error)) (t : EventTables) (orderID : uuid)
    : result (list OrderEvent) :=
  match fault with
  | Some err => inl (ErrWrap "failed to get order history" err)
  | None =>
      let '(rows, rowsErr) := received cut (get_order_history t orderID) in
      match scan_events rows [] with
      | inl err => inl err
      | inr events =>
          match rowsErr with
          | Some err => inl (ErrWrap "error iterating events" err)
          | None => inr events
          end
      end
  end.

(** The three numbers of an order that was replayed. *)
Definition parse_replayed (o : Order) (price quantity filled : decimal) : result Order :=
  match parsed "failed to parse price" price with
  | inl err => inl err
  | inr p =>
      match parsed "failed to parse quantity" quantity with
      | inl err => inl err
      | inr q =>
          match parsed "failed to parse filled quantity" filled with
          | inl err => inl err
          | inr f =>
              inr (mkOrder (oID o) (oClientID o) (oInstrument o) (oSide o) (oType o) p q f (oStatus o)
                     (oCreatedAt o) (oUpdatedAt o))
          end
      end
  end.

(** A NULL cannot be scanned into a string or a time. *)
Definition scan_replayed (s : ReplayState) : result Order :=
  match rsClientID s, rsInstrument s, rsSide s, rsType s, rsPrice s, rsQuantity s, rsFilled s, rsStatus s,
        rsCreatedAt s, rsUpdatedAt s with
  | Some c, Some i, Some sd, Some ty, Some p, Some q, Some f, Some st, Some cr, Some up =>
      parse_replayed (mkOrder (rsOrderID s) c i sd ty p q f st cr up) p q f
  | _, _, _, _, _, _, _, _, _, _ => inl (ErrWrap "failed to replay order state" scan_null)
  end.

Definition ReplayOrderState (fault : option error) (t : EventTables) (orderID : uuid) : result Order :=
  match match fault with Some err => inl err | None => replay_order_state t orderID end with
  | inl ErrNoRows => inl (ErrText ("order not found: " +:+ uuid_String orderID))
  | inl err => inl (ErrWrap "failed to replay order state" err)
  | inr (s, _) => scan_replayed s
  end.

Definition RebuildSnapshot (fault : option error) (t : EventTables) : result Z * EventTables :=
  match fault with
  | Some err => (inl (ErrWrap "failed to rebuild snapshot" err), t)
  | None =>
      match rebuild_orders_snapshot t with
      | (inl err, t') => (inl (ErrWrap "failed to rebuild snapshot" err), t')
      | (inr count, t') => (inr count, t')
      end
  end.

Record InconsistentOrder := mkInconsistentOrder {
  ioOrderID : uuid;
  ioSnapshotStatus : string;
  ioReplayedStatus : string;
  ioSnapshotFilled : decimal;
  ioReplayedFilled : decimal;
  ioIsConsistent : bool;
}.

Fixpoint scan_inconsistencies (rows : list ConsistencyRow) (l : list InconsistentOrder) : result (list InconsistentOrder) :=
  match rows with
  | [] => inr l
  | r :: rows' =>
      match crReplayedStatus r, crReplayedFilled r with
      | Some st, Some f =>
          scan_inconsistencies rows'
            (l ++ [mkInconsistentOrder (crOrderID r) (crSnapshotStatus r) st (read_numeric (crSnapshotFilled r))
                     (read_numeric f) (crConsistent r)])%list
      | _, _ => inl (ErrWrap "failed to scan inconsistency" scan_null)
      end
  end.

(** The error of the iteration is not looked at. *)
Definition VerifySnapshotConsistency (fault : option error) (cut : option (nat * error)) (t : EventTables)
    : result (list InconsistentOrder) :=
  match match fault with Some err => inl err | None => verify_snapshot_consistency t end with
  | inl err => inl (ErrWrap "failed to verify consistency" err)
  | inr rows => scan_inconsistencies (received cut rows).1 []
  end.

Definition scan_snap (r : SnapRow) : Order :=
  mkOrder (snOrderID r) (snClientID r) (snInstrument r) (snSide r) (snType r) (read_numeric (snPrice r))
    (read_numeric (snQuantity r)) (read_numeric (snFilled r)) (snStatus r) (snCreatedAt r) (snUpdatedAt r).

(** The row of an order. *)
Definition snap_row (t : EventTables) (id : uuid) : option SnapRow := head (filter (fun r => snOrderID r = id) (etSnapshot t)).

Definition GetOrderFromSnapshot (fault : option error) (t : EventTables) (orderID : uuid) : result Order :=
  match match fault with
        | Some err => inl err
        | None => match snap_row t orderID with None => inl ErrNoRows | Some r => inr r end
        end with
  | inl ErrNoRows => inl (ErrText ("order not found in snapshot: " +:+ uuid_String orderID))
  | inl err => inl (ErrWrap "failed to get order from snapshot" err)
  | inr r => inr (scan_snap r)
  end.

(** The rows of a client, newest first, at most [limit] of them; the server
    refuses a negative limit. *)
Definition answers_client (t : EventTables) (clientID : string) (limit : Z) (rows : list SnapRow) : Prop :=
  exists all, all ≡ₚ filter (fun r => snClientID r = clientID) (etSnapshot t) /\
    StronglySorted (fun a b => snCreatedAt b <= snCreatedAt a)%Z all /\ rows = take (Z.to_nat limit) all.

(** The error of the iteration is not looked at. *)
Definition store_GetOrdersByClientID (fault : option error) (cut : option (nat * error)) (limit : Z) (rows : list SnapRow)
    : result (list Order) :=
  match match fault with
        | Some err => Some err
        | None => if (limit <? 0)%Z then Some (ErrPq "2201W" "LIMIT must not be negative") else None
        end with
  | Some err => inl (ErrWrap "failed to get orders by client" err)
  | None => inr (scan_snap <$> (received cut rows).1)
  end.

Record OrderStats := mkOrderStats {
  stTotalOrders : Z; stTotalEvents : Z; stCreatedCount : Z; stFilledCount : Z; stCancelledCount : Z;
}.

(** COUNT(DISTINCT order_id) over the events of a type. *)
Definition count_orders (l : list EventRow) (ty : string) : Z :=
  Z.of_nat (length (remove_dups (evOrderID <$> filter (fun e => evType e = ty) l))).

Definition GetOrderStats (fault : option error) (t : EventTables) : result OrderStats :=
  match fault with
  | Some err => inl (ErrWrap "failed to get order stats" err)
  | None =>
      inr (mkOrderStats (Z.of_nat (length (distinct_orders t))) (Z.of_nat (length (etEvents t)))
             (count_orders (etEvents t) OrderEventCreated) (count_orders (etEvents t) OrderEventFilled)
             (count_orders (etEvents t) OrderEventCancelled))
  end.
End schema.
