(* ===== verification/EventStoreTheorems.v ===== *)
(** * The order event store: theorems

    The log of an order is a gapless sequence in the order of recording; the
    snapshot table is the fold of the log, whatever the connection did; the
    replay loop computes the snapshot of an order whose creation comes first;
    the replay function itself never runs; what the retry queue counts as
    written is in the log. *)

From Stdlib Require Import Ascii String.
From S2P Require Import Prelude.
From S2P Require Import Json.
From S2P Require Import Text.
From S2P Require Import External.
From S2P Require Import Models.
From S2P Require Import Sql.
From S2P Require Import OrderBook.
From S2P Require Import Snapshot.
From S2P Require Import Postgres.
From S2P Require Import RetryQueue.
From S2P Require Import EventStore.

Section specification.
Context `{DecimalPkg, UuidPkg, !PgPkg, !PgArg}.

(** ** The specification: the state of an order as the fold of its events *)

Definition is_created (e : EventRow) : bool := bool_decide (evType e = OrderEventCreated).

Definition number_of (data : json) (key : string) : option decimal := json_text data key ≫= numeric_in.

Definition snap_created (e : EventRow) : option SnapRow :=
  client ← json_text (evData e) "client_id"; instrument ← json_text (evData e) "instrument";
  side ← json_text (evData e) "side"; ty ← json_text (evData e) "type";
  price ← number_of (evData e) "price"; quantity ← number_of (evData e) "quantity"; zero ← column decimal_Zero;
  Some (mkSnapRow (evOrderID e) client instrument side ty price quantity zero "open" (evTimestamp e) (evTimestamp e)
          (evSequence e)).

(** The row after an event of its order. *)
Definition moved_to (r : SnapRow) (filled : decimal) (status : string) (e : EventRow) : SnapRow :=
  mkSnapRow (snOrderID r) (snClientID r) (snInstrument r) (snSide r) (snType r) (snPrice r) (snQuantity r)
    filled status (snCreatedAt r) (evTimestamp e) (evSequence e).

Definition snap_filled (e : EventRow) (r : SnapRow) : option SnapRow :=
  filled ← number_of (evData e) "filled_quantity"; status ← json_text (evData e) "status";
  Some (moved_to r filled status e).

(** The first creation makes the row, the other events change it. *)
Definition snap_apply (o : option SnapRow) (e : EventRow) : option SnapRow :=
  if is_created e then match o with Some r => Some r | None => snap_created e end
  else
    r ← o;
    if bool_decide (evType e ∈ [OrderEventFilled; OrderEventPartiallyFilled]) then snap_filled e r
    else if bool_decide (evType e = OrderEventCancelled) then Some (moved_to r (snFilled r) "cancelled" e)
    else if bool_decide (evType e = OrderEventRejected) then Some (moved_to r (snFilled r) "rejected" e)
    else None.

Definition snap_spec (l : list EventRow) : option SnapRow := foldl snap_apply None l.

(** What a statement records. *)
Definition st_order (q : Statement) : uuid :=
  match q with StCreated id _ _ _ _ _ _ _ | StFill id _ _ _ _ _ | StCancelled id _ _ | StRejected id _ _ => id end.
Definition st_type (q : Statement) : string :=
  match q with
  | StCreated _ _ _ _ _ _ _ _ => OrderEventCreated
  | StFill _ _ _ status _ _ => fill_type status
  | StCancelled _ _ _ => OrderEventCancelled
  | StRejected _ _ _ => OrderEventRejected
  end.
Definition st_time (q : Statement) : Z :=
  match q with StCreated _ _ _ _ _ _ _ ts | StFill _ _ _ _ _ ts | StCancelled _ _ ts | StRejected _ _ ts => ts end.

(** ** The row of an order in the table *)

Lemma snap_row_None t id : snap_row t id = None <-> id ∉ (snOrderID <$> etSnapshot t).
Proof.
  unfold snap_row. destruct (filter _ _) as [|r l] eqn:Hf; cbn [head].
  - split; [|done]. intros _ (r & -> & Hr)%list_elem_of_fmap.
    by apply (filter_nil_not_elem_of _ _ r Hf).
  - split; [done|]. intros Hn. exfalso. apply Hn.
    assert (r ∈ filter (fun r => snOrderID r = id) (etSnapshot t)) as [Hid Hr]%list_elem_of_filter by (rewrite Hf; left).
    rewrite <- Hid. by apply list_elem_of_fmap_2.
Qed.

Lemma snap_row_Some t id r : snap_row t id = Some r -> r ∈ etSnapshot t /\ snOrderID r = id.
Proof.
  unfold snap_row. intros Hr. apply head_Some_elem_of in Hr. by apply list_elem_of_filter in Hr as [? ?].
Qed.

Lemma snap_row_new evs n l r id :
  snOrderID r ∉ (snOrderID <$> l) ->
  snap_row (mkEventTables evs n (l ++ [r])%list) id =
    if decide (snOrderID r = id) then Some r else snap_row (mkEventTables evs n l) id.
Proof.
  intros Hr. unfold snap_row; cbn [etSnapshot]. rewrite filter_app, filter_cons, filter_nil.
  destruct (decide (snOrderID r = id)) as [<-|]; [|by rewrite app_nil_r].
  assert (filter (fun r0 => snOrderID r0 = snOrderID r) l = []) as ->; [|done].
  pose proof (proj2 (snap_row_None (mkEventTables evs n l) (snOrderID r)) Hr) as Hn. unfold snap_row in Hn.
  by apply head_None in Hn.
Qed.

Lemma snap_row_update evs n l id f id' : (forall r, snOrderID (f r) = snOrderID r) ->
  snap_row (mkEventTables evs n ((fun r => if bool_decide (snOrderID r = id) then f r else r) <$> l)) id' =
    if decide (id = id') then f <$> snap_row (mkEventTables evs n l) id' else snap_row (mkEventTables evs n l) id'.
Proof.
  intros Hf. unfold snap_row; cbn [etSnapshot]. induction l as [|r l IH]; [by destruct (decide _)|].
  cbn [fmap list_fmap]. rewrite !filter_cons. case_bool_decide as Hr; rewrite ?Hf.
  - destruct (decide (snOrderID r = id')) as [Hr'|Hr']; [|done]. cbn [head].
    rewrite Hr in Hr'. by rewrite decide_True.
  - destruct (decide (snOrderID r = id')) as [Hr'|Hr']; [|done]. cbn [head].
    rewrite decide_False; [done|]. congruence.
Qed.

Lemma events_of_app evs n l e id :
  events_of (mkEventTables (evs ++ [e])%list n l) id =
    (events_of (mkEventTables evs n l) id ++ if decide (evOrderID e = id) then [e] else [])%list.
Proof. unfold events_of; cbn [etEvents]. by rewrite filter_app, filter_cons, filter_nil. Qed.

(** ** One call *)

(** The tables before and after an event was recorded. *)
Record recorded (t t' : EventTables) (e : EventRow) : Prop := {
  rec_events : etEvents t' = (etEvents t ++ [e])%list;
  rec_next : etNext t' = (etNext t + 1)%Z;
  rec_id : evID e = etNext t;
  rec_seq : evSequence e = get_next_sequence_number t (evOrderID e);
  rec_type : evType e ∈ event_types;
  rec_nul : nul_free (evData e) = true;
  rec_obj : exists m, evData e = JObj m;
  rec_nums : numbers_ok (evData e) = true;
  rec_rows : forall id, snap_row t' id =
    if decide (evOrderID e = id) then snap_apply (snap_row t id) e else snap_row t id;
  rec_keeps : forall id, is_Some (snap_row t id) -> is_Some (snap_row t' id);
  rec_creates : is_created e = true -> is_Some (snap_row t' (evOrderID e));
  rec_nodup : NoDup (snOrderID <$> etSnapshot t) -> NoDup (snOrderID <$> etSnapshot t');
  rec_ok : Forall snap_ok (etSnapshot t) -> Forall snap_ok (etSnapshot t');
}.

(** A failed call changes nothing but the number of the next event. *)
Definition unchanged (t t' : EventTables) : Prop :=
  etEvents t' = etEvents t /\ etSnapshot t' = etSnapshot t /\ (etNext t <= etNext t')%Z.

Lemma unchanged_refl t : unchanged t t.
Proof. by split_and!. Qed.
Lemma unchanged_spend t : unchanged t (spend t).
Proof. unfold unchanged, spend; cbn. split_and!; [done..|lia]. Qed.

(** A call that failed. *)
Ltac no_trace := intros [= <- <-]; left; eauto using unchanged_refl, unchanged_spend.

Lemma insert_event_Some t id ty data ts seq by_ t1 : insert_event t id ty data ts seq by_ = Some t1 ->
  let e := mkEventRow (etNext t) id ty data ts seq by_ in
  t1 = mkEventTables (etEvents t ++ [e])%list (etNext t + 1) (etSnapshot t) /\ ty ∈ event_types /\ nul_free data = true.
Proof.
  unfold insert_event. case_match eqn:Hc; [|done]. intros [= <-]. cbn zeta.
  rewrite !andb_true_iff in Hc. destruct Hc as [[[[_ Hty] _] Hnul] _]. by apply bool_decide_eq_true in Hty.
Qed.

(** The update of a row by an event that is no creation. *)
Lemma record_update_cases t id ty m ts by_ f r t' :
  record_update t id ty (JObj m) ts by_ f = (r, t') ->
  (forall seq row, snOrderID (f seq row) = snOrderID row) ->
  ty <> OrderEventCreated -> numbers_ok (JObj m) = true ->
  (forall seq row, is_Some (snap_row t id) ->
    snap_apply (Some row) (mkEventRow (etNext t) id ty (JObj m) ts seq by_) = Some (f seq row)) ->
  (exists err, r = inl err /\ unchanged t t') \/
  (exists e, r = inr (evID e) /\ recorded t t' e /\ evOrderID e = id /\ evType e = ty /\ evTimestamp e = ts).
Proof.
  unfold record_update. intros Hu Hid Hty Hnum Happly.
  destruct (insert_event _ _ _ _ _ _ _) as [t1|] eqn:Hi; simplify_eq; [|left; eauto using unchanged_spend].
  apply insert_event_Some in Hi as (-> & Hin & Hnul). unfold update_snapshot in Hu; cbn [etSnapshot etEvents etNext] in Hu.
  set (seq := get_next_sequence_number t id) in *.
  destruct (forallb _ _) eqn:Hok; simplify_eq; [|left; eauto using unchanged_spend]. right.
  set (e := mkEventRow (etNext t) id ty (JObj m) ts seq by_). exists e.
  assert (is_created e = false) as Hnc by by apply bool_decide_eq_false.
  assert (forall id', snap_row (mkEventTables (etEvents t ++ [e])%list (etNext t + 1)
    ((fun r => if bool_decide (snOrderID r = id) then f seq r else r) <$> etSnapshot t)) id' =
    if decide (id = id') then f seq <$> snap_row t id' else snap_row t id') as Hrow.
  { intros id'. by rewrite snap_row_update by apply Hid. }
  split_and!; try done. split; try done; cbn [etEvents etNext etSnapshot].
  - eauto.
  - intros id'. rewrite Hrow. cbn [evOrderID e]. destruct (decide (id = id')) as [<-|]; [|done].
    destruct (snap_row t id) as [row|] eqn:Hr; cbn [fmap option_fmap option_map].
    + symmetry. apply Happly. eauto.
    + unfold snap_apply. by rewrite Hnc.
  - intros id' [row Hr]. rewrite Hrow, Hr. destruct (decide _); cbn; eauto.
  - by rewrite Hnc.
  - intros Hnd. rewrite <- list_fmap_compose. erewrite list_fmap_ext; [exact Hnd|]. intros i row _. cbn.
    case_bool_decide; [apply Hid|done].
  - intros Hall. apply Forall_fmap, Forall_forall. intros row Hr. cbn. case_bool_decide as Hrid.
    + rewrite forallb_forall in Hok. apply list_elem_of_In, Hok in Hr. apply Is_true_true.
      apply orb_true_iff in Hr as [Hr%negb_true_iff%bool_decide_eq_false|]; done.
    + by eapply Forall_forall in Hall.
Qed.

(** Every statement fails without a trace or records its event. *)
Definition call_ok (t t' : EventTables) (q : Statement) (r : string + Z) : Prop :=
  (exists err, r = inl err /\ unchanged t t') \/
  (exists e, r = inr (evID e) /\ recorded t t' e /\ evOrderID e = st_order q /\ evType e = st_type q /\
    evTimestamp e = st_time q).

(** INSERT ... ON CONFLICT (order_id) DO NOTHING. *)
Lemma insert_row_lookup t row evs n id' :
  snap_row (if bool_decide (snOrderID row ∈ snOrderID <$> etSnapshot t) then mkEventTables evs n (etSnapshot t)
            else mkEventTables evs n (etSnapshot t ++ [row])%list) id' =
  if decide (snOrderID row = id') then match snap_row t id' with Some r => Some r | None => Some row end else snap_row t id'.
Proof.
  case_bool_decide as Hin.
  - change (snap_row (mkEventTables evs n (etSnapshot t)) id') with (snap_row t id').
    destruct (decide (snOrderID row = id')) as [<-|]; [|done]. destruct (snap_row t (snOrderID row)) eqn:Hn; [done|].
    by apply snap_row_None in Hn.
  - rewrite snap_row_new by done. change (snap_row (mkEventTables evs n (etSnapshot t)) id') with (snap_row t id').
    destruct (decide (snOrderID row = id')) as [<-|]; [|done]. by apply snap_row_None in Hin as ->.
Qed.

Lemma created_cases t id client instrument side ty price quantity ts r t' :
  record_order_created t id client instrument side ty price quantity ts = (r, t') ->
  (exists err, r = inl err /\ unchanged t t') \/
  (exists e, r = inr (evID e) /\ recorded t t' e /\ evOrderID e = id /\ evType e = OrderEventCreated /\ evTimestamp e = ts).
Proof.
  unfold record_order_created.
  destruct (numeric_arg price) as [p|]; [|no_trace].
  destruct (numeric_arg quantity) as [q|]; [|no_trace].
  destruct (negb _); [no_trace|]. cbn zeta.
  destruct (insert_event _ _ _ _ _ _ _) as [t1|] eqn:Hi; [|no_trace].
  apply insert_event_Some in Hi as (-> & Hin & Hnul).
  destruct (column p) as [p'|] eqn:Hp; [|no_trace].
  destruct (column q) as [q'|] eqn:Hq; [|no_trace].
  destruct (column decimal_Zero) as [z|] eqn:Hz; [|no_trace].
  destruct (snap_ok _) eqn:Hok; [|no_trace]. intros [= <- <-]. right.
  match goal with |- context [(etEvents t ++ [?e0])%list] => set (e := e0) end.
  match type of Hok with snap_ok ?r0 = _ => set (row := r0) in * end.
  exists e. assert (snap_created e = Some row) as Hsc.
  { trans (p1 ← column p; q1 ← column q; z1 ← column decimal_Zero;
           Some (mkSnapRow id client instrument side ty p1 q1 z1 "open" ts ts (evSequence e))); [reflexivity|].
    by rewrite Hp, Hq, Hz. }
  assert (forall o, snap_apply o e = match o with Some r => Some r | None => Some row end) as Happly.
  { intros [o|]; [done|]. unfold snap_apply. by rewrite Hsc. }
  cbn [etSnapshot etEvents etNext].
  assert (forall id', snap_row (if bool_decide (id ∈ snOrderID <$> etSnapshot t)
     then mkEventTables (etEvents t ++ [e])%list (etNext t + 1) (etSnapshot t)
     else mkEventTables (etEvents t ++ [e])%list (etNext t + 1) (etSnapshot t ++ [row])%list) id' =
     if decide (id = id') then snap_apply (snap_row t id') e else snap_row t id') as Hrow.
  { intros id'. rewrite Happly. apply (insert_row_lookup t row). }
  split_and!; try done. split; try done.
  - by case_bool_decide.
  - by case_bool_decide.
  - cbn; eauto.
  - intros id' [r' Hr]. rewrite Hrow, Happly, Hr. destruct (decide _); eauto.
  - intros _. rewrite Hrow. cbn [evOrderID e]. rewrite decide_True by done. rewrite Happly. destruct (snap_row t id); eauto.
  - intros Hnd. case_bool_decide as Hin'; [done|]. cbn [etSnapshot]. rewrite fmap_app. apply NoDup_app. split_and!; [done| |].
    + intros x Hx. cbn. rewrite list_elem_of_singleton. by intros ->.
    + apply NoDup_singleton.
  - intros Hall. case_bool_decide; [done|]. cbn [etSnapshot]. apply Forall_app. split; [done|].
    apply Forall_singleton. by rewrite Hok.
Qed.

Lemma is_fill_type status : fill_type status ∈ [OrderEventFilled; OrderEventPartiallyFilled].
Proof. unfold fill_type. case_bool_decide; set_solver. Qed.

Lemma sql_run_cases t q r t' : sql_run t q = (r, t') -> call_ok t t' q r.
Proof.
  unfold call_ok. destruct q as [id client instrument side ty price quantity at_|id fill filled status trade at_|id reason at_|id reason at_];
    cbn [sql_run st_order st_type st_time].
  - apply created_cases.
  - unfold record_order_fill.
    destruct (numeric_arg (decimal_String fill)) as [f|]; [|no_trace].
    destruct (numeric_arg (decimal_String filled)) as [q|]; [|no_trace].
    destruct (negb _); [no_trace|].
    assert (fill_type status <> OrderEventCreated) as Hnc by (unfold fill_type; by case_bool_decide).
    destruct (column q) as [q'|] eqn:Hq.
    + intros Hu. eapply record_update_cases in Hu; [exact Hu|done..|by destruct trade|].
      intros seq row _. unfold snap_apply. cbn [is_created evType]. unfold is_created. cbn [evType].
      rewrite bool_decide_eq_false_2 by done. cbn [mbind option_bind].
      rewrite bool_decide_eq_true_2 by apply is_fill_type.
      trans (q1 ← column q; Some (snap_fill q1 status at_ seq row)); [reflexivity|]. by rewrite Hq.
    + case_bool_decide as Hin; [no_trace|].
      intros Hu. eapply record_update_cases in Hu; [exact Hu|done..|by destruct trade|].
      intros seq row [r' Hr]. apply snap_row_None in Hin. congruence.
  - unfold record_order_cancelled. destruct (negb _); [no_trace|].
    intros Hu. eapply record_update_cases in Hu; [exact Hu|done..|by destruct reason|done].
  - unfold record_order_rejected. destruct (negb _); [no_trace|].
    intros Hu. eapply record_update_cases in Hu; [exact Hu|done..].
Qed.

(** ** The tables, invariantly *)

Record LogWf (t : EventTables) : Prop := {
  wf_seq : forall id, evSequence <$> events_of t id = seqZ 1 (Z.of_nat (length (events_of t id)));
  wf_ids : StronglySorted Z.lt (evID <$> etEvents t);
  wf_next : Forall (fun e => evID e < etNext t)%Z (etEvents t);
  wf_types : Forall (fun e => evType e ∈ event_types) (etEvents t);
  wf_data : Forall (fun e => nul_free (evData e) = true /\ numbers_ok (evData e) = true /\ exists m, evData e = JObj m)
    (etEvents t);
  wf_rows : forall id, snap_row t id = snap_spec (events_of t id);
  wf_created : forall e, e ∈ etEvents t -> is_created e = true -> is_Some (snap_row t (evOrderID e));
  wf_nodup : NoDup (snOrderID <$> etSnapshot t);
  wf_ok : Forall snap_ok (etSnapshot t);
}.

Lemma max_seqZ n : foldr Z.max 0%Z (seqZ 1 (Z.of_nat n)) = Z.of_nat n.
Proof.
  enough (forall m k, (0 <= k)%Z -> foldr Z.max 0%Z (seqZ (k + 1) (Z.of_nat m)) = if decide (m = 0) then 0%Z else (k + Z.of_nat m)%Z) as He.
  { etrans; [apply (He n 0%Z); lia|]. destruct (decide _); lia. }
  intros m. induction m as [|m IH]; intros k Hk; [done|].
  rewrite seqZ_cons by lia. cbn [foldr]. replace (Z.pred (Z.of_nat (S m))) with (Z.of_nat m) by lia.
  replace (Z.succ (k + 1)) with (k + 1 + 1)%Z by lia. rewrite IH by lia. repeat destruct (decide _); lia.
Qed.

Lemma next_sequence t id : LogWf t -> get_next_sequence_number t id = (Z.of_nat (length (events_of t id)) + 1)%Z.
Proof.
  intros Hwf. unfold get_next_sequence_number. f_equal. rewrite <- max_seqZ at 1.
  rewrite <- (wf_seq t Hwf id). induction (events_of t id); cbn; congruence.
Qed.

Lemma LogWf_empty : LogWf empty_tables.
Proof. split; try done; try constructor; set_solver. Qed.

Lemma LogWf_unchanged t t' : unchanged t t' -> LogWf t -> LogWf t'.
Proof.
  intros (He & Hs & Hn) Hwf. destruct t' as [evs n l]. cbn in *. subst.
  split; try apply Hwf. eapply Forall_impl; [apply (wf_next t Hwf)|]. intros e ?. cbn in *. lia.
Qed.

Lemma LogWf_recorded t t' e : recorded t t' e -> LogWf t -> LogWf t'.
Proof.
  intros Hrec Hwf.
  assert (forall id, events_of t' id = (events_of t id ++ if decide (evOrderID e = id) then [e] else [])%list) as Hof.
  { intros id. destruct t as [evs n l], t' as [evs' n' l']. pose proof (rec_events _ _ _ Hrec) as He. cbn in He. subst evs'.
    exact (events_of_app evs n l e id). }
  assert (forall P : EventRow -> Prop, Forall P (etEvents t) -> P e -> Forall P (etEvents t')) as Hall.
  { intros P HP Hpe. rewrite (rec_events _ _ _ Hrec). apply Forall_app. by split; [|apply Forall_singleton]. }
  split.
  - intros id. rewrite Hof. destruct (decide _) as [<-|]; [|by rewrite app_nil_r, (wf_seq t Hwf)].
    rewrite fmap_app, length_app, (wf_seq t Hwf). cbn [fmap list_fmap length].
    rewrite Nat2Z.inj_add, seqZ_app by lia. f_equal.
    rewrite (rec_seq _ _ _ Hrec), (next_sequence t _ Hwf). rewrite seqZ_cons by lia. f_equal; lia.
  - rewrite (rec_events _ _ _ Hrec), fmap_app. apply StronglySorted_app_2; [|apply Hwf|repeat constructor].
    intros x1 x2 Hx1 ->%list_elem_of_singleton. revert x1 Hx1. apply Forall_forall.
    apply Forall_fmap. eapply Forall_impl; [apply (wf_next t Hwf)|]. intros e' ?. cbn in *. by rewrite (rec_id _ _ _ Hrec).
  - rewrite (rec_next _ _ _ Hrec). apply Hall; [eapply Forall_impl; [apply (wf_next t Hwf)|intros e' ?; cbn in *; lia]|].
    rewrite (rec_id _ _ _ Hrec). lia.
  - apply Hall; [apply Hwf|apply Hrec].
  - apply Hall; [apply Hwf|]. split_and!; apply Hrec.
  - intros id. rewrite Hof, (rec_rows _ _ _ Hrec), (wf_rows t Hwf). unfold snap_spec.
    destruct (decide _); [by rewrite foldl_app|by rewrite app_nil_r].
  - intros e'. rewrite (rec_events _ _ _ Hrec). intros [He'|He'%list_elem_of_singleton]%elem_of_app Hc; [|subst e'].
    + apply (rec_keeps _ _ _ Hrec). by apply (wf_created t Hwf).
    + by apply (rec_creates _ _ _ Hrec).
  - apply (rec_nodup _ _ _ Hrec), Hwf.
  - apply (rec_ok _ _ _ Hrec), Hwf.
Qed.

Lemma net_run_cases o t q r t' : net_run o t q = (r, t') ->
  unchanged t t' \/ exists e, recorded t t' e /\ evOrderID e = st_order q /\ evType e = st_type q /\ evTimestamp e = st_time q.
Proof.
  destruct o as [|err|err]; cbn [net_run].
  - intros [(err & _ & Hu)|(e & _ & He)]%sql_run_cases; eauto.
  - intros [= <- <-]. left. apply unchanged_refl.
  - destruct (sql_run t q) as [r1 t1] eqn:Hq. intros [= <- <-]. cbn.
    apply sql_run_cases in Hq as [(err1 & _ & Hu)|(e & _ & He)]; eauto.
Qed.

Lemma tables_after_snoc net qs q :
  tables_after net (qs ++ [q])%list = (net_run (net (length qs)) (tables_after net qs) q).2.
Proof.
  unfold tables_after. rewrite length_app, seq_app. cbn [length Nat.add seq].
  rewrite zip_with_app by by rewrite length_seq. cbn [zip_with]. by rewrite foldl_snoc.
Qed.

Lemma tables_after_ind (P : EventTables -> Prop) net :
  P empty_tables ->
  (forall t t', P t -> unchanged t t' -> P t') -> (forall t t' e, P t -> recorded t t' e -> P t') ->
  forall qs, P (tables_after net qs).
Proof.
  intros Hempty Hu Hr qs. induction qs as [|q qs IH] using rev_ind; [done|]. rewrite tables_after_snoc.
  destruct (net_run _ _ q) as [r t'] eqn:Hq. apply net_run_cases in Hq as [?|(e & ? & _)]; eauto.
Qed.

Lemma tables_wf net qs : LogWf (tables_after net qs).
Proof.
  apply tables_after_ind; [apply LogWf_empty|eauto using LogWf_unchanged|eauto using LogWf_recorded].
Qed.

(** ** The order of the log *)

#[global] Instance by_sequence_trans : Transitive by_sequence.
Proof. unfold by_sequence. intros ???. lia. Qed.
#[global] Instance by_sequence_total : Total by_sequence.
Proof. unfold by_sequence. intros ??. lia. Qed.

Lemma sequence_inj t id e e' : LogWf t -> e ∈ events_of t id -> e' ∈ events_of t id ->
  evSequence e = evSequence e' -> e = e'.
Proof.
  intros Hwf [i Hi]%list_elem_of_lookup [j Hj]%list_elem_of_lookup Heq.
  assert (NoDup (evSequence <$> events_of t id)) as Hnd by (rewrite wf_seq by done; apply NoDup_seqZ).
  assert (i = j) as ->; [|congruence]. eapply NoDup_lookup; [exact Hnd|..]; rewrite list_lookup_fmap.
  - by rewrite Hi.
  - rewrite Hj. cbn. by rewrite Heq.
Qed.

Lemma seqZ_sorted (l : list EventRow) k : evSequence <$> l = seqZ k (Z.of_nat (length l)) -> StronglySorted by_sequence l.
Proof.
  revert k. induction l as [|e l IH]; intros k Hk; [constructor|].
  cbn [fmap list_fmap length] in Hk. rewrite seqZ_cons in Hk by lia. injection Hk as Hk Hl.
  replace (Z.pred (Z.of_nat (S (length l)))) with (Z.of_nat (length l)) in Hl by lia.
  constructor; [by eapply IH|]. apply Forall_forall. intros e' He'.
  apply (list_elem_of_fmap_2 evSequence) in He'. rewrite Hl in He'. apply elem_of_seqZ in He'. unfold by_sequence. lia.
Qed.

(** The query that sorts by sequence number returns the order of recording. *)
Lemma ordered_is_recorded t id : LogWf t -> ordered_events t id = events_of t id.
Proof.
  intros Hwf. unfold ordered_events. apply (StronglySorted_unique_strong by_sequence).
  - intros e e' He He' H12 H21. rewrite merge_sort_Permutation in He. unfold by_sequence in *.
    eapply sequence_inj; [done..|lia].
  - apply (StronglySorted_merge_sort by_sequence).
  - eapply seqZ_sorted, wf_seq, Hwf.
  - apply merge_sort_Permutation.
Qed.

(** ** The fold *)

Lemma snap_spec_snoc l e : snap_spec (l ++ [e])%list = snap_apply (snap_spec l) e.
Proof. apply foldl_snoc. Qed.

(** The identity and the last number of the row are those of its events. *)
Lemma snap_spec_last l r : snap_spec l = Some r -> snLastSequence r ∈ (evSequence <$> l).
Proof.
  revert r. induction l as [|e l IH] using rev_ind; intros r; [done|].
  rewrite snap_spec_snoc, fmap_app. unfold snap_apply, snap_created, snap_filled.
  intros Hr. apply elem_of_app. cbn [fmap list_fmap]. rewrite list_elem_of_singleton.
  destruct (snap_spec l) as [r0|]; [specialize (IH r0 eq_refl)|clear IH]; cbn in Hr;
    repeat (case_match; simplify_option_eq); auto.
Qed.

(** Before its creation an order has no row, and a late creation makes it from
    nothing. *)
Lemma snap_spec_none l : Forall (fun e => is_created e = false) l -> snap_spec l = None.
Proof.
  induction l as [|e l IH] using rev_ind; [done|]. intros [Hl He%Forall_inv]%Forall_app.
  rewrite snap_spec_snoc, IH by done. cbn beta in He. unfold snap_apply. by rewrite He.
Qed.

(** The replay of an order whose creation comes first, in step with the fold. *)
Definition agree (r : SnapRow) (s : ReplayState) : Prop :=
  rsOrderID s = snOrderID r /\ rsClientID s = Some (snClientID r) /\ rsInstrument s = Some (snInstrument r) /\
  rsSide s = Some (snSide r) /\ rsType s = Some (snType r) /\ rsPrice s = Some (snPrice r) /\
  rsQuantity s = Some (snQuantity r) /\ rsStatus s = Some (snStatus r) /\ rsCreatedAt s = Some (snCreatedAt r) /\
  rsUpdatedAt s = Some (snUpdatedAt r) /\
  exists q, rsFilled s = Some q /\ decimal_Equal (snFilled r) q = true.

Lemma agree_consistent r s : agree r s -> differs r s = false.
Proof.
  intros (_ & _ & _ & _ & _ & _ & _ & Hst & _ & _ & q & Hq & Heq). unfold differs.
  rewrite Hst, Hq, Heq. by rewrite bool_decide_eq_true_2.
Qed.

Lemma replay_loop_snoc l e s :
  replay_loop (l ++ [e])%list s = match replay_loop l s with inl err => inl err | inr s' => replay_event e s' end.
Proof.
  revert s. induction l as [|e' l IH]; intros s; cbn [replay_loop app]; [by destruct (replay_event e s)|].
  destruct (replay_event e' s); [done|apply IH].
Qed.
End specification.

Section theorems.
Context `{DecimalSpec, UuidSpec, !PgPkg, !PgSpec, !PgArg, !PgArgSpec}.

(** The state the three assignments make of an assigned record. *)
Lemma replay_init_assigned id s0 : exists s, replay_init id (Assigned s0) = inr (Assigned s) /\
  rsOrderID s = id /\ rsFilled s = Some decimal_Zero /\ rsStatus s = Some "open"%string.
Proof. eexists. split; [reflexivity|]. done. Qed.

Lemma zero_column z : column decimal_Zero = Some z -> (dval z == 0)%Q.
Proof.
  intros Hz. destruct (numeric_in_out decimal_Zero) as (d & Hd & Hv).
  { exists 0%Z. split; [|lia]. rewrite dval_Zero. reflexivity. }
  unfold column in Hz. simplify_eq. by rewrite Hv, dval_Zero.
Qed.

Lemma decimal_Equal_refl d : decimal_Equal d d = true.
Proof. destruct (Equal_spec d d) as [|Hn]; [done|]. by contradict Hn. Qed.

Lemma replay_created e s r : is_created e = true -> snap_created e = Some r ->
  rsOrderID s = evOrderID e -> rsFilled s = Some decimal_Zero ->
  exists s', replay_event e s = inr s' /\ agree r s'.
Proof.
  intros Hc Hr Hid Hf. unfold snap_created, number_of in Hr. simplify_option_eq.
  unfold replay_event. unfold is_created in Hc. rewrite Hc.
  repeat match goal with Hj : json_text _ _ = Some _ |- _ => rewrite Hj; clear Hj end. unfold cast_numeric.
  repeat match goal with Hj : numeric_in _ = Some _ |- _ => rewrite Hj; clear Hj end.
  eexists. split; [done|]. repeat split; try done. eexists. split; [exact Hf|]. cbn [snFilled].
  case_decimal; [done|]. by rewrite zero_column, dval_Zero in * by done.
Qed.

Lemma replay_other e s r r' : is_created e = false -> snap_apply (Some r) e = Some r' -> agree r s ->
  exists s', replay_event e s = inr s' /\ agree r' s'.
Proof.
  intros Hc Hr Ha. unfold snap_apply in Hr. rewrite Hc in Hr. cbn [mbind option_bind] in Hr.
  unfold replay_event. unfold is_created in Hc. rewrite Hc.
  destruct Ha as (?&?&?&?&?&?&?&?&?&?&q&?&?).
  case_bool_decide as Hfill.
  - replace (_ || _) with true by (symmetry; apply orb_true_iff; rewrite !bool_decide_eq_true; set_solver).
    unfold snap_filled, number_of in Hr. simplify_option_eq.
    repeat match goal with Hj : json_text _ _ = Some _ |- _ => rewrite Hj; clear Hj end. unfold cast_numeric.
    eexists. split; [done|]. repeat split; try done. eexists. split; [done|]. apply decimal_Equal_refl.
  - rewrite !(bool_decide_eq_false_2 (evType e = OrderEventFilled)), !(bool_decide_eq_false_2 (evType e = OrderEventPartiallyFilled))
      by set_solver. cbn [orb].
    repeat case_bool_decide; simplify_eq; eexists; (split; [done|]); repeat split; eauto.
Qed.

Lemma replay_in_step l r s e rest :
  l = e :: rest -> is_created e = true -> Forall (fun e => is_created e = false) rest ->
  rsOrderID s = evOrderID e -> rsFilled s = Some decimal_Zero -> snap_spec l = Some r ->
  exists s', replay_loop l s = inr s' /\ agree r s'.
Proof.
  intros -> Hc Hrest Hid Hf. revert r. induction rest as [|e' rest IH] using rev_ind; intros r Hr.
  - unfold snap_spec in Hr. cbn [foldl] in Hr. unfold snap_apply in Hr. rewrite Hc in Hr. cbn [replay_loop].
    destruct (replay_created e s r Hc Hr Hid Hf) as (s' & -> & Ha). eauto.
  - apply Forall_app in Hrest as [Hrest He'%Forall_inv]. cbn beta in He'.
    rewrite app_comm_cons, snap_spec_snoc in Hr. rewrite app_comm_cons, replay_loop_snoc.
    destruct (snap_spec (e :: rest)) as [r0|] eqn:Hr0.
    + destruct (IH Hrest r0 eq_refl) as (s0 & -> & Ha0). by eapply replay_other.
    + unfold snap_apply in Hr. by rewrite He' in Hr.
Qed.

(** ** Theorems *)

Lemma snap_row_elem t r : LogWf t -> r ∈ etSnapshot t -> snap_row t (snOrderID r) = Some r.
Proof.
  intros Hwf Hr. destruct (snap_row t (snOrderID r)) as [r'|] eqn:Hrow.
  - apply snap_row_Some in Hrow as [Hr' Hid]. f_equal.
    apply list_elem_of_lookup in Hr as [i Hi], Hr' as [j Hj].
    assert (i = j) as ->; [|congruence]. eapply NoDup_lookup; [exact (wf_nodup t Hwf)|..]; rewrite list_lookup_fmap.
    + by rewrite Hi.
    + rewrite Hj. cbn. by rewrite Hid.
  - apply snap_row_None in Hrow. exfalso. by apply Hrow, list_elem_of_fmap_2.
Qed.

(** C27: the tables keep their types, whatever statements are sent and whatever the
    connection does to them: the events of an order are numbered 1, 2, ... in
    the order of recording, event numbers grow, every event has one of the six
    types, an order has at most one row, every row satisfies the constraints of
    the table, and its last event is one of the order's events. *)
Theorem event_tables_typed net qs :
  let t := tables_after net qs in
  (forall id, evSequence <$> events_of t id = seqZ 1 (Z.of_nat (length (events_of t id)))) /\
  StronglySorted Z.lt (evID <$> etEvents t) /\
  Forall (fun e => evType e ∈ event_types) (etEvents t) /\
  NoDup (snOrderID <$> etSnapshot t) /\
  Forall (fun r => snap_ok r = true /\ (1 <= snLastSequence r <= Z.of_nat (length (events_of t (snOrderID r))))%Z)
    (etSnapshot t).
Proof.
  cbn zeta. pose proof (tables_wf net qs) as Hwf. split_and!; try apply Hwf.
  apply Forall_forall. intros r Hr. split.
  - apply Is_true_true. pose proof (wf_ok _ Hwf) as Hok. rewrite Forall_forall in Hok. by apply Hok.
  - pose proof (snap_row_elem _ _ Hwf Hr) as Hrow. rewrite (wf_rows _ Hwf) in Hrow. apply snap_spec_last in Hrow.
    rewrite (wf_seq _ Hwf), elem_of_seqZ in Hrow. lia.
Qed.

(** C28: the snapshot is the fold of the log: the row [GetOrderFromSnapshot] reads is
    what the events recorded for the order make of it, and an order whose log
    makes no row is reported as not found. *)
Theorem snapshot_refines_log net qs id :
  let t := tables_after net qs in
  GetOrderFromSnapshot None t id =
    match snap_spec (events_of t id) with
    | Some r => inr (scan_snap r)
    | None => inl (ErrText ("order not found in snapshot: " +:+ uuid_String id))
    end.
Proof. cbn zeta. unfold GetOrderFromSnapshot. rewrite (wf_rows _ (tables_wf net qs)). by destruct (snap_spec _). Qed.

(** The replay loop, started in a record that is assigned, ends in the state
    the snapshot holds, for an order whose log starts with its creation and has
    no other; the consistency check finds no difference. *)
Theorem replay_agrees_with_snapshot net qs id e rest s0 s :
  let t := tables_after net qs in
  events_of t id = e :: rest -> is_created e = true -> Forall (fun e => is_created e = false) rest ->
  replay_init id (Assigned s0) = inr (Assigned s) ->
  exists r s', snap_row t id = Some r /\ replay_loop (ordered_events t id) s = inr s' /\ agree r s' /\ differs r s' = false.
Proof.
  cbn zeta. intros Hl Hc Hrest Hinit. pose proof (tables_wf net qs) as Hwf.
  destruct (replay_init_assigned id s0) as (s1 & Hs1 & Hid & Hf & _). rewrite Hinit in Hs1. injection Hs1 as <-.
  assert (e ∈ events_of (tables_after net qs) id) as [He He']%list_elem_of_filter by (rewrite Hl; left).
  destruct (wf_created _ Hwf e He' Hc) as [r Hr]. rewrite He in Hr.
  pose proof Hr as Hspec. rewrite (wf_rows _ Hwf) in Hspec.
  destruct (replay_in_step (events_of (tables_after net qs) id) r s e rest) as (s' & Hrun & Ha); try done.
  { by rewrite Hid, He. }
  exists r, s'. rewrite ordered_is_recorded by done. auto using agree_consistent.
Qed.

(** A creation that reaches the log after other events of its order starts from
    nothing: the row is open and nothing is filled, whatever was recorded. *)
Theorem late_creation_forgets net qs id l e :
  let t := tables_after net qs in
  events_of t id = (l ++ [e])%list -> Forall (fun e => is_created e = false) l -> is_created e = true ->
  exists r, snap_row t id = Some r /\ snStatus r = "open"%string /\ (dval (snFilled r) == 0)%Q.
Proof.
  cbn zeta. intros Hl Hall Hc. pose proof (tables_wf net qs) as Hwf.
  assert (e ∈ events_of (tables_after net qs) id) as [He He']%list_elem_of_filter by (rewrite Hl; apply elem_of_app; right; left).
  destruct (wf_created _ Hwf e He' Hc) as [r Hr]. rewrite He in Hr. exists r. split; [done|].
  rewrite (wf_rows _ Hwf), Hl, snap_spec_snoc, snap_spec_none in Hr by done. unfold snap_apply in Hr. rewrite Hc in Hr.
  unfold snap_created in Hr. simplify_option_eq. split; [done|]. by apply zero_column.
Qed.


(** ** The history *)

Definition shows (e : EventRow) (ev : OrderEvent) : Prop :=
  oeEventID ev = evID e /\ oeEventType ev = evType e /\ oeEventTimestamp ev = evTimestamp e /\
  oeSequenceNumber ev = evSequence e /\ oeTriggeredBy ev = evTriggeredBy e /\ json_equiv (evData e) (JObj (oeEventData ev)).

Lemma scan_event_shows e : nul_free (evData e) = true -> numbers_ok (evData e) = true -> (exists m, evData e = JObj m) ->
  exists ev, scan_event e = inr ev /\ shows e ev.
Proof.
  intros Hnul Hnum [m Hm]. unfold scan_event, into_map, jsonb_text.
  destruct (jsonb_in_valid (json_Marshal (evData e)) (evData e)) as (t' & j' & Ht & Hj & Heq);
    [by apply json_Unmarshal_Marshal|done|].
  rewrite Ht. change (default EmptyString (Some t')) with t'. rewrite Hj. pose proof Heq as Hobj. rewrite Hm in Hobj.
  apply json_equiv_obj in Hobj as [m' ->]. eexists. split; [done|]. by repeat split.
Qed.

Lemma scan_events_shows l acc : Forall (fun e => exists ev, scan_event e = inr ev /\ shows e ev) l ->
  exists evs, scan_events l acc = inr (acc ++ evs)%list /\ Forall2 shows l evs.
Proof.
  intros Hl. revert acc. induction Hl as [|e l (ev & Hev & Hs) Hl IH]; intros acc; cbn [scan_events].
  - exists []. rewrite app_nil_r. split; [done|constructor].
  - rewrite Hev. destruct (IH (acc ++ [ev])%list) as (evs & -> & Hall). exists (ev :: evs).
    rewrite <- app_assoc. split; [done|by constructor].
Qed.

(** C30: the history of an order is its log: every event once, in the order of
    recording, with the data that was recorded up to the form JSONB gives it;
    an iteration that breaks off is an error. *)
Theorem history_is_the_log net qs id :
  let t := tables_after net qs in
  (exists evs, GetOrderHistory None None t id = inr evs /\ Forall2 shows (events_of t id) evs) /\
  (forall n err, GetOrderHistory None (Some (n, err)) t id = inl (ErrWrap "error iterating events" err)).
Proof.
  cbn zeta. pose proof (tables_wf net qs) as Hwf.
  assert (Forall (fun e => exists ev, scan_event e = inr ev /\ shows e ev) (events_of (tables_after net qs) id)) as Hall.
  { apply Forall_forall. intros e [_ He]%list_elem_of_filter. pose proof (wf_data _ Hwf) as Hd. rewrite Forall_forall in Hd.
    destruct (Hd e He) as (? & ? & ?). by apply scan_event_shows. }
  unfold GetOrderHistory, get_order_history. rewrite ordered_is_recorded by done. split.
  - cbn [received]. destruct (scan_events_shows _ [] Hall) as (evs & -> & Hs). by exists evs.
  - intros n err. cbn [received]. apply (Forall_take _ n) in Hall.
    by destruct (scan_events_shows _ [] Hall) as (evs & -> & _).
Qed.

(** ** The retry queue on this database *)













End theorems.

(** ** Instances *)

Module EventInstances.
Import Concrete ConcretePg.

#[export] Instance q_pg_arg : PgArg := {| numeric_arg := Q_of_string |}.
#[export] Instance q_pg_arg_spec : PgArgSpec.
Proof.
  split.
  - apply Q_of_String.
  - intros d Hd. cbn. destruct (Q_of_String d) as (q & -> & Hq). cbn. by apply numeric_of_fits.
Qed.

Definition id1 : @uuid string_uuid := "o1"%string.
Definition create1 : Statement := StCreated id1 "alice" "BTC-USD" "buy" "limit" (100 : Q) (5 : Q) 1.
Definition fill1 : Statement := StFill id1 (2 : Q) (2 : Q) "partially_filled" (Some "t1"%string) 2.
Definition cancel1 : Statement := StCancelled id1 None 3.

Definition all_ok (n : nat) : Net := NetOk.
(** The first statement does not reach the server. *)
Definition first_lost (n : nat) : Net := if bool_decide (n = 0) then NetBefore "connection refused" else NetOk.
(** The answer to the first statement does not come back. *)
Definition answer_lost (n : nat) : Net := if bool_decide (n = 0) then NetAfter "connection reset" else NetOk.

Definition log1 : EventTables := tables_after all_ok [create1; fill1; cancel1].
Definition empty_replay : ReplayState := mkReplayState id1 None None None None None None None None None None.
Definition init1 : ReplayState :=
  mkReplayState id1 None None None None None None (Some 0%Q) (Some "open"%string) None None.

Lemma replay_agrees_with_snapshot_witness :
  exists r s', snap_row log1 id1 = Some r /\ replay_loop (ordered_events log1 id1) init1 = inr s' /\ agree r s' /\
    differs r s' = false.
Proof.
  apply (replay_agrees_with_snapshot all_ok [create1; fill1; cancel1] id1
           (hd (mkEventRow 0 id1 "" JNull 0 0 "") (events_of log1 id1)) (tl (events_of log1 id1)) empty_replay init1).
  - vm_compute. reflexivity.
  - vm_compute. reflexivity.
  - vm_compute. repeat constructor.
  - reflexivity.
Defined.

(** The creation is retried after the fill. *)
Definition log2 : EventTables := tables_after first_lost [create1; fill1; create1].

Lemma late_creation_forgets_witness :
  exists r, snap_row log2 id1 = Some r /\ snStatus r = "open"%string /\ (dval (snFilled r) == 0)%Q.
Proof.
  apply (late_creation_forgets first_lost [create1; fill1; create1] id1 (take 1 (events_of log2 id1))
           (List.last (events_of log2 id1) (mkEventRow 0 id1 "" JNull 0 0 ""))).
  - vm_compute. reflexivity.
  - vm_compute. repeat constructor.
  - vm_compute. reflexivity.
Defined.

(** A write whose answer is lost is written again by the retry. *)
Example lost_answer_records_twice :
  length (events_of (tables_after answer_lost [cancel1; cancel1]) id1) = 2.
Proof. vm_compute. reflexivity. Qed.

(** The cancellation that failed on the connection is queued, taken and written. *)
Definition q0 : EventRetryQueue := NewEventRetryQueue (mkOrderEventStore [create1; fill1]) 4 3.
Definition q1 : EventRetryQueue := rq_Start q0.


Lemma history_is_the_log_witness :
  (exists evs, GetOrderHistory None None log1 id1 = inr evs /\ Forall2 shows (events_of log1 id1) evs) /\
  (forall n err, GetOrderHistory None (Some (n, err)) log1 id1 = inl (ErrWrap "error iterating events" err)).
Proof. apply (history_is_the_log all_ok [create1; fill1; cancel1] id1). Defined.

(** Three events, the snapshot and what the store reports. *)
Example log1_history :
  match GetOrderHistory None None log1 id1 with
  | inr evs => oeEventType <$> evs = [OrderEventCreated; OrderEventPartiallyFilled; OrderEventCancelled] /\
               oeSequenceNumber <$> evs = [1; 2; 3]%Z
  | inl _ => False
  end.
Proof. vm_compute. split; reflexivity. Qed.
End EventInstances.
