(* ===== verification/Redis.v ===== *)
(** * The Redis server and the cache client (src/cache/redis.go)

    The server and the go-redis client in front of it are not part of the
    program: they are the parameter [RedisServer], with the documented meaning
    of the commands ([redis_run], on the keys that are alive) and of SCAN as
    the laws of [RedisServerSpec].  A command may fail at any time; then it has
    had its effect or not.  Times and durations are in nanoseconds; a call of
    the program happens at one time of the server. *)

From Stdlib Require Import Ascii String.
From S2P Require Import Prelude.
From S2P Require Import Web.
From S2P Require Import Json.
From S2P Require Import Text.
From S2P Require Import External.
From S2P Require Import Sql.

Local Open Scope string_scope.

(** ** Keys and values *)

Record Entry := mkEntry { enValue : string; enExpiry : option Z }.

Definition live (now : Z) (e : Entry) : Prop := forall t, enExpiry e = Some t -> (now < t)%Z.
#[global] Instance live_dec now e : Decision (live now e).
Proof.
  refine (match enExpiry e as o return enExpiry e = o -> Decision (live now e) with
          | None => fun Ho => left _
          | Some t => fun Ho => cast_if (decide (now < t)%Z)
          end eq_refl); unfold live; rewrite Ho; naive_solver.
Defined.

Notation database := (gmap string Entry).

(** What is left at a later time. *)
Definition alive (now : Z) (m : database) : database := filter (fun kv => live now kv.2) m.

(** ** Commands, as the client sends them *)

Inductive Cmd :=
  | CPing
  | CGet (key : string)
  | CSetCmd (key value : string) (ttl : Z)
  | CDel (keys : list string)
  | CExists (key : string)
  | CTTL (key : string)
  | CExpire (key : string) (ttl : Z)
  | CIncrBy (key : string) (delta : Z)
  | CSetNX (key value : string) (ttl : Z)
  | CMGet (keys : list string)
  | CMSet (pairs : list (string * string))
  | CFlushDB.

Inductive Reply :=
  | RNil
  | ROk
  | RText (s : string)
  | RInt (n : Z)
  | RTexts (l : list (option string)).

Definition millisecond : Z := 1000000.
Definition second : Z := 1000000000.

(** The precision of PX, with a millisecond as the least. *)
Definition px (ttl : Z) : Z := Z.max millisecond (ttl / millisecond * millisecond).
(** A time to live of zero is none. *)
Definition expiry_of (now ttl : Z) : option Z := if (0 <? ttl)%Z then Some (now + px ttl)%Z else None.
(** EXPIRE counts seconds, with one as the least for a positive duration. *)
Definition ex (ttl : Z) : Z := if ((0 <? ttl) && (ttl <? second))%Z then second else Z.quot ttl second * second.

(** TTL in seconds, rounded; -1 without an expiry. *)
Definition ttl_of (now : Z) (e : Entry) : Z :=
  match enExpiry e with
  | None => -1
  | Some t => ((t - now) / millisecond + 500) / 1000 * second
  end.

Definition wrong_arity : string := "ERR wrong number of arguments".

(** The documented effect of a command on the living keys. *)
Definition redis_run (now : Z) (c : Cmd) (m : database) : (string + Reply) * database :=
  match c with
  | CPing => (inr (RText "PONG"), m)
  | CGet k => (inr (match m !! k with Some e => RText (enValue e) | None => RNil end), m)
  | CSetCmd k v ttl =>
      (inr ROk, <[k := mkEntry v (if (ttl =? -1)%Z then m !! k ≫= enExpiry else expiry_of now ttl)]> m)
  | CDel [] => (inl wrong_arity, m)
  | CDel ks =>
      (inr (RInt (Z.of_nat (size (dom m ∩ list_to_set ks)))), filter (fun kv => kv.1 ∉ ks) m)
  | CExists k => (inr (RInt (if bool_decide (is_Some (m !! k)) then 1 else 0)), m)
  | CTTL k => (inr (RInt (match m !! k with Some e => ttl_of now e | None => -2 end)), m)
  | CExpire k ttl =>
      match m !! k with
      | None => (inr (RInt 0), m)
      | Some e =>
          (inr (RInt 1), if (0 <? ex ttl)%Z then <[k := mkEntry (enValue e) (Some (now + ex ttl)%Z)]> m else delete k m)
      end
  | CIncrBy k delta =>
      match (match m !! k with Some e => Atoi (enValue e) | None => Some 0%Z end) with
      | None => (inl "ERR value is not an integer or out of range", m)
      | Some v =>
          let v' := (v + delta)%Z in
          if ((- 2 ^ 63 <=? v') && (v' <? 2 ^ 63))%Z then
            (inr (RInt v'), <[k := mkEntry (Itoa v') (m !! k ≫= enExpiry)]> m)
          else (inl "ERR increment or decrement would overflow", m)
      end
  | CSetNX k v ttl =>
      match m !! k with
      | Some _ => (inr (RInt 0), m)
      | None =>
          if (ttl <? -1)%Z then (inl "ERR invalid expire time", m)
          else (inr (RInt 1), <[k := mkEntry v (expiry_of now ttl)]> m)
      end
  | CMGet [] => (inl wrong_arity, m)
  | CMGet ks => (inr (RTexts ((fun k => enValue <$> m !! k) <$> ks)), m)
  | CMSet [] => (inl wrong_arity, m)
  | CMSet kvs => (inr ROk, foldl (fun m kv => <[kv.1 := mkEntry kv.2 None]> m) m kvs)
  | CFlushDB => (inr ROk, ∅)
  end.

(** Patterns without a special character match themselves; a star at the end
    matches the rest. *)
Fixpoint glob_plain (s : string) : bool :=
  match s with
  | "" => true
  | String c s' =>
      negb (existsb (Z.eqb (code c)) [42; 63; 91; 93; 92]%Z) && glob_plain s'
  end.

(** ** The server *)

Class RedisServer := {
  rdb : Type;
  redis_exec : Z -> Cmd -> rdb -> (error + Reply) * rdb;
  redis_scan : Z -> Z -> string -> rdb -> (error + (list string * Z)) * rdb;
  glob_match : string -> string -> bool;
}.

(** A page of a full iteration: the cursor it is asked for with, its keys. *)
Fixpoint pages_link (pages : list (Z * list string)) : list (Z * list string * Z) :=
  match pages with
  | [] => []
  | [(c, ks)] => [(c, ks, 0%Z)]
  | (c, ks) :: ((c', _) :: _) as rest => (c, ks, c') :: pages_link rest
  end.

Class RedisServerSpec `{RedisServer} := {
  rview : rdb -> Z -> database;
  rview_later db now now' : (now <= now')%Z -> rview db now' = alive now' (rview db now);
  exec_ok now c db r db' : redis_exec now c db = (inr r, db') ->
    redis_run now c (rview db now) = (inr r, rview db' now);
  exec_failed now c db e db' : redis_exec now c db = (inl e, db') ->
    rview db' now = rview db now \/ rview db' now = (redis_run now c (rview db now)).2;
  scan_keeps now cursor pattern db r db' : redis_scan now cursor pattern db = (r, db') ->
    rview db' now = rview db now;
  (** "A full iteration always retrieves all the elements that were present in
      the collection from the start to the end of a full iteration." *)
  scan_iteration m now pattern :
    exists pages : list (Z * list string),
      fst <$> head pages = Some 0%Z /\
      Forall (fun p => p.1 <> 0%Z) (tail pages) /\
      (forall k, k ∈ pages ≫= snd <-> k ∈ dom m /\ glob_match pattern k = true) /\
      (forall c ks c' db r db', (c, ks, c') ∈ pages_link pages -> rview db now = m ->
         redis_scan now c pattern db = (inr r, db') -> r = (ks, c'));
  glob_prefix p k : glob_plain p = true -> glob_match (p ++ "*") k = String.prefix p k;
}.

(** ** Values the program stores *)

(** [encoding/base64], which json.Marshal uses for bytes. *)
Definition base64_digit (n : Z) : ascii :=
  byte (if (n <? 26) then 65 + n else if (n <? 52) then 71 + n else if (n <? 62) then n - 4
        else if (n =? 62) then 43 else 47)%Z.
Fixpoint base64 (s : string) : string :=
  match s with
  | String a (String b (String c s')) =>
      let n := (code a * 65536 + code b * 256 + code c)%Z in
      String (base64_digit (n / 262144)) (String (base64_digit (n / 4096 mod 64))
        (String (base64_digit (n / 64 mod 64)) (String (base64_digit (n mod 64)) (base64 s'))))
  | String a (String b "") =>
      let n := (code a * 65536 + code b * 256)%Z in
      String (base64_digit (n / 262144)) (String (base64_digit (n / 4096 mod 64))
        (String (base64_digit (n / 64 mod 64)) "="))
  | String a "" =>
      let n := (code a * 65536)%Z in
      String (base64_digit (n / 262144)) (String (base64_digit (n / 4096 mod 64)) "==")
  | "" => ""
  end.

(** A value of type [interface{}]: a string, bytes, or anything else with the
    document [json.Marshal] makes of it, which may fail. *)
Inductive any :=
  | AString (s : string)
  | ABytes (s : string)
  | AOther (j : error + json).

Definition any_Marshal (v : any) : result string :=
  match v with
  | AString s => inr (json_Marshal (JStr s))
  | ABytes s => inr (json_Marshal (JStr (base64 s)))
  | AOther (inl err) => inl err
  | AOther (inr j) => inr (json_Marshal j)
  end.

(** ** RedisCache

    The record holds the client only, so the methods pass the server. *)

Record RedisCacheConfig := mkRedisCacheConfig {
  cfgHost : string; cfgPort : Z; cfgPassword : string; cfgDB : Z; cfgPoolSize : Z;
}.

Definition DefaultRedisCacheConfig : RedisCacheConfig := mkRedisCacheConfig "localhost" 6379 "" 0 10.

(** [redis.Options], as far as the configuration reaches it. *)
Record Options := mkOptions { optAddr : string; optPassword : string; optDB : Z; optPoolSize : Z }.

Section cache.
Context `{RedisServer}.

(** The call of the client with its error wrapped. *)
Definition command (now : Z) (c : Cmd) (what : string) (db : rdb) : result Reply * rdb :=
  match redis_exec now c db with
  | (inl err, db1) => (inl (ErrWrap what err), db1)
  | (inr r, db1) => (inr r, db1)
  end.

(** The same where only the error is looked at. *)
Definition command_ (now : Z) (c : Cmd) (what : string) (db : rdb) : option error * rdb :=
  match command now c what db with
  | (inl err, db1) => (Some err, db1)
  | (inr _, db1) => (None, db1)
  end.

(** [connect] is [redis.NewClient], the server it gives access to. *)
Definition NewRedisCache (connect : Options -> rdb) (now : Z) (config : option RedisCacheConfig)
    : option error * rdb :=
  let config := default DefaultRedisCacheConfig config in
  let client := connect (mkOptions (cfgHost config ++ ":" ++ Itoa (cfgPort config)) (cfgPassword config)
                           (cfgDB config) (cfgPoolSize config)) in
  command_ now CPing "failed to connect to Redis" client.

Definition rc_Get (now : Z) (key : string) (db : rdb) : result string * rdb :=
  match redis_exec now (CGet key) db with
  | (inl err, db1) => (inl (ErrWrap ("failed to get key " ++ key) err), db1)
  | (inr (RText val), db1) => (inr val, db1)
  | (inr _, db1) => (inl (ErrText ("key not found: " ++ key)), db1)
  end.

Definition rc_Set (now : Z) (key : string) (value : any) (ttl : Z) (db : rdb) : option error * rdb :=
  match (match value with AString v => inr v | ABytes v => inr v | _ => any_Marshal value end) with
  | inl err => (Some (ErrWrap "failed to marshal value" err), db)
  | inr data => command_ now (CSetCmd key data ttl) ("failed to set key " ++ key) db
  end.

(** [decode] is what [json.Unmarshal] does with a document for the type of
    [dest]; [None] is its error. *)
Definition rc_GetJSON {A} (decode : json -> option A) (now : Z) (key : string) (db : rdb) : result A * rdb :=
  match rc_Get now key db with
  | (inl err, db1) => (inl err, db1)
  | (inr val, db1) =>
      match json_Unmarshal val ≫= decode with
      | None => (inl (ErrWrap ("failed to unmarshal JSON for key " ++ key) (ErrText "json: cannot unmarshal")), db1)
      | Some dest => (inr dest, db1)
      end
  end.

Definition rc_SetJSON (now : Z) (key : string) (value : any) (ttl : Z) (db : rdb) : option error * rdb :=
  match any_Marshal value with
  | inl err => (Some (ErrWrap "failed to marshal JSON" err), db)
  | inr jsonData => rc_Set now key (ABytes jsonData) ttl db
  end.

Definition rc_Delete (now : Z) (key : string) (db : rdb) : option error * rdb :=
  command_ now (CDel [key]) ("failed to delete key " ++ key) db.

(** The loop of [DeletePattern]; [None] when the fuel runs out. *)
Fixpoint scan_loop (fuel : nat) (now cursor : Z) (pattern : string) (keys : list string) (db : rdb)
    : option (result (list string) * rdb) :=
  match fuel with
  | 0 => None
  | S fuel' =>
      match redis_scan now cursor pattern db with
      | (inl err, db1) => Some (inl (ErrWrap ("failed to scan keys with pattern " ++ pattern) err), db1)
      | (inr (scanKeys, cursor'), db1) =>
          let keys' := (keys ++ scanKeys)%list in
          if (cursor' =? 0)%Z then Some (inr keys', db1) else scan_loop fuel' now cursor' pattern keys' db1
      end
  end.

Definition rc_DeletePattern (fuel : nat) (now : Z) (pattern : string) (db : rdb) : option (option error * rdb) :=
  '(r, db1) ← scan_loop fuel now 0 pattern [] db;
  Some (match r with
        | inl err => (Some err, db1)
        | inr [] => (None, db1)
        | inr keys => command_ now (CDel keys) "failed to delete keys" db1
        end).

Definition reply_int (r : Reply) : Z := match r with RInt n => n | _ => 0 end.

Definition rc_Exists (now : Z) (key : string) (db : rdb) : result bool * rdb :=
  match command now (CExists key) "failed to check key existence" db with
  | (inl err, db1) => (inl err, db1)
  | (inr count, db1) => (inr (0 <? reply_int count)%Z, db1)
  end.

Definition rc_GetTTL (now : Z) (key : string) (db : rdb) : result Z * rdb :=
  match command now (CTTL key) ("failed to get TTL for key " ++ key) db with
  | (inl err, db1) => (inl err, db1)
  | (inr ttl, db1) => (inr (reply_int ttl), db1)
  end.

Definition rc_Expire (now : Z) (key : string) (ttl : Z) (db : rdb) : option error * rdb :=
  command_ now (CExpire key ttl) ("failed to set expiry for key " ++ key) db.

Definition rc_Increment (now : Z) (key : string) (db : rdb) : result Z * rdb :=
  match command now (CIncrBy key 1) ("failed to increment key " ++ key) db with
  | (inl err, db1) => (inl err, db1)
  | (inr val, db1) => (inr (reply_int val), db1)
  end.

Definition rc_IncrementBy (now : Z) (key : string) (delta : Z) (db : rdb) : result Z * rdb :=
  match command now (CIncrBy key delta) ("failed to increment key " ++ key ++ " by " ++ Itoa delta) db with
  | (inl err, db1) => (inl err, db1)
  | (inr val, db1) => (inr (reply_int val), db1)
  end.

Definition rc_SetNX (now : Z) (key : string) (value : any) (ttl : Z) (db : rdb) : result bool * rdb :=
  match (match value with AString v => inr v | _ => any_Marshal value end) with
  | inl err => (inl (ErrWrap "failed to marshal value" err), db)
  | inr data =>
      match command now (CSetNX key data ttl) ("failed to setnx key " ++ key) db with
      | (inl err, db1) => (inl err, db1)
      | (inr ok, db1) => (inr (0 <? reply_int ok)%Z, db1)
      end
  end.

Definition rc_MGet (now : Z) (keys : list string) (db : rdb) : result (list (option string)) * rdb :=
  match command now (CMGet keys) "failed to mget keys" db with
  | (inl err, db1) => (inl err, db1)
  | (inr (RTexts vals), db1) => (inr vals, db1)
  | (inr _, db1) => (inr [], db1)
  end.

(** [pairs] is the map in the order the range visits it. *)
Fixpoint mset_pairs (pairs : list (string * any)) : result (list (string * string)) :=
  match pairs with
  | [] => inr []
  | (k, v) :: rest =>
      match (match v with AString s => inr s | _ => any_Marshal v end) with
      | inl err => inl (ErrWrap ("failed to marshal value for key " ++ k) err)
      | inr data =>
          match mset_pairs rest with
          | inl err => inl err
          | inr kvs => inr ((k, data) :: kvs)
          end
      end
  end.

Definition rc_MSet (now : Z) (pairs : list (string * any)) (db : rdb) : option error * rdb :=
  match mset_pairs pairs with
  | inl err => (Some err, db)
  | inr kvPairs => command_ now (CMSet kvPairs) "failed to mset keys" db
  end.

Definition rc_FlushDB (now : Z) (db : rdb) : option error * rdb :=
  command_ now CFlushDB "failed to flush database" db.

Definition rc_Ping (now : Z) (db : rdb) : option error * rdb :=
  match redis_exec now CPing db with
  | (inl err, db1) => (Some err, db1)
  | (inr _, db1) => (None, db1)
  end.
End cache.

(** ** KeyBuilder *)

Record KeyBuilder := mkKeyBuilder { kbPrefix : string }.
Definition NewKeyBuilder (prefix : string) : KeyBuilder := mkKeyBuilder prefix.

(** The two branches the methods share. *)
Definition prefixed (kb : KeyBuilder) (key : string) : string :=
  if bool_decide (kbPrefix kb = "") then key else kbPrefix kb ++ ":" ++ key.

Definition OrderbookKey (kb : KeyBuilder) (symbol : string) : string := prefixed kb ("orderbook:" ++ symbol).
Definition OrderbookTopKey (kb : KeyBuilder) (symbol : string) : string := prefixed kb ("orderbook:top:" ++ symbol).
Definition TradesKey (kb : KeyBuilder) (symbol : string) (limit : Z) : string :=
  prefixed kb ("trades:" ++ symbol ++ ":" ++ Itoa limit).
Definition TradesLatestKey (kb : KeyBuilder) (symbol : string) : string :=
  prefixed kb ("trades:" ++ symbol ++ ":latest").
Definition OrderKey (kb : KeyBuilder) (orderID : string) : string := prefixed kb ("order:" ++ orderID).
Definition StatsKey (kb : KeyBuilder) (symbol metric : string) : string :=
  prefixed kb ("stats:" ++ symbol ++ ":" ++ metric).
Definition LockKey (kb : KeyBuilder) (resource : string) : string := prefixed kb ("lock:" ++ resource).
Definition PubSubChannel (kb : KeyBuilder) (topic : string) : string := prefixed kb ("channel:" ++ topic).
