(* ===== verification/RedisFacts.v ===== *)
(** * Facts about the Redis cache client

    What each call of the client does to the living keys, success and failure;
    deleting by pattern; the keys of different kinds and symbols; and a server
    that satisfies the laws, with a script of the commands that fail. *)

From Stdlib Require Import Ascii String.
From S2P Require Import Prelude.
From S2P Require Import Web.
From S2P Require Import Json.
From S2P Require Import Text.
From S2P Require Import External.
From S2P Require Import Sql.
From S2P Require Import Redis.

Local Open Scope string_scope.

(** ** Living keys *)

Lemma alive_lookup now m k e : alive now m !! k = Some e <-> m !! k = Some e /\ live now e.
Proof. unfold alive. by rewrite map_lookup_filter_Some. Qed.

Lemma alive_self now m : (forall k e, m !! k = Some e -> live now e) -> alive now m = m.
Proof. intros Hm. apply map_filter_id. intros k e Hk. by eapply Hm. Qed.

Lemma alive_later now now' m : (now <= now')%Z -> alive now' (alive now m) = alive now' m.
Proof.
  intros Hle. apply map_eq. intros k. apply option_eq. intros e. rewrite !alive_lookup.
  split; [naive_solver|]. intros [Hk Hl]. split_and!; try done. intros t Ht. specialize (Hl t Ht). lia.
Qed.

Lemma expiry_live now ttl v : live now (mkEntry v (expiry_of now ttl)).
Proof.
  intros t. cbn. unfold expiry_of, px. destruct (Z.ltb_spec 0 ttl) as [Hp|Hp]; [|done]. intros Heq. simplify_eq.
  assert (0 < millisecond)%Z by done. lia.
Qed.

Section facts.
Context `{RedisServerSpec}.
Implicit Types (db : rdb) (now : Z).

(** ** Single commands *)

(** A command that only reads leaves the keys as they are, even when it fails. *)
Lemma read_keeps now c db r db' :
  (forall m, (redis_run now c m).2 = m) -> redis_exec now c db = (r, db') -> rview db' now = rview db now.
Proof.
  intros Hr He. destruct r as [err|r].
  - destruct (exec_failed _ _ _ _ _ He) as [?|Hd]; [done|by rewrite Hr in Hd].
  - pose proof (exec_ok _ _ _ _ _ He) as Hrun. by rewrite <- (Hr (rview db now)), Hrun.
Qed.

Lemma command_cases now c what db r db' : command_ now c what db = (r, db') ->
  (r = None /\ exists rep, redis_run now c (rview db now) = (inr rep, rview db' now)) \/
  ((exists e, r = Some (ErrWrap what e)) /\
   (rview db' now = rview db now \/ rview db' now = (redis_run now c (rview db now)).2)).
Proof.
  unfold command_, command. destruct (redis_exec now c db) as [[err|rep] db1] eqn:He; intros; simplify_eq.
  - right. split; [by eexists|]. by eapply exec_failed.
  - left. split; [done|]. exists rep. by apply exec_ok.
Qed.

(** GET: the value of a living key, or one of two errors. *)
Lemma rc_Get_cases now k db r db' : rc_Get now k db = (r, db') ->
  rview db' now = rview db now /\
  ((exists e, r = inl (ErrWrap ("failed to get key " ++ k) e)) \/
   r = match rview db now !! k with
       | Some e => inr (enValue e)
       | None => inl (ErrText ("key not found: " ++ k))
       end).
Proof.
  unfold rc_Get. destruct (redis_exec now (CGet k) db) as [[err|rep] db1] eqn:He; intros Heq.
  - simplify_eq. split; [|left; by eexists]. by eapply (read_keeps now (CGet k)).
  - pose proof (exec_ok _ _ _ _ _ He) as Hrun. cbn in Hrun. injection Hrun as Hrep Hview.
    split; [by destruct rep; simplify_eq|]. right. destruct (rview db now !! k) as [e|]; subst rep; by simplify_eq.
Qed.

(** The answer of GetJSON on a key that is alive. *)
Lemma rc_GetJSON_cases {A} (decode : json -> option A) now k db r db' : rc_GetJSON decode now k db = (r, db') ->
  rview db' now = rview db now /\
  ((exists e, r = inl (ErrWrap ("failed to get key " ++ k) e)) \/
   match rview db now !! k with
   | Some e => match json_Unmarshal (enValue e) ≫= decode with
               | Some x => r = inr x
               | None => exists err, r = inl err
               end
   | None => r = inl (ErrText ("key not found: " ++ k))
   end).
Proof.
  unfold rc_GetJSON. destruct (rc_Get now k db) as [rg db1] eqn:Hg.
  destruct (rc_Get_cases _ _ _ _ _ Hg) as [Hv [[e ->]|Hr]]; intros Heq.
  - simplify_eq. split; [done|]. left. by eexists.
  - destruct (rview db now !! k) as [e|]; subst rg; [|simplify_eq; split; [done|by right]].
    destruct (json_Unmarshal (enValue e) ≫= decode) as [x|]; simplify_eq; (split; [done|right]); by eexists || done.
Qed.

Lemma rc_SetJSON_view now k j ttl db db' : rc_SetJSON now k (AOther (inr j)) ttl db = (None, db') -> ttl <> (-1)%Z ->
  rview db' now = <[k := mkEntry (json_Marshal j) (expiry_of now ttl)]> (rview db now).
Proof.
  intros Hs Hne. cbn in Hs. apply command_cases in Hs as [[_ [rep Hrun]]|[[e ?] _]]; [|done].
  cbn in Hrun. assert ((ttl =? -1)%Z = false) as Hb by lia. rewrite Hb in Hrun. by simplify_eq.
Qed.

(** A SET, acknowledged or not, concerns its own key. *)
Lemma rc_SetJSON_other now k v ttl db r db' k' : rc_SetJSON now k v ttl db = (r, db') -> k' <> k ->
  rview db' now !! k' = rview db now !! k'.
Proof.
  unfold rc_SetJSON. destruct (any_Marshal v) as [err|data]; [intros; by simplify_eq|]. cbn.
  intros Hs Hne. apply command_cases in Hs as [[_ [rep Hrun]]|[_ [->| ->]]]; cbn in *; simplify_eq; [| done |].
  - by rewrite <- H2, lookup_insert_ne.
  - by rewrite lookup_insert_ne.
Qed.

Lemma filter_not_one k (m : database) : filter (fun kv => kv.1 ∉ [k]) m = delete k m.
Proof.
  apply map_eq. intros k'. apply option_eq. intros e. rewrite map_lookup_filter_Some, lookup_delete_Some.
  cbn. rewrite list_elem_of_singleton. naive_solver.
Qed.

Lemma rc_Delete_cases now k db r db' : rc_Delete now k db = (r, db') ->
  (r = None /\ rview db' now = delete k (rview db now)) \/
  (r <> None /\ (rview db' now = rview db now \/ rview db' now = delete k (rview db now))).
Proof.
  intros Hd. apply command_cases in Hd as [[-> [rep Hrun]]|[[e ->] Hv]]; cbn in *.
  - left. split; [done|]. rewrite <- filter_not_one. by simplify_eq.
  - right. split; [done|]. by rewrite <- filter_not_one.
Qed.

(** ** Deleting by pattern *)

(** The loop reads the pages that are left, or stops at an error. *)
Lemma scan_loop_pages now pattern m pages done_ fuel db :
  (forall c ks c' db r db', (c, ks, c') ∈ pages_link pages -> rview db now = m ->
     redis_scan now c pattern db = (inr r, db') -> r = (ks, c')) ->
  Forall (fun p => p.1 <> 0%Z) (tail pages) -> pages <> [] -> length pages <= fuel -> rview db now = m ->
  exists r db', scan_loop fuel now (default 0%Z (fst <$> head pages)) pattern done_ db = Some (r, db') /\
    rview db' now = m /\ ((exists e, r = inl e) \/ r = inr (done_ ++ (pages ≫= snd))%list).
Proof.
  revert done_ fuel db. induction pages as [|[c ks] pages IH]; intros done_ fuel db Hscan Hne Hnil Hf Hm; [done|].
  destruct fuel as [|fuel]; [cbn in Hf; lia|]. change (default 0%Z (fst <$> head ((c, ks) :: pages))) with c. cbn [scan_loop].
  destruct (redis_scan now c pattern db) as [[err|r] db1] eqn:Hs.
  { eexists _, _. split; [done|]. split; [by rewrite (scan_keeps _ _ _ _ _ _ Hs)|]. left. by eexists. }
  assert (rview db1 now = m) as Hm1 by (by rewrite (scan_keeps _ _ _ _ _ _ Hs)).
  destruct pages as [|[c2 ks2] pages].
  - assert (r = (ks, 0%Z)) as -> by (apply (Hscan c ks 0%Z db r db1); [constructor|done..]).
    cbn. eexists _, _. split; [done|]. split; [done|]. right. by rewrite app_nil_r.
  - assert (r = (ks, c2)) as -> by (apply (Hscan c ks c2 db r db1); [by constructor|done..]).
    cbn [tail] in Hne. pose proof (Forall_cons_1 _ _ _ Hne) as [Hc2 Hne2]. cbn in Hc2.
    destruct (Z.eqb_spec c2 0) as [?|_]; [done|].
    edestruct (IH (done_ ++ ks)%list fuel db1) as (r & db' & Hl & Hv & Hr); try done.
    + intros ? ? ? ? ? ? Hin. apply Hscan. by constructor.
    + cbn in *. lia.
    + exists r, db'. split; [exact Hl|]. split; [done|]. destruct Hr as [?| ->]; [by left|]. right. cbn.
      by rewrite <- app_assoc.
Qed.

Definition unmatched pattern (m : database) : database := filter (fun kv => glob_match pattern kv.1 = false) m.

Lemma filter_not_pages pattern (m : database) (keys : list string) :
  (forall k, k ∈ keys <-> k ∈ dom m /\ glob_match pattern k = true) ->
  filter (fun kv => kv.1 ∉ keys) m = unmatched pattern m.
Proof.
  intros Hk. apply map_eq. intros k. apply option_eq. intros e. unfold unmatched. rewrite !map_lookup_filter_Some. cbn.
  rewrite Hk, elem_of_dom. destruct (glob_match pattern k); naive_solver.
Qed.

(** Deleting by pattern ends, and removes all matching keys and no others, or
    reports an error. *)
Lemma DeletePattern_cases now pattern db :
  exists n, forall fuel, n <= fuel -> exists r db',
    rc_DeletePattern fuel now pattern db = Some (r, db') /\
    ((r = None /\ rview db' now = unmatched pattern (rview db now)) \/
     (r <> None /\ (rview db' now = rview db now \/ rview db' now = unmatched pattern (rview db now)))).
Proof.
  destruct (scan_iteration (rview db now) now pattern) as (pages & Hhead & Hne & Hkeys & Hscan).
  exists (length pages). intros fuel Hf.
  assert (pages <> []) as Hnil by (by destruct pages).
  destruct (scan_loop_pages now pattern (rview db now) pages [] fuel db Hscan Hne Hnil Hf eq_refl)
    as (r & db1 & Hl & Hv & Hr). rewrite Hhead in Hl. change (default 0%Z (Some 0%Z)) with 0%Z in Hl.
  unfold rc_DeletePattern. rewrite Hl. cbn [mbind option_bind].
  destruct Hr as [[e ->]| ->]; [eexists _, _; split; [done|]; right; by rewrite Hv; auto|].
  cbn [app]. destruct (pages ≫= snd) as [|k keys] eqn:Hp.
  { eexists _, _. split; [done|]. left. split; [done|]. rewrite Hv.
    rewrite <- (filter_not_pages pattern _ [] Hkeys). symmetry. apply map_filter_id.
    intros i x _. apply not_elem_of_nil. }
  destruct (command_ now (CDel (k :: keys)) "failed to delete keys" db1) as [r db2] eqn:Hd.
  exists r, db2. split; [done|]. rewrite <- (filter_not_pages pattern _ (k :: keys) Hkeys), <- Hv.
  apply command_cases in Hd as [[-> [rep Hrun]]|[[e ->] Hdel]]; cbn in *.
  - left. split; [done|]. by simplify_eq.
  - right. split; [done|]. done.
Qed.
End facts.

(** ** Keys *)

Fixpoint no_colon (s : string) : bool :=
  match s with
  | "" => true
  | String c s' => negb (bool_decide (c = ":"%char)) && no_colon s'
  end.

Lemma split_at_colon a b x y : no_colon a = true -> no_colon b = true ->
  a ++ String ":" x = b ++ String ":" y -> a = b /\ x = y.
Proof.
  revert b. induction a as [|c a IH]; intros [|d b]; cbn; intros Ha Hb Heq; simplify_eq.
  - done.
  - apply andb_true_iff in Ha as [_ Ha]. apply andb_true_iff in Hb as [_ Hb].
    destruct (IH b Ha Hb) as [-> ->]; done.
Qed.

Lemma no_colon_colon a x : no_colon (a ++ String ":" x) = false.
Proof.
  induction a as [|c a IH]; [done|]. rewrite str_cons_app. cbn [no_colon]. rewrite IH. apply andb_false_r.
Qed.

Lemma prefix_app p s : String.prefix p (p ++ s) = true.
Proof.
  induction p as [|c p IH]; [by destruct s|]. rewrite str_cons_app. cbn [String.prefix].
  by destruct (ascii_dec c c).
Qed.

Lemma prefix_app_inv p s : String.prefix p s = true -> exists r, s = p ++ r.
Proof.
  revert s. induction p as [|c p IH]; intros s; [by exists s|]. destruct s as [|d s]; [done|]. cbn.
  destruct (ascii_dec c d) as [->|]; [|done]. intros [r ->]%IH. by exists r.
Qed.

Lemma glob_plain_app a b : glob_plain (a ++ b) = glob_plain a && glob_plain b.
Proof.
  induction a as [|c a IH]; [done|]. rewrite str_cons_app. cbn [glob_plain]. by rewrite IH, andb_assoc.
Qed.

Definition trading : KeyBuilder := NewKeyBuilder "trading".

(** Symbols without a colon: the keys of different kinds or symbols differ. *)
Lemma orderbook_keys_apart a b :
  (OrderbookKey trading a = OrderbookKey trading b -> a = b) /\
  (OrderbookTopKey trading a = OrderbookTopKey trading b -> a = b) /\
  (no_colon a = true -> OrderbookKey trading a <> OrderbookTopKey trading b).
Proof.
  cbn. split_and!.
  - intros Heq. by simplify_eq.
  - intros Heq. by simplify_eq.
  - intros Ha Heq. change ("trading:orderbook:" ++ a = "trading:orderbook:top:" ++ b) in Heq. cbn in Heq. simplify_eq. assert (a = "top:" ++ b) as -> by exact Heq. discriminate Ha.
Qed.

Lemma trades_keys_apart a b x y : no_colon a = true -> no_colon b = true ->
  TradesKey trading a x = TradesKey trading b y -> a = b /\ Itoa x = Itoa y.
Proof. intros Ha Hb Heq. cbn in Heq. simplify_eq. by apply split_at_colon. Qed.

Lemma latest_keys_apart a b : no_colon a = true -> no_colon b = true ->
  TradesLatestKey trading a = TradesLatestKey trading b -> a = b.
Proof.
  intros Ha Hb Heq. cbn in Heq. simplify_eq.
  match goal with He : _ ++ _ = _ ++ _ |- _ => by apply split_at_colon in He as [? _] end.
Qed.

(** ** A server with a script of failures *)

Module ConcreteServer.

Fixpoint glob (p : string) : string -> bool :=
  match p with
  | "" => fun k => bool_decide (k = "")
  | String c p' =>
      if bool_decide (c = "*"%char) then
        fix any k := glob p' k || match k with String _ k' => any k' | "" => false end
      else fun k => match k with
                    | String d k' => (bool_decide (c = "?"%char) || bool_decide (c = d)) && glob p' k'
                    | "" => false
                    end
  end.

Lemma glob_star k : glob "*" k = true.
Proof. induction k as [|c k IH]; [done|]. exact IH. Qed.

Lemma glob_app_star p k : glob_plain p = true -> glob (p ++ "*") k = String.prefix p k.
Proof.
  revert k. induction p as [|c p IH]; intros k Hp.
  - change ("" ++ "*") with "*". rewrite (glob_star k). by destruct k.
  - cbn [glob_plain] in Hp. apply andb_true_iff in Hp as [Hc Hp]. apply negb_true_iff in Hc.
    rewrite str_cons_app. cbn [glob]. rewrite bool_decide_eq_false_2.
    2: { intros ->. done. }
    destruct k as [|d k]; [done|]. rewrite (bool_decide_eq_false_2 (c = "?"%char)).
    2: { intros ->. done. }
    cbn [orb String.prefix]. rewrite IH by done. destruct (ascii_dec c d) as [->|Hne].
    + by rewrite bool_decide_eq_true_2.
    + by rewrite bool_decide_eq_false_2.
Qed.

(** The commands fail as the script says, without an effect. *)
Definition server : Type := list bool * database.

Definition answer (db : server) : option error * list bool :=
  match db.1 with
  | true :: script => (Some (ErrText "i/o timeout"), script)
  | _ => (None, tail db.1)
  end.

#[export] Instance map_server : RedisServer := {|
  rdb := server;
  redis_exec now c db :=
    match answer db with
    | (Some err, script) => (inl err, (script, db.2))
    | (None, script) =>
        match redis_run now c (alive now db.2) with
        | (inl err, m) => (inl (ErrText err), (script, m))
        | (inr r, m) => (inr r, (script, m))
        end
    end;
  redis_scan now cursor pattern db :=
    match answer db with
    | (Some err, script) => (inl err, (script, db.2))
    | (None, script) =>
        (inr (filter (fun k => glob pattern k = true) (elements (dom (alive now db.2))), 0%Z), (script, db.2))
    end;
  glob_match := glob;
|}.

Lemma run_alive now c m : alive now m = m -> alive now (redis_run now c m).2 = (redis_run now c m).2.
Proof.
  intros Hm.
  assert (forall k e, m !! k = Some e -> live now e) as Hl.
  { intros k e Hk. rewrite <- Hm in Hk. by apply alive_lookup in Hk as []. }
  assert (forall k v o, (forall t, o = Some t -> (now < t)%Z) -> alive now (<[k := mkEntry v o]> m) = <[k := mkEntry v o]> m) as Hins.
  { intros k v o Ho. apply alive_self. intros k' e [[<- <-]|[_ Hk]]%lookup_insert_Some; [exact Ho|eauto]. }
  assert (forall k t, m !! k ≫= enExpiry = Some t -> (now < t)%Z) as Hold.
  { intros k t Ht. apply bind_Some in Ht as (e & Hk & Ht). exact (Hl k e Hk t Ht). }
  destruct c as [|k|k v ttl|[|k ks]|k|k|k ttl|k d|k v ttl|[|k ks]|[|[k v] kvs]|]; cbn [redis_run snd]; try done.
  - apply Hins. destruct (ttl =? -1)%Z; [apply Hold|]. exact (expiry_live now ttl v).
  - apply alive_self. intros k' e [Hk _]%map_lookup_filter_Some. eauto.
  - destruct (m !! k) as [e|] eqn:Hk; [|done]. cbn [snd]. destruct (Z.ltb_spec 0 (ex ttl)).
    + apply Hins. intros t Ht. simplify_eq. lia.
    + apply alive_self. intros k' e' [_ Hk']%lookup_delete_Some. eauto.
  - destruct (match m !! k with Some e => _ | None => _ end); [|done]. cbn zeta. case_match; [|done]. apply Hins. exact (Hold k).
  - destruct (m !! k) as [e|]; [done|]. case_match; [done|]. apply Hins. exact (expiry_live now ttl v).
  - apply alive_self.
    assert (forall kvs (m' : database), (forall k e, m' !! k = Some e -> live now e) ->
      forall k' e, foldl (fun m kv => <[kv.1:=mkEntry kv.2 None]> m) m' kvs !! k' = Some e -> live now e) as Hall.
    { clear. induction kvs as [|[k v] kvs IH]; cbn; [done|]. intros m' Hm'. apply IH.
      intros k' e [[<- <-]|[_ Hk]]%lookup_insert_Some; [done|eauto]. }
    apply (Hall ((k, v) :: kvs) m Hl).
Qed.

#[export] Instance map_server_spec : RedisServerSpec.
Proof.
  refine {| rview := fun db now => alive now db.2 |}.
  - intros db now now' Hle. by rewrite alive_later.
  - intros now c db r db' He. cbn in He. destruct (answer db) as [[err|] script]; [done|].
    pose proof (run_alive now c (alive now db.2) (alive_later now now db.2 (Z.le_refl _))) as Hr.
    destruct (redis_run now c (alive now db.2)) as [[err|r'] m]; simplify_eq. cbn in *. by rewrite Hr.
  - intros now c db e db' He. cbn in He. destruct (answer db) as [[err|] script]; simplify_eq; [by left|].
    pose proof (run_alive now c (alive now db.2) (alive_later now now db.2 (Z.le_refl _))) as Hr.
    destruct (redis_run now c (alive now db.2)) as [[err|r'] m]; simplify_eq. right. exact Hr.
  - intros now cursor pattern db r db' He. cbn in He. destruct (answer db) as [[err|] script]; by simplify_eq.
  - intros m now pattern.
    exists [(0%Z, filter (fun k => glob pattern k = true) (elements (dom m)))]. split_and!; [done|constructor| |].
    + intros k. cbn. rewrite app_nil_r, list_elem_of_filter, elem_of_elements. tauto.
    + intros c ks c' db r db' Hin Hm Hs. cbn in Hin. apply list_elem_of_singleton in Hin. simplify_eq.
      cbn in Hs. destruct (answer db) as [[err|] script]; by simplify_eq.
  - intros p k. apply glob_app_star.
Defined.
End ConcreteServer.
