(* ===== verification/Cache.v ===== *)
(** * The caches of order books and trades
      (src/cache/orderbook_cache.go, src/cache/trades_cache.go)

    The methods pass the Redis server; [now] is the server's time at the call,
    [t] (or a reading of [clock]) what [time.Now] returns.  [None] is a panic of
    an index out of range or of a type assertion, or fuel that ran out.  A
    method that changes a record through a pointer returns the record.  A nil
    slice and an empty one are not told apart.  Warnings printed to the console
    are left out.

    The JSON form of a time is a parameter: it depends on the time zone. *)

From Stdlib Require Import Ascii String.
From S2P Require Import Prelude.
From S2P Require Import Float.
From S2P Require Import Web.
From S2P Require Import Json.
From S2P Require Import Text.
From S2P Require Import External.
From S2P Require Import Sql.
From S2P Require Import Redis.

Local Open Scope string_scope.

(** ** The JSON form of a time *)

Class TimeText := {
  time_MarshalJSON : Z -> result string;     (** fails for years after 9999 *)
  time_UnmarshalJSON : string -> option Z;
}.

(** The text keeps the nanoseconds. *)
Class TimeTextSpec `{TimeText} : Prop := {
  time_round_trip t s : time_MarshalJSON t = inr s -> time_UnmarshalJSON s = Some t;
}.

(** ** Decoding into Go types

    [null] leaves a value as it is, and makes a slice or a pointer nil. *)

Definition dec_string (old : string) (x : json) : option string :=
  match x with JStr s => Some (decode_text s) | JNull => Some old | _ => None end.
Definition dec_int (old : Z) (x : json) : option Z :=
  match x with JNum lit => Atoi lit | JNull => Some old | _ => None end.
Definition dec_slice {A} (dec : json -> option A) (x : json) : option (list A) :=
  match x with JArr l => mapM dec l | JNull => Some [] | _ => None end.

(** A struct: the members in their order, each into the field of its name. *)
Fixpoint dec_members {A} (field : string -> json -> A -> option A) (m : list (string * json)) (a : A) : option A :=
  match m with
  | [] => Some a
  | (k, x) :: m' => a' ← field k x a; dec_members field m' a'
  end.
Definition dec_struct {A} (field : string -> json -> A -> option A) (zero : A) (j : json) : option A :=
  match j with
  | JObj m => dec_members field m zero
  | JNull => Some zero
  | _ => None
  end.

Section cache.
Context `{DecimalPkg, UuidPkg, TimeText, RedisServer}.

Definition dec_decimal (old : decimal) (x : json) : option decimal :=
  match x with
  | JStr s => decimal_NewFromString s
  | JNum lit => decimal_NewFromString lit
  | JNull => Some old
  | _ => None
  end.
Definition dec_time (old : Z) (x : json) : option Z :=
  match x with JStr s => time_UnmarshalJSON s | JNull => Some old | _ => None end.
Definition dec_uuid (old : uuid) (x : json) : option uuid :=
  match x with JStr s => uuid_Parse (decode_text s) | JNull => Some old | _ => None end.

Definition enc_decimal (d : decimal) : json := JStr (decimal_String d).
Definition enc_uuid (u : uuid) : json := JStr (uuid_String u).

(** The zero [time.Time] is the first of January of the year 1. *)
Definition time_zero : Z := (-62135596800 * second)%Z.

(** ** Order books *)

Record PriceLevel := mkPriceLevel { cpPrice : decimal; cpQuantity : decimal; cpOrders : Z }.

Record OrderbookSnapshot := mkOrderbookSnapshot {
  csSymbol : string;
  csBids : list PriceLevel;
  csAsks : list PriceLevel;
  csTimestamp : Z;
  csSequence : Z;
}.

Record TopOfBook := mkTopOfBook {
  tobSymbol : string;
  tobBestBid : option PriceLevel;
  tobBestAsk : option PriceLevel;
  tobSpread : decimal;
  tobTimestamp : Z;
}.

Definition set_csTimestamp (s : OrderbookSnapshot) (t : Z) : OrderbookSnapshot :=
  mkOrderbookSnapshot (csSymbol s) (csBids s) (csAsks s) t (csSequence s).
Definition set_tobTimestamp (p : TopOfBook) (t : Z) : TopOfBook :=
  mkTopOfBook (tobSymbol p) (tobBestBid p) (tobBestAsk p) (tobSpread p) t.

(** *** The JSON tags *)

Definition level_enc (l : PriceLevel) : json :=
  JObj ([("price", enc_decimal (cpPrice l)); ("quantity", enc_decimal (cpQuantity l))]
        ++ (if (cpOrders l =? 0)%Z then [] else [("orders", JNum (Itoa (cpOrders l)))]))%list.

Definition level_field (k : string) (x : json) (l : PriceLevel) : option PriceLevel :=
  if same_name k "price" then p ← dec_decimal (cpPrice l) x; Some (mkPriceLevel p (cpQuantity l) (cpOrders l))
  else if same_name k "quantity" then q ← dec_decimal (cpQuantity l) x; Some (mkPriceLevel (cpPrice l) q (cpOrders l))
  else if same_name k "orders" then n ← dec_int (cpOrders l) x; Some (mkPriceLevel (cpPrice l) (cpQuantity l) n)
  else Some l.
Definition level_zero : PriceLevel := mkPriceLevel decimal_Zero decimal_Zero 0.
Definition level_dec : json -> option PriceLevel := dec_struct level_field level_zero.

Definition snapshot_enc (s : OrderbookSnapshot) : result json :=
  match time_MarshalJSON (csTimestamp s) with
  | inl err => inl err
  | inr t =>
      inr (JObj ([("symbol", JStr (csSymbol s)); ("bids", JArr (level_enc <$> csBids s));
                  ("asks", JArr (level_enc <$> csAsks s)); ("timestamp", JStr t)]
                 ++ (if (csSequence s =? 0)%Z then [] else [("sequence", JNum (Itoa (csSequence s)))]))%list)
  end.

Definition snapshot_field (k : string) (x : json) (s : OrderbookSnapshot) : option OrderbookSnapshot :=
  let '(mkOrderbookSnapshot sym bids asks t sq) := s in
  if same_name k "symbol" then v ← dec_string sym x; Some (mkOrderbookSnapshot v bids asks t sq)
  else if same_name k "bids" then v ← dec_slice level_dec x; Some (mkOrderbookSnapshot sym v asks t sq)
  else if same_name k "asks" then v ← dec_slice level_dec x; Some (mkOrderbookSnapshot sym bids v t sq)
  else if same_name k "timestamp" then v ← dec_time t x; Some (mkOrderbookSnapshot sym bids asks v sq)
  else if same_name k "sequence" then v ← dec_int sq x; Some (mkOrderbookSnapshot sym bids asks t v)
  else Some s.
Definition snapshot_dec : json -> option OrderbookSnapshot :=
  dec_struct snapshot_field (mkOrderbookSnapshot "" [] [] time_zero 0).

Definition top_enc (p : TopOfBook) : result json :=
  match time_MarshalJSON (tobTimestamp p) with
  | inl err => inl err
  | inr t =>
      inr (JObj ([("symbol", JStr (tobSymbol p))]
                 ++ (match tobBestBid p with Some l => [("best_bid", level_enc l)] | None => [] end)
                 ++ (match tobBestAsk p with Some l => [("best_ask", level_enc l)] | None => [] end)
                 ++ [("spread", enc_decimal (tobSpread p)); ("timestamp", JStr t)])%list)
  end.

(** A pointer: null makes it nil, a document fills what it points to. *)
Definition dec_level_ptr (old : option PriceLevel) (x : json) : option (option PriceLevel) :=
  match x with
  | JNull => Some None
  | _ => Some <$> dec_struct level_field (default level_zero old) x
  end.

Definition top_field (k : string) (x : json) (p : TopOfBook) : option TopOfBook :=
  let '(mkTopOfBook sym bid ask spread t) := p in
  if same_name k "symbol" then v ← dec_string sym x; Some (mkTopOfBook v bid ask spread t)
  else if same_name k "best_bid" then v ← dec_level_ptr bid x; Some (mkTopOfBook sym v ask spread t)
  else if same_name k "best_ask" then v ← dec_level_ptr ask x; Some (mkTopOfBook sym bid v spread t)
  else if same_name k "spread" then v ← dec_decimal spread x; Some (mkTopOfBook sym bid ask v t)
  else if same_name k "timestamp" then v ← dec_time t x; Some (mkTopOfBook sym bid ask spread v)
  else Some p.
Definition top_dec : json -> option TopOfBook :=
  dec_struct top_field (mkTopOfBook "" None None decimal_Zero time_zero).

(** *** The cache *)

Record OrderbookCacheConfig := mkOrderbookCacheConfig { ocDefaultTTL : Z; ocTopOfBookTTL : Z }.
Definition DefaultOrderbookCacheConfig : OrderbookCacheConfig := mkOrderbookCacheConfig (5 * second) (2 * second).

Record OrderbookCache := mkOrderbookCache { ocKeyBuilder : KeyBuilder; ocTTL : Z }.
Definition NewOrderbookCache (config : option OrderbookCacheConfig) : OrderbookCache :=
  mkOrderbookCache (NewKeyBuilder "trading") (ocDefaultTTL (default DefaultOrderbookCacheConfig config)).

Definition GetOrderbook (oc : OrderbookCache) (now : Z) (symbol : string) (db : rdb)
    : result OrderbookSnapshot * rdb :=
  match rc_GetJSON snapshot_dec now (OrderbookKey (ocKeyBuilder oc) symbol) db with
  | (inl err, db1) => (inl (ErrWrap ("orderbook cache miss for " ++ symbol) err), db1)
  | (inr snapshot, db1) => (inr snapshot, db1)
  end.

Definition SetOrderbook (oc : OrderbookCache) (now t : Z) (snapshot : OrderbookSnapshot) (ttl : Z) (db : rdb)
    : option error * OrderbookSnapshot * rdb :=
  let ttl := if (ttl =? 0)%Z then ocTTL oc else ttl in
  let snapshot := set_csTimestamp snapshot t in
  let key := OrderbookKey (ocKeyBuilder oc) (csSymbol snapshot) in
  match rc_SetJSON now key (AOther (snapshot_enc snapshot)) ttl db with
  | (Some err, db1) => (Some (ErrWrap ("failed to cache orderbook for " ++ csSymbol snapshot) err), snapshot, db1)
  | (None, db1) => (None, snapshot, db1)
  end.

Definition GetTopOfBook (oc : OrderbookCache) (now : Z) (symbol : string) (db : rdb) : result TopOfBook * rdb :=
  match rc_GetJSON top_dec now (OrderbookTopKey (ocKeyBuilder oc) symbol) db with
  | (inl err, db1) => (inl (ErrWrap ("top-of-book cache miss for " ++ symbol) err), db1)
  | (inr top, db1) => (inr top, db1)
  end.

Definition SetTopOfBook (oc : OrderbookCache) (now t : Z) (top : TopOfBook) (ttl : Z) (db : rdb)
    : option error * TopOfBook * rdb :=
  let ttl := if (ttl =? 0)%Z then (2 * second)%Z else ttl in
  let top := set_tobTimestamp top t in
  let key := OrderbookTopKey (ocKeyBuilder oc) (tobSymbol top) in
  match rc_SetJSON now key (AOther (top_enc top)) ttl db with
  | (Some err, db1) => (Some (ErrWrap ("failed to cache top-of-book for " ++ tobSymbol top) err), top, db1)
  | (None, db1) => (None, top, db1)
  end.

(** The errors are printed, and the result is nil. *)
Definition InvalidateOrderbook (oc : OrderbookCache) (now : Z) (symbol : string) (db : rdb) : rdb :=
  foldl (fun db key => (rc_Delete now key db).2) db
    [OrderbookKey (ocKeyBuilder oc) symbol; OrderbookTopKey (ocKeyBuilder oc) symbol].

(** The loops over patterns, which the two caches share. *)
Fixpoint delete_patterns (fuel : nat) (now : Z) (what : string) (patterns : list string) (db : rdb)
    : option (option error * rdb) :=
  match patterns with
  | [] => Some (None, db)
  | pattern :: rest =>
      '(r, db1) ← rc_DeletePattern fuel now pattern db;
      match r with
      | Some err => Some (Some (ErrWrap what err), db1)
      | None => delete_patterns fuel now what rest db1
      end
  end.

Definition InvalidateAllOrderbooks (fuel : nat) (oc : OrderbookCache) (now : Z) (db : rdb)
    : option (option error * rdb) :=
  delete_patterns fuel now "failed to invalidate orderbook caches"
    [OrderbookKey (ocKeyBuilder oc) "*"; OrderbookTopKey (ocKeyBuilder oc) "*"] db.

(** [s[:n]] of a slice that is longer than [n]; a negative bound panics. *)
Definition truncate {A} (l : list A) (n : Z) : option (list A) :=
  if (Z.of_nat (length l) >? n)%Z then if (n <? 0)%Z then None else Some (take (Z.to_nat n) l) else Some l.

Definition GetOrderbookDepth (oc : OrderbookCache) (now : Z) (symbol : string) (depth : Z) (db : rdb)
    : option (result OrderbookSnapshot * rdb) :=
  match GetOrderbook oc now symbol db with
  | (inl err, db1) => Some (inl err, db1)
  | (inr s, db1) =>
      bids ← truncate (csBids s) depth;
      asks ← truncate (csAsks s) depth;
      Some (inr (mkOrderbookSnapshot (csSymbol s) bids asks (csTimestamp s) (csSequence s)), db1)
  end.

Definition ExtractTopOfBook (snapshot : OrderbookSnapshot) : TopOfBook :=
  let bid := head (csBids snapshot) in
  let ask := head (csAsks snapshot) in
  mkTopOfBook (csSymbol snapshot) bid ask
    (match bid, ask with
     | Some b, Some a => decimal_Sub (cpPrice a) (cpPrice b)
     | _, _ => decimal_Zero
     end) (csTimestamp snapshot).

(** The depths are not used. *)
Definition CacheOrderbookWithDepth (oc : OrderbookCache) (now t t' : Z) (snapshot : OrderbookSnapshot)
    (depths : list Z) (ttl : Z) (db : rdb) : option error * OrderbookSnapshot * rdb :=
  match SetOrderbook oc now t snapshot ttl db with
  | (Some err, snapshot1, db1) => (Some err, snapshot1, db1)
  | (None, snapshot1, db1) =>
      let '(_, _, db2) := SetTopOfBook oc now t' (ExtractTopOfBook snapshot1) (Z.quot ttl 2) db1 in
      (None, snapshot1, db2)
  end.

Record OrderbookStats := mkOrderbookStats {
  obSymbol : string;
  obFullBookCached : bool;
  obTopOfBookCached : bool;
  obFullBookTTL : Z;
  obTopOfBookTTL : Z;
  obLastUpdate : Z;
}.

(** [if ttl, err := GetTTL(key); err == nil]: a failure leaves zero. *)
Definition ttl_or_zero (now : Z) (key : string) (db : rdb) : Z * rdb :=
  match rc_GetTTL now key db with
  | (inl _, db1) => (0%Z, db1)
  | (inr ttl, db1) => (ttl, db1)
  end.

Definition GetOrderbookStats (oc : OrderbookCache) (now : Z) (symbol : string) (db : rdb) : OrderbookStats * rdb :=
  let fullBookKey := OrderbookKey (ocKeyBuilder oc) symbol in
  let '(cached, ttl, last, db1) :=
    match rc_Exists now fullBookKey db with
    | (inr true, db1) =>
        let '(ttl, db2) := ttl_or_zero now fullBookKey db1 in
        match GetOrderbook oc now symbol db2 with
        | (inr snapshot, db3) => (true, ttl, csTimestamp snapshot, db3)
        | (inl _, db3) => (true, ttl, time_zero, db3)
        end
    | (_, db1) => (false, 0%Z, time_zero, db1)
    end in
  let topKey := OrderbookTopKey (ocKeyBuilder oc) symbol in
  let '(topCached, topTTL, db4) :=
    match rc_Exists now topKey db1 with
    | (inr true, db2) => let '(ttl, db3) := ttl_or_zero now topKey db2 in (true, ttl, db3)
    | (_, db2) => (false, 0%Z, db2)
    end in
  (mkOrderbookStats symbol cached topCached ttl topTTL last, db4).

(** The loop of [WarmCache] from the [i]-th snapshot, which reads the clock
    twice for each. *)
Fixpoint warm_orderbooks (oc : OrderbookCache) (now : Z) (clock : nat -> Z) (i : nat)
    (snapshots : list OrderbookSnapshot) (ttl : Z) (db : rdb) : option error * rdb :=
  match snapshots with
  | [] => (None, db)
  | snapshot :: rest =>
      match SetOrderbook oc now (clock (2 * i)) snapshot ttl db with
      | (Some err, _, db1) => (Some (ErrWrap ("failed to warm cache for " ++ csSymbol snapshot) err), db1)
      | (None, snapshot1, db1) =>
          let '(_, _, db2) := SetTopOfBook oc now (clock (2 * i + 1)) (ExtractTopOfBook snapshot1) (Z.quot ttl 2) db1 in
          warm_orderbooks oc now clock (S i) rest ttl db2
      end
  end.
Definition orderbook_WarmCache (oc : OrderbookCache) (now : Z) (clock : nat -> Z)
    (snapshots : list OrderbookSnapshot) (ttl : Z) (db : rdb) : option error * rdb :=
  let ttl := if (ttl =? 0)%Z then ocTTL oc else ttl in
  warm_orderbooks oc now clock 0 snapshots ttl db.

(** *** The compact form *)

Definition convertPriceLevelsToArrays (levels : list PriceLevel) : list (list string) :=
  (fun l => [decimal_String (cpPrice l); decimal_String (cpQuantity l)]) <$> levels.

(** [time.Time.Unix]: whole seconds, rounded down. *)
Definition time_Unix (t : Z) : Z := (t / second)%Z.

(** The members of a Go map are written in the order of their keys. *)
Definition compact_json (s : OrderbookSnapshot) : json :=
  let arrays levels := JArr ((fun a => JArr (JStr <$> a)) <$> convertPriceLevelsToArrays levels) in
  JObj [("a", arrays (csAsks s)); ("b", arrays (csBids s)); ("s", JStr (csSymbol s));
        ("sq", JNum (Itoa (csSequence s))); ("t", JNum (Itoa (time_Unix (csTimestamp s))))].
Definition SerializeOrderbookCompact (snapshot : OrderbookSnapshot) : string := json_Marshal (compact_json snapshot).

(** The assertion of a pair's elements to strings panics otherwise. *)
Definition convert_pair (arr : json) : option PriceLevel :=
  match arr with
  | JArr (p :: q :: _) =>
      match p, q with
      | JStr p, JStr q =>
          let read s := default decimal_Zero (decimal_NewFromString (decode_text s)) in
          Some (mkPriceLevel (read p) (read q) 0)
      | _, _ => None
      end
  | _ => Some level_zero
  end.
Definition convertArraysToPriceLevels (arrays : list json) : option (list PriceLevel) := mapM convert_pair arrays.

(** [int64(v.(float64))] *)
Definition float_member (compact : json) (key : string) : option Z :=
  match json_get compact key with
  | Some (JNum lit) => f_trunc ∘ fround <$> number_value lit
  | _ => None
  end.

Definition DeserializeOrderbookCompact (data : string) : option (result OrderbookSnapshot) :=
  match json_Unmarshal data with
  | Some (JObj m) =>
      let compact := JObj m in
      symbol ← match json_get compact "s" with Some (JStr s) => Some (decode_text s) | _ => None end;
      sequence ← float_member compact "sq";
      let timestamp := match float_member compact "t" with Some ts => (ts * second)%Z | None => time_zero end in
      bids ← match json_get compact "b" with Some (JArr l) => convertArraysToPriceLevels l | _ => Some [] end;
      asks ← match json_get compact "a" with Some (JArr l) => convertArraysToPriceLevels l | _ => Some [] end;
      Some (inr (mkOrderbookSnapshot symbol bids asks timestamp sequence))
  | Some JNull => None
  | _ => Some (inl (ErrText "json: cannot unmarshal"))
  end.

(** ** Trades *)

Record Trade := mkTrade {
  trTradeID : uuid;
  trSymbol : string;
  trBuyOrderID : uuid;
  trSellOrderID : uuid;
  trPrice : decimal;
  trQuantity : decimal;
  trTimestamp : Z;
  trSide : string;
}.

Record TradesList := mkTradesList {
  tlSymbol : string;
  tlTrades : list Trade;
  tlCount : Z;
  tlTimestamp : Z;
}.

Definition trade_enc (tr : Trade) : result json :=
  match time_MarshalJSON (trTimestamp tr) with
  | inl err => inl err
  | inr t =>
      inr (JObj ([("trade_id", enc_uuid (trTradeID tr)); ("symbol", JStr (trSymbol tr));
                  ("buy_order_id", enc_uuid (trBuyOrderID tr)); ("sell_order_id", enc_uuid (trSellOrderID tr));
                  ("price", enc_decimal (trPrice tr)); ("quantity", enc_decimal (trQuantity tr)); ("timestamp", JStr t)]
                 ++ (if bool_decide (trSide tr = "") then [] else [("side", JStr (trSide tr))]))%list)
  end.

Definition trade_field (k : string) (x : json) (tr : Trade) : option Trade :=
  let '(mkTrade id sym buy sell price qty t side) := tr in
  if same_name k "trade_id" then v ← dec_uuid id x; Some (mkTrade v sym buy sell price qty t side)
  else if same_name k "symbol" then v ← dec_string sym x; Some (mkTrade id v buy sell price qty t side)
  else if same_name k "buy_order_id" then v ← dec_uuid buy x; Some (mkTrade id sym v sell price qty t side)
  else if same_name k "sell_order_id" then v ← dec_uuid sell x; Some (mkTrade id sym buy v price qty t side)
  else if same_name k "price" then v ← dec_decimal price x; Some (mkTrade id sym buy sell v qty t side)
  else if same_name k "quantity" then v ← dec_decimal qty x; Some (mkTrade id sym buy sell price v t side)
  else if same_name k "timestamp" then v ← dec_time t x; Some (mkTrade id sym buy sell price qty v side)
  else if same_name k "side" then v ← dec_string side x; Some (mkTrade id sym buy sell price qty t v)
  else Some tr.
Definition trade_zero : Trade :=
  mkTrade uuid_Nil "" uuid_Nil uuid_Nil decimal_Zero decimal_Zero time_zero "".
Definition trade_dec : json -> option Trade := dec_struct trade_field trade_zero.

Fixpoint trades_enc (l : list Trade) : result (list json) :=
  match l with
  | [] => inr []
  | tr :: l' =>
      match trade_enc tr with
      | inl err => inl err
      | inr j => match trades_enc l' with inl err => inl err | inr js => inr (j :: js) end
      end
  end.

Definition list_enc (l : TradesList) : result json :=
  match trades_enc (tlTrades l) with
  | inl err => inl err
  | inr js =>
      match time_MarshalJSON (tlTimestamp l) with
      | inl err => inl err
      | inr t =>
          inr (JObj [("symbol", JStr (tlSymbol l)); ("trades", JArr js); ("count", JNum (Itoa (tlCount l)));
                     ("timestamp", JStr t)])
      end
  end.

Definition list_field (k : string) (x : json) (l : TradesList) : option TradesList :=
  let '(mkTradesList sym trades count t) := l in
  if same_name k "symbol" then v ← dec_string sym x; Some (mkTradesList v trades count t)
  else if same_name k "trades" then v ← dec_slice trade_dec x; Some (mkTradesList sym v count t)
  else if same_name k "count" then v ← dec_int count x; Some (mkTradesList sym trades v t)
  else if same_name k "timestamp" then v ← dec_time t x; Some (mkTradesList sym trades count v)
  else Some l.
Definition list_zero : TradesList := mkTradesList "" [] 0 time_zero.
Definition list_dec : json -> option TradesList := dec_struct list_field list_zero.

(** *** The cache *)

Record TradesCacheConfig := mkTradesCacheConfig { tcDefaultTTL : Z; tcMaxTradesPerCache : Z }.
Definition DefaultTradesCacheConfig : TradesCacheConfig := mkTradesCacheConfig (10 * second) 100.

Record TradesCache := mkTradesCache { tcKeyBuilder : KeyBuilder; tcTTL : Z }.
Definition NewTradesCache (config : option TradesCacheConfig) : TradesCache :=
  mkTradesCache (NewKeyBuilder "trading") (tcDefaultTTL (default DefaultTradesCacheConfig config)).

Definition ttl_or (tc : TradesCache) (ttl : Z) : Z := if (ttl =? 0)%Z then tcTTL tc else ttl.

Definition GetTrades (tc : TradesCache) (now : Z) (symbol : string) (limit : Z) (db : rdb)
    : result TradesList * rdb :=
  match rc_GetJSON list_dec now (TradesKey (tcKeyBuilder tc) symbol limit) db with
  | (inl err, db1) =>
      (inl (ErrWrap ("trades cache miss for " ++ symbol ++ " (limit " ++ Itoa limit ++ ")") err), db1)
  | (inr tradesList, db1) => (inr tradesList, db1)
  end.

Definition SetTrades (tc : TradesCache) (now t : Z) (tradesList : TradesList) (limit ttl : Z) (db : rdb)
    : option (option error * TradesList * rdb) :=
  let trades := tlTrades tradesList in
  trades' ← truncate trades limit;
  let count := if (Z.of_nat (length trades) >? limit)%Z then limit else Z.of_nat (length trades) in
  let tradesList := mkTradesList (tlSymbol tradesList) trades' count t in
  let key := TradesKey (tcKeyBuilder tc) (tlSymbol tradesList) limit in
  Some (match rc_SetJSON now key (AOther (list_enc tradesList)) (ttl_or tc ttl) db with
        | (Some err, db1) => (Some (ErrWrap ("failed to cache trades for " ++ tlSymbol tradesList) err), tradesList, db1)
        | (None, db1) => (None, tradesList, db1)
        end).

Definition GetLatestTrades (tc : TradesCache) (now : Z) (symbol : string) (db : rdb) : result TradesList * rdb :=
  match rc_GetJSON list_dec now (TradesLatestKey (tcKeyBuilder tc) symbol) db with
  | (inl err, db1) => (inl (ErrWrap ("latest trades cache miss for " ++ symbol) err), db1)
  | (inr tradesList, db1) => (inr tradesList, db1)
  end.

(** The count and the time of a list that is about to be stored. *)
Definition stamp (l : TradesList) (t : Z) : TradesList :=
  mkTradesList (tlSymbol l) (tlTrades l) (Z.of_nat (length (tlTrades l))) t.

Definition SetLatestTrades (tc : TradesCache) (now t : Z) (tradesList : TradesList) (ttl : Z) (db : rdb)
    : option error * TradesList * rdb :=
  let tradesList := stamp tradesList t in
  let key := TradesLatestKey (tcKeyBuilder tc) (tlSymbol tradesList) in
  match rc_SetJSON now key (AOther (list_enc tradesList)) (ttl_or tc ttl) db with
  | (Some err, db1) =>
      (Some (ErrWrap ("failed to cache latest trades for " ++ tlSymbol tradesList) err), tradesList, db1)
  | (None, db1) => (None, tradesList, db1)
  end.

Definition InvalidateTrades (fuel : nat) (now : Z) (symbol : string) (db : rdb) : option (option error * rdb) :=
  delete_patterns fuel now ("failed to invalidate trades caches for " ++ symbol)
    ["trading:trades:" ++ symbol ++ ":*"] db.

Definition InvalidateAllTrades (fuel : nat) (now : Z) (db : rdb) : option (option error * rdb) :=
  delete_patterns fuel now "failed to invalidate all trades caches" ["trading:trades:*"] db.

(** The loop of [AppendTrade] from its [i]-th limit. *)
Fixpoint append_limits (tc : TradesCache) (now : Z) (clock : nat -> Z) (i : nat) (trade : Trade) (limits : list Z)
    (ttl : Z) (db : rdb) : option (option error * rdb) :=
  match limits with
  | [] => Some (None, db)
  | limit :: rest =>
      let key := TradesKey (tcKeyBuilder tc) (trSymbol trade) limit in
      let '(r, db1) := rc_GetJSON list_dec now key db in
      let tradesList := match r with
                        | inr l => l
                        | inl _ => mkTradesList (trSymbol trade) [] 0 time_zero
                        end in
      trades ← truncate (trade :: tlTrades tradesList) limit;
      let tradesList := stamp (mkTradesList (tlSymbol tradesList) trades 0 time_zero) (clock i) in
      match rc_SetJSON now key (AOther (list_enc tradesList)) ttl db1 with
      | (Some err, db2) =>
          Some (Some (ErrWrap ("failed to append trade to cache (limit " ++ Itoa limit ++ ")") err), db2)
      | (None, db2) => append_limits tc now clock (S i) trade rest ttl db2
      end
  end.
Definition AppendTrade (tc : TradesCache) (now : Z) (clock : nat -> Z) (trade : Trade) (limits : list Z) (ttl : Z)
    (db : rdb) : option (option error * rdb) :=
  append_limits tc now clock 0 trade limits (ttl_or tc ttl) db.

Definition GetTradeByID (tc : TradesCache) (now : Z) (tradeID : uuid) (db : rdb) : result Trade * rdb :=
  match rc_GetJSON trade_dec now (OrderKey (tcKeyBuilder tc) (uuid_String tradeID)) db with
  | (inl err, db1) => (inl (ErrWrap ("trade cache miss for " ++ uuid_String tradeID) err), db1)
  | (inr trade, db1) => (inr trade, db1)
  end.

Definition SetTradeByID (tc : TradesCache) (now : Z) (trade : Trade) (ttl : Z) (db : rdb) : option error * rdb :=
  let key := OrderKey (tcKeyBuilder tc) (uuid_String (trTradeID trade)) in
  match rc_SetJSON now key (AOther (trade_enc trade)) (ttl_or tc ttl) db with
  | (Some err, db1) => (Some (ErrWrap ("failed to cache trade " ++ uuid_String (trTradeID trade)) err), db1)
  | (None, db1) => (None, db1)
  end.

Record TradesStats := mkTradesStats {
  tsSymbol : string;
  tsCachedLimits : list Z;
  tsLatestCached : bool;
  tsLatestCount : Z;
  tsLatestTTL : Z;
  tsLastUpdate : Z;
}.

Fixpoint cached_limits (tc : TradesCache) (now : Z) (symbol : string) (checkLimits : list Z) (db : rdb)
    : list Z * rdb :=
  match checkLimits with
  | [] => ([], db)
  | limit :: rest =>
      match rc_Exists now (TradesKey (tcKeyBuilder tc) symbol limit) db with
      | (inr true, db1) => let '(l, db2) := cached_limits tc now symbol rest db1 in (limit :: l, db2)
      | (_, db1) => cached_limits tc now symbol rest db1
      end
  end.

Definition GetTradesStats (tc : TradesCache) (now : Z) (symbol : string) (checkLimits : list Z) (db : rdb)
    : TradesStats * rdb :=
  let '(limits, db1) := cached_limits tc now symbol checkLimits db in
  let latestKey := TradesLatestKey (tcKeyBuilder tc) symbol in
  match rc_Exists now latestKey db1 with
  | (inr true, db2) =>
      let '(ttl, db3) := ttl_or_zero now latestKey db2 in
      match GetLatestTrades tc now symbol db3 with
      | (inr l, db4) => (mkTradesStats symbol limits true (tlCount l) ttl (tlTimestamp l), db4)
      | (inl _, db4) => (mkTradesStats symbol limits true 0 ttl time_zero, db4)
      end
  | (_, db2) => (mkTradesStats symbol limits false 0 0 time_zero, db2)
  end.

(** One list of [WarmCache]: every limit in turn, on the list the previous one
    left, which stores into the caller's record. *)
Fixpoint warm_limits (tc : TradesCache) (now : Z) (clock : nat -> Z) (i : nat) (l : TradesList) (limits : list Z)
    (ttl : Z) (db : rdb) : option (option error * TradesList * rdb) :=
  match limits with
  | [] => Some (None, l, db)
  | limit :: rest =>
      '(r, l1, db1) ← SetTrades tc now (clock i) l limit ttl db;
      match r with
      | Some err =>
          Some (Some (ErrWrap ("failed to warm cache for " ++ tlSymbol l1 ++ " (limit " ++ Itoa limit ++ ")") err), l1, db1)
      | None => warm_limits tc now clock (S i) l1 rest ttl db1
      end
  end.
Fixpoint warm_lists (tc : TradesCache) (now : Z) (clock : nat -> Z) (i : nat) (lists : list TradesList)
    (limits : list Z) (ttl : Z) (db : rdb) : option (option error * rdb) :=
  match lists with
  | [] => Some (None, db)
  | l :: rest =>
      '(r, l1, db1) ← warm_limits tc now clock i l limits ttl db;
      match r with
      | Some err => Some (Some err, db1)
      | None =>
          let '(_, _, db2) := SetLatestTrades tc now (clock (i + length limits)) l1 ttl db1 in
          warm_lists tc now clock (S (i + length limits)) rest limits ttl db2
      end
  end.
Definition trades_WarmCache (tc : TradesCache) (now : Z) (clock : nat -> Z) (lists : list TradesList)
    (limits : list Z) (ttl : Z) (db : rdb) : option (option error * rdb) :=
  warm_lists tc now clock 0 lists limits (ttl_or tc ttl) db.

(** *** Queries over the cached trades *)

Definition After (t u : Z) : bool := (u <? t)%Z.

(** The loop of [GetRecentTradesSince], which looks at the limit after every
    trade it took. *)
Fixpoint recent_since (since limit : Z) (filtered : list Trade) (trades : list Trade) : list Trade :=
  match trades with
  | [] => filtered
  | tr :: rest =>
      if After (trTimestamp tr) since then
        let filtered := (filtered ++ [tr])%list in
        if (Z.of_nat (length filtered) >=? limit)%Z then filtered else recent_since since limit filtered rest
      else recent_since since limit filtered rest
  end.
Definition GetRecentTradesSince (tc : TradesCache) (now : Z) (symbol : string) (since limit : Z) (db : rdb)
    : result (list Trade) * rdb :=
  match GetLatestTrades tc now symbol db with
  | (inl err, db1) => (inl err, db1)
  | (inr l, db1) => (inr (recent_since since limit [] (tlTrades l)), db1)
  end.

Definition volume_of (cutoff : Z) (trades : list Trade) : decimal :=
  foldl (fun volume tr => if After (trTimestamp tr) cutoff then decimal_Add volume (trQuantity tr) else volume)
    decimal_Zero trades.
Definition GetTradeVolume (tc : TradesCache) (now t : Z) (symbol : string) (duration : Z) (db : rdb)
    : result decimal * rdb :=
  match GetLatestTrades tc now symbol db with
  | (inl err, db1) => (inl err, db1)
  | (inr l, db1) => (inr (volume_of (t - duration) (tlTrades l)), db1)
  end.

Definition value_of (cutoff : Z) (trades : list Trade) : decimal :=
  foldl (fun value tr =>
           if After (trTimestamp tr) cutoff then decimal_Add value (decimal_Mul (trPrice tr) (trQuantity tr)) else value)
    decimal_Zero trades.
Definition vwap (cutoff : Z) (trades : list Trade) : decimal :=
  let totalVolume := volume_of cutoff trades in
  if decimal_IsZero totalVolume then decimal_Zero else decimal_Div (value_of cutoff trades) totalVolume.
Definition GetVWAP (tc : TradesCache) (now t : Z) (symbol : string) (duration : Z) (db : rdb)
    : result decimal * rdb :=
  match GetLatestTrades tc now symbol db with
  | (inl err, db1) => (inl err, db1)
  | (inr l, db1) => (inr (vwap (t - duration) (tlTrades l)), db1)
  end.

(** The first loop of [BatchSetTrades] over the map in one order. *)
Fixpoint batch_pairs (tc : TradesCache) (clock : nat -> Z) (i : nat) (lists : list (string * TradesList))
    : list (string * any) :=
  match lists with
  | [] => []
  | (symbol, l) :: rest =>
      (TradesLatestKey (tcKeyBuilder tc) symbol, AOther (list_enc (stamp l (clock i))))
        :: batch_pairs tc clock (S i) rest
  end.

(** [order] and [order'] are the orders in which the ranges over [pairs] in
    [MSet] and in the last loop visit it. *)
Definition BatchSetTrades (tc : TradesCache) (now : Z) (clock : nat -> Z)
    (order order' : list (string * any) -> list (string * any))
    (tradesMap : list (string * TradesList)) (ttl : Z) (db : rdb) : option error * rdb :=
  let pairs := batch_pairs tc clock 0 tradesMap in
  match rc_MSet now (order pairs) db with
  | (Some err, db1) => (Some (ErrWrap "failed to batch set trades" err), db1)
  | (None, db1) =>
      (None, foldl (fun db kv => (rc_Expire now kv.1 (ttl_or tc ttl) db).2) db1 (order' pairs))
  end.
End cache.
