(* ===== verification/CacheTheorems.v ===== *)
(** * Theorems about the caches

    What a cache returns is what was stored, until it expires or is
    invalidated; appending keeps the newest trades; the compact form; the
    volume-weighted average price; what warming a cache stores. *)

From Stdlib Require Import Ascii String.
From S2P Require Import Prelude.
From S2P Require Import Float.
From S2P Require Import Web.
From S2P Require Import Json.
From S2P Require Import Text.
From S2P Require Import External.
From S2P Require Import Models.
From S2P Require Import Sql.
From S2P Require Import Redis.
From S2P Require Import RedisFacts.
From S2P Require Import Cache.

Local Open Scope string_scope.

(** Evaluate the comparisons of field names. *)
Ltac names :=
  repeat match goal with
  | |- context [same_name ?a ?b] => let v := eval vm_compute in (same_name a b) in change (same_name a b) with v
  end; cbn iota.

(** One member of a struct. *)
Lemma dec_step {A} (field : string -> json -> A -> option A) k x m a a' :
  field k x a = Some a' -> dec_members field ((k, x) :: m) a = dec_members field m a'.
Proof. intros Hf. cbn [dec_members]. by rewrite Hf. Qed.

(** Decode the next member: [tac] reads its value. *)
Ltac member tac :=
  erewrite dec_step;
  [|unfold level_field, snapshot_field, trade_field, list_field; names; cbn [dec_string dec_time cpPrice cpQuantity cpOrders]; tac; cbn [mbind option_bind]; reflexivity].

Section codecs.
Context `{DecimalSpec, UuidSpec, TimeTextSpec}.

Definition int64 (z : Z) : Prop := (- 2 ^ 63 <= z < 2 ^ 63)%Z.

(** Text that is valid UTF-8 is decoded to itself. *)
Definition utf8_text (s : string) : Prop := decode_text s = s.

(** ** Equal up to the representation of decimals *)

Record same_level (a b : PriceLevel) : Prop := {
  sl_price : cpPrice a ≐ cpPrice b;
  sl_quantity : cpQuantity a ≐ cpQuantity b;
  sl_orders : cpOrders a = cpOrders b;
}.

Record same_snapshot (a b : OrderbookSnapshot) : Prop := {
  ss_symbol : csSymbol a = csSymbol b;
  ss_bids : Forall2 same_level (csBids a) (csBids b);
  ss_asks : Forall2 same_level (csAsks a) (csAsks b);
  ss_timestamp : csTimestamp a = csTimestamp b;
  ss_sequence : csSequence a = csSequence b;
}.

Record same_trade (a b : Trade) : Prop := {
  st_id : trTradeID a = trTradeID b;
  st_symbol : trSymbol a = trSymbol b;
  st_buy : trBuyOrderID a = trBuyOrderID b;
  st_sell : trSellOrderID a = trSellOrderID b;
  st_price : trPrice a ≐ trPrice b;
  st_quantity : trQuantity a ≐ trQuantity b;
  st_timestamp : trTimestamp a = trTimestamp b;
  st_side : trSide a = trSide b;
}.


(** What JSON keeps: texts that are UTF-8 and integers of 64 bits. *)
Definition level_ok (l : PriceLevel) : Prop := int64 (cpOrders l).
Record snapshot_ok (s : OrderbookSnapshot) : Prop := {
  so_symbol : utf8_text (csSymbol s);
  so_bids : Forall level_ok (csBids s);
  so_asks : Forall level_ok (csAsks s);
  so_sequence : int64 (csSequence s);
}.

(** ** Round trips *)

Lemma dec_decimal_enc old d : exists d', dec_decimal old (enc_decimal d) = Some d' /\ d' ≐ d.
Proof. apply NewFromString_String. Qed.

Lemma dec_int_Itoa old z : int64 z -> dec_int old (JNum (Itoa z)) = Some z.
Proof. apply Atoi_Itoa. Qed.


Lemma level_round_trip l : level_ok l -> exists l', level_dec (level_enc l) = Some l' /\ same_level l' l.
Proof.
  intros Hl. unfold level_dec, level_enc. destruct (dec_decimal_enc decimal_Zero (cpPrice l)) as (p & Hp & Hpe).
  destruct (dec_decimal_enc decimal_Zero (cpQuantity l)) as (q & Hq & Hqe).
  cbn [app dec_struct]. unfold level_zero. member ltac:(rewrite Hp). member ltac:(rewrite Hq).
  destruct (Z.eqb_spec (cpOrders l) 0) as [Hz|Hne].
  - eexists. split; [done|]. by split; cbn.
  - member ltac:(rewrite dec_int_Itoa by done). eexists. split; [done|]. by split; cbn.
Qed.

Lemma slice_round_trip {A} (P : A -> Prop) (R : A -> A -> Prop) (enc : A -> json) (dec : json -> option A) l :
  (forall x, P x -> exists x', dec (enc x) = Some x' /\ R x' x) -> Forall P l ->
  exists l', dec_slice dec (JArr (enc <$> l)) = Some l' /\ Forall2 R l' l.
Proof.
  intros Hx Hl. cbn [dec_slice]. induction Hl as [|x l Hp _ IH]; [exists []; split; [done|constructor]|].
  destruct (Hx x Hp) as (x' & Hd & HR). destruct IH as (l' & Hm & HRs).
  exists (x' :: l'). split; [|by constructor]. rewrite fmap_cons. cbn [mapM]. rewrite Hd. cbn [mbind option_bind].
  by rewrite Hm.
Qed.

Lemma snapshot_enc_inv s j : snapshot_enc s = inr j -> exists t, time_UnmarshalJSON t = Some (csTimestamp s) /\
  j = JObj ([("symbol", JStr (csSymbol s)); ("bids", JArr (level_enc <$> csBids s));
             ("asks", JArr (level_enc <$> csAsks s)); ("timestamp", JStr t)]
            ++ (if (csSequence s =? 0)%Z then [] else [("sequence", JNum (Itoa (csSequence s)))]))%list.
Proof.
  unfold snapshot_enc. destruct (time_MarshalJSON (csTimestamp s)) as [|t] eqn:Ht; [done|]. intros; simplify_eq.
  exists t. split; [by apply time_round_trip|done].
Qed.

Lemma snapshot_json_round_trip s j : snapshot_ok s -> snapshot_enc s = inr j ->
  exists s', snapshot_dec j = Some s' /\ same_snapshot s' s.
Proof.
  intros [Hsym Hbids Hasks Hseq] Hj. apply snapshot_enc_inv in Hj as (t & Ht & ->).
  destruct (slice_round_trip level_ok same_level level_enc level_dec _ level_round_trip Hbids) as (bs & Hbs & HRb).
  destruct (slice_round_trip level_ok same_level level_enc level_dec _ level_round_trip Hasks) as (as_ & Has & HRa).
  unfold snapshot_dec. cbn [app dec_struct]. member ltac:(rewrite Hsym).
  member ltac:(rewrite Hbs). member ltac:(rewrite Has).
  member ltac:(rewrite Ht). destruct (Z.eqb_spec (csSequence s) 0) as [Hz|Hne].
  - eexists. split; [done|]. by split; cbn.
  - member ltac:(rewrite dec_int_Itoa by done). eexists. split; [done|]. by split; cbn.
Qed.





(** The documents are valid. *)
Lemma level_enc_ok l : numbers_ok (level_enc l) = true.
Proof.
  unfold level_enc. destruct (cpOrders l =? 0)%Z; [done|]. cbn [app numbers_ok forallb snd].
  by rewrite (proj1 (Itoa_number _)).
Qed.

Lemma levels_enc_ok ls : forallb numbers_ok (level_enc <$> ls) = true.
Proof. induction ls as [|l ls IH]; [done|]. rewrite fmap_cons. cbn [forallb]. by rewrite level_enc_ok. Qed.

Lemma snapshot_enc_ok s j : snapshot_enc s = inr j -> numbers_ok j = true.
Proof.
  intros Hj. apply snapshot_enc_inv in Hj as (t & _ & ->).
  destruct (csSequence s =? 0)%Z; cbn [app numbers_ok forallb snd]; rewrite !levels_enc_ok; [done|].
  by rewrite (proj1 (Itoa_number _)).
Qed.


End codecs.

(** ** Storing and reading *)

Section storing.
Context `{RedisServerSpec}.

(** A stored document is read back until it expires. *)
Lemma json_round_trip {A} (dec : json -> option A) j x now now' k ttl db db1 r db2 :
  rc_SetJSON now k (AOther (inr j)) ttl db = (None, db1) -> numbers_ok j = true -> dec j = Some x ->
  (0 < ttl)%Z -> (now <= now')%Z -> rc_GetJSON dec now' k db1 = (r, db2) ->
  (exists e, r = inl (ErrWrap ("failed to get key " ++ k) e)) \/
  r = if (now' <? now + px ttl)%Z then inr x else inl (ErrText ("key not found: " ++ k)).
Proof.
  intros Hs Hj Hd Hpos Hle Hg. apply rc_SetJSON_view in Hs; [|lia].
  apply rc_GetJSON_cases in Hg as [_ [?|Hg]]; [by left|right].
  rewrite (rview_later _ _ _ Hle), Hs in Hg.
  assert (expiry_of now ttl = Some (now + px ttl)%Z) as Hexp by (unfold expiry_of; by destruct (Z.ltb_spec 0 ttl); [|lia]).
  rewrite Hexp in Hg. set (e := mkEntry _ _) in Hg.
  assert (live now' e <-> (now' < now + px ttl)%Z) as Hlive.
  { unfold live, e. cbn. split; [auto|intros ? ? ?; by simplify_eq]. }
  destruct (Z.ltb_spec now' (now + px ttl)) as [Hlt|Hge].
  - assert (alive now' (<[k := e]> (rview db now)) !! k = Some e) as Hk
      by (apply alive_lookup; rewrite lookup_insert_eq; tauto).
    rewrite Hk in Hg. cbn [enValue e] in Hg. rewrite json_Unmarshal_Marshal in Hg by done. cbn in Hg. by rewrite Hd in Hg.
  - assert (alive now' (<[k := e]> (rview db now)) !! k = None) as Hk.
    { apply eq_None_not_Some. intros [e' He']. apply alive_lookup in He' as [He' Hl]. rewrite lookup_insert_eq in He'.
      assert (e' = e) as -> by congruence. pose proof (proj1 Hlive Hl). lia. }
    by rewrite Hk in Hg.
Qed.
End storing.

Section theorems.
Context `{DecimalSpec, UuidSpec, TimeTextSpec, RedisServerSpec}.
Implicit Types (db : rdb) (oc : OrderbookCache) (tc : TradesCache).

Definition book_ttl oc (ttl : Z) : Z := if (ttl =? 0)%Z then ocTTL oc else ttl.

(** C33: the order-book cache returns what it stored.  After [SetOrderbook]
    succeeded, [GetOrderbook] for the symbol at a later time returns the
    snapshot with the time it was stored until the time to live has passed and
    reports a miss from then on, unless the server cannot be reached. *)
Theorem orderbook_cache_round_trip oc now now' t s ttl db s1 db1 r db2 :
  SetOrderbook oc now t s ttl db = (None, s1, db1) -> snapshot_ok s -> (0 < book_ttl oc ttl)%Z -> (now <= now')%Z ->
  GetOrderbook oc now' (csSymbol s) db1 = (r, db2) ->
  (exists e, r = inl (ErrWrap ("orderbook cache miss for " ++ csSymbol s)
                     (ErrWrap ("failed to get key " ++ OrderbookKey (ocKeyBuilder oc) (csSymbol s)) e))) \/
  if (now' <? now + px (book_ttl oc ttl))%Z then
    exists s2, r = inr s2 /\ same_snapshot s2 (set_csTimestamp s t)
  else r = inl (ErrWrap ("orderbook cache miss for " ++ csSymbol s)
                  (ErrText ("key not found: " ++ OrderbookKey (ocKeyBuilder oc) (csSymbol s)))).
Proof.
  unfold SetOrderbook. fold (book_ttl oc ttl). cbn zeta. cbn [csSymbol set_csTimestamp]. intros Hset Hok Hpos Hle Hget.
  destruct (snapshot_enc (set_csTimestamp s t)) as [err|j] eqn:Hj; [done|].
  destruct (rc_SetJSON now (OrderbookKey (ocKeyBuilder oc) (csSymbol s)) (AOther (inr j)) (book_ttl oc ttl) db)
    as [[err|] db1'] eqn:Hs; simplify_eq.
  assert (snapshot_ok (set_csTimestamp s t)) as Hok' by (by destruct Hok).
  destruct (snapshot_json_round_trip _ _ Hok' Hj) as (s2 & Hd & Hsame).
  unfold GetOrderbook in Hget. destruct (rc_GetJSON snapshot_dec now' _ db1) as [rg db3] eqn:Hg.
  destruct (json_round_trip snapshot_dec j s2 _ _ _ _ _ _ _ _ Hs (snapshot_enc_ok _ _ Hj) Hd Hpos Hle Hg) as [[e ->]| ->].
  - left. exists e. by simplify_eq.
  - right. destruct (now' <? now + px (book_ttl oc ttl))%Z; simplify_eq; eauto.
Qed.

(** ** Invalidation *)

Lemma orderbook_deleted oc now symbol db :
  let k1 := OrderbookKey (ocKeyBuilder oc) symbol in
  let k2 := OrderbookTopKey (ocKeyBuilder oc) symbol in
  (rc_Delete now k1 db).1 = None -> (rc_Delete now k2 (rc_Delete now k1 db).2).1 = None ->
  rview (InvalidateOrderbook oc now symbol db) now = delete k2 (delete k1 (rview db now)).
Proof.
  cbn zeta. unfold InvalidateOrderbook. cbn [foldl].
  destruct (rc_Delete now (OrderbookKey _ symbol) db) as [r1 db1] eqn:Hd1. cbn [fst snd].
  destruct (rc_Delete now (OrderbookTopKey _ symbol) db1) as [r2 db2] eqn:Hd2. cbn [fst snd]. intros -> ->.
  apply rc_Delete_cases in Hd1 as [[_ Hd1]|[? _]]; [|done]. apply rc_Delete_cases in Hd2 as [[_ Hd2]|[? _]]; [|done].
  by rewrite Hd2, Hd1.
Qed.

(** Invalidating a symbol touches its two keys only, and reports no error even
    when the server did not answer; when it did, both reads miss. *)
Theorem orderbook_invalidation oc now symbol db :
  let k1 := OrderbookKey (ocKeyBuilder oc) symbol in
  let k2 := OrderbookTopKey (ocKeyBuilder oc) symbol in
  let m := rview db now in
  let m' := rview (InvalidateOrderbook oc now symbol db) now in
  (forall k, k <> k1 -> k <> k2 -> m' !! k = m !! k) /\
  ((rc_Delete now k1 db).1 = None -> (rc_Delete now k2 (rc_Delete now k1 db).2).1 = None ->
   m' = delete k2 (delete k1 m)).
Proof.
  cbn zeta. split; [|apply orderbook_deleted]. unfold InvalidateOrderbook. cbn [foldl].
  destruct (rc_Delete now (OrderbookKey _ symbol) db) as [r1 db1] eqn:Hd1. cbn [fst snd].
  destruct (rc_Delete now (OrderbookTopKey _ symbol) db1) as [r2 db2] eqn:Hd2. cbn [fst snd].
  apply rc_Delete_cases in Hd1, Hd2. intros k Hk1 Hk2.
  assert (forall k' (m1 m2 : database), k <> k' -> m2 = m1 \/ m2 = delete k' m1 -> m2 !! k = m1 !! k) as Hone.
  { intros k' m1 m2 Hk' [->| ->]; [done|]. by rewrite lookup_delete_ne. }
  rewrite (Hone _ (rview db1 now) _ Hk2) by (by destruct Hd2 as [[_ ?]|[_ ?]]; auto).
  apply (Hone _ _ _ Hk1). destruct Hd1 as [[_ ?]|[_ ?]]; auto.
Qed.

(** What lies under a prefix. *)
Definition outside (p : string) (m : database) : database := filter (fun kv => String.prefix p kv.1 = false) m.

Lemma unmatched_prefix p m : glob_plain p = true -> unmatched (p ++ "*") m = outside p m.
Proof.
  intros Hp. apply map_filter_ext. intros k e _. cbn. by rewrite glob_prefix.
Qed.

Definition trades_prefix (symbol : string) : string := "trading:trades:" ++ symbol ++ ":".

(** Invalidating the trades of a symbol without special characters ends, and
    removes exactly the keys under the symbol's prefix, or reports an error. *)
Lemma InvalidateTrades_cases now symbol db : glob_plain symbol = true ->
  exists n, forall fuel, n <= fuel -> exists r db',
    InvalidateTrades fuel now symbol db = Some (r, db') /\
    (r = None -> rview db' now = outside (trades_prefix symbol) (rview db now)) /\
    (rview db' now = rview db now \/ rview db' now = outside (trades_prefix symbol) (rview db now)).
Proof.
  intros Hsym. destruct (DeletePattern_cases now (trades_prefix symbol ++ "*") db) as [n Hn].
  exists n. intros fuel Hf. destruct (Hn fuel Hf) as (r & db' & Hd & Hr).
  rewrite unmatched_prefix in Hr.
  2: { unfold trades_prefix. rewrite !glob_plain_app, Hsym. done. }
  unfold InvalidateTrades. cbn [delete_patterns].
  replace ("trading:trades:" ++ symbol ++ ":*") with (trades_prefix symbol ++ "*")
    by (unfold trades_prefix; by rewrite !str_app_assoc).
  rewrite Hd. cbn [mbind option_bind]. destruct Hr as [[-> Hv]|[Hne Hv]].
  - eexists _, _. split; [done|]. auto.
  - destruct r as [err|]; [|done]. eexists _, _. split; [done|]. split; [done|]. done.
Qed.

Lemma trades_key_prefix symbol limit : String.prefix (trades_prefix symbol) (TradesKey trading symbol limit) = true.
Proof.
  replace (TradesKey trading symbol limit) with (trades_prefix symbol ++ Itoa limit); [apply prefix_app|].
  unfold trades_prefix. rewrite !str_app_assoc. done.
Qed.

(** Under the prefix of another symbol there is no key of this one. *)
Lemma prefix_other a b x : no_colon a = true -> no_colon b = true -> a <> b ->
  String.prefix (trades_prefix a) ("trading:trades:" ++ b ++ ":" ++ x) = false.
Proof.
  intros Ha Hb Hne. apply not_true_is_false. intros [y Hy]%prefix_app_inv.
  unfold trades_prefix in Hy. rewrite !str_app_assoc in Hy. apply (inj _) in Hy.
  apply split_at_colon in Hy as [? _]; [|done..]. by subst.
Qed.

(** The trades of a symbol are gone after their invalidation, for every limit
    and for the latest list, and those of other symbols are untouched. *)
Theorem trades_invalidation now symbol db :
  glob_plain symbol = true -> no_colon symbol = true ->
  exists n, forall fuel, n <= fuel -> exists r db',
    InvalidateTrades fuel now symbol db = Some (r, db') /\
    (r = None -> forall limit, rview db' now !! TradesKey trading symbol limit = None /\
                               rview db' now !! TradesLatestKey trading symbol = None) /\
    (forall other limit, no_colon other = true -> other <> symbol ->
       rview db' now !! TradesKey trading other limit = rview db now !! TradesKey trading other limit /\
       rview db' now !! TradesLatestKey trading other = rview db now !! TradesLatestKey trading other).
Proof.
  intros Hg Hc. destruct (InvalidateTrades_cases now symbol db Hg) as [n Hn]. exists n. intros fuel Hf.
  destruct (Hn fuel Hf) as (r & db' & Hd & Hr & Hv). exists r, db'. split; [done|].
  assert (forall p k (m : database), String.prefix p k = true -> outside p m !! k = None) as Hgone.
  { intros p k m Hp. apply map_lookup_filter_None. right. intros e _ Hf'. cbn in Hf'. congruence. }
  assert (forall p k (m : database), String.prefix p k = false -> outside p m !! k = m !! k) as Hkept.
  { intros p k m Hp. apply option_eq. intros e. unfold outside. rewrite map_lookup_filter_Some. tauto. }
  split.
  - intros Hnone limit. rewrite (Hr Hnone). split; apply Hgone; [apply trades_key_prefix|].
    replace (TradesLatestKey trading symbol) with (trades_prefix symbol ++ "latest"); [apply prefix_app|].
    unfold trades_prefix. by rewrite !str_app_assoc.
  - intros other limit Ho Hne.
    assert (forall x, rview db' now !! ("trading:trades:" ++ other ++ ":" ++ x)
                      = rview db now !! ("trading:trades:" ++ other ++ ":" ++ x)) as Hx.
    { intros x. destruct Hv as [->| ->]; [done|]. apply Hkept, prefix_other; [done..|congruence]. }
    split; [apply (Hx (Itoa limit))|apply (Hx "latest")].
Qed.
(** ** Appending trades *)






#[local] Instance same_trade_trans : Transitive same_trade.
Proof. intros a b c [] []. split; etransitivity; eassumption. Qed.
#[local] Instance same_trade_refl : Reflexive same_trade.
Proof. by split. Qed.


Lemma truncate_take {A} (l : list A) n : (0 <= n)%Z -> truncate l n = Some (take (Z.to_nat n) l).
Proof.
  intros Hn. unfold truncate. destruct (Z.gtb_spec (Z.of_nat (length l)) n); [by destruct (Z.ltb_spec n 0); [lia|]|].
  by rewrite take_ge by lia.
Qed.





(** ** Warming the trades cache *)

(** Every limit truncates the caller's list for the next one. *)
Lemma warm_limits_trades tc now clock i l limits ttl db l' db' :
  warm_limits tc now clock i l limits ttl db = Some (None, l', db') -> Forall (fun n => 0 <= n)%Z limits ->
  tlTrades l' = foldl (fun trades n => take (Z.to_nat n) trades) (tlTrades l) limits.
Proof.
  intros Hw Hn. revert i l db Hw. induction Hn as [|n limits Hn _ IH]; intros i l db Hw; cbn [warm_limits foldl] in *;
    [by simplify_eq|].
  unfold SetTrades in Hw. rewrite truncate_take in Hw by done. cbn [mbind option_bind] in Hw.
  destruct (rc_SetJSON _ _ _ _ _) as [[err|] db1]; [done|]. cbn in Hw. by rewrite (IH _ _ _ Hw).
Qed.

(** After warming a cache, the lists of larger limits and the latest list are
    no longer than the smallest limit that came before them. *)
Lemma warm_shrinks tc now clock i l limits ttl db l' db' :
  warm_limits tc now clock i l limits ttl db = Some (None, l', db') -> Forall (fun n => 0 <= n)%Z limits ->
  forall limit, limit ∈ limits -> (Z.of_nat (length (tlTrades l')) <= limit)%Z.
Proof.
  intros Hw Hn limit Hin. rewrite (warm_limits_trades _ _ _ _ _ _ _ _ _ _ Hw Hn). generalize (tlTrades l).
  assert (forall trs k, length (foldl (fun trades n => take (Z.to_nat n) trades) trs k) <= @length Trade trs) as Hle.
  { intros trs k. revert trs. induction k as [|n k IH]; intros trs; [done|]. cbn [foldl].
    eapply Nat.le_trans; [apply IH|]. rewrite length_take. lia. }
  clear Hw. induction Hn as [|n limits Hn0 _ IH]; intros trs; [by apply not_elem_of_nil in Hin|].
  apply elem_of_cons in Hin as [->|Hin]; cbn [foldl]; [|by apply IH].
  pose proof (Hle (take (Z.to_nat n) trs) limits) as Hl. rewrite length_take in Hl. lia.
Qed.

(** ** Averages *)

Definition window (cutoff : Z) (trs : list Trade) : list Trade := filter (fun tr => (cutoff < trTimestamp tr)%Z) trs.
Definition quantity_sum (trs : list Trade) : Q := Qsum ((fun tr => dval (trQuantity tr)) <$> trs).
Definition value_sum (trs : list Trade) : Q := Qsum ((fun tr => dval (trPrice tr) * dval (trQuantity tr))%Q <$> trs).

(** A sum over the window, trade by trade. *)
Lemma window_fold (f : Trade -> decimal) cutoff trs acc :
  (dval (foldl (fun a tr => if After (trTimestamp tr) cutoff then decimal_Add a (f tr) else a) acc trs) ==
   dval acc + Qsum ((fun tr => dval (f tr)) <$> window cutoff trs))%Q.
Proof.
  revert acc. induction trs as [|tr trs IH]; intros acc; cbn [foldl]; [unfold Qsum; cbn; lra|].
  rewrite IH. unfold window, After. rewrite filter_cons. destruct (Z.ltb_spec cutoff (trTimestamp tr)); case_decide; try lia.
  - rewrite fmap_cons, dval_Add. change (Qsum (?q :: ?l)) with (q + Qsum l)%Q. cbn beta. lra.
  - reflexivity.
Qed.

Lemma volume_of_sum cutoff trs : (dval (volume_of cutoff trs) == quantity_sum (window cutoff trs))%Q.
Proof. unfold volume_of. rewrite window_fold, dval_Zero. unfold quantity_sum. lra. Qed.

Lemma value_of_sum cutoff trs : (dval (value_of cutoff trs) == value_sum (window cutoff trs))%Q.
Proof.
  unfold value_of. rewrite (window_fold (fun tr => decimal_Mul (trPrice tr) (trQuantity tr))), dval_Zero. unfold value_sum.
  rewrite (Qsum_ext _ (fun tr => dval (trPrice tr) * dval (trQuantity tr))%Q); [lra|]. intros tr _. apply dval_Mul.
Qed.

(** Prices between two bounds keep the value between the bounds of the volume. *)
Lemma value_between lo hi trs :
  (forall tr, tr ∈ trs -> 0 <= dval (trQuantity tr) /\ lo <= dval (trPrice tr) <= hi)%Q ->
  (lo * quantity_sum trs <= value_sum trs <= hi * quantity_sum trs)%Q.
Proof.
  unfold quantity_sum, value_sum. induction trs as [|tr trs IH]; intros Hb; [unfold Qsum; cbn; lra|].
  destruct (Hb tr ltac:(by left)) as [Hq [Hl Hh]]. specialize (IH (fun x Hx => Hb x ltac:(by right))).
  rewrite !fmap_cons. change (Qsum (?q :: ?l)) with (q + Qsum l)%Q. cbn beta.
  set (q := dval (trQuantity tr)) in *. set (p := dval (trPrice tr)) in *. split; nra.
Qed.

(** The volume-weighted average price.  It is zero without volume in the
    window, and otherwise the value divided by the volume up to the precision of
    division; with quantities that are not negative it lies between the lowest
    and the highest price of the window. *)
Theorem vwap_average cutoff trs lo hi :
  (forall tr, tr ∈ window cutoff trs -> 0 <= dval (trQuantity tr) /\ lo <= dval (trPrice tr) <= hi)%Q ->
  let v := quantity_sum (window cutoff trs) in
  ((v == 0)%Q -> vwap cutoff trs = decimal_Zero) /\
  ((0 < v)%Q -> Qabs (dval (vwap cutoff trs) - value_sum (window cutoff trs) / v) <= 1 # 10 ^ 16 /\
                lo - (1 # 10 ^ 16) <= dval (vwap cutoff trs) <= hi + (1 # 10 ^ 16))%Q.
Proof.
  intros Hb v. unfold vwap. pose proof (volume_of_sum cutoff trs) as Hvol. fold v in Hvol.
  destruct (IsZero_spec (volume_of cutoff trs)) as [Hz|Hz]; (split; [intros Hv|intros Hv]); try done.
  - lra.
  - destruct Hz. lra.
  - pose proof (dval_Div (value_of cutoff trs) (volume_of cutoff trs) Hz) as Hdiv. rewrite Hvol, value_of_sum in Hdiv.
    destruct (value_between lo hi _ Hb) as [Hlo Hhi]. fold v in Hlo, Hhi.
    assert (lo <= value_sum (window cutoff trs) / v <= hi)%Q as [Hl Hh].
    { split; [apply Qle_shift_div_l|apply Qle_shift_div_r]; done. }
    split; [exact Hdiv|]. apply Qabs.Qabs_Qle_condition in Hdiv. lra.
Qed.

(** ** The compact form *)

Lemma plain_ascii s : plain_text s = true -> is_ascii s = true.
Proof.
  unfold is_ascii, code. induction s as [|c s IH]; [done|]. cbn [plain_text list_ascii_of_string forallb].
  intros [Hc Hs]%andb_prop. rewrite IH by done. rewrite andb_true_r. apply Z.ltb_lt.
  apply orb_prop in Hc as [[Hc|Hc]%orb_prop|Hc]; apply bool_decide_eq_true in Hc; lia.
Qed.

Lemma read_decimal d : default decimal_Zero (decimal_NewFromString (decode_text (decimal_String d))) ≐ d.
Proof.
  rewrite decode_text_ascii by (apply plain_ascii, String_plain).
  by destruct (NewFromString_String d) as (d' & -> & Hd).
Qed.

(** A level without its count. *)
Definition bare (l : PriceLevel) : PriceLevel := mkPriceLevel (cpPrice l) (cpQuantity l) 0.

Lemma compact_levels ls : exists ls',
  convertArraysToPriceLevels ((fun a => JArr (JStr <$> a)) <$> convertPriceLevelsToArrays ls) = Some ls' /\
  Forall2 same_level ls' (bare <$> ls).
Proof.
  unfold convertArraysToPriceLevels, convertPriceLevelsToArrays. induction ls as [|l ls (ls' & Hm & HR)].
  { exists []. split; [done|constructor]. }
  eexists (_ :: ls'). rewrite !fmap_cons. cbn [mapM fmap list_fmap convert_pair mbind option_bind]. rewrite Hm. split; [reflexivity|].
  constructor; [|done]. split; cbn; [apply read_decimal..|done].
Qed.

Lemma compact_number m k z : (Z.abs z <= 2 ^ 53)%Z -> json_get m k = Some (JNum (Itoa z)) -> float_member m k = Some z.
Proof.
  intros Hz Hk. unfold float_member. rewrite Hk. destruct (Itoa_number z) as (_ & q & -> & Hq).
  cbn. f_equal. by apply trunc_count.
Qed.

(** The compact form keeps the symbol, the prices and quantities of every
    level, the sequence number and the time to the second, for numbers a
    float64 holds; it drops the counts of orders. *)
Theorem compact_round_trip s :
  utf8_text (csSymbol s) -> (Z.abs (csSequence s) <= 2 ^ 53)%Z -> (Z.abs (time_Unix (csTimestamp s)) <= 2 ^ 53)%Z ->
  exists s', DeserializeOrderbookCompact (SerializeOrderbookCompact s) = Some (inr s') /\
    same_snapshot s' (mkOrderbookSnapshot (csSymbol s) (bare <$> csBids s) (bare <$> csAsks s)
                        (time_Unix (csTimestamp s) * second) (csSequence s)).
Proof.
  intros Hsym Hseq Ht. unfold SerializeOrderbookCompact, DeserializeOrderbookCompact.
  assert (numbers_ok (compact_json s) = true) as Hn.
  { assert (forall (ls : list (list string)), forallb numbers_ok ((fun a => JArr (JStr <$> a)) <$> ls) = true) as Ha.
    { induction ls as [|l ls IH]; [done|]. rewrite fmap_cons. cbn [forallb]. rewrite IH.
      assert (numbers_ok (JArr (JStr <$> l)) = true) as ->; [|done]. cbn [numbers_ok]. induction l; [done|by cbn]. }
    cbn [compact_json numbers_ok forallb snd]. by rewrite !Ha, !(proj1 (Itoa_number _)). }
  rewrite json_Unmarshal_Marshal by done. cbn [compact_json]. set (m := JObj _).
  change (json_get m "s") with (Some (JStr (csSymbol s))). cbn iota. rewrite Hsym. cbn [mbind option_bind].
  rewrite (compact_number m "sq" (csSequence s) Hseq eq_refl). cbn [mbind option_bind].
  rewrite (compact_number m "t" (time_Unix (csTimestamp s)) Ht eq_refl).
  change (json_get m "b") with (Some (JArr ((fun a => JArr (JStr <$> a)) <$> convertPriceLevelsToArrays (csBids s)))).
  change (json_get m "a") with (Some (JArr ((fun a => JArr (JStr <$> a)) <$> convertPriceLevelsToArrays (csAsks s)))).
  destruct (compact_levels (csBids s)) as (bs & -> & HRb). destruct (compact_levels (csAsks s)) as (as_ & -> & HRa).
  cbn [mbind option_bind]. eexists. split; [reflexivity|]. by split.
Qed.
End theorems.

(** ** Instances *)

Module CacheInstances.
Import Concrete ConcreteServer.

(** The number of nanoseconds as the text of a time. *)
#[export] Instance nano_text : TimeText := {|
  time_MarshalJSON t :=
    if ((- 2 ^ 63 <=? t) && (t <? 2 ^ 63))%Z then inr (Itoa t) else inl (ErrText "year outside of range");
  time_UnmarshalJSON := Atoi;
|}.
#[export] Instance nano_text_spec : TimeTextSpec.
Proof.
  split. intros t s. cbn. destruct (_ && _) eqn:Ht; [|done]. intros Hs. simplify_eq. apply Atoi_Itoa. lia.
Qed.

Definition oc0 : OrderbookCache := NewOrderbookCache None.
Definition level (price qty : Q) (orders : Z) : PriceLevel := mkPriceLevel (price : decimal) (qty : decimal) orders.
Definition book1 : OrderbookSnapshot := mkOrderbookSnapshot "BTC-USD" [level 99 4 2] [level 101 5 1] 0 7.
Definition fresh : rdb := ([], ∅).

Lemma book1_ok : snapshot_ok book1.
Proof. split; [vm_compute; reflexivity| | |done]; repeat constructor; done. Qed.

Definition stored1 : option error * OrderbookSnapshot * rdb := SetOrderbook oc0 0 3 book1 0 fresh.

Lemma stored1_ok : exists s1, stored1 = (None, s1, stored1.2).
Proof.
  assert (bool_decide (stored1.1.1 = None) = true) as Hn by (vm_compute; reflexivity).
  apply bool_decide_eq_true in Hn. exists stored1.1.2. rewrite <- Hn. by destruct stored1 as [[]].
Qed.

Lemma hit1 : (if (GetOrderbook oc0 (4 * second) "BTC-USD" stored1.2).1 then false else true) = true.
Proof. vm_compute. reflexivity. Qed.

Lemma orderbook_cache_round_trip_witness :
  (exists s2, (GetOrderbook oc0 (4 * second) "BTC-USD" stored1.2).1 = inr s2 /\
     same_snapshot s2 (set_csTimestamp book1 3)) /\
  exists e, (GetOrderbook oc0 (5 * second) "BTC-USD" stored1.2).1 = inl e.
Proof.
  destruct stored1_ok as [s1 Hs]. split.
  - destruct (GetOrderbook oc0 (4 * second) "BTC-USD" stored1.2) as [r db2] eqn:Hg.
    destruct (orderbook_cache_round_trip oc0 0 (4 * second) 3 book1 0 fresh s1 stored1.2 r db2 Hs book1_ok
                eq_refl ltac:(done) Hg) as [[e ->]|Hr]; [|exact Hr].
    pose proof hit1 as Hhit. rewrite Hg in Hhit. discriminate Hhit.
  - destruct (GetOrderbook oc0 (5 * second) "BTC-USD" stored1.2) as [r db2] eqn:Hg.
    destruct (orderbook_cache_round_trip oc0 0 (5 * second) 3 book1 0 fresh s1 stored1.2 r db2 Hs book1_ok
                eq_refl ltac:(done) Hg) as [[e ->]|Hr]; [by eexists|]. exists (ErrWrap "orderbook cache miss for BTC-USD"
      (ErrText ("key not found: trading:orderbook:BTC-USD"))). exact Hr.
Defined.

Definition tc0 : TradesCache := NewTradesCache None.
Definition trade (id : string) (price qty : Q) (at_ : Z) : Trade :=
  mkTrade (id : uuid) "BTC-USD" ("b" : uuid) ("s" : uuid) (price : decimal) (qty : decimal) at_ "buy".
Definition t1 : Trade := trade "t1" 100 2 1.
Definition t2 : Trade := trade "t2" 101 2 2.
Definition t3 : Trade := trade "t3" 103 1 3.
Definition append (tr : Trade) (db : rdb) : rdb :=
  default db (snd <$> AppendTrade tc0 0 Z.of_nat tr [2; 5]%Z 0 db).
Definition appended3 : rdb := append t3 (append t2 (append t1 fresh)).




(** Both trades are in the window: (200 + 202) / 4. *)
Lemma vwap_average_witness :
  (0 < quantity_sum (window 0 [t1; t2]))%Q /\ (100 - (1 # 10 ^ 16) <= dval (vwap 0 [t1; t2]) <= 101 + (1 # 10 ^ 16))%Q.
Proof.
  assert (0 < quantity_sum (window 0 [t1; t2]))%Q as Hpos by (vm_compute; reflexivity). split; [exact Hpos|].
  refine (proj2 (proj2 (vwap_average 0 [t1; t2] 100 101 _) Hpos)).
  intros tr Htr. assert (tr = t1 \/ tr = t2) as [->| ->].
  { assert (window 0 [t1; t2] = [t1; t2]) as Hw by (vm_compute; reflexivity). rewrite Hw in Htr.
    apply elem_of_cons in Htr as [?|Htr]; [by left|]. apply list_elem_of_singleton in Htr. by right. }
  - split; [vm_compute; discriminate|]. split; vm_compute; discriminate.
  - split; [vm_compute; discriminate|]. split; vm_compute; discriminate.
Defined.

Lemma compact_round_trip_witness :
  exists s', DeserializeOrderbookCompact (SerializeOrderbookCompact book1) = Some (inr s') /\
    same_snapshot s' (mkOrderbookSnapshot "BTC-USD" [level 99 4 0] [level 101 5 0] 0 7).
Proof. refine (compact_round_trip book1 _ _ _); [vm_compute; reflexivity|done..]. Defined.

Lemma trades_invalidation_witness :
  exists n, forall fuel, n <= fuel -> exists r db',
    InvalidateTrades fuel 0 "BTC-USD" appended3 = Some (r, db') /\
    (r = None -> rview db' 0 !! "trading:trades:BTC-USD:2" = None).
Proof.
  destruct (trades_invalidation 0 "BTC-USD" appended3 eq_refl eq_refl) as [n Hn]. exists n. intros fuel Hf.
  destruct (Hn fuel Hf) as (r & db' & Hi & Hgone & _). exists r, db'. split; [exact Hi|].
  intros Hr. exact (proj1 (Hgone Hr 2%Z)).
Defined.

(** A list of three trades warmed for the limits 1 and 5 keeps one. *)
Example warm_keeps_one :
  (fun r => length (tlTrades r.1.2)) <$>
    warm_limits tc0 0 Z.of_nat 0 (mkTradesList "BTC-USD" [t3; t2; t1] 3 0) [1; 5]%Z (10 * second) fresh = Some 1.
Proof. vm_compute. reflexivity. Qed.
End CacheInstances.
