(* ===== verification/PubSub.v ===== *)
(** * Cache invalidation over publish/subscribe (src/cache/pubsub.go)

    A subscription is what [client.Subscribe] returns with the messages that
    wait for its reader; the goroutines are part of it.  The manager, its
    subscriptions and the server form one state with a step relation: calls of
    the methods, messages that arrive or are lost, and the listening
    goroutines.  A method that holds the mutex is one step; [Stop] is the step
    up to its [wg.Wait].  Log lines are left out.

    Whether a subscription is confirmed and what closing one returns is up to
    the server; a message is delivered at most once. *)

From Stdlib Require Import Ascii String.
From S2P Require Import Prelude.
From S2P Require Import Web.
From S2P Require Import Json.
From S2P Require Import Text.
From S2P Require Import External.
From S2P Require Import Sql.
From S2P Require Import Redis.
From S2P Require Import Cache.

Local Open Scope string_scope.

Record CacheInvalidationMessage := mkCacheInvalidationMessage {
  imType : string;
  imAction : string;
  imSymbol : string;
  imTimestamp : Z;
  imData : option (list (string * json));
}.

Definition OrderbookInvalidationChannel : string := "orderbook:invalidation".
Definition TradesInvalidationChannel : string := "trades:invalidation".
Definition OrderInvalidationChannel : string := "order:invalidation".
Definition GlobalInvalidationChannel : string := "cache:invalidation".

(** PUBLISH. *)
Class RedisPublish `{RedisServer} := {
  redis_publish : Z -> string -> string -> rdb -> option error * rdb;
}.

Section pubsub.
Context `{DecimalPkg, UuidPkg, TimeText, RedisPublish}.

(** ** The JSON form of a message *)

Definition message_enc (msg : CacheInvalidationMessage) : result json :=
  match time_MarshalJSON (imTimestamp msg) with
  | inl err => inl err
  | inr t =>
      inr (JObj ([("type", JStr (imType msg)); ("action", JStr (imAction msg)); ("symbol", JStr (imSymbol msg));
                  ("timestamp", JStr t)]
                 ++ (match imData msg with Some (kv :: m) => [("data", JObj (kv :: m))] | _ => [] end))%list)
  end.

Definition message_field (k : string) (x : json) (msg : CacheInvalidationMessage) : option CacheInvalidationMessage :=
  let '(mkCacheInvalidationMessage ty act sym t data) := msg in
  if same_name k "type" then v ← dec_string ty x; Some (mkCacheInvalidationMessage v act sym t data)
  else if same_name k "action" then v ← dec_string act x; Some (mkCacheInvalidationMessage ty v sym t data)
  else if same_name k "symbol" then v ← dec_string sym x; Some (mkCacheInvalidationMessage ty act v t data)
  else if same_name k "timestamp" then v ← dec_time t x; Some (mkCacheInvalidationMessage ty act sym v data)
  else if same_name k "data" then
    match x with
    | JObj m => Some (mkCacheInvalidationMessage ty act sym t (Some (default [] data ++ m)%list))
    | JNull => Some (mkCacheInvalidationMessage ty act sym t None)
    | _ => None
    end
  else Some msg.
Definition message_dec : json -> option CacheInvalidationMessage :=
  dec_struct message_field (mkCacheInvalidationMessage "" "" "" time_zero None).

(** ** Handlers

    A handler is given the channel and the message; [None] is fuel that ran out
    in a scan of the server. *)

Definition MessageHandler : Type := Z -> string -> CacheInvalidationMessage -> rdb -> option (option error * rdb).

Record Subscription := mkSubscription {
  suChannel : string;
  suOpen : bool;
  suInbox : list string;         (** payloads that wait for the goroutine *)
  suListening : bool;            (** the goroutine runs *)
  suHandler : MessageHandler;
}.

Record PubSubManager := mkPubSubManager {
  psOrderbookCache : OrderbookCache;
  psSubscribers : gmap string nat;     (** positions in the list of subscriptions *)
  psHandlers : gmap string MessageHandler;
  psCancelled : bool;
  psWg : nat;
}.

Definition NewPubSubManager (oc : OrderbookCache) : PubSubManager := mkPubSubManager oc ∅ ∅ false 0.

(** Invalidating is what every known action means. *)
Definition known_action (action : string) : bool :=
  bool_decide (action = "invalidate") || bool_decide (action = "update") || bool_decide (action = "delete").

Definition handleOrderbookInvalidation (oc : OrderbookCache) : MessageHandler := fun now channel msg db =>
  if known_action (imAction msg) then Some (None, InvalidateOrderbook oc now (imSymbol msg) db)
  else Some (Some (ErrText ("unknown action: " ++ imAction msg)), db).

Definition handleTradesInvalidation (fuel : nat) : MessageHandler := fun now channel msg db =>
  if known_action (imAction msg) then InvalidateTrades fuel now (imSymbol msg) db
  else Some (Some (ErrText ("unknown action: " ++ imAction msg)), db).

Definition handleGlobalInvalidation (fuel : nat) (oc : OrderbookCache) : MessageHandler := fun now channel msg db =>
  if bool_decide (imAction msg = "invalidate_all") then
    '(_, db1) ← InvalidateAllOrderbooks fuel oc now db;
    '(_, db2) ← InvalidateAllTrades fuel now db1;
    Some (None, db2)
  else if bool_decide (imAction msg = "flush_all") then Some (rc_FlushDB now db)
  else Some (Some (ErrText ("unknown global action: " ++ imAction msg)), db).

(** ** The manager *)

Record World := mkWorld { wManager : PubSubManager; wSubs : list Subscription; wDb : rdb }.

Definition set_manager (w : World) (m : PubSubManager) : World := mkWorld m (wSubs w) (wDb w).
Definition set_subs (w : World) (subs : list Subscription) : World := mkWorld (wManager w) subs (wDb w).

(** [receive] is the answer to waiting for the confirmation. *)
Definition subscribeToChannel (receive : option error) (channel : string) (handler : MessageHandler) (w : World)
    : option error * World :=
  let pubsub := mkSubscription channel true [] (bool_decide (receive = None)) handler in
  let w1 := set_subs w (wSubs w ++ [pubsub])%list in
  match receive with
  | Some err => (Some (ErrWrap "failed to receive subscription confirmation" err), w1)
  | None =>
      let m := wManager w in
      (None, set_manager w1 (mkPubSubManager (psOrderbookCache m) (<[channel := length (wSubs w)]> (psSubscribers m))
                               (<[channel := handler]> (psHandlers m)) (psCancelled m) (S (psWg m))))
  end.

Definition ps_Start (fuel : nat) (r1 r2 r3 : option error) (w : World) : option error * World :=
  let oc := psOrderbookCache (wManager w) in
  match subscribeToChannel r1 OrderbookInvalidationChannel (handleOrderbookInvalidation oc) w with
  | (Some err, w1) => (Some (ErrWrap "failed to subscribe to orderbook channel" err), w1)
  | (None, w1) =>
      match subscribeToChannel r2 TradesInvalidationChannel (handleTradesInvalidation fuel) w1 with
      | (Some err, w2) => (Some (ErrWrap "failed to subscribe to trades channel" err), w2)
      | (None, w2) =>
          match subscribeToChannel r3 GlobalInvalidationChannel (handleGlobalInvalidation fuel oc) w2 with
          | (Some err, w3) => (Some (ErrWrap "failed to subscribe to global channel" err), w3)
          | (None, w3) => (None, w3)
          end
      end
  end.

Definition close_sub (s : Subscription) : Subscription :=
  mkSubscription (suChannel s) false (suInbox s) (suListening s) (suHandler s).

(** [Stop] up to [wg.Wait]: the context is cancelled and the subscriptions of
    the map are closed. *)
Definition ps_Stop (w : World) : World :=
  let m := wManager w in
  mkWorld (mkPubSubManager (psOrderbookCache m) (psSubscribers m) (psHandlers m) true (psWg m))
    (imap (fun i s => if bool_decide (psSubscribers m !! suChannel s = Some i) then close_sub s else s) (wSubs w)) (wDb w).

Definition SubscribeToCustomChannel (receive : option error) (channel : string) (handler : MessageHandler) (w : World)
    : option error * World :=
  match psSubscribers (wManager w) !! channel with
  | Some _ => (Some (ErrText ("already subscribed to channel: " ++ channel)), w)
  | None => subscribeToChannel receive channel handler w
  end.

Definition UnsubscribeFromChannel (close : option error) (channel : string) (w : World) : option error * World :=
  let m := wManager w in
  match psSubscribers m !! channel with
  | None => (Some (ErrText ("not subscribed to channel: " ++ channel)), w)
  | Some i =>
      let w1 := set_subs w (alter close_sub i (wSubs w)) in
      match close with
      | Some err => (Some (ErrWrap "failed to close subscription" err), w1)
      | None =>
          (None, set_manager w1 (mkPubSubManager (psOrderbookCache m) (delete channel (psSubscribers m))
                                   (delete channel (psHandlers m)) (psCancelled m) (psWg m)))
      end
  end.

(** In the order of the range over the map. *)
Definition GetSubscribedChannels (w : World) : list string := (map_to_list (psSubscribers (wManager w))).*1.

(** ** Publishing *)

Definition deliver_to (channel payload : string) (s : Subscription) : Subscription :=
  if bool_decide (suChannel s = channel) && suOpen s then
    mkSubscription (suChannel s) (suOpen s) (suInbox s ++ [payload])%list (suListening s) (suHandler s)
  else s.

(** A message the server accepted reaches the open subscriptions of its channel. *)
Definition publishMessage (now : Z) (channel : string) (msg : CacheInvalidationMessage) (w : World)
    : option error * World :=
  match message_enc msg with
  | inl err => (Some (ErrWrap "failed to marshal invalidation message" err), w)
  | inr j =>
      match redis_publish now channel (json_Marshal j) (wDb w) with
      | (Some err, db1) =>
          (Some (ErrWrap ("failed to publish message to channel " ++ channel) err), mkWorld (wManager w) (wSubs w) db1)
      | (None, db1) => (None, mkWorld (wManager w) (deliver_to channel (json_Marshal j) <$> wSubs w) db1)
      end
  end.

Definition orderbook_message (t : Z) (symbol action : string) : CacheInvalidationMessage :=
  mkCacheInvalidationMessage "orderbook" action symbol t None.
Definition trades_message (t : Z) (symbol action : string) : CacheInvalidationMessage :=
  mkCacheInvalidationMessage "trades" action symbol t None.
Definition global_message (t : Z) (action : string) : CacheInvalidationMessage :=
  mkCacheInvalidationMessage "global" action "" t None.

Definition PublishOrderbookInvalidation (now t : Z) (symbol action : string) (w : World) : option error * World :=
  publishMessage now OrderbookInvalidationChannel (orderbook_message t symbol action) w.
Definition PublishTradesInvalidation (now t : Z) (symbol action : string) (w : World) : option error * World :=
  publishMessage now TradesInvalidationChannel (trades_message t symbol action) w.
Definition PublishGlobalInvalidation (now t : Z) (action : string) (w : World) : option error * World :=
  publishMessage now GlobalInvalidationChannel (global_message t action) w.

(** *** CacheInvalidator, which holds the manager only *)

Definition ci_InvalidateOrderbook (now t : Z) (symbol : string) (w : World) : option error * World :=
  PublishOrderbookInvalidation now t symbol "invalidate" w.
Definition ci_InvalidateTrades (now t : Z) (symbol : string) (w : World) : option error * World :=
  PublishTradesInvalidation now t symbol "invalidate" w.
Definition ci_InvalidateAll (now t : Z) (w : World) : option error * World :=
  PublishGlobalInvalidation now t "invalidate_all" w.
Definition NotifyOrderbookUpdate (now t : Z) (symbol : string) (w : World) : option error * World :=
  PublishOrderbookInvalidation now t symbol "update" w.
Definition NotifyNewTrade (now t : Z) (symbol : string) (w : World) : option error * World :=
  PublishTradesInvalidation now t symbol "update" w.

Fixpoint BulkInvalidateOrderbooks (now : Z) (clock : nat -> Z) (i : nat) (symbols : list string) (w : World)
    : option error * World :=
  match symbols with
  | [] => (None, w)
  | symbol :: rest =>
      match ci_InvalidateOrderbook now (clock i) symbol w with
      | (Some err, w1) => (Some (ErrWrap ("failed to invalidate orderbook for " ++ symbol) err), w1)
      | (None, w1) => BulkInvalidateOrderbooks now clock (S i) rest w1
      end
  end.
Fixpoint BulkInvalidateTrades (now : Z) (clock : nat -> Z) (i : nat) (symbols : list string) (w : World)
    : option error * World :=
  match symbols with
  | [] => (None, w)
  | symbol :: rest =>
      match ci_InvalidateTrades now (clock i) symbol w with
      | (Some err, w1) => (Some (ErrWrap ("failed to invalidate trades for " ++ symbol) err), w1)
      | (None, w1) => BulkInvalidateTrades now clock (S i) rest w1
      end
  end.

(** ** The goroutines *)

(** One message in [listen]: a payload that does not parse is skipped, and an
    error of the handler is logged. *)
Definition process (now : Z) (channel : string) (handler : MessageHandler) (payload : string) (db : rdb) : option rdb :=
  match json_Unmarshal payload ≫= message_dec with
  | None => Some db
  | Some msg => snd <$> handler now channel msg db
  end.

Definition set_inbox (s : Subscription) (inbox : list string) : Subscription :=
  mkSubscription (suChannel s) (suOpen s) inbox (suListening s) (suHandler s).
Definition end_listen (s : Subscription) : Subscription :=
  mkSubscription (suChannel s) (suOpen s) (suInbox s) false (suHandler s).
Definition wg_Done (m : PubSubManager) : PubSubManager :=
  mkPubSubManager (psOrderbookCache m) (psSubscribers m) (psHandlers m) (psCancelled m) (pred (psWg m)).

(** What the goroutines and the network do by themselves.  A goroutine ends
    when the context is cancelled, or the channel is closed and drained. *)
Inductive listen_step : World -> World -> Prop :=
  | ls_message now w i s payload rest db1 :
      wSubs w !! i = Some s -> suListening s = true -> suInbox s = payload :: rest ->
      process now (suChannel s) (suHandler s) payload (wDb w) = Some db1 ->
      listen_step w (mkWorld (wManager w) (<[i := set_inbox s rest]> (wSubs w)) db1)
  | ls_lost w i s l1 payload l2 :
      wSubs w !! i = Some s -> suInbox s = (l1 ++ payload :: l2)%list ->
      listen_step w (set_subs w (<[i := set_inbox s (l1 ++ l2)%list]> (wSubs w)))
  | ls_return w i s :
      wSubs w !! i = Some s -> suListening s = true ->
      psCancelled (wManager w) = true \/ (suOpen s = false /\ suInbox s = []) ->
      listen_step w (mkWorld (wg_Done (wManager w)) (<[i := end_listen s]> (wSubs w)) (wDb w)).

(** Everything that happens to a manager. *)
Inductive ps_step : World -> World -> Prop :=
  | ps_listen w w' : listen_step w w' -> ps_step w w'
  | ps_start fuel r1 r2 r3 w : ps_step w (ps_Start fuel r1 r2 r3 w).2
  | ps_stop w : ps_step w (ps_Stop w)
  | ps_subscribe r channel handler w : ps_step w (SubscribeToCustomChannel r channel handler w).2
  | ps_unsubscribe close channel w : ps_step w (UnsubscribeFromChannel close channel w).2
  | ps_publish now channel msg w : ps_step w (publishMessage now channel msg w).2
  | ps_other m subs db db' : ps_step (mkWorld m subs db) (mkWorld m subs db').
End pubsub.
