(* ===== verification/PubSubTheorems.v ===== *)
(** * Theorems about cache invalidation over publish/subscribe

    A published message reaches every open subscription and does to the cache
    what it says; the wait group counts the listening goroutines in every
    interleaving; after [Stop] they all end. *)

From Stdlib Require Import Ascii String.
From S2P Require Import Prelude.
From S2P Require Import Web.
From S2P Require Import Json.
From S2P Require Import Text.
From S2P Require Import External.
From S2P Require Import Models.
From S2P Require Import Sql.
From S2P Require Import Redis.
From S2P Require Import RedisFacts.
From S2P Require Import Cache.
From S2P Require Import CacheTheorems.
From S2P Require Import PubSub.

Local Open Scope string_scope.

Section theorems.
Context `{DecimalSpec, UuidSpec, TimeTextSpec, RedisServerSpec, !RedisPublish}.
Implicit Types (w : World) (s : Subscription).

(** ** Messages *)






(** ** The life of the manager *)

Definition listening (subs : list Subscription) : nat := length (filter (fun s => suListening s = true) subs).

Record ps_inv (w : World) : Prop := {
  pi_wg : psWg (wManager w) = listening (wSubs w);
  pi_map channel i : psSubscribers (wManager w) !! channel = Some i ->
    exists s, wSubs w !! i = Some s /\ suChannel s = channel;
}.

Definition is_listening s : nat := if suListening s then 1 else 0.

Lemma listening_sum subs : listening subs = sum_list_with is_listening subs.
Proof.
  unfold listening. induction subs as [|s subs IH]; [done|]. rewrite filter_cons. cbn [sum_list_with]. rewrite <- IH.
  unfold is_listening. destruct (suListening s); by case_decide.
Qed.

Lemma listening_insert subs i s s' : subs !! i = Some s ->
  listening (<[i := s']> subs) + is_listening s = listening subs + is_listening s'.
Proof.
  rewrite !listening_sum. revert i. induction subs as [|x subs IH]; intros [|i] Hi; try done; cbn in Hi |- *.
  - simplify_eq. lia.
  - rewrite <- !Nat.add_assoc. f_equal. exact (IH i Hi).
Qed.

(** A change of the subscriptions that keeps their channels and goroutines. *)
Lemma inv_relabel w m subs db :
  ps_inv w -> psWg m = psWg (wManager w) -> psSubscribers m ⊆ psSubscribers (wManager w) ->
  length subs = length (wSubs w) ->
  (forall i s, wSubs w !! i = Some s -> exists s', subs !! i = Some s' /\ suChannel s' = suChannel s /\ suListening s' = suListening s) ->
  ps_inv (mkWorld m subs db).
Proof.
  intros [Hwg Hmap] Hm Hsub Hlen Hs. split; cbn [wManager wSubs].
  - rewrite Hm, Hwg, !listening_sum. clear -Hs Hlen. generalize dependent subs. induction (wSubs w) as [|x l IH]; intros [|y subs] Hlen Hs; try done.
    destruct (Hs 0 x eq_refl) as (y' & [= ->] & _ & Hl). cbn [sum_list_with]. replace (is_listening y') with (is_listening x) by (unfold is_listening; by rewrite Hl).
    f_equal. apply IH; [by cbn in Hlen; lia|]. intros i s Hi. apply (Hs (S i) s Hi).
  - intros channel i Hi. destruct (Hmap channel i) as (s & Hx & Hc); [by eapply lookup_weaken|].
    destruct (Hs i s Hx) as (s' & Hx' & Hc' & _). exists s'. split; [done|congruence].
Qed.

Lemma inv_subscribe r channel handler w : ps_inv w -> ps_inv (subscribeToChannel r channel handler w).2.
Proof.
  intros [Hwg Hmap]. unfold subscribeToChannel. set (p := mkSubscription _ _ _ _ _).
  assert (forall c i, psSubscribers (wManager w) !! c = Some i -> exists s, (wSubs w ++ [p])%list !! i = Some s /\ suChannel s = c) as Hm.
  { intros c i Hi. destruct (Hmap c i Hi) as (s & Hs & Hc). exists s. split; [by apply lookup_app_l_Some|done]. }
  assert (listening (wSubs w ++ [p]) = listening (wSubs w) + is_listening p) as Hl
    by (rewrite !listening_sum, sum_list_with_app; cbn; lia).
  destruct r as [err|]; cbn [snd].
  - split; cbn [wManager wSubs set_subs]; [|done]. by rewrite Hl, Nat.add_0_r.
  - split; cbn [wManager wSubs set_subs set_manager psWg psSubscribers].
    + rewrite Hl, Hwg. cbn. lia.
    + intros c i [[<- <-]|[_ Hi]]%lookup_insert_Some; [|by apply Hm].
      exists p. split; [by apply list_lookup_middle|done].
Qed.

Lemma inv_listen w w' : ps_inv w -> listen_step w w' -> ps_inv w'.
Proof.
  intros Hinv Hstep.
  assert (forall i s s', wSubs w !! i = Some s -> suChannel s' = suChannel s -> suListening s' = suListening s ->
    forall j x, wSubs w !! j = Some x -> exists x', <[i := s']> (wSubs w) !! j = Some x' /\ suChannel x' = suChannel x /\ suListening x' = suListening x) as Hins.
  { intros i s s' Hi Hc Hl j x Hj. destruct (decide (i = j)) as [->|Hne].
    - exists s'. rewrite list_lookup_insert_eq by (by eapply lookup_lt_Some). by simplify_eq.
    - exists x. by rewrite list_lookup_insert_ne. }
  destruct Hstep as [now w i s payload rest db1 Hi Hl Hin Hp|w i s l1 payload l2 Hi Hin|w i s Hi Hl Hend].
  - apply (inv_relabel w); [done..|by rewrite length_insert|]. by apply (Hins i s).
  - apply (inv_relabel w); [done..|by rewrite length_insert|]. by apply (Hins i s).
  - destruct Hinv as [Hwg Hmap]. split; cbn [wManager wSubs wg_Done psWg psSubscribers].
    + pose proof (listening_insert _ i s (end_listen s) Hi) as Hn. unfold is_listening in Hn. cbn in Hn. rewrite Hl in Hn. lia.
    + intros c j Hj. destruct (Hmap c j Hj) as (x & Hx & Hc). destruct (decide (i = j)) as [->|Hne].
      * exists (end_listen s). rewrite list_lookup_insert_eq by (by eapply lookup_lt_Some). by simplify_eq.
      * exists x. by rewrite list_lookup_insert_ne.
Qed.

Lemma inv_step w w' : ps_inv w -> ps_step w w' -> ps_inv w'.
Proof.
  intros Hinv Hstep. destruct Hstep as [w w' Hl|fuel r1 r2 r3 w|w|r channel handler w|close channel w|now channel msg w|m subs db db'].
  - by eapply inv_listen.
  - unfold ps_Start. set (h1 := handleOrderbookInvalidation _). set (h3 := handleGlobalInvalidation _ _).
    pose proof (inv_subscribe r1 OrderbookInvalidationChannel h1 w Hinv) as Hi1.
    destruct (subscribeToChannel r1 _ h1 w) as [[e1|] w1]; [done|]. cbn [snd] in Hi1.
    pose proof (inv_subscribe r2 TradesInvalidationChannel (handleTradesInvalidation fuel) w1 Hi1) as Hi2.
    destruct (subscribeToChannel r2 _ _ w1) as [[e2|] w2]; [done|]. cbn [snd] in Hi2.
    pose proof (inv_subscribe r3 GlobalInvalidationChannel h3 w2 Hi2) as Hi3.
    by destruct (subscribeToChannel r3 _ h3 w2) as [[e3|] w3].
  - apply (inv_relabel w); [done..|by rewrite length_imap|]. intros i s Hi. eexists. split; [by rewrite list_lookup_imap, Hi|].
    by destruct (bool_decide _).
  - unfold SubscribeToCustomChannel. destruct (_ !! channel); [done|]. by apply inv_subscribe.
  - unfold UnsubscribeFromChannel. destruct (_ !! channel) as [i|] eqn:Hc; [|done].
    assert (forall j x, wSubs w !! j = Some x -> exists x', alter close_sub i (wSubs w) !! j = Some x' /\ suChannel x' = suChannel x /\ suListening x' = suListening x) as Hal.
    { intros j x Hj. destruct (decide (i = j)) as [->|Hne].
      - exists (close_sub x). by rewrite list_lookup_alter_eq, Hj.
      - exists x. by rewrite list_lookup_alter_ne. }
    destruct close as [err|]; apply (inv_relabel w); try done; try apply delete_subseteq; apply length_alter.
  - unfold publishMessage. destruct (message_enc msg) as [|j]; [done|]. destruct (redis_publish _ _ _ _) as [[err|] db1].
    + apply (inv_relabel w); [done..|]. eauto.
    + apply (inv_relabel w); [done..|by rewrite length_fmap|]. intros i s Hi. eexists. split; [by rewrite list_lookup_fmap, Hi|].
      unfold deliver_to. by destruct (_ && _).
  - apply (inv_relabel (mkWorld m subs db)); [done..|]. eauto.
Qed.

Definition fresh_world (oc : OrderbookCache) (db : rdb) : World := mkWorld (NewPubSubManager oc) [] db.

Lemma manager_reachable_inv oc db w : rtc ps_step (fresh_world oc db) w -> ps_inv w.
Proof.
  intros Hr. assert (ps_inv (fresh_world oc db)) as Hinv by (split; [done|]; cbn; intros c i Hi; by rewrite lookup_empty in Hi).
  remember (fresh_world oc db) as w0 eqn:Hw0. clear Hw0. induction Hr; eauto using inv_step.
Qed.

(** Messages that wait and goroutines that run. *)
Definition sub_load s : nat := length (suInbox s) + is_listening s.
Definition load w : nat := sum_list_with sub_load (wSubs w).

Lemma load_insert subs i s s' : subs !! i = Some s -> sub_load s' < sub_load s ->
  sum_list_with sub_load (<[i := s']> subs) < sum_list_with sub_load subs.
Proof.
  revert i. induction subs as [|x subs IH]; intros [|i] Hi Hl; try done; cbn in Hi |- *.
  - simplify_eq. lia.
  - apply Nat.add_lt_mono_l. by apply IH.
Qed.

Lemma listen_step_load w w' : listen_step w w' -> load w' < load w.
Proof.
  unfold load. destruct 1 as [now w i s payload rest db1 Hi Hl Hin _|w i s l1 payload l2 Hi Hin|w i s Hi Hl _];
    cbn [wSubs set_subs]; apply (load_insert _ _ s); try done; unfold sub_load, is_listening;
    cbn [suInbox suListening set_inbox end_listen]; rewrite ?Hl, ?Hin, ?length_app; cbn [length]; lia.
Qed.

Lemma listen_step_cancelled w w' : listen_step w w' -> psCancelled (wManager w') = psCancelled (wManager w).
Proof. by destruct 1. Qed.

(** Stopping a manager ends.  In every state a manager can reach, the wait group
    counts the goroutines that listen and every entry of the map is a
    subscription of its channel; after [Stop], the goroutines take at most as
    many steps as there are messages and goroutines, and when none is left the
    wait group is at zero, so that [Stop] returns. *)
Theorem manager_stops oc db w :
  rtc ps_step (fresh_world oc db) w ->
  ps_inv w /\
  forall n w', nsteps listen_step n (ps_Stop w) w' ->
    n <= load (ps_Stop w) /\ ((forall w'', ~ listen_step w' w'') -> psWg (wManager w') = 0).
Proof.
  intros Hr. pose proof (manager_reachable_inv oc db w Hr) as Hinv. split; [done|]. intros n w' Hn.
  assert (psCancelled (wManager (ps_Stop w)) = true) as Hc by done.
  assert (ps_inv (ps_Stop w)) as Hi by (apply (inv_step w); [done|constructor]).
  remember (ps_Stop w) as w1 eqn:Hw1. clear Hw1 Hr Hinv. induction Hn as [w0|n w0 w1 w2 Hstep Hn IH].
  - split; [lia|]. intros Hstuck. destruct Hi as [Hwg _]. rewrite Hwg. unfold listening.
    destruct (filter (fun s => suListening s = true) (wSubs w0)) as [|s l] eqn:Hf; [done|]. exfalso.
    assert (s ∈ filter (fun s => suListening s = true) (wSubs w0)) as Hs by (rewrite Hf; by left).
    apply list_elem_of_filter in Hs as [Hl Hs]. apply list_elem_of_lookup in Hs as [i Hsi].
    eapply Hstuck, ls_return; eauto.
  - destruct IH as [IHn IHw]; [by rewrite (listen_step_cancelled _ _ Hstep)|by eapply inv_listen|].
    split; [|done]. pose proof (listen_step_load _ _ Hstep). lia.
Qed.

(** Starting a manager a second time subscribes to the channels again: the map
    keeps the new subscriptions, the old ones stay open and listening. *)
Theorem second_start_listens_twice fuel oc db :
  let w := (ps_Start fuel None None None (ps_Start fuel None None None (fresh_world oc db)).2).2 in
  size (psSubscribers (wManager w)) = 3 /\ psWg (wManager w) = 6 /\ Forall (fun s => suOpen s = true /\ suListening s = true) (wSubs w).
Proof. cbn zeta. split; [vm_compute; reflexivity|]. split; [done|]. repeat constructor. Qed.
End theorems.

Module PubSubInstances.
Import Concrete ConcreteServer CacheInstances.

#[export] Instance map_publish : RedisPublish := {| redis_publish _ _ _ db := (None, db) |}.

Definition started : World := (ps_Start 1 None None None (fresh_world oc0 stored1.2)).2.


Lemma manager_stops_witness :
  ps_inv started /\ forall n w', nsteps listen_step n (ps_Stop started) w' -> n <= 3.
Proof.
  destruct (manager_stops oc0 stored1.2 started) as [Hinv Hstop].
  - eapply rtc_l; [apply (ps_start 1 None None None)|apply rtc_refl].
  - split; [exact Hinv|]. intros n w' Hn. exact (proj1 (Hstop n w' Hn)).
Defined.
End PubSubInstances.
