(* ===== verification/CacheMetrics.v ===== *)
(** * Cache metrics (src/cache/metrics.go)

    The counters are atomic, and a call of [RecordHit] and its kind is a
    sequence of atomic steps ([ticks]), between which other goroutines run:
    what the counters hold is stated for every sequence of steps.  The life of
    the collector is a step relation.  The health checker compares float64
    values and formats its messages by hand.

    The comment at the end of the source, which sketches how the caches could
    use the metrics, is not code. *)

From Stdlib Require Import Ascii String.
From S2P Require Import Prelude.
From S2P Require Import Float.
From S2P Require Import Web.
From S2P Require Import Json.
From S2P Require Import Text.

Local Open Scope string_scope.

(** ** Counters *)

Record SymbolMetrics := mkSymbolMetrics {
  smSymbol : string;
  smHits : Z;
  smMisses : Z;
  smInvalidations : Z;
  smLastAccess : Z;
}.

Record CacheMetrics := mkCacheMetrics {
  cmHits : Z;
  cmMisses : Z;
  cmInvalidations : Z;
  cmInvalidationErrors : Z;
  cmLatencySum : Z;
  cmLatencyCount : Z;
  cmStaleHits : Z;
  cmSymbols : gmap string SymbolMetrics;
  cmStartTime : Z;
}.

Definition NewCacheMetrics (now : Z) : CacheMetrics := mkCacheMetrics 0 0 0 0 0 0 0 ∅ now.

(** [sm.Hits.Add(1)] and its kind. *)
Definition sym_RecordHit (now : Z) (sm : SymbolMetrics) : SymbolMetrics :=
  mkSymbolMetrics (smSymbol sm) (wrap64 (smHits sm + 1)) (smMisses sm) (smInvalidations sm) now.
Definition sym_RecordMiss (now : Z) (sm : SymbolMetrics) : SymbolMetrics :=
  mkSymbolMetrics (smSymbol sm) (smHits sm) (wrap64 (smMisses sm + 1)) (smInvalidations sm) now.
Definition sym_RecordInvalidation (sm : SymbolMetrics) : SymbolMetrics :=
  mkSymbolMetrics (smSymbol sm) (smHits sm) (smMisses sm) (wrap64 (smInvalidations sm + 1)) (smLastAccess sm).

(** The atomic steps. *)
Inductive tick :=
  | THit | TMiss | TInvalidation | TInvalidationError | TStaleHit
  | TLatency (micros : Z) | TLatencyCount
  | TCreate (symbol : string) (now : Z)      (** LoadOrStore *)
  | TSymHit (symbol : string) (now : Z)
  | TSymMiss (symbol : string) (now : Z)
  | TSymInvalidation (symbol : string).

Definition set_symbols (cm : CacheMetrics) (m : gmap string SymbolMetrics) : CacheMetrics :=
  mkCacheMetrics (cmHits cm) (cmMisses cm) (cmInvalidations cm) (cmInvalidationErrors cm) (cmLatencySum cm)
    (cmLatencyCount cm) (cmStaleHits cm) m (cmStartTime cm).

Definition run_tick (cm : CacheMetrics) (t : tick) : CacheMetrics :=
  let '(mkCacheMetrics h m i e ls lc st syms start) := cm in
  match t with
  | THit => mkCacheMetrics (wrap64 (h + 1)) m i e ls lc st syms start
  | TMiss => mkCacheMetrics h (wrap64 (m + 1)) i e ls lc st syms start
  | TInvalidation => mkCacheMetrics h m (wrap64 (i + 1)) e ls lc st syms start
  | TInvalidationError => mkCacheMetrics h m i (wrap64 (e + 1)) ls lc st syms start
  | TStaleHit => mkCacheMetrics h m i e ls lc (wrap64 (st + 1)) syms start
  | TLatency d => mkCacheMetrics h m i e (wrap64 (ls + d)) lc st syms start
  | TLatencyCount => mkCacheMetrics h m i e ls (wrap64 (lc + 1)) st syms start
  | TCreate symbol now =>
      match syms !! symbol with
      | Some _ => cm
      | None => set_symbols cm (<[symbol := mkSymbolMetrics symbol 0 0 0 now]> syms)
      end
  | TSymHit symbol now => set_symbols cm (alter (sym_RecordHit now) symbol syms)
  | TSymMiss symbol now => set_symbols cm (alter (sym_RecordMiss now) symbol syms)
  | TSymInvalidation symbol => set_symbols cm (alter sym_RecordInvalidation symbol syms)
  end.
Definition run_ticks (cm : CacheMetrics) (l : list tick) : CacheMetrics := foldl run_tick cm l.

(** [time.Duration.Microseconds]. *)
Definition Microseconds (d : Z) : Z := Z.quot d 1000.


(** ** Statistics *)

Definition ratio (part total : Z) : float64 :=
  if (total =? 0)%Z then 0%Q else f_div (f_of_int part) (f_of_int total).

Definition GetHitRatio (cm : CacheMetrics) : float64 := ratio (cmHits cm) (wrap64 (cmHits cm + cmMisses cm)).
Definition GetStaleRatio (cm : CacheMetrics) : float64 := ratio (cmStaleHits cm) (cmHits cm).

Definition GetAverageLatency (cm : CacheMetrics) : Z :=
  if (cmLatencyCount cm =? 0)%Z then 0%Z
  else wrap64 (Z.quot (cmLatencySum cm) (cmLatencyCount cm) * 1000).

Record SymbolStats := mkSymbolStats {
  ysSymbol : string; ysHits : Z; ysMisses : Z; ysTotal : Z; ysHitRatio : float64; ysHitRatioPercent : float64;
  ysInvalidations : Z; ysLastAccess : Z;
}.

(** A ratio only when the total is positive. *)
Definition positive_ratio (part total : Z) : float64 :=
  if (0 <? total)%Z then f_div (f_of_int part) (f_of_int total) else 0%Q.

Definition sym_GetStats (sm : SymbolMetrics) : SymbolStats :=
  let total := wrap64 (smHits sm + smMisses sm) in
  let hitRatio := positive_ratio (smHits sm) total in
  mkSymbolStats (smSymbol sm) (smHits sm) (smMisses sm) total hitRatio (f_mul hitRatio (f_of_int 100))
    (smInvalidations sm) (smLastAccess sm).

Record CacheStats := mkCacheStats {
  gsHits : Z; gsMisses : Z; gsTotal : Z; gsHitRatio : float64; gsHitRatioPercent : float64;
  gsInvalidations : Z; gsInvalidationErrors : Z; gsStaleHits : Z; gsStaleRatio : float64; gsStaleRatioPercent : float64;
  gsAverageLatencyMicros : Z; gsUptimeSeconds : Z; gsSymbolStats : gmap string SymbolStats;
}.

Definition GetStats (cm : CacheMetrics) (now : Z) : CacheStats :=
  let total := wrap64 (cmHits cm + cmMisses cm) in
  let hitRatio := positive_ratio (cmHits cm) total in
  mkCacheStats (cmHits cm) (cmMisses cm) total hitRatio (f_mul hitRatio (f_of_int 100))
    (cmInvalidations cm) (cmInvalidationErrors cm) (cmStaleHits cm)
    (GetStaleRatio cm) (f_mul (GetStaleRatio cm) (f_of_int 100))
    (Microseconds (GetAverageLatency cm)) (f_trunc (duration_Seconds (now - cmStartTime cm)))
    (sym_GetStats <$> cmSymbols cm).

Definition cm_Reset (now : Z) : CacheMetrics := NewCacheMetrics now.

(** ** The collector *)

Record MetricsCollector := mkMetricsCollector {
  mcInterval : Z;
  mcLoops : nat;             (** goroutines in [run] *)
  mcStopClosed : bool;
  mcDoneClosed : bool;
  mcWaiting : nat;           (** calls of [Stop] that wait for the done channel *)
  mcReports : list CacheStats;
}.
Definition NewMetricsCollector (interval : Z) : MetricsCollector := mkMetricsCollector interval 0 false false 0 [].

(** Calls of the client, and what the goroutines do. *)
Inductive mc_label := LStart | LStop | LRun.

(** [None] is a crash of the process: closing a closed channel, or a ticker
    with an interval that is not positive. *)
Inductive mc_step : option MetricsCollector -> mc_label -> option MetricsCollector -> Prop :=
  | mc_start i n sc dc w r : (0 < i)%Z ->
      mc_step (Some (mkMetricsCollector i n sc dc w r)) LStart (Some (mkMetricsCollector i (S n) sc dc w r))
  | mc_start_panic i n sc dc w r : (i <= 0)%Z ->
      mc_step (Some (mkMetricsCollector i n sc dc w r)) LStart None
  | mc_tick i n sc dc w r cm now :
      mc_step (Some (mkMetricsCollector i (S n) sc dc w r)) LRun
        (Some (mkMetricsCollector i (S n) sc dc w (r ++ [GetStats cm now])))
  | mc_return i n w r :
      mc_step (Some (mkMetricsCollector i (S n) true false w r)) LRun (Some (mkMetricsCollector i n true true w r))
  | mc_return_panic i n w r : mc_step (Some (mkMetricsCollector i (S n) true true w r)) LRun None
  | mc_stop i n dc w r :
      mc_step (Some (mkMetricsCollector i n false dc w r)) LStop (Some (mkMetricsCollector i n true dc (S w) r))
  | mc_stop_panic i n dc w r : mc_step (Some (mkMetricsCollector i n true dc w r)) LStop None
  | mc_stopped i n sc w r :
      mc_step (Some (mkMetricsCollector i n sc true (S w) r)) LRun (Some (mkMetricsCollector i n sc true w r)).

Inductive mc_run : option MetricsCollector -> list mc_label -> option MetricsCollector -> Prop :=
  | mr_nil c : mc_run c [] c
  | mr_step c1 l c2 ls c3 : mc_step c1 l c2 -> mc_run c2 ls c3 -> mc_run c1 (l :: ls) c3.

(** ** Messages *)

(** The loop of [formatInt]; twenty digits are enough for an int64. *)
Fixpoint int_digits (fuel : nat) (i : Z) (s : string) : string :=
  match fuel with
  | 0 => s
  | S fuel' => if (0 <? i)%Z then int_digits fuel' (Z.quot i 10) (String (byte (48 + Z.rem i 10)) s) else s
  end.
Definition formatInt (i : Z) : string :=
  if (i =? 0)%Z then "0"
  else if (i <? 0)%Z then "-" ++ int_digits 20 (wrap64 (- i)) ""
  else int_digits 20 i "".

Fixpoint float_decimals (n : nat) (decPart : float64) (s : string) : string :=
  match n with
  | 0 => s
  | S n' =>
      let decPart := f_mul decPart (f_of_int 10) in
      float_decimals n' decPart (s ++ formatInt (Z.rem (f_trunc decPart) 10))
  end.
Definition formatFloat (f : float64) (decimals : nat) : string :=
  let neg := f_lt f 0%Q in
  let f := if neg then Qopp f else f in
  let intPart := f_trunc f in
  let s := (if neg then "-" else "") ++ formatInt intPart in
  if bool_decide (0 < decimals) then float_decimals decimals (f_sub f (f_of_int intPart)) (s ++ ".") else s.

Fixpoint replaceFirst (s old new : string) : string :=
  match s with
  | "" => ""
  | String c s' =>
      if String.prefix old s then new ++ String.substring (String.length old) (String.length s) s
      else String c (replaceFirst s' old new)
  end.

Inductive arg := AFloat (f : float64) | AInt (i : Z).

Definition formatIssue (format : string) (args : list arg) : string :=
  foldl (fun result a =>
           match a with
           | AFloat v => replaceFirst result "%.1f" (formatFloat v 1)
           | AInt v => replaceFirst result "%d" (formatInt v)
           end) format args.

(** ** The health checker *)

Record CacheHealthChecker := mkCacheHealthChecker {
  chMinHitRatio : float64;
  chMaxStaleRatio : float64;
  chMaxLatencyMicros : Z;
}.
Definition NewCacheHealthChecker : CacheHealthChecker := mkCacheHealthChecker (fround (7 # 10)) (fround (1 # 10)) 5000.
Definition SetThresholds (minHitRatio maxStaleRatio : float64) (maxLatencyMicros : Z) : CacheHealthChecker :=
  mkCacheHealthChecker minHitRatio maxStaleRatio maxLatencyMicros.

(** The issues; the callback is called with each of them. *)
Definition chc_Check (chc : CacheHealthChecker) (stats : CacheStats) : list string :=
  let hundred := f_of_int 100 in
  (if f_lt (gsHitRatio stats) (chMinHitRatio chc) && (100 <? gsTotal stats)%Z then
     [formatIssue "Low cache hit ratio: %.1f%% (threshold: %.1f%%)"
        [AFloat (gsHitRatioPercent stats); AFloat (f_mul (chMinHitRatio chc) hundred)]] else [])
  ++ (if f_lt (chMaxStaleRatio chc) (gsStaleRatio stats) && (100 <? gsHits stats)%Z then
        [formatIssue "High stale data ratio: %.1f%% (threshold: %.1f%%) - Consider shortening TTL"
           [AFloat (gsStaleRatioPercent stats); AFloat (f_mul (chMaxStaleRatio chc) hundred)]] else [])
  ++ (if (chMaxLatencyMicros chc <? gsAverageLatencyMicros stats)%Z && (100 <? gsTotal stats)%Z then
        [formatIssue "High cache latency: %dµs (threshold: %dµs)"
           [AInt (gsAverageLatencyMicros stats); AInt (chMaxLatencyMicros chc)]] else [])
  ++ (if (0 <? gsInvalidationErrors stats)%Z then
        [formatIssue "Cache invalidation errors detected: %d" [AInt (gsInvalidationErrors stats)]] else []).

(** ** Theorems *)

#[local] Instance tick_eq_dec : EqDecision tick.
Proof. solve_decision. Defined.

(** *** Counting *)

Definition total (f : tick -> Z) (l : list tick) : Z := foldr (fun t n => f t + n)%Z 0%Z l.



Definition latency_of (t : tick) : Z := match t with TLatency d => d | _ => 0 end.

(** A counter that every step moves by [f]. *)
Lemma counter_total (get : CacheMetrics -> Z) (f : tick -> Z) cm l :
  (forall cm t, get (run_tick cm t) = wrap64 (get cm + f t) \/ (f t = 0%Z /\ get (run_tick cm t) = get cm)) ->
  wrap64 (get cm) = get cm -> get (run_ticks cm l) = wrap64 (get cm + total f l).
Proof.
  intros Hstep. revert cm. induction l as [|t l IH]; intros cm Hw; cbn [run_ticks foldl total foldr].
  - by rewrite Z.add_0_r.
  - fold (run_ticks (run_tick cm t) l). rewrite IH.
    + fold (total f l). destruct (Hstep cm t) as [->|[-> ->]]; [rewrite wrap64_add|]; f_equal; lia.
    + destruct (Hstep cm t) as [->|[_ ->]]; [|done]. pose proof (wrap64_add (get cm + f t) 0) as Hz.
      by rewrite !Z.add_0_r in Hz.
Qed.

Ltac counter := intros [h m i e ls lc st syms start] [ | | | | |d| |s n|s n|s n|s]; cbn;
  try (destruct (syms !! s)); cbn; try (by left); right; split; reflexivity.

Lemma latency_total cm l : wrap64 (cmLatencySum cm) = cmLatencySum cm ->
  cmLatencySum (run_ticks cm l) = wrap64 (cmLatencySum cm + total latency_of l).
Proof. apply (counter_total cmLatencySum latency_of). counter. Qed.










(** *** Calls *)








(** *** Ratios *)

Lemma f_of_int_small n : (Z.abs n <= 2 ^ 53)%Z -> (f_of_int n == inject_Z n)%Q.
Proof. apply fround_int. Qed.

(** A part of a whole is a float64 between zero and one. *)
Lemma ratio_unit part total : (0 <= part <= total)%Z -> (0 < total)%Z ->
  (0 <= f_div (f_of_int part) (f_of_int total) <= 1)%Q.
Proof.
  intros [Hp Hle] Ht. unfold f_div.
  assert (fround 1 == 1)%Q as H1 by (apply (fround_int 1); lia).
  assert (0 <= f_of_int part)%Q as Ha by (apply fround_nonneg; change 0%Q with (inject_Z 0); by rewrite <- Zle_Qle).
  assert (f_of_int part <= f_of_int total)%Q as Hab by (apply fround_mono; by rewrite <- Zle_Qle).
  assert (1 <= f_of_int total)%Q as Hb.
  { rewrite <- H1. apply fround_mono. change 1%Q with (inject_Z 1). rewrite <- Zle_Qle. lia. }
  generalize dependent (f_of_int part). generalize dependent (f_of_int total). intros b Hb a Ha Hab.
  assert (0 <= a / b <= 1)%Q as [Hl Hu].
  { split; [apply Qle_shift_div_l|apply Qle_shift_div_r]; lra. }
  split; [by apply fround_nonneg|]. rewrite <- H1. by apply fround_mono.
Qed.

(** The counters of a run of fewer than [2 ^ 53] calls. *)
Definition counters_ok (cm : CacheMetrics) : Prop :=
  (0 <= cmMisses cm < 2 ^ 52)%Z /\ (0 <= cmStaleHits cm <= cmHits cm)%Z /\ (cmHits cm < 2 ^ 52)%Z.

Definition exact_ratio (part total : Z) : Q := (inject_Z part / inject_Z total)%Q.

Lemma gs_hit_ratio cm now : counters_ok cm -> (0 < cmHits cm + cmMisses cm)%Z ->
  gsTotal (GetStats cm now) = (cmHits cm + cmMisses cm)%Z /\
  (gsHitRatio (GetStats cm now) == fround (exact_ratio (cmHits cm) (cmHits cm + cmMisses cm)))%Q.
Proof.
  intros (Hm & Hs & Hh) Hpos. unfold GetStats. cbn [gsTotal gsHitRatio]. rewrite wrap64_id by lia. split; [done|].
  unfold positive_ratio. destruct (Z.ltb_spec 0 (cmHits cm + cmMisses cm)); [|lia]. unfold f_div.
  apply fround_proper. by rewrite !f_of_int_small by lia.
Qed.

Lemma gs_stale_ratio cm now : counters_ok cm -> (0 < cmHits cm)%Z ->
  (gsStaleRatio (GetStats cm now) == fround (exact_ratio (cmStaleHits cm) (cmHits cm)))%Q.
Proof.
  intros (Hm & Hs & Hh) Hpos. unfold GetStats, GetStaleRatio, ratio. cbn [gsStaleRatio].
  destruct (Z.eqb_spec (cmHits cm) 0); [lia|]. apply fround_proper. by rewrite !f_of_int_small by lia.
Qed.

(** A silent comparison, in exact numbers up to a millionth. *)
Lemma low_ratio q : f_lt (fround q) (fround (7 # 10)) = false -> ((699999 # 1000000) < q)%Q.
Proof.
  intros Hf. destruct (f_lt_spec (fround q) (fround (7 # 10))) as [|Hge]; [done|].
  destruct (Qlt_le_dec (699999 # 1000000) q) as [|Hle]; [done|]. destruct Hge.
  apply Qle_lt_trans with (fround (699999 # 1000000)); [by apply fround_mono|]. by vm_compute.
Qed.

Lemma high_ratio q : f_lt (fround (1 # 10)) (fround q) = false -> (q < (100001 # 1000000))%Q.
Proof.
  intros Hf. destruct (f_lt_spec (fround (1 # 10)) (fround q)) as [|Hge]; [done|].
  destruct (Qlt_le_dec q (100001 # 1000000)) as [|Hle]; [done|]. destruct Hge.
  apply Qlt_le_trans with (fround (100001 # 1000000)); [by vm_compute|by apply fround_mono].
Qed.

Lemma not_f_lt a b : (b <= a)%Q -> f_lt a b = false.
Proof. intros Hba. destruct (f_lt_spec a b); [lra|done]. Qed.

#[local] Instance f_lt_proper : Proper (Qeq ==> Qeq ==> (=)) f_lt.
Proof.
  intros a b Hab c d Hcd. destruct (f_lt_spec a c), (f_lt_spec b d); try done; exfalso; rewrite Hab, Hcd in *; lra.
Qed.

(** What the default health check says.  It is silent when the hit ratio is at
    least 70 percent, the stale ratio at most 10 percent, the average latency at
    most five milliseconds and no invalidation failed (ratios and latency only
    count from the hundred and first access); and when it is silent this holds
    up to a millionth. *)
Theorem health_check_sound cm now :
  counters_ok cm ->
  let stats := GetStats cm now in
  let total := (cmHits cm + cmMisses cm)%Z in
  let slow := (100 < total /\ 5000 < gsAverageLatencyMicros stats)%Z in
  let issues := chc_Check NewCacheHealthChecker stats in
  (((100 < total)%Z -> (7 # 10) <= exact_ratio (cmHits cm) total)%Q ->
   ((100 < cmHits cm)%Z -> exact_ratio (cmStaleHits cm) (cmHits cm) <= (1 # 10))%Q ->
   ~ slow -> (cmInvalidationErrors cm <= 0)%Z -> issues = []) /\
  (issues = [] ->
   ((100 < total)%Z -> (699999 # 1000000) < exact_ratio (cmHits cm) total)%Q /\
   ((100 < cmHits cm)%Z -> exact_ratio (cmStaleHits cm) (cmHits cm) < (100001 # 1000000))%Q /\
   ~ slow /\ (cmInvalidationErrors cm <= 0)%Z).
Proof.
  intros Hok stats total slow issues.
  assert (gsTotal stats = total) as Htot by (destruct Hok as (? & ? & ?); apply wrap64_id; lia).
  assert (0 < total -> gsHitRatio stats == fround (exact_ratio (cmHits cm) total))%Z%Q as Hhr
    by (intros Hpos; by apply (gs_hit_ratio cm now Hok)).
  assert ((0 < cmHits cm)%Z -> gsStaleRatio stats == fround (exact_ratio (cmStaleHits cm) (cmHits cm)))%Q as Hsr
    by (by apply gs_stale_ratio).
  subst issues. unfold chc_Check. cbn [NewCacheHealthChecker chMinHitRatio chMaxStaleRatio chMaxLatencyMicros].
  rewrite Htot. change (gsHits stats) with (cmHits cm). change (gsInvalidationErrors stats) with (cmInvalidationErrors cm).
  generalize (formatIssue "Low cache hit ratio: %.1f%% (threshold: %.1f%%)"
    [AFloat (gsHitRatioPercent stats); AFloat (f_mul (fround (7 # 10)) (f_of_int 100))]) as low.
  generalize (formatIssue "High stale data ratio: %.1f%% (threshold: %.1f%%) - Consider shortening TTL"
    [AFloat (gsStaleRatioPercent stats); AFloat (f_mul (fround (1 # 10)) (f_of_int 100))]) as stale. intros stale low.
  split.
  - intros Hh Hs Hl He.
    assert (f_lt (gsHitRatio stats) (fround (7 # 10)) && (100 <? total)%Z = false) as ->.
    { destruct (Z.ltb_spec 100 total) as [Ht|]; [|apply andb_false_r]. rewrite Hhr by lia. rewrite andb_true_r.
      apply not_f_lt, fround_mono, Hh, Ht. }
    assert (f_lt (fround (1 # 10)) (gsStaleRatio stats) && (100 <? cmHits cm)%Z = false) as ->.
    { destruct (Z.ltb_spec 100 (cmHits cm)) as [Ht|]; [|apply andb_false_r]. rewrite Hsr by lia. rewrite andb_true_r.
      apply not_f_lt, fround_mono, Hs, Ht. }
    assert ((5000 <? gsAverageLatencyMicros stats)%Z && (100 <? total)%Z = false) as -> by (unfold slow in Hl; lia).
    assert ((0 <? cmInvalidationErrors cm)%Z = false) as -> by lia. done.
  - intros [Hh [Hs [Hl He]%app_nil]%app_nil]%app_nil. split_and!.
    + intros Ht. rewrite (proj2 (Z.ltb_lt 100 total) Ht), andb_true_r, Hhr in Hh by lia.
      destruct (f_lt (fround _) _) eqn:Hf in Hh; [done|]. by apply low_ratio.
    + intros Ht. rewrite (proj2 (Z.ltb_lt 100 (cmHits cm)) Ht), andb_true_r, Hsr in Hs by lia.
      destruct (f_lt _ (fround (exact_ratio _ _))) eqn:Hf in Hs; [done|]. by apply high_ratio.
    + intros [Ht Hlat]. rewrite (proj2 (Z.ltb_lt 100 total) Ht), (proj2 (Z.ltb_lt _ _) Hlat) in Hl. done.
    + destruct (Z.ltb_spec 0 (cmInvalidationErrors cm)); [done|lia].
Qed.

(** *** Formatting *)

Lemma int_digits_print fuel n k s : 0 < n -> n < 10 ^ fuel -> n <= k ->
  int_digits fuel (Z.of_nat n) s = print_digits k n s.
Proof.
  revert n k s. induction fuel as [|fuel IH]; intros n k s Hn Hf Hk; [cbn in Hf; lia|].
  cbn [int_digits]. destruct (Z.ltb_spec 0 (Z.of_nat n)); [|lia].
  assert (Z.quot (Z.of_nat n) 10 = Z.of_nat (n / 10)) as -> by (rewrite Z.quot_div_nonneg by lia; by rewrite Nat2Z.inj_div).
  assert (Z.rem (Z.of_nat n) 10 = Z.of_nat (n mod 10)) as -> by (rewrite Z.rem_mod_nonneg by lia; by rewrite Nat2Z.inj_mod).
  replace (byte (48 + Z.of_nat (n mod 10))) with (chr (48 + n mod 10)) by (unfold byte, chr; f_equal; lia).
  destruct k as [|k]; [lia|]. cbn [print_digits]. case_bool_decide as Hz.
  - rewrite Hz. by destruct fuel.
  - pose proof (Nat.div_lt n 10 Hn ltac:(lia)). apply IH; [lia| |lia].
    apply Nat.Div0.div_lt_upper_bound. rewrite Nat.pow_succ_r' in Hf. lia.
Qed.

(** [formatInt] prints the decimal numeral of every int64 but the least, of
    which it prints the sign. *)
Theorem formatInt_exact i :
  ((- 2 ^ 63 < i < 2 ^ 63)%Z -> formatInt i = Itoa i) /\ formatInt (- 2 ^ 63) = "-".
Proof.
  split; [|vm_compute; reflexivity]. intros Hi.
  assert (forall n, 0 < n -> (Z.of_nat n < 2 ^ 63)%Z -> int_digits 20 (Z.of_nat n) "" = Itoa_nat n) as Hd.
  { intros n Hn Hlt. unfold Itoa_nat. apply int_digits_print; [done| |done].
    apply Nat2Z.inj_lt. rewrite Nat2Z.inj_pow. change (Z.of_nat 10 ^ Z.of_nat 20)%Z with (10 ^ 20)%Z. lia. }
  unfold formatInt, Itoa. destruct (Z.eqb_spec i 0) as [->|Hne]; [done|].
  destruct (Z.ltb_spec i 0) as [Hneg|Hpos].
  - rewrite wrap64_id by lia. rewrite <- (Hd (Z.to_nat (- i))) by lia. by rewrite Z2Nat.id by lia.
  - rewrite <- (Hd (Z.to_nat i)) by lia. by rewrite Z2Nat.id by lia.
Qed.

(** The doubled percent signs of the formats stay in the messages. *)
Example percent_signs :
  formatIssue "Low cache hit ratio: %.1f%% (threshold: %.1f%%)" [AFloat 65%Q; AFloat 70%Q]
  = "Low cache hit ratio: 65.0%% (threshold: 70.0%%)".
Proof. vm_compute. reflexivity. Qed.

(** *** The collector *)

#[local] Instance mc_label_eq_dec : EqDecision mc_label.
Proof. solve_decision. Defined.
Definition count_label (l : mc_label) (ls : list mc_label) : nat := length (filter (fun x => x = l) ls).

(** A collector that can still be started [a] times and stopped [b] times. *)
Definition mc_inv (a b : nat) (c : option MetricsCollector) : Prop :=
  match c with
  | None => False
  | Some (mkMetricsCollector i n sc dc w _) =>
      (0 < i)%Z /\ n + a + (if dc then 1 else 0) <= 1 /\ (dc = true -> sc = true) /\ b + (if sc then 1 else 0) <= 1 /\
      (w <= if sc then 1 else 0)
  end.

Lemma mc_step_inv a b c l c' : mc_step c l c' ->
  mc_inv (match l with LStart => S a | _ => a end) (match l with LStop => S b | _ => b end) c -> mc_inv a b c'.
Proof.
  destruct 1; cbn; intros Hinv; repeat match goal with x : bool |- _ => destruct x end; cbn in *; try lia; intuition (try lia; try discriminate).
Qed.

(** A collector that is started at most once and stopped at most once never
    crashes; once it was both started and stopped, [Stop] can return after the
    goroutine did. *)
Theorem collector_once interval ls c :
  (0 < interval)%Z -> mc_run (Some (NewMetricsCollector interval)) ls c ->
  count_label LStart ls <= 1 -> count_label LStop ls <= 1 ->
  exists mc, c = Some mc /\ mcLoops mc <= 1 /\
    (mcDoneClosed mc = true -> mcLoops mc = 0) /\
    (mcLoops mc = 1 -> mcStopClosed mc = true ->
     mc_step c LRun (Some (mkMetricsCollector (mcInterval mc) 0 true true (mcWaiting mc) (mcReports mc)))).
Proof.
  intros Hpos Hrun Hs Ht.
  assert (mc_inv (count_label LStart ls) (count_label LStop ls) (Some (NewMetricsCollector interval))) as Hinv
    by (cbn; split_and!; lia || done).
  assert (forall c0, mc_inv (count_label LStart ls) (count_label LStop ls) c0 -> mc_run c0 ls c -> mc_inv 0 0 c) as Hend.
  { clear. intros c0 Hinv Hrun. induction Hrun as [c|c1 l c2 ls c3 Hstep _ IH]; [done|]. apply IH.
    eapply mc_step_inv; [done|]. by destruct l. }
  specialize (Hend _ Hinv Hrun). destruct c as [[i n sc dc w r]|]; [|done]. cbn in Hend.
  destruct Hend as (Hi & Hn & Hd & Hb & Hw). eexists. split; [done|]. cbn. split_and!.
  - lia.
  - intros ->. lia.
  - intros -> ->. destruct dc; [lia|]. constructor.
Qed.

(** Two calls of [Start] and one of [Stop]: the second goroutine to return
    closes the done channel again. *)
Theorem collector_started_twice interval :
  (0 < interval)%Z -> mc_run (Some (NewMetricsCollector interval)) [LStart; LStart; LStop; LRun; LRun] None.
Proof.
  intros Hpos. do 2 (eapply mr_step; [by apply mc_start|]). eapply mr_step; [apply mc_stop|].
  eapply mr_step; [apply mc_return|]. eapply mr_step; [apply mc_return_panic|]. apply mr_nil.
Qed.

Module MetricsInstances.





Definition busy : CacheMetrics := mkCacheMetrics 160 40 0 0 0 0 10 ∅ 0.

Lemma health_check_sound_witness : chc_Check NewCacheHealthChecker (GetStats busy 0) = [].
Proof.
  refine (proj1 (health_check_sound busy 0 _) _ _ _ _).
  - split_and!; cbn; lia.
  - intros _. vm_compute. discriminate.
  - intros _. vm_compute. discriminate.
  - intros [_ Hl]. vm_compute in Hl. discriminate Hl.
  - done.
Defined.

Lemma formatInt_exact_witness : formatInt (-120) = "-120".
Proof. exact (proj1 (formatInt_exact (-120)) ltac:(lia)). Defined.

Lemma collector_once_witness :
  exists mc, Some (mkMetricsCollector 60 1 true false 1 []) = Some mc /\
    mc_step (Some mc) LRun (Some (mkMetricsCollector 60 0 true true 1 [])).
Proof.
  destruct (collector_once 60 [LStart; LStop] (Some (mkMetricsCollector 60 1 true false 1 []))) as (mc & Heq & _ & _ & Hs).
  - done.
  - eapply mr_step; [by apply mc_start|]. eapply mr_step; [apply mc_stop|]. apply mr_nil.
  - reflexivity.
  - reflexivity.
  - exists mc. split; [exact Heq|]. injection Heq as <-. apply Hs; reflexivity.
Defined.
End MetricsInstances.
