(* ===== verification/Logging.v ===== *)
(** * Structured logging (src/logging/logger.go)

    The package keeps a logger and a rate limiter of database errors in global
    variables ([Logging]); what is handed to logrus is recorded, in order.  The
    time of a call is an argument.  A nil dereference is [None].

    The theorems: a limiter hands on at most twice its bound in any minute, its
    suppressed counts account for every suppressed error, and a database error
    logged before the logger is initialised panics. *)

From Stdlib Require Import Ascii String.
From S2P Require Import Prelude.
From S2P Require Import Float.
From S2P Require Import Json.
From S2P Require Import External.
From S2P Require Import Sql.

Local Open Scope string_scope.

(** ** The rate limiter of errors *)

Record errorEntry := mkErrorEntry {
  eeCount : Z;
  eeFirstSeen : Z;
  eeLastLogged : Z;
  eeSuppressed : Z;
}.

Record ErrorRateLimiter := mkErrorRateLimiter { errorCounts : gmap string errorEntry }.

Definition rateLimitWindow : Z := (60 * 10 ^ 9)%Z.
Definition maxErrorsPerMin : Z := 5.
Definition cleanupAge : Z := (10 * 60 * 10 ^ 9)%Z.

Definition NewErrorRateLimiter : ErrorRateLimiter := mkErrorRateLimiter ∅.

Definition put (rl : ErrorRateLimiter) (key : string) (e : errorEntry) : ErrorRateLimiter :=
  mkErrorRateLimiter (<[key := e]> (errorCounts rl)).

Definition ShouldLog (now : Z) (rl : ErrorRateLimiter) (errorKey : string) : (bool * Z) * ErrorRateLimiter :=
  match errorCounts rl !! errorKey with
  | None => (true, 0%Z, put rl errorKey (mkErrorEntry 1 now now 0))
  | Some entry =>
      if (rateLimitWindow <? now - eeFirstSeen entry)%Z then
        (true, eeSuppressed entry, put rl errorKey (mkErrorEntry 1 now now 0))
      else
        let count := (eeCount entry + 1)%Z in
        if (count <=? maxErrorsPerMin)%Z then
          (true, 0%Z, put rl errorKey (mkErrorEntry count (eeFirstSeen entry) now (eeSuppressed entry)))
        else
          (false, 0%Z, put rl errorKey (mkErrorEntry count (eeFirstSeen entry) (eeLastLogged entry) (eeSuppressed entry + 1)))
  end.

Definition limiter_cleanup (now : Z) (rl : ErrorRateLimiter) : ErrorRateLimiter :=
  mkErrorRateLimiter (filter (fun ke => ~ (cleanupAge < now - eeLastLogged ke.2)%Z) (errorCounts rl)).

(** ** The logger *)

Inductive Level := DebugLevel | InfoLevel | WarnLevel | ErrorLevel.

Inductive FieldValue :=
  | FString (s : string) | FFloat (x : float64) | FInt (n : Z) | FBool (b : bool) | FStrings (l : list string)
  | FDetails (details : json).

Definition Fields : Type := list (string * FieldValue).

(** A call of a logging method. *)
Record LogCall := mkLogCall { lcLevel : Level; lcMessage : string; lcFields : Fields }.

Record Logging := mkLogging {
  lgLevel : option Level;                   (** the level of the global logger, nil at first *)
  lgLimiter : option ErrorRateLimiter;
  lgCalls : list LogCall;
}.

Definition initial_logging : Logging := mkLogging None None [].

Definition level_String (l : Level) : string :=
  match l with DebugLevel => "debug" | InfoLevel => "info" | WarnLevel => "warning" | ErrorLevel => "error" end.

Definition level_of_env (logLevel : string) : Level :=
  if bool_decide (logLevel = "debug") then DebugLevel
  else if bool_decide (logLevel = "info") then InfoLevel
  else if bool_decide (logLevel = "warn") then WarnLevel
  else if bool_decide (logLevel = "error") then ErrorLevel
  else InfoLevel.

Section logger.
(** The environment variable LOG_LEVEL. *)
Context (env_level : string).

Definition log_call (lg : Logging) (c : LogCall) : Logging :=
  mkLogging (lgLevel lg) (lgLimiter lg) (lgCalls lg ++ [c])%list.

Definition InitLogger (lg : Logging) : Logging :=
  let level := level_of_env env_level in
  log_call (mkLogging (Some level) (Some NewErrorRateLimiter) (lgCalls lg))
    (mkLogCall InfoLevel "Structured logging initialized"
       [("event", FString "logger_initialized"); ("level", FString (level_String level));
        ("rate_limit_enabled", FBool true); ("max_errors_per_min", FInt maxErrorsPerMin)]).

Definition GetLogger (lg : Logging) : Logging :=
  match lgLevel lg with None => InitLogger lg | Some _ => lg end.

(** [GetLogger().WithFields(fields).Info(message)] and its kind. *)
Definition log_at (level : Level) (message : string) (fields : Fields) (lg : Logging) : Logging :=
  log_call (GetLogger lg) (mkLogCall level message fields).

Definition WithCorrelationID (correlationID : string) : Fields := [("correlation_id", FString correlationID)].

(** The field of the variants with a correlation identifier. *)
Definition with_correlation (correlationID : string) (fields : Fields) : Fields :=
  if bool_decide (correlationID = "") then fields else (fields ++ WithCorrelationID correlationID)%list.

Definition LogOrderReceivedWithCorrelation (correlationID orderID clientID instrument side orderType : string)
    (price quantity : float64) : Logging -> Logging :=
  log_at InfoLevel "Order received" (with_correlation correlationID
    [("event", FString "order_received"); ("order_id", FString orderID); ("client_id", FString clientID);
     ("instrument", FString instrument); ("side", FString side); ("type", FString orderType);
     ("price", FFloat price); ("quantity", FFloat quantity)]).
Definition LogOrderReceived := LogOrderReceivedWithCorrelation "".

Definition LogOrderMatchedWithCorrelation (correlationID orderID clientID instrument side : string)
    (filledQty remainingQty : float64) (status : string) : Logging -> Logging :=
  log_at InfoLevel "Order matched" (with_correlation correlationID
    [("event", FString "order_matched"); ("order_id", FString orderID); ("client_id", FString clientID);
     ("instrument", FString instrument); ("side", FString side); ("filled_qty", FFloat filledQty);
     ("remaining_qty", FFloat remainingQty); ("status", FString status)]).
Definition LogOrderMatched := LogOrderMatchedWithCorrelation "".

Definition LogTradeExecutedWithCorrelation (correlationID tradeID buyOrderID sellOrderID instrument : string)
    (price quantity : float64) (buyerClient sellerClient : string) : Logging -> Logging :=
  log_at InfoLevel "Trade executed" (with_correlation correlationID
    [("event", FString "trade_executed"); ("trade_id", FString tradeID); ("buy_order_id", FString buyOrderID);
     ("sell_order_id", FString sellOrderID); ("instrument", FString instrument); ("price", FFloat price);
     ("quantity", FFloat quantity); ("buyer_client", FString buyerClient); ("seller_client", FString sellerClient)]).
Definition LogTradeExecuted := LogTradeExecutedWithCorrelation "".

Definition LogOrderCancelledWithCorrelation (correlationID orderID clientID instrument reason : string)
    : Logging -> Logging :=
  log_at InfoLevel "Order cancelled" (with_correlation correlationID
    [("event", FString "order_cancelled"); ("order_id", FString orderID); ("client_id", FString clientID);
     ("instrument", FString instrument); ("reason", FString reason)]).
Definition LogOrderCancelled := LogOrderCancelledWithCorrelation "".

Definition LogOrderRejectedWithCorrelation (correlationID orderID clientID instrument reason : string) (details : json)
    : Logging -> Logging :=
  log_at WarnLevel "Order rejected" (with_correlation correlationID
    [("event", FString "order_rejected"); ("order_id", FString orderID); ("client_id", FString clientID);
     ("instrument", FString instrument); ("reason", FString reason); ("details", FDetails details)]).
Definition LogOrderRejected := LogOrderRejectedWithCorrelation "".

Definition error_key (operation table : string) (err : error) : string :=
  operation +:+ ":" +:+ table +:+ ":" +:+ err_Error err.

(** [None]: the limiter is nil and its lock is dereferenced. *)
Definition LogDBError (now : Z) (operation table : string) (err : error) (details : json) (lg : Logging)
    : option Logging :=
  match lgLimiter lg with
  | None => None
  | Some rl =>
      let '(should, suppressedCount, rl') := ShouldLog now rl (error_key operation table err) in
      let lg1 := mkLogging (lgLevel lg) (Some rl') (lgCalls lg) in
      if negb should then Some lg1
      else
        Some (log_at ErrorLevel "Database error"
          ([("event", FString "db_error"); ("operation", FString operation); ("table", FString table);
            ("error", FString (err_Error err)); ("details", FDetails details)] ++
           (if (0 <? suppressedCount)%Z then
              [("suppressed_count", FInt suppressedCount);
               ("suppressed_msg", FString (Itoa suppressedCount +:+ " identical errors were suppressed in the last minute"))]
            else []))%list lg1)
  end.

Definition LogDBSuccess (operation table : string) (recordCount : Z) (details : json) : Logging -> Logging :=
  log_at DebugLevel "Database operation successful"
    [("event", FString "db_success"); ("operation", FString operation); ("table", FString table);
     ("record_count", FInt recordCount); ("details", FDetails details)].

Definition LogServerStarted (port : Z) (features : json) : Logging -> Logging :=
  log_at InfoLevel "Trading engine server started"
    [("event", FString "server_started"); ("port", FInt port); ("features", FDetails features)].

Definition LogWebSocketEvent (event clientID : string) (topics : list string) : Logging -> Logging :=
  log_at InfoLevel "WebSocket event"
    [("event", FString event); ("client_id", FString clientID); ("topics", FStrings topics)].

Definition LogSnapshotCreated (snapshotID : Z) (instrument : string) (bidLevels askLevels : Z) (compressed : bool)
    (sizeBytes : Z) : Logging -> Logging :=
  log_at InfoLevel "Snapshot created"
    [("event", FString "snapshot_created"); ("snapshot_id", FInt snapshotID); ("instrument", FString instrument);
     ("bid_levels", FInt bidLevels); ("ask_levels", FInt askLevels); ("compressed", FBool compressed);
     ("size_bytes", FInt sizeBytes)].

Definition LogRecovery (event instrument : string) (ordersRecovered duration : Z) : Logging -> Logging :=
  log_at InfoLevel "Recovery event"
    [("event", FString event); ("instrument", FString instrument); ("orders_recovered", FInt ordersRecovered);
     ("duration_ms", FInt (Z.quot duration (10 ^ 6)))].

Definition LogWithFields (level : Level) (message : string) (fields : Fields) : Logging -> Logging :=
  log_at level message fields.
End logger.

(** ** Runs of the limiter *)

Inductive limiter_op := OShould (now : Z) (key : string) | OCleanup (now : Z).
Definition op_time (op : limiter_op) : Z := match op with OShould now _ | OCleanup now => now end.

(** An answer of [ShouldLog]. *)
Record answer := mkAnswer { anKey : string; anTime : Z; anLogged : bool; anSuppressed : Z }.

Definition limiter_step (rl : ErrorRateLimiter) (op : limiter_op) : list answer * ErrorRateLimiter :=
  match op with
  | OShould now key =>
      let '(should, n, rl') := ShouldLog now rl key in ([mkAnswer key now should n], rl')
  | OCleanup now => ([], limiter_cleanup now rl)
  end.

Fixpoint limiter_run (rl : ErrorRateLimiter) (ops : list limiter_op) : list answer * ErrorRateLimiter :=
  match ops with
  | [] => ([], rl)
  | op :: ops' =>
      let '(a, rl1) := limiter_step rl op in
      let '(l, rl2) := limiter_run rl1 ops' in ((a ++ l)%list, rl2)
  end.

(** The errors of a key that were handed on in the minute from [a]. *)
Definition in_window (a : Z) (t : Z) : bool := ((a <=? t) && (t <=? a + rateLimitWindow))%Z.
Definition logged_times (key : string) (l : list answer) : list Z :=
  anTime <$> filter (fun an => anKey an = key /\ anLogged an = true) l.
Definition logged_within (key : string) (a : Z) (l : list answer) : nat :=
  length (filter (fun t => in_window a t = true) (logged_times key l)).

(** The errors of a key that were held back, reported so far, and not yet. *)
Definition held_back (key : string) (l : list answer) : Z :=
  Z.of_nat (length (filter (fun an => anKey an = key /\ anLogged an = false) l)).
Definition reported (key : string) (l : list answer) : Z :=
  foldr (fun an n => ((if bool_decide (anKey an = key) then anSuppressed an else 0) + n)%Z) 0%Z l.
Definition pending (key : string) (rl : ErrorRateLimiter) : Z :=
  match errorCounts rl !! key with Some e => eeSuppressed e | None => 0%Z end.

(** *** The windows of a key: each starts with an error, holds at most five, and
    they do not overlap *)

Definition window : Type := Z * list Z.
Definition window_ok (w : window) : Prop :=
  Forall (fun t => w.1 <= t <= w.1 + rateLimitWindow)%Z w.2 /\ (Z.of_nat (length w.2) <= maxErrorsPerMin)%Z /\ w.1 ∈ w.2.
Definition apart (w v : window) : Prop := (v.1 + rateLimitWindow < w.1)%Z.

Record windows (key : string) (now : Z) (rl : ErrorRateLimiter) (times : list Z) (ws : list window) : Prop := {
  ws_times : times ≡ₚ ws ≫= snd;
  ws_apart : StronglySorted apart ws;
  ws_ok : Forall window_ok ws;
  ws_entry :
    match errorCounts rl !! key with
    | Some e =>
        exists ts rest, ws = (eeFirstSeen e, ts) :: rest /\ (Z.of_nat (length ts) <= eeCount e)%Z /\
          (eeFirstSeen e <= eeLastLogged e)%Z /\ (eeFirstSeen e <= now)%Z
    | None => Forall (fun w => w.1 + rateLimitWindow < now)%Z ws
    end;
}.

Lemma filter_bind_nil (P : Z -> Prop) `{!forall x, Decision (P x)} (ws : list window) :
  Forall (fun w => Forall (fun t => ~ P t) w.2) ws -> filter P (ws ≫= snd) = [].
Proof.
  induction 1 as [|w ws Hw _ IH]; [done|]. cbn [mbind list_bind]. rewrite filter_app, IH, app_nil_r.
  induction Hw as [|t l Ht _ IHl]; [done|]. by rewrite filter_cons_False.
Qed.

(** Any minute meets at most two windows, and not the start of the first. *)
Lemma windows_bound a ws : StronglySorted apart ws -> Forall window_ok ws ->
  (Z.of_nat (length (filter (fun t => in_window a t = true) (ws ≫= snd))) <= 2 * maxErrorsPerMin - 1)%Z.
Proof.
  intros Hs. induction Hs as [|w ws Hs IH Hw]; intros Hok; [done|]. apply Forall_cons in Hok as [(Hwt & Hwn & _) Hok].
  assert (forall l, (length (filter (fun t => in_window a t = true) l) <= length l)%nat) as Hlen by (intros; apply length_filter).
  cbn [mbind list_bind]. rewrite filter_app, length_app.
  destruct (Z.le_gt_cases w.1 (a + rateLimitWindow)) as [Hle|Hgt].
  - destruct ws as [|v ws]; cbn [mbind list_bind].
    + rewrite filter_nil. cbn. pose proof (Hlen w.2). unfold maxErrorsPerMin in *. lia.
    + rewrite filter_app, filter_bind_nil, app_nil_r.
      * apply Forall_cons in Hok as [(_ & Hvn & Hvs) _]. pose proof (Hlen w.2). apply Forall_cons in Hw as [Hv _].
        assert (length (filter (fun t => in_window a t = true) v.2) < length v.2).
        { apply (length_filter_lt _ v.2 v.1); [done|]. unfold in_window, apart in *. rewrite andb_true_iff, !Z.leb_le. lia. }
        unfold maxErrorsPerMin in *. lia.
      * apply Forall_cons in Hok as [_ Hok]. apply Forall_cons in Hw as [Hv _]. inversion Hs as [|? ? _ Hvs]; subst.
        apply Forall_forall. intros u Hu. rewrite Forall_forall in Hok, Hvs. destruct (Hok u Hu) as (Hut & _ & _).
        pose proof (Hvs u Hu) as Huv. eapply Forall_impl; [exact Hut|]. intros t Ht. cbn in Ht.
        unfold in_window, apart in *. rewrite andb_true_iff, !Z.leb_le. lia.
  - assert (filter (fun t => in_window a t = true) w.2 = []) as ->; [|by apply IH].
    clear -Hwt Hgt. induction Hwt as [|t l Ht _ IHl]; [done|]. rewrite filter_cons_False; [done|].
    unfold in_window. rewrite andb_true_iff, !Z.leb_le. lia.
Qed.

Lemma windows_later key now now' rl times ws : (now <= now')%Z -> windows key now rl times ws -> windows key now' rl times ws.
Proof.
  intros Hle [Ht Ha Hok He]. split; [done..|]. destruct (errorCounts rl !! key) as [e|].
  - destruct He as (ts & rest & ? & ? & ? & ?). exists ts, rest. split_and!; try done. lia.
  - eapply Forall_impl; [exact He|]. intros w Hw. cbn in *. lia.
Qed.

(** A new window. *)
Lemma windows_open key now rl times ws : windows key now rl times ws ->
  Forall (fun w => w.1 + rateLimitWindow < now)%Z ws ->
  windows key now (put rl key (mkErrorEntry 1 now now 0)) (times ++ [now])%list ((now, [now]) :: ws).
Proof.
  intros [Ht Ha Hok _] Hold. split.
  - cbn [mbind list_bind snd app]. rewrite Ht. by rewrite (comm (++)).
  - constructor; [done|]. exact Hold.
  - constructor; [|done]. split_and!; cbn; [|done|left]. repeat constructor; unfold rateLimitWindow; lia.
  - cbn [put errorCounts]. rewrite lookup_insert_eq. cbn. exists [now], ws. split_and!; done || lia.
Qed.

Lemma apart_old (e : errorEntry) now ts rest : (rateLimitWindow < now - eeFirstSeen e)%Z ->
  StronglySorted apart ((eeFirstSeen e, ts) :: rest) -> Forall (fun w => w.1 + rateLimitWindow < now)%Z ((eeFirstSeen e, ts) :: rest).
Proof.
  intros Hnow Hs. inversion Hs as [|? ? _ Hall]; subst. constructor; [cbn; lia|]. eapply Forall_impl; [exact Hall|].
  intros w Hw. unfold apart, rateLimitWindow in *. cbn in *. lia.
Qed.

Lemma should_windows key now0 now rl times ws : (now0 <= now)%Z -> windows key now0 rl times ws ->
  exists ws', windows key now (ShouldLog now rl key).2
    (times ++ if (ShouldLog now rl key).1.1 then [now] else [])%list ws'.
Proof.
  intros Hle Hw%(windows_later _ _ now); [|done]. unfold ShouldLog. pose proof (ws_entry _ _ _ _ _ Hw) as He.
  destruct (errorCounts rl !! key) as [e|] eqn:Hk; [|eexists; by apply windows_open].
  destruct He as (ts & rest & -> & Hn & Hl & Hf). destruct (Z.ltb_spec rateLimitWindow (now - eeFirstSeen e)) as [Hold|Hnew].
  { eexists. cbn [fst snd]. apply windows_open; [done|]. apply apart_old; [done|]. apply Hw. }
  destruct Hw as [Ht Ha Hok _]. apply Forall_cons in Hok as [(Hts & Hlen & Hfst) Hok]. cbn [fst snd] in Hts, Hlen, Hfst. cbn zeta.
  destruct (Z.leb_spec (eeCount e + 1) maxErrorsPerMin) as [Hc|Hc]; cbn [fst snd].
  - exists ((eeFirstSeen e, ts ++ [now])%list :: rest). split.
    + rewrite Ht. cbn [mbind list_bind snd]. rewrite <- !app_assoc. f_equiv. by rewrite (comm (++)).
    + inversion Ha; subst. by constructor.
    + constructor; [|done]. split_and!; cbn [fst snd];
        [|rewrite length_app; cbn; unfold maxErrorsPerMin in *; lia|apply elem_of_app; by left].
      apply Forall_app. split; [done|]. apply Forall_singleton. lia.
    + cbn [put errorCounts]. rewrite lookup_insert_eq. cbn. eexists _, _. split; [done|]. rewrite length_app. cbn.
      split_and!; lia.
  - exists ((eeFirstSeen e, ts) :: rest). rewrite app_nil_r. split; [done..|by repeat constructor|].
    cbn [put errorCounts]. rewrite lookup_insert_eq. cbn. eexists _, _. split; [done|]. split_and!; lia.
Qed.

Lemma cleanup_windows key now0 now rl times ws : (now0 <= now)%Z -> windows key now0 rl times ws ->
  windows key now (limiter_cleanup now rl) times ws.
Proof.
  intros Hle Hw%(windows_later _ _ now); [|done]. pose proof (ws_entry _ _ _ _ _ Hw) as He.
  split; try apply Hw. cbn [limiter_cleanup errorCounts]. destruct (errorCounts rl !! key) as [e|] eqn:Hk.
  - destruct (decide (cleanupAge < now - eeLastLogged e)%Z) as [Hold|Hnew].
    + rewrite map_lookup_filter_None_2 by (right; intros x Hx; simplify_eq; cbn; tauto).
      destruct He as (ts & rest & -> & _ & Hl & _). apply apart_old; [unfold rateLimitWindow, cleanupAge in *; lia|]. apply Hw.
    + rewrite (map_lookup_filter_Some_2 _ _ _ e) by done. done.
  - rewrite map_lookup_filter_None_2 by by left. done.
Qed.

(** Another key's answers do not matter. *)
Lemma should_other now rl key key' : key <> key' -> errorCounts (ShouldLog now rl key').2 !! key = errorCounts rl !! key.
Proof.
  intros Hne. unfold ShouldLog. repeat case_match; cbn [put snd errorCounts]; by rewrite lookup_insert_ne.
Qed.

Lemma windows_same key now rl rl' times ws : errorCounts rl' !! key = errorCounts rl !! key ->
  windows key now rl times ws -> windows key now rl' times ws.
Proof. intros Hk [? ? ? He]. split; [done..|]. by rewrite Hk. Qed.

Lemma logged_times_app key l1 l2 : logged_times key (l1 ++ l2)%list = (logged_times key l1 ++ logged_times key l2)%list.
Proof. unfold logged_times. by rewrite filter_app, fmap_app. Qed.

Lemma logged_times_one key an :
  logged_times key [an] = if bool_decide (anKey an = key) && anLogged an then [anTime an] else [].
Proof.
  unfold logged_times. rewrite filter_cons, filter_nil.
  destruct (decide (anKey an = key /\ anLogged an = true)) as [[-> ->]|Hn]; [by rewrite bool_decide_eq_true_2|].
  case_bool_decide; [|done]. by destruct (anLogged an); [destruct Hn|].
Qed.

Lemma limiter_step_windows key now0 rl op outs ws : (now0 <= op_time op)%Z ->
  windows key now0 rl (logged_times key outs) ws ->
  exists ws', windows key (op_time op) (limiter_step rl op).2 (logged_times key (outs ++ (limiter_step rl op).1)%list) ws'.
Proof.
  intros Hle Hw. destruct op as [now key'|now]; cbn [limiter_step op_time] in *.
  - destruct (decide (key = key')) as [<-|Hne].
    + destruct (should_windows key now0 now rl _ ws Hle Hw) as [ws' Hw']. exists ws'.
      destruct (ShouldLog now rl key) as [[should n] rl']. cbn [fst snd] in *. rewrite logged_times_app, logged_times_one.
      cbn [anKey anLogged anTime]. by rewrite bool_decide_eq_true_2.
    + exists ws. pose proof (should_other now rl key key' Hne) as Hk. destruct (ShouldLog now rl key') as [[should n] rl'].
      cbn [fst snd] in *. rewrite logged_times_app, logged_times_one. cbn [anKey]. rewrite bool_decide_eq_false_2 by done. cbn [andb].
      rewrite app_nil_r.
      eapply windows_same, windows_later; done.
  - exists ws. cbn [fst snd]. rewrite app_nil_r. by eapply cleanup_windows.
Qed.

Lemma limiter_run_windows key ops : forall now0 rl outs ws,
  StronglySorted Z.le (now0 :: (op_time <$> ops)) -> windows key now0 rl (logged_times key outs) ws ->
  exists now ws', windows key now (limiter_run rl ops).2 (logged_times key (outs ++ (limiter_run rl ops).1)%list) ws'.
Proof.
  induction ops as [|op ops IH]; intros now0 rl outs ws Hs Hw; cbn [limiter_run].
  - exists now0, ws. cbn. by rewrite app_nil_r.
  - inversion Hs as [|? ? Hs' Hall]; subst. cbn [fmap list_fmap] in *. apply Forall_cons in Hall as [Hle _].
    destruct (limiter_step_windows key now0 rl op outs ws Hle Hw) as [ws1 Hw1].
    destruct (limiter_step rl op) as [a rl1]. cbn [fst snd] in *. destruct (IH _ _ _ _ Hs' Hw1) as (now & ws' & Hw').
    destruct (limiter_run rl1 ops) as [l rl2]. cbn [fst snd] in *. exists now, ws'. by rewrite app_assoc.
Qed.

(** C36: the limiter bounds the log: whatever errors occur and whenever the cleanup
    runs, with a clock that does not go back, at most nine errors of a key are
    handed on in any minute.  The configured bound is five, but a minute can meet
    two windows. *)
Theorem error_log_bounded ops key a :
  StronglySorted Z.le (op_time <$> ops) ->
  (Z.of_nat (logged_within key a (limiter_run NewErrorRateLimiter ops).1) <= 2 * maxErrorsPerMin - 1)%Z.
Proof.
  intros Hs. set (now0 := match ops with [] => 0%Z | op :: _ => op_time op end).
  destruct (limiter_run_windows key ops now0 NewErrorRateLimiter [] []) as (now & ws & Hw).
  - constructor; [done|]. destruct ops as [|op ops]; [constructor|]. cbn in *. inversion Hs; subst. by constructor.
  - split; [done|constructor..|]. cbn. constructor.
  - unfold logged_within. destruct Hw as [Ht Ha Hok _]. cbn [app] in Ht. rewrite Ht. by apply windows_bound.
Qed.

(** *** Accounting *)

Lemma held_back_cons key an l :
  held_back key (an :: l) = ((if bool_decide (anKey an = key) && negb (anLogged an) then 1 else 0) + held_back key l)%Z.
Proof.
  unfold held_back. rewrite filter_cons. destruct (decide (anKey an = key /\ anLogged an = false)) as [[-> ->]|Hn].
  - rewrite bool_decide_eq_true_2 by done. cbn. lia.
  - case_bool_decide; [|cbn; lia]. destruct (anLogged an); [cbn; lia|by destruct Hn].
Qed.

Lemma should_accounts key key' now rl :
  let '(should, n, rl') := ShouldLog now rl key' in
  ((if bool_decide (key' = key) && negb should then 1 else 0) + pending key rl =
   (if bool_decide (key' = key) then n else 0) + pending key rl')%Z.
Proof.
  destruct (ShouldLog now rl key') as [[should n] rl'] eqn:Hs. case_bool_decide as Hk; cbn [andb].
  - subst key'. unfold ShouldLog in Hs. unfold pending.
    destruct (errorCounts rl !! key) as [e|]; [destruct (_ <? _)%Z; [|cbn zeta in Hs; destruct (_ <=? _)%Z]|];
      simplify_eq; cbn [put errorCounts negb]; rewrite lookup_insert_eq; cbn; lia.
  - pose proof (should_other now rl key key' ltac:(done)) as Ho. rewrite Hs in Ho. cbn in Ho. unfold pending. by rewrite Ho.
Qed.

(** A cleanup can only forget. *)
Lemma cleanup_pending key now rl : (forall k e, errorCounts rl !! k = Some e -> 0 <= eeSuppressed e)%Z ->
  (0 <= pending key (limiter_cleanup now rl) <= pending key rl)%Z.
Proof.
  intros Hpos. unfold pending. cbn [limiter_cleanup errorCounts].
  destruct (filter _ _ !! key) as [e|] eqn:Hf.
  - apply map_lookup_filter_Some in Hf as [He _]. rewrite He. specialize (Hpos _ _ He). lia.
  - destruct (errorCounts rl !! key) as [e|] eqn:He; [|lia]. specialize (Hpos _ _ He). lia.
Qed.

Lemma should_pos now rl key : (forall k e, errorCounts rl !! k = Some e -> 0 <= eeSuppressed e)%Z ->
  forall k e, errorCounts (ShouldLog now rl key).2 !! k = Some e -> (0 <= eeSuppressed e)%Z.
Proof.
  intros Hpos k e. unfold ShouldLog.
  repeat case_match; cbn [snd put errorCounts]; intros [[-> <-]|[_ Hk]]%lookup_insert_Some; cbn; try (by eapply Hpos);
    try lia; specialize (Hpos _ _ ltac:(eassumption)); lia.
Qed.

Definition is_cleanup (op : limiter_op) : bool := match op with OCleanup _ => true | _ => false end.

Lemma limiter_accounts key ops : forall rl, (forall k e, errorCounts rl !! k = Some e -> 0 <= eeSuppressed e)%Z ->
  let '(l, rl') := limiter_run rl ops in
  (0 <= pending key rl' /\ reported key l + pending key rl' <= held_back key l + pending key rl)%Z /\
  (forallb (fun op => negb (is_cleanup op)) ops = true -> reported key l + pending key rl' = held_back key l + pending key rl)%Z.
Proof.
  induction ops as [|op ops IH]; intros rl Hpos; cbn [limiter_run].
  - split; [|done]. unfold reported, held_back. cbn. split; [|lia]. unfold pending.
    destruct (errorCounts rl !! key) eqn:He; [by eapply Hpos|lia].
  - destruct op as [now key'|now]; cbn [limiter_step forallb is_cleanup negb andb].
    + pose proof (should_pos now rl key' Hpos) as Hpos1. pose proof (should_accounts key key' now rl) as Hacc.
      destruct (ShouldLog now rl key') as [[should n] rl1]. specialize (IH rl1 Hpos1).
      destruct (limiter_run rl1 ops) as [l rl2]. cbn [app]. rewrite held_back_cons. cbn [anKey anLogged reported foldr anSuppressed].
      fold (reported key l). destruct IH as [[H0 Hle] Heq]. split; [lia|]. intros Hc. specialize (Heq Hc). lia.
    + assert (forall k e, errorCounts (limiter_cleanup now rl) !! k = Some e -> 0 <= eeSuppressed e)%Z as Hpos1.
      { intros k e [He _]%map_lookup_filter_Some. by eapply Hpos. }
      pose proof (cleanup_pending key now rl Hpos) as Hc. specialize (IH _ Hpos1).
      destruct (limiter_run (limiter_cleanup now rl) ops) as [l rl2]. cbn [app]. destruct IH as [[? ?] ?]. split; [lia|done].
Qed.

(** The suppressed counts are exact: what the log reports as suppressed and what
    the limiter still holds is, without a cleanup, the number of errors that
    were held back, and never more than it. *)
Theorem suppressed_accounted ops key :
  let '(l, rl) := limiter_run NewErrorRateLimiter ops in
  (reported key l + pending key rl <= held_back key l)%Z /\
  (forallb (fun op => negb (is_cleanup op)) ops = true -> reported key l + pending key rl = held_back key l)%Z.
Proof.
  pose proof (limiter_accounts key ops NewErrorRateLimiter ltac:(intros k e Hk; cbn in Hk; by rewrite lookup_empty in Hk)) as Ha.
  destruct (limiter_run _ ops) as [l rl]. change (pending key NewErrorRateLimiter) with 0%Z in Ha.
  destruct Ha as [[? ?] Heq]. split; [lia|]. intros Hc. specialize (Heq Hc). lia.
Qed.

(** *** The logger *)

(** A database error that is the first thing to be logged panics; after any
    other call it is logged or held back. *)
Theorem db_error_needs_logger env now operation table err details level message fields lg :
  LogDBError env now operation table err details initial_logging = None /\
  (lgLevel lg = None \/ is_Some (lgLimiter lg) ->
   is_Some (LogDBError env now operation table err details (log_at env level message fields lg))).
Proof.
  split; [done|]. intros Hlg. assert (is_Some (lgLimiter (log_at env level message fields lg))) as [rl Hrl].
  { unfold log_at, log_call, GetLogger. destruct (lgLevel lg); [|cbn; eauto]. destruct Hlg as [|[rl ->]]; [done|]. cbn. eauto. }
  unfold LogDBError. rewrite Hrl. destruct (ShouldLog _ _ _) as [[[] ?] ?]; cbn; eauto.
Qed.

Module LoggingInstances.
(** Six errors at once, then silence and a cleanup after eleven minutes. *)
Definition burst : list limiter_op := OShould 0 "k" :: ((fun i => OShould i "k") <$> [1; 2; 3; 4; 5]%Z).
Definition minute : Z := (60 * 10 ^ 9)%Z.

Lemma error_log_bounded_witness :
  (Z.of_nat (logged_within "k" 0 (limiter_run NewErrorRateLimiter burst).1) <= 2 * maxErrorsPerMin - 1)%Z.
Proof.
  apply (error_log_bounded burst "k" 0). vm_compute. repeat constructor; discriminate.
Defined.

(** The bound is reached: four at the end of one window, five at the start of
    the next. *)
Example nine_in_a_minute :
  logged_within "k" (minute - 100) (limiter_run NewErrorRateLimiter
    (OShould 0 "k" :: ((fun i => OShould (minute + i) "k") <$> [-5; -4; -3; -2; 1; 2; 3; 4; 5]%Z))).1 = 9.
Proof. vm_compute. reflexivity. Qed.

(** The number of errors that were suppressed is not reported after a cleanup. *)
Example cleanup_forgets :
  let '(l, rl) := limiter_run NewErrorRateLimiter (burst ++ [OCleanup (11 * minute); OShould (12 * minute) "k"])%list in
  held_back "k" l = 1%Z /\ reported "k" l = 0%Z /\ pending "k" rl = 0%Z.
Proof. vm_compute. split_and!; reflexivity. Qed.

Lemma suppressed_accounted_run :
  let '(l, rl) := limiter_run NewErrorRateLimiter (burst ++ [OShould (2 * minute) "k"])%list in
  held_back "k" l = 1%Z /\ reported "k" l = 1%Z.
Proof. vm_compute. split; reflexivity. Qed.
End LoggingInstances.
