(* ===== verification/Profiling.v ===== *)
(** * The query profiler (src/profiling/db_profiler.go)

    Statistics per query text, and the wrapper that times the calls of a
    database.  The wrapped database is a parameter; a call takes the time from
    [start] to [end_].  Ranging over the map visits the entries in some order:
    the functions that do so take the list they visit.  What is printed is the
    list of lines handed to the log package.

    The theorems: the statistics of a query are the count, sum, minimum, maximum
    and truncated mean of its durations, and the sorting loops of [GetStats]
    sort. *)

From Stdlib Require Import Ascii String.
From S2P Require Import Prelude.
From S2P Require Import Json.
From S2P Require Import Text.
From S2P Require Import External.
From S2P Require Import Sql.

Local Open Scope string_scope.

Record QueryStats := mkQueryStats {
  qsQuery : string;
  qsCount : Z;
  qsTotal : Z;
  qsMin : Z;
  qsMax : Z;
  qsAvg : Z;
}.

Record DBProfiler := mkDBProfiler {
  dbpEnabled : bool;
  dbpQueries : gmap string QueryStats;
  dbpSlowLog : Z;
  dbpLines : list string;
}.

Definition NewDBProfiler (slowQueryThreshold : Z) : DBProfiler := mkDBProfiler true ∅ slowQueryThreshold [].

Definition set_enabled (dbp : DBProfiler) (b : bool) : DBProfiler :=
  mkDBProfiler b (dbpQueries dbp) (dbpSlowLog dbp) (dbpLines dbp).
Definition dbp_Enable (dbp : DBProfiler) : DBProfiler := set_enabled dbp true.
Definition dbp_Disable (dbp : DBProfiler) : DBProfiler := set_enabled dbp false.
Definition dbp_IsEnabled (dbp : DBProfiler) : bool := dbpEnabled dbp.

Definition print (dbp : DBProfiler) (lines : list string) : DBProfiler :=
  mkDBProfiler (dbpEnabled dbp) (dbpQueries dbp) (dbpSlowLog dbp) (dbpLines dbp ++ lines)%list.

(** Bytes, not characters. *)
Definition truncateQuery (query : string) (maxLen : nat) : string :=
  if bool_decide (maxLen < String.length query) then prefix_bytes maxLen query +:+ "..." else query.

(** The update of the statistics of a query; the count is not zero, since it
    was just incremented. *)
Definition track (duration : Z) (stats : QueryStats) : QueryStats :=
  let count := wrap64 (qsCount stats + 1) in
  let total := wrap64 (qsTotal stats + duration) in
  mkQueryStats (qsQuery stats) count total
    (if (duration <? qsMin stats)%Z then duration else qsMin stats)
    (if (qsMax stats <? duration)%Z then duration else qsMax stats)
    (Z.quot total count).

(** U+1F40C, a snail. *)
Definition snail : string := utf8 128012.

Definition TrackQuery (query : string) (duration : Z) (dbp : DBProfiler) : DBProfiler :=
  if negb (dbp_IsEnabled dbp) then dbp
  else
    let stats := default (mkQueryStats query 0 0 duration duration 0) (dbpQueries dbp !! query) in
    let dbp1 := mkDBProfiler (dbpEnabled dbp) (<[query := track duration stats]> (dbpQueries dbp)) (dbpSlowLog dbp) (dbpLines dbp) in
    if (dbpSlowLog dbp1 <? duration)%Z then
      print dbp1 [snail +:+ " SLOW QUERY (" +:+ duration_String duration +:+ "): " +:+ truncateQuery query 100]
    else dbp1.

(** The three wrappers have this body: the answer of the database is passed on. *)
Section profiled.
Context {DB Answer : Type}.

Definition profiled (call : string -> DB -> Answer * DB) (query : string) (start end_ : Z) (w : DBProfiler * DB)
    : Answer * (DBProfiler * DB) :=
  let '(profiler, db) := w in
  let '(answer, db') := call query db in
  (answer, (TrackQuery query (end_ - start) profiler, db')).
Definition QueryContext := profiled.
Definition QueryRowContext := profiled.
Definition ExecContext := profiled.
End profiled.

(** ** Reports *)

(** [stats[i], stats[j] = stats[j], stats[i]]. *)
Definition swap (stats : list QueryStats) (i j : nat) : list QueryStats :=
  match stats !! i, stats !! j with
  | Some a, Some b => <[j := a]> (<[i := b]> stats)
  | _, _ => stats
  end.

(** The body of the inner loop. *)
Definition exchange (i : nat) (stats : list QueryStats) (j : nat) : list QueryStats :=
  match stats !! i, stats !! j with
  | Some a, Some b => if (qsTotal a <? qsTotal b)%Z then swap stats i j else stats
  | _, _ => stats
  end.

Definition sort_inner (stats : list QueryStats) (i : nat) : list QueryStats :=
  foldl (exchange i) stats (seq (S i) (length stats - S i)).

Definition sort_loops (stats : list QueryStats) : list QueryStats := foldl sort_inner stats (seq 0 (length stats)).

(** [visited] is what ranging over the map yields. *)
Definition visits_queries (dbp : DBProfiler) (visited : list QueryStats) : Prop :=
  visited ≡ₚ (map_to_list (dbpQueries dbp)).*2.

Definition dbp_GetStats (visited : list QueryStats) : list QueryStats := sort_loops visited.

Definition rule : string :=
  "================================================================================".

Definition stat_lines (i : nat) (s : QueryStats) : list string :=
  ["#" +:+ Itoa (Z.of_nat i + 1) +:+ " Query: " +:+ truncateQuery (qsQuery s) 80;
   "   Count: " +:+ Itoa (qsCount s) +:+ ", Total: " +:+ duration_String (qsTotal s) +:+ ", Avg: " +:+ duration_String (qsAvg s)
     +:+ ", Min: " +:+ duration_String (qsMin s) +:+ ", Max: " +:+ duration_String (qsMax s);
   ""].

Definition dbp_PrintStats (visited : list QueryStats) (dbp : DBProfiler) : DBProfiler :=
  let stats := dbp_GetStats visited in
  let head := [">Database Query Statistics:"; rule] in
  print dbp
    (if bool_decide (length stats = 0) then head ++ ["No queries tracked yet"]
     else head ++ concat (imap stat_lines (take 20 stats)) ++ [rule])%list.

Definition dbp_Reset (dbp : DBProfiler) : DBProfiler :=
  print (mkDBProfiler (dbpEnabled dbp) ∅ (dbpSlowLog dbp) (dbpLines dbp))
    [utf8 128260 +:+ " Database profiler statistics reset"].

Definition GetSlowQueries (threshold : Z) (visited : list QueryStats) : list QueryStats :=
  filter (fun s => threshold < qsAvg s)%Z visited.

(** ** Maintenance statements: [exec] is the database, its errors are logged *)

Section maintenance.
Context {DB : Type} (exec : string -> DB -> option error * DB).

Definition logging_statements : list string :=
  ["ALTER SYSTEM SET log_min_duration_statement = 100"; "SET auto_explain.log_min_duration = 100";
   "SET auto_explain.log_analyze = true"; "SET auto_explain.log_buffers = true"; "SELECT pg_reload_conf()"].

Definition EnablePostgresSQLLogging (db : DB) : option error * list string * DB :=
  let '(lines, db') :=
    foldl (fun (st : list string * DB) query =>
      match exec query st.2 with
      | (Some err, db') => (st.1 ++ ["Warning: Failed to enable PostgreSQL logging: " +:+ err_Error err], db')%list
      | (None, db') => (st.1, db')
      end) ([], db) logging_statements in
  (None, lines ++ ["PostgreSQL query logging enabled (threshold: 100ms)"], db')%list.

(** The name is not quoted. *)
Definition AnalyzeTable (db : DB) (tableName : string) : option error * list string * DB :=
  match exec ("ANALYZE " +:+ tableName) db with
  | (Some err, db') => (Some (ErrWrap ("failed to analyze table " +:+ tableName) err), [], db')
  | (None, db') => (None, ["Analyzed table: " +:+ tableName], db')
  end.
End maintenance.

(** ** Theorems *)

Implicit Types (l : list QueryStats) (i j : nat).

(** *** Sorting *)

(** What one exchange does: the larger total comes first, the rest stays. *)
Lemma exchange_spec l i j a b : i < j -> l !! i = Some a -> l !! j = Some b ->
  exists a' b', (a' = a /\ b' = b \/ a' = b /\ b' = a) /\ (qsTotal b' <= qsTotal a')%Z /\
    exchange i l j = <[j := b']> (<[i := a']> l) /\ exchange i l j ≡ₚ l.
Proof.
  intros Hij Ha Hb. unfold exchange, swap. rewrite Ha, Hb. destruct (Z.ltb_spec (qsTotal a) (qsTotal b)).
  - exists b, a. split_and!; [by right|lia|done|]. by apply Permutation_insert_swap.
  - exists a, b. rewrite (list_insert_id l i), (list_insert_id l j) by done. split_and!; [by left|lia|done..].
Qed.

Definition dominates l i j : Prop :=
  forall a b, l !! i = Some a -> l !! j = Some b -> (qsTotal b <= qsTotal a)%Z.

(** The positions before [i] dominate what follows them, and position [i] the
    [m] positions after it. *)
Definition progress l i m : Prop :=
  (forall k j, k < i -> k < j -> dominates l k j) /\ (forall j, i < j -> j <= i + m -> dominates l i j).

Lemma exchange_progress l i m : i + S m < length l -> progress l i m ->
  exchange i l (i + S m) ≡ₚ l /\ progress (exchange i l (i + S m)) i (S m).
Proof.
  intros Hlen [Hbefore Hi]. set (j := i + S m) in *.
  destruct (lookup_lt_is_Some_2 l i ltac:(lia)) as [a Ha]. destruct (lookup_lt_is_Some_2 l j ltac:(lia)) as [b Hb].
  destruct (exchange_spec l i j a b ltac:(lia) Ha Hb) as (a' & b' & Hab & Hle & -> & Hperm). split; [done|].
  assert (forall k, <[j:=b']> (<[i:=a']> l) !! k = if decide (k = j) then Some b' else if decide (k = i) then Some a' else l !! k)
    as Hlk.
  { intros k. destruct (decide (k = j)) as [->|Hkj].
    - rewrite list_lookup_insert_eq; [done|]. by rewrite length_insert.
    - rewrite list_lookup_insert_ne by done. destruct (decide (k = i)) as [->|Hki].
      + rewrite list_lookup_insert_eq; [done|lia].
      + by rewrite list_lookup_insert_ne. }
  split.
  - intros k j' Hk Hkj x y. rewrite !Hlk. rewrite !(decide_False (P := k = _)) by lia. intros Hx.
    pose proof (Hbefore k i Hk Hk x a Hx Ha). pose proof (Hbefore k j Hk ltac:(lia) x b Hx Hb).
    destruct (decide (j' = j)); [|destruct (decide (j' = i))]; intros Hy; simplify_eq; [naive_solver lia..|].
    by eapply (Hbefore k j').
  - intros j' Hj' Hle' x y. rewrite !Hlk. rewrite (decide_False (P := i = j)), (decide_True (P := i = i)) by (done || lia).
    intros [= <-]. destruct (decide (j' = j)) as [->|Hne]; [by intros [= <-]|]. rewrite decide_False by lia. intros Hy.
    pose proof (Hi j' Hj' ltac:(lia) a y Ha Hy). naive_solver lia.
Qed.

Lemma sort_inner_progress l i : i < length l -> progress l i 0 ->
  sort_inner l i ≡ₚ l /\ progress (sort_inner l i) (S i) 0.
Proof.
  intros Hi Hp.
  enough (forall m, i + m < length l -> foldl (exchange i) l (seq (S i) m) ≡ₚ l /\ progress (foldl (exchange i) l (seq (S i) m)) i m)
    as Hm.
  { destruct (Hm (length l - S i) ltac:(lia)) as [Hperm [Hb Hd]]. split; [done|]. fold (sort_inner l i) in *.
    split; [|intros; lia]. intros k j Hk Hkj. destruct (decide (k = i)) as [->|]; [|apply Hb; lia].
    intros a b Ha Hbj. pose proof (lookup_lt_Some _ _ _ Hbj) as Hlt. rewrite Hperm in Hlt. apply (Hd j); [lia|lia|done|done]. }
  intros m. induction m as [|m IH]; intros Hlen; [done|]. rewrite seq_S, foldl_snoc.
  destruct (IH ltac:(lia)) as [Hperm Hprog]. replace (S i + m) with (i + S m) by lia.
  destruct (exchange_progress (foldl (exchange i) l (seq (S i) m)) i m ltac:(rewrite Hperm; lia) Hprog) as [Hperm' Hprog'].
  split; [|done]. by rewrite Hperm'.
Qed.

Lemma sort_loops_progress l k : k <= length l ->
  foldl sort_inner l (seq 0 k) ≡ₚ l /\ progress (foldl sort_inner l (seq 0 k)) k 0.
Proof.
  induction k as [|k IH]; intros Hk; [split; [done|]; split; intros; lia|]. rewrite seq_S, foldl_snoc. cbn [Nat.add].
  destruct (IH ltac:(lia)) as [Hperm Hprog]. destruct (sort_inner_progress (foldl sort_inner l (seq 0 k)) k ltac:(rewrite Hperm; lia) Hprog) as [Hperm' ?].
  split; [|done]. by rewrite Hperm'.
Qed.

(** [GetStats] reports every query once, by decreasing total duration. *)
Theorem stats_sorted dbp visited :
  visits_queries dbp visited ->
  dbp_GetStats visited ≡ₚ (map_to_list (dbpQueries dbp)).*2 /\
  (forall i j a b, i < j -> dbp_GetStats visited !! i = Some a -> dbp_GetStats visited !! j = Some b ->
    (qsTotal b <= qsTotal a)%Z).
Proof.
  intros Hv. destruct (sort_loops_progress visited (length visited) ltac:(lia)) as [Hperm [Hp _]].
  fold (sort_loops visited) in *. fold (dbp_GetStats visited) in *. split; [by rewrite Hperm|].
  intros i j a b Hij Ha Hb. apply (Hp i j); try done. rewrite <- Hperm. by eapply lookup_lt_Some.
Qed.

(** *** Statistics *)

(** Calls of [TrackQuery] with no other operation between them. *)
Definition track_all (calls : list (string * Z)) (dbp : DBProfiler) : DBProfiler :=
  foldl (fun dbp c => TrackQuery c.1 c.2 dbp) dbp calls.
Definition durations (query : string) (calls : list (string * Z)) : list Z :=
  (filter (fun c => c.1 = query) calls).*2.
Definition sum (ds : list Z) : Z := foldr Z.add 0%Z ds.

(** What the statistics should be. *)
Definition stats_of (query : string) (ds : list Z) : option QueryStats :=
  match ds with
  | [] => None
  | d :: ds' =>
      Some (mkQueryStats query (Z.of_nat (length ds)) (sum ds) (foldl Z.min d ds') (foldl Z.max d ds')
              (Z.quot (sum ds) (Z.of_nat (length ds))))
  end.

Lemma TrackQuery_enabled query d dbp : dbpEnabled (TrackQuery query d dbp) = dbpEnabled dbp.
Proof. unfold TrackQuery, print. by repeat case_match. Qed.

Lemma TrackQuery_lookup query d dbp q : dbpEnabled dbp = true ->
  dbpQueries (TrackQuery query d dbp) !! q =
    if decide (query = q) then Some (track d (default (mkQueryStats query 0 0 d d 0) (dbpQueries dbp !! query)))
    else dbpQueries dbp !! q.
Proof.
  intros He. unfold TrackQuery, dbp_IsEnabled, print. rewrite He. cbn [negb].
  destruct (_ <? _)%Z; cbn [dbpQueries]; destruct (decide (query = q)) as [->|];
    by rewrite ?lookup_insert_eq, ?lookup_insert_ne.
Qed.

Lemma sum_app (l1 l2 : list Z) : sum (l1 ++ l2)%list = (sum l1 + sum l2)%Z.
Proof. induction l1 as [|x l1 IH]; [done|]. cbn [app sum foldr]. fold (sum (l1 ++ l2)%list) (sum l1). lia. Qed.

(** One more duration. *)
Lemma track_stats query ds d : (Z.of_nat (length ds) < 2 ^ 63 - 1)%Z -> (- 2 ^ 63 <= sum ds + d < 2 ^ 63)%Z ->
  Some (track d (default (mkQueryStats query 0 0 d d 0) (stats_of query ds))) = stats_of query (ds ++ [d])%list.
Proof.
  intros Hn Hs. destruct ds as [|d0 ds]; cbn [stats_of default from_option app].
  - unfold track; cbn. unfold sum in Hs; cbn in Hs. rewrite !wrap64_id by lia. rewrite Z.ltb_irrefl.
    unfold sum; cbn. by rewrite Z.add_0_r.
  - unfold track; cbn [id qsQuery qsCount qsTotal qsMin qsMax]. rewrite !wrap64_id by lia.
    rewrite (app_comm_cons ds [d] d0), sum_app, length_app, !foldl_snoc. cbn [length sum foldr].
    replace (Z.of_nat (S (length ds) + 1)) with (Z.of_nat (S (length ds)) + 1)%Z by lia.
    rewrite (Z.add_0_r d). do 2 f_equal.
    + destruct (Z.ltb_spec d (foldl Z.min d0 ds)); lia.
    + destruct (Z.ltb_spec (foldl Z.max d0 ds) d); lia.
Qed.

(** A mean lies between the extremes. *)
Lemma foldl_bounds ds d : (foldl Z.min d ds <= d /\ d <= foldl Z.max d ds)%Z /\
  Forall (fun x => foldl Z.min d ds <= x <= foldl Z.max d ds)%Z ds.
Proof.
  revert d. induction ds as [|x ds IH]; intros d; [split; [done|constructor]|]. cbn [foldl].
  destruct (IH (Z.min d x)) as [[Hmin _] Hall1]. destruct (IH (Z.max d x)) as [[_ Hmax] Hall2].
  split; [lia|]. constructor; [lia|]. apply Forall_forall. intros y Hy. rewrite Forall_forall in Hall1, Hall2.
  specialize (Hall1 y Hy). specialize (Hall2 y Hy). lia.
Qed.

Lemma sum_bounds ds lo hi : Forall (fun x => lo <= x <= hi)%Z ds ->
  (lo * Z.of_nat (length ds) <= sum ds <= hi * Z.of_nat (length ds))%Z.
Proof.
  induction 1 as [|x ds Hx _ IH]; [cbn; lia|]. change (sum (x :: ds)) with (x + sum ds)%Z. cbn [length].
  rewrite Nat2Z.inj_succ. nia.
Qed.

Lemma quot_between s n lo hi : (0 < n)%Z -> (lo * n <= s <= hi * n)%Z -> (lo <= Z.quot s n <= hi)%Z.
Proof.
  intros Hn Hs. pose proof (Z.quot_rem' s n) as Heq. pose proof (Z.rem_bound_abs s n ltac:(lia)) as Hr.
  rewrite (Z.abs_eq n) in Hr by lia. apply Z.abs_lt in Hr. revert Heq Hr. generalize (Z.quot s n) (Z.rem s n).
  intros q r -> Hr. split; apply Z.lt_succ_r, (Z.mul_lt_mono_pos_r n); nia.
Qed.

Lemma average_within query ds s : stats_of query ds = Some s -> (qsMin s <= qsAvg s <= qsMax s)%Z.
Proof.
  destruct ds as [|d ds]; [done|]. cbn [stats_of]. intros [= <-]. cbn [qsMin qsAvg qsMax].
  destruct (foldl_bounds ds d) as [[Hlo Hhi] Hall].
  pose proof (sum_bounds (d :: ds) (foldl Z.min d ds) (foldl Z.max d ds) ltac:(constructor; [lia|exact Hall])) as [Hs1 Hs2].
  apply quot_between; [cbn [length]; lia|done].
Qed.

Lemma track_all_stats calls threshold query :
  (Z.of_nat (length calls) < 2 ^ 63)%Z ->
  (forall n, - 2 ^ 63 <= sum (take n (durations query calls)) < 2 ^ 63)%Z ->
  dbpQueries (track_all calls (NewDBProfiler threshold)) !! query = stats_of query (durations query calls).
Proof.
  set (P := fun calls => dbpEnabled (track_all calls (NewDBProfiler threshold)) = true /\
    ((Z.of_nat (length calls) < 2 ^ 63)%Z -> (forall n, - 2 ^ 63 <= sum (take n (durations query calls)) < 2 ^ 63)%Z ->
     dbpQueries (track_all calls (NewDBProfiler threshold)) !! query = stats_of query (durations query calls))).
  enough (P calls) as [_ HP] by exact HP. induction calls as [|[q d] calls [He IH]] using rev_ind; [done|].
  unfold P, track_all in *. rewrite foldl_snoc. cbn [fst snd]. rewrite TrackQuery_enabled, TrackQuery_lookup by done.
  split; [done|]. rewrite length_app. intros Hlen. unfold durations. rewrite filter_app, filter_cons, filter_nil. cbn [fst].
  destruct (decide (q = query)) as [->|]; [|rewrite app_nil_r; apply IH; cbn in Hlen; lia].
  rewrite fmap_app. fold (durations query calls). cbn [fmap list_fmap snd]. intros Hs.
  assert (length (durations query calls) <= length calls) as Hle.
  { unfold durations. rewrite length_fmap. apply length_filter. }
  rewrite IH.
  - apply track_stats; [cbn in Hlen; lia|]. specialize (Hs (length (durations query calls ++ [d])%list)).
    rewrite take_ge, sum_app in Hs by done. unfold sum in Hs at 2; cbn in Hs. lia.
  - cbn in Hlen; lia.
  - intros n. destruct (decide (n <= length (durations query calls))) as [Hn|Hn].
    + specialize (Hs n). by rewrite take_app_le in Hs.
    + specialize (Hs (length (durations query calls))). rewrite take_app_length in Hs. by rewrite take_ge by lia.
Qed.

(** The statistics of every query are exact while its durations sum up within
    64 bits: how often it ran, the total, the shortest and the longest time, and
    the mean, which lies between them. *)
Theorem query_stats_exact calls threshold query :
  (Z.of_nat (length calls) < 2 ^ 63)%Z ->
  (forall n, - 2 ^ 63 <= sum (take n (durations query calls)) < 2 ^ 63)%Z ->
  dbpQueries (track_all calls (NewDBProfiler threshold)) !! query = stats_of query (durations query calls) /\
  (forall s, dbpQueries (track_all calls (NewDBProfiler threshold)) !! query = Some s -> qsMin s <= qsAvg s <= qsMax s)%Z.
Proof.
  intros Hlen Hsum. rewrite track_all_stats by done. split; [done|]. apply average_within.
Qed.

Module ProfilingInstances.
Definition calls1 : list (string * Z) :=
  [("SELECT 1", 30%Z); ("UPDATE orders", 500%Z); ("SELECT 1", 7%Z); ("COMMIT", 100%Z); ("SELECT 1", 40%Z)].
Definition dbp1 : DBProfiler := track_all calls1 (NewDBProfiler 200).

Lemma query_stats_exact_witness :
  dbpQueries dbp1 !! "SELECT 1" = Some (mkQueryStats "SELECT 1" 3 77 7 40 25) /\
  (forall s, dbpQueries dbp1 !! "SELECT 1" = Some s -> qsMin s <= qsAvg s <= qsMax s)%Z.
Proof.
  apply (query_stats_exact calls1 200 "SELECT 1"); [done|].
  intros [|[|[|n]]]; [vm_compute; split; congruence..|]. change (durations "SELECT 1" calls1) with [30; 7; 40]%Z.
  cbn [take]. rewrite take_nil. vm_compute. split; congruence.
Defined.

Definition visited1 : list QueryStats := (map_to_list (dbpQueries dbp1)).*2.

Lemma stats_sorted_witness :
  dbp_GetStats visited1 ≡ₚ visited1 /\
  (forall i j a b, i < j -> dbp_GetStats visited1 !! i = Some a -> dbp_GetStats visited1 !! j = Some b ->
    (qsTotal b <= qsTotal a)%Z).
Proof. apply (stats_sorted dbp1 visited1). unfold visits_queries, visited1. reflexivity. Defined.

Example totals_descend : qsTotal <$> dbp_GetStats visited1 = [500; 100; 77]%Z.
Proof. vm_compute. reflexivity. Qed.
Example slow_query_logged : length (dbpLines dbp1) = 1.
Proof. vm_compute. reflexivity. Qed.
End ProfilingInstances.
