(* ===== verification/Prometheus.v ===== *)
(** * Exported metrics (src/metrics/prometheus.go)

    The functions call the Prometheus client on the vectors the package
    declares.  A call is a value ([MetricOp]); what the documentation of the
    client says of it is [counter] (a sum), [gauge] (the value set last) and
    [observations].  The engine's effects of Matching.v that concern gauges are
    translated into the calls [updateOrderbookMetrics] makes.

    The theorems: the depth and price gauges show the book after every update,
    except that a side that became empty keeps its last price, and with it the
    spread; the counters count. *)

From Stdlib Require Import Ascii String.
From S2P Require Import Prelude.
From S2P Require Import Float.
From S2P Require Import External.
From S2P Require Import Models.
From S2P Require Import OrderBook.
From S2P Require Import Events.
From S2P Require Import Matching.
From S2P Require Import MatchingTheorems.

Local Open Scope string_scope.

(** ** The vectors *)

Inductive Metric :=
  | OrdersReceivedTotal | OrdersMatchedTotal | OrdersRejectedTotal | OrderLatencySeconds | CurrentOrderbookDepth
  | BestBidPrice | BestAskPrice | TradesExecutedTotal | TradedVolumeTotal | OrderbookSpread | TradeSizeDistribution.

#[global] Instance Metric_eq_dec : EqDecision Metric.
Proof. solve_decision. Defined.

Inductive MetricOp :=
  | OpAdd (m : Metric) (labels : list string) (x : float64)
  | OpSet (m : Metric) (labels : list string) (x : float64)
  | OpObserve (m : Metric) (labels : list string) (x : float64).

(** [Inc] is [Add(1)]. *)
Definition OpInc (m : Metric) (labels : list string) : MetricOp := OpAdd m labels 1%Q.

Definition counter (m : Metric) (labels : list string) (ops : list MetricOp) : Q :=
  foldr (fun op s => match op with
                     | OpAdd m' l x => (if bool_decide (m' = m /\ l = labels) then x + s else s)%Q
                     | _ => s
                     end) 0%Q ops.
Definition gauge (m : Metric) (labels : list string) (ops : list MetricOp) : option float64 :=
  foldl (fun g op => match op with
                     | OpSet m' l x => if bool_decide (m' = m /\ l = labels) then Some x else g
                     | _ => g
                     end) None ops.
Definition observations (m : Metric) (labels : list string) (ops : list MetricOp) : list float64 :=
  omap (fun op => match op with
                  | OpObserve m' l x => if bool_decide (m' = m /\ l = labels) then Some x else None
                  | _ => None
                  end) ops.

(** ** The functions *)

Definition RecordOrderReceived (instrument side orderType : string) : list MetricOp :=
  [OpInc OrdersReceivedTotal [instrument; side; orderType]].
Definition RecordOrderMatched (instrument side : string) : list MetricOp := [OpInc OrdersMatchedTotal [instrument; side]].
Definition RecordOrderRejected (instrument reason : string) : list MetricOp := [OpInc OrdersRejectedTotal [instrument; reason]].
Definition RecordOrderLatency (instrument orderType : string) (seconds : float64) : list MetricOp :=
  [OpObserve OrderLatencySeconds [instrument; orderType] seconds].
Definition UpdateOrderbookDepth (instrument side : string) (depth : float64) : list MetricOp :=
  [OpSet CurrentOrderbookDepth [instrument; side] depth].

Definition UpdateBestPrices (instrument : string) (bestBid bestAsk : float64) : list MetricOp :=
  ((if f_lt 0%Q bestBid then [OpSet BestBidPrice [instrument] bestBid] else []) ++
   (if f_lt 0%Q bestAsk then [OpSet BestAskPrice [instrument] bestAsk] else []) ++
   (if f_lt 0%Q bestBid && f_lt 0%Q bestAsk then [OpSet OrderbookSpread [instrument] (f_sub bestAsk bestBid)] else []))%list.

Definition RecordTrade (instrument : string) (quantity : float64) : list MetricOp :=
  [OpInc TradesExecutedTotal [instrument]; OpAdd TradedVolumeTotal [instrument] quantity;
   OpObserve TradeSizeDistribution [instrument] quantity].

(** ** The effects of the engine *)

Section engine.
Context `{DecimalPkg, !DecimalFloat, UuidPkg, BTreePkg}.

(** A missing price is passed as 0. *)
Definition price_or_zero (p : option decimal) : float64 :=
  match p with Some p => decimal_InexactFloat64 p | None => 0%Q end.

Definition metric_calls (fx : Effect) : list MetricOp :=
  match fx with
  | GaugeDepth instrument side depth => UpdateOrderbookDepth instrument side (f_of_int (Z.of_nat depth))
  | GaugeBestPrices instrument bid ask => UpdateBestPrices instrument (price_or_zero bid) (price_or_zero ask)
  | _ => []
  end.

(** The calls the engine has made. *)
Definition exported (me : MatchingEngine) : list MetricOp := output me ≫= metric_calls.

(** ** Theorems *)

Lemma gauge_app m labels l1 l2 :
  gauge m labels (l1 ++ l2)%list = match gauge m labels l2 with Some x => Some x | None => gauge m labels l1 end.
Proof.
  induction l2 as [|op l2 IH] using rev_ind; [by rewrite app_nil_r|].
  unfold gauge in *. rewrite app_assoc, !foldl_snoc. destruct op; try done. by case_bool_decide.
Qed.

Lemma exported_update me instrument :
  let s := heap me in let ob := orderBook me in
  exported (updateOrderbookMetrics me instrument) =
    (exported me ++ UpdateOrderbookDepth instrument "buy" (f_of_int (Z.of_nat (GetBidDepth s ob))) ++
     UpdateOrderbookDepth instrument "sell" (f_of_int (Z.of_nat (GetAskDepth s ob))) ++
     UpdateBestPrices instrument (price_or_zero (GetBestBidPrice s ob)) (price_or_zero (GetBestAskPrice s ob)))%list.
Proof.
  cbn zeta. unfold updateOrderbookMetrics, exported, emit. cbn [output set_output]. rewrite bind_app.
  cbn [mbind list_bind metric_calls]. by rewrite app_nil_r.
Qed.

(** The gauges of a set of prices: the new price, or the old one when the price
    is missing. *)
Definition shown (p : option decimal) (old : option float64) : option float64 :=
  if f_lt 0%Q (price_or_zero p) then Some (price_or_zero p) else old.

(** After every update the depth gauges show the depth of both sides, and the
    price gauges the best prices; a side that is empty, or whose best price is
    not positive, leaves its gauge at the value shown before, and the spread is
    only set when both prices are. *)
Theorem gauges_show_book me instrument :
  let s := heap me in let ob := orderBook me in
  let ops := exported (updateOrderbookMetrics me instrument) in
  gauge CurrentOrderbookDepth [instrument; "buy"] ops = Some (f_of_int (Z.of_nat (GetBidDepth s ob))) /\
  gauge CurrentOrderbookDepth [instrument; "sell"] ops = Some (f_of_int (Z.of_nat (GetAskDepth s ob))) /\
  gauge BestBidPrice [instrument] ops = shown (GetBestBidPrice s ob) (gauge BestBidPrice [instrument] (exported me)) /\
  gauge BestAskPrice [instrument] ops = shown (GetBestAskPrice s ob) (gauge BestAskPrice [instrument] (exported me)) /\
  gauge OrderbookSpread [instrument] ops =
    if f_lt 0%Q (price_or_zero (GetBestBidPrice s ob)) && f_lt 0%Q (price_or_zero (GetBestAskPrice s ob))
    then Some (f_sub (price_or_zero (GetBestAskPrice s ob)) (price_or_zero (GetBestBidPrice s ob)))
    else gauge OrderbookSpread [instrument] (exported me).
Proof.
  cbn zeta. rewrite exported_update. unfold shown, UpdateBestPrices, UpdateOrderbookDepth. rewrite !gauge_app.
  unfold gauge at 1 2 3 4 5 6 7 8 9 10 11 12 13 14 15 16 17 18 19 20.
  destruct (f_lt 0%Q (price_or_zero (GetBestBidPrice _ _))), (f_lt 0%Q (price_or_zero (GetBestAskPrice _ _)));
    cbn; repeat (rewrite ?bool_decide_eq_true_2 by done; rewrite ?bool_decide_eq_false_2 by naive_solver); done.
Qed.

Lemma counter_app m labels l1 l2 : (counter m labels (l1 ++ l2)%list == counter m labels l1 + counter m labels l2)%Q.
Proof.
  induction l1 as [|op l1 IH]; cbn [app]; [unfold counter at 2; cbn; ring|].
  unfold counter in *. cbn [foldr]. destruct op; try done. case_bool_decide; [|done]. rewrite IH. ring.
Qed.

Lemma counter_trade instrument q :
  (counter TradesExecutedTotal [instrument] (RecordTrade instrument q) == inject_Z 1)%Q /\
  (counter TradedVolumeTotal [instrument] (RecordTrade instrument q) == q)%Q.
Proof.
  unfold counter, RecordTrade, OpInc. cbn [foldr].
  rewrite (bool_decide_eq_true_2 (TradesExecutedTotal = TradesExecutedTotal /\ [instrument] = [instrument])),
    (bool_decide_eq_true_2 (TradedVolumeTotal = TradedVolumeTotal /\ [instrument] = [instrument])),
    !bool_decide_eq_false_2 by (done || by intros [? _]).
  split; ring.
Qed.

(** The trade counters: the number of trades of an instrument, their volume, and
    every quantity observed once. *)
Theorem trades_counted instrument (quantities : list float64) :
  let ops := quantities ≫= RecordTrade instrument in
  (counter TradesExecutedTotal [instrument] ops == inject_Z (Z.of_nat (length quantities)))%Q /\
  (counter TradedVolumeTotal [instrument] ops == foldr Qplus 0 quantities)%Q /\
  observations TradeSizeDistribution [instrument] ops = quantities.
Proof.
  cbn zeta. induction quantities as [|q l (IH1 & IH2 & IH3)]; [done|]. cbn [mbind list_bind].
  split_and!.
  - rewrite counter_app, IH1. cbn [length]. rewrite Nat2Z.inj_succ, <- Z.add_1_l, inject_Z_plus.
    rewrite (proj1 (counter_trade instrument q)). reflexivity.
  - rewrite counter_app, IH2, (proj2 (counter_trade instrument q)). reflexivity.
  - unfold observations in *. rewrite omap_app, IH3. cbn. by rewrite bool_decide_eq_true_2.
Qed.
End engine.

Module PrometheusInstances.
Import Concrete Demo.

(** A sell order rests at 101 and is bought: the side is empty, its gauge is
    not. *)
Definition sold_out : MatchingEngine := submit engine1 (limit "b9" "buy" 101 5).

Example empty_side_keeps_price :
  GetBestAskPrice (heap sold_out) (orderBook sold_out) = None /\
  GetAskDepth (heap sold_out) (orderBook sold_out) = 0 /\
  match gauge BestAskPrice ["BTC-USD"] (exported sold_out) with Some x => Qeq_bool x 101 = true | None => False end.
Proof. vm_compute. split_and!; reflexivity. Qed.
End PrometheusInstances.
